(** * Ollama library scraper: a shallow embedding of [src/ollama-scraper.ts]

    The scraper fetches a page of ollama.com, loads it with cheerio and
    recovers typed records from the text of the page with regular
    expressions.  The development below embeds

    - JavaScript strings, as sequences of UTF-16 code units;
    - the regular expressions of the source, with a backtracking matcher that
      follows the matcher of the ECMAScript specification (continuations,
      priorities of alternatives, greedy and lazy repetition, captures);
    - the document tree cheerio builds and the traversals the source uses;
    - the three operations [getModelListing], [getModelDetails] and
      [getModelTags].

    The collaborators of the scraper (the transport, the HTML serialiser and
    the Markdown converter) are arguments of the operations. *)

From Stdlib Require Import Ascii String.
From Stdlib Require Import List NArith Bool Arith Lia.
Import ListNotations.

Set Implicit Arguments.

(** ** Strings *)

Module Js.

(** A JavaScript string is a sequence of 16-bit code units. *)
Abbreviation code_unit := N (only parsing).
Definition jsstring := list code_unit.

Definition ch (a : ascii) : code_unit := N_of_ascii a.

(** The code units of a UTF-8 byte sequence (one to three bytes for a code
    point of the basic plane). *)
Fixpoint utf16 (bytes : list N) : jsstring :=
  match bytes with
  | [] => []
  | b :: r =>
      if N.ltb b 192 then b :: utf16 r
      else if N.ltb b 224 then
        match r with
        | c :: r' => ((b - 192) * 64 + (c - 128))%N :: utf16 r'
        | [] => [b]
        end
      else
        match r with
        | c :: d :: r' =>
            ((b - 224) * 4096 + (c - 128) * 64 + (d - 128))%N :: utf16 r'
        | _ => b :: r
        end
  end.

(** The string of a literal of the source. *)
Definition js (s : string) : jsstring :=
  utf16 (map N_of_ascii (list_ascii_of_string s)).

Definition eqb (s t : jsstring) : bool :=
  if list_eq_dec N.eq_dec s t then true else false.

Definition between (lo hi c : N) : bool := (N.leb lo c && N.leb c hi)%bool.

Definition is_upper (c : code_unit) : bool := between 65 90 c.
Definition is_lower (c : code_unit) : bool := between 97 122 c.
Definition is_digit (c : code_unit) : bool := between 48 57 c.

(** [\w] of a pattern without the unicode flag: the 63 basic word
    characters. *)
Definition is_word (c : code_unit) : bool :=
  (is_lower c || is_upper c || is_digit c || N.eqb c 95)%bool.

(** White space and line terminators of ECMAScript: what [\s] matches and
    what [trim] removes. *)
Definition is_space (c : code_unit) : bool :=
  (between 9 13 c || N.eqb c 32 || N.eqb c 160 || N.eqb c 5760
   || between 8192 8202 c || N.eqb c 8232 || N.eqb c 8233 || N.eqb c 8239
   || N.eqb c 8287 || N.eqb c 12288 || N.eqb c 65279)%bool.

Definition is_line_terminator (c : code_unit) : bool :=
  (N.eqb c 10 || N.eqb c 13 || N.eqb c 8232 || N.eqb c 8233)%bool.

(** Case mapping of the ASCII letters.  Code units outside ASCII are left as
    they are.  The patterns and the literals of the source have no letter
    outside ASCII; a pattern without the unicode flag never lets a character
    outside ASCII match an ASCII one; and no character outside ASCII has a
    letter of "latest" in its lower case. *)
Definition lower (c : code_unit) : code_unit := if is_upper c then (c + 32)%N else c.
Definition upper (c : code_unit) : code_unit := if is_lower c then (c - 32)%N else c.

Definition toLowerCase (s : jsstring) : jsstring := map lower s.

Fixpoint startsWith (p s : jsstring) : bool :=
  match p, s with
  | [], _ => true
  | _ :: _, [] => false
  | a :: p', b :: s' => (N.eqb a b && startsWith p' s')%bool
  end.

(** [s.includes(p)] *)
Fixpoint includes (p s : jsstring) : bool :=
  (startsWith p s || match s with [] => false | _ :: s' => includes p s' end)%bool.

(** [s.replace(p, r)] with a string pattern: the first occurrence only. *)
Fixpoint replace (p r s : jsstring) : jsstring :=
  if startsWith p s then r ++ skipn (length p) s
  else match s with
       | [] => []
       | c :: s' => c :: replace p r s'
       end.

Fixpoint trimStart (s : jsstring) : jsstring :=
  match s with
  | c :: s' => if is_space c then trimStart s' else s
  | [] => []
  end.

Definition trimEnd (s : jsstring) : jsstring := rev (trimStart (rev s)).

Definition trim (s : jsstring) : jsstring := trimEnd (trimStart s).

(** [s.replace(/\s+/g, '')] *)
Definition stripSpaces (s : jsstring) : jsstring :=
  filter (fun c => negb (is_space c)) s.

(** The value of a string of decimal digits. *)
Definition decimal_value (s : jsstring) : N :=
  fold_left (fun acc c => (acc * 10 + (c - 48))%N) s 0%N.

(** The Number values that a non-negative integer can give: a double whose
    value is an integer, or [Infinity]. *)
Inductive double : Type :=
| Finite (value : N)
| Infinity.

Coercion Finite : N >-> double.

(** The Number value of a non-negative integer: the nearest double, the one
    with the even significand when two are as near; from [2^53] on the
    doubles around [v] are the multiples of [2^e], where [v] has [e + 53]
    bits.  What rounds to [2^1024] is [Infinity]. *)
Definition to_double (v : N) : double :=
  if N.ltb v (2 ^ 53) then Finite v
  else
    let e := (N.log2 v - 52)%N in
    let q := (v / 2 ^ e)%N in
    let r := (v mod 2 ^ e)%N in
    let up := (N.ltb (2 ^ (e - 1)) r || (N.eqb r (2 ^ (e - 1)) && N.odd q))%bool in
    let m := ((if up then q + 1 else q) * 2 ^ e)%N in
    if N.ltb m (2 ^ 1024) then Finite m else Infinity.

(** [parseInt(s)] for a string of decimal digits, as the capture of [(\d+)]
    is: the Number value of the integer the digits denote. *)
Definition parseInt (s : jsstring) : double := to_double (decimal_value s).

End Js.

Import Js.

(** ** Regular expressions *)

Module RegExp.

Inductive class_item : Type :=
| CRange (lo hi : N)
| CDigit (neg : bool)
| CSpace (neg : bool)
| CWord (neg : bool).

Inductive regex : Type :=
| Empty
| Char (c : N)
| AnyChar
| CharClass (invert : bool) (items : list class_item)
| Seq (r1 r2 : regex)
| Alt (r1 r2 : regex)
| Repeat (min : nat) (max : option nat) (greedy : bool) (r : regex)
| Group (index : nat) (r : regex)
| AssertStart
| AssertEnd
| WordBoundary (neg : bool).

Record flags : Type := { ignoreCase : bool; dotAll : bool }.

Definition no_flags := {| ignoreCase := false; dotAll := false |}.
Definition flag_i := {| ignoreCase := true; dotAll := false |}.
Definition flag_s := {| ignoreCase := false; dotAll := true |}.

(** Canonicalize of the specification, on ASCII. *)
Definition canon (fl : flags) (c : code_unit) : code_unit :=
  if ignoreCase fl then upper c else c.

Definition item_has (it : class_item) (c : code_unit) : bool :=
  match it with
  | CRange lo hi => between lo hi c
  | CDigit neg => xorb neg (is_digit c)
  | CSpace neg => xorb neg (is_space c)
  | CWord neg => xorb neg (is_word c)
  end.

Definition class_has (fl : flags) (items : list class_item) (c : code_unit) : bool :=
  existsb (fun it =>
    (item_has it c
     || (ignoreCase fl && (item_has it (upper c) || item_has it (lower c))))%bool) items.

(** The position of the matcher in the subject: the code units before it
    (nearest first), the code units after it, and the captures so far. *)
Record cursor : Type := {
  before : jsstring;
  after : jsstring;
  caps : list (nat * jsstring)
}.

(** What the matcher consumed from [x] to [y]. *)
Definition consumed (x y : cursor) : jsstring :=
  firstn (length (after x) - length (after y)) (after x).

Definition set_cap (i : nat) (s : jsstring) (y : cursor) : cursor :=
  {| before := before y; after := after y; caps := (i, s) :: caps y |}.

Fixpoint groups_of (r : regex) : list nat :=
  match r with
  | Seq a b | Alt a b => groups_of a ++ groups_of b
  | Repeat _ _ _ a => groups_of a
  | Group i a => i :: groups_of a
  | _ => []
  end.

Definition clear_caps (gs : list nat) (x : cursor) : cursor :=
  {| before := before x; after := after x;
     caps := filter (fun p => negb (existsb (Nat.eqb (fst p)) gs)) (caps x) |}.

Fixpoint capture (i : nat) (cs : list (nat * jsstring)) : option jsstring :=
  match cs with
  | [] => None
  | (j, s) :: cs' => if Nat.eqb i j then Some s else capture i cs'
  end.

Definition step (p : code_unit -> bool) (x : cursor)
    (k : cursor -> option cursor) : option cursor :=
  match after x with
  | d :: rest =>
      if p d then k {| before := d :: before x; after := rest; caps := caps x |}
      else None
  | [] => None
  end.

Definition head_is_word (s : jsstring) : bool :=
  match s with c :: _ => is_word c | [] => false end.

Definition at_word_boundary (x : cursor) : bool :=
  xorb (head_is_word (before x)) (head_is_word (after x)).

Definition or_else (a : option cursor) (b : unit -> option cursor) : option cursor :=
  match a with Some z => Some z | None => b tt end.

(** RepeatMatcher of the specification for a matcher [m] whose groups are
    [gs], followed by [k].  An iteration that consumes nothing once the
    minimum is reached is refused, so [min] plus the length of the rest of
    the subject bounds the number of iterations: that bound is the fuel. *)
Section RepeatMatcher.
Variable m : cursor -> (cursor -> option cursor) -> option cursor.
Variable gs : list nat.
Variable greedy : bool.
Variable k : cursor -> option cursor.

Fixpoint repeat_matcher (fuel min : nat) (max : option nat) (x : cursor)
    {struct fuel} : option cursor :=
  match fuel with
  | O => None
  | S fuel' =>
      match max with
      | Some O => k x
      | _ =>
          let d := fun y =>
            if (Nat.eqb min 0
                && Nat.eqb (length (after y)) (length (after x)))%bool
            then None
            else repeat_matcher fuel' (Nat.pred min) (option_map Nat.pred max) y in
          let xr := clear_caps gs x in
          if Nat.eqb min 0 then
            if greedy then or_else (m xr d) (fun _ => k x)
            else or_else (k x) (fun _ => m xr d)
          else m xr d
      end
  end.
End RepeatMatcher.

(** The matcher: [run fl r x k] matches [r] at [x] and hands every way of
    doing so to the continuation [k], in the order of priority of the
    specification, until [k] succeeds. *)
Fixpoint run (fl : flags) (r : regex) (x : cursor)
    (k : cursor -> option cursor) {struct r} : option cursor :=
  match r with
  | Empty => k x
  | Char c => step (fun d => N.eqb (canon fl c) (canon fl d)) x k
  | AnyChar => step (fun d => (dotAll fl || negb (is_line_terminator d))%bool) x k
  | CharClass inv items => step (fun d => xorb inv (class_has fl items d)) x k
  | Seq a b => run fl a x (fun y => run fl b y k)
  | Alt a b => or_else (run fl a x k) (fun _ => run fl b x k)
  | Group i a => run fl a x (fun y => k (set_cap i (consumed x y) y))
  | AssertStart => match before x with [] => k x | _ :: _ => None end
  | AssertEnd => match after x with [] => k x | _ :: _ => None end
  | WordBoundary neg => if xorb neg (at_word_boundary x) then k x else None
  | Repeat min max greedy a =>
      repeat_matcher (run fl a) (groups_of a) greedy k
        (S (min + length (after x))) min max x
  end.

(** [r.exec(s)] from a start position: the leftmost start at which the
    pattern matches, with the cursors at the start and at the end of the
    match. *)
Fixpoint exec_from (fl : flags) (r : regex) (bef aft : jsstring)
    : option (cursor * cursor) :=
  let x := {| before := bef; after := aft; caps := [] |} in
  match run fl r x Some with
  | Some y => Some (x, y)
  | None =>
      match aft with
      | [] => None
      | c :: rest => exec_from fl r (c :: bef) rest
      end
  end.

Definition exec (fl : flags) (r : regex) (s : jsstring) : option (cursor * cursor) :=
  exec_from fl r [] s.

(** [r.test(s)] *)
Definition test (fl : flags) (r : regex) (s : jsstring) : bool :=
  match exec fl r s with Some _ => true | None => false end.

(** [s.match(r)[i]] for a pattern without the global flag; [None] stands for
    a failed match, or for a group that did not take part ([undefined]). *)
Definition group (i : nat) (m : cursor * cursor) : option jsstring :=
  match i with
  | O => Some (consumed (fst m) (snd m))
  | _ => capture i (caps (snd m))
  end.

Definition match_group (fl : flags) (r : regex) (i : nat) (s : jsstring)
    : option jsstring :=
  match exec fl r s with
  | Some m => group i m
  | None => None
  end.

(** [s.match(r) || []] for a pattern with the global flag: the matched
    substrings from left to right, each search starting where the previous
    match ended (one code unit further after an empty match). *)
Fixpoint match_all_from (fl : flags) (r : regex) (fuel : nat)
    (bef aft : jsstring) : list jsstring :=
  match fuel with
  | O => []
  | S fuel' =>
      match exec_from fl r bef aft with
      | None => []
      | Some (x, y) =>
          consumed x y ::
          (if Nat.eqb (length (after x)) (length (after y)) then
             match after y with
             | [] => []
             | c :: rest => match_all_from fl r fuel' (c :: before y) rest
             end
           else match_all_from fl r fuel' (before y) (after y))
      end
  end.

Definition match_all (fl : flags) (r : regex) (s : jsstring) : list jsstring :=
  match_all_from fl r (S (length s)) [] s.

(** *** Compiling the source of a pattern

    [new RegExp(source)] reads the source with the grammar of the
    specification, Annex B included (no unicode flag).  The outcome is a
    pattern, the [SyntaxError] the constructor throws, or [NotModelled] for
    the constructs this development leaves out: look-around assertions,
    named groups, group modifiers, back references, legacy octal escapes,
    the escapes [\c], [\x], [\u], [\k], [\p], and braced quantifiers of more
    than three digits. *)

Inductive parsed (A : Type) : Type :=
| Parsed (a : A)
| SyntaxError
| NotModelled.

Arguments Parsed {A} a.
Arguments SyntaxError {A}.
Arguments NotModelled {A}.

Definition bind {A B : Type} (p : parsed A) (f : A -> parsed B) : parsed B :=
  match p with
  | Parsed a => f a
  | SyntaxError => SyntaxError
  | NotModelled => NotModelled
  end.

Notation "x <- p ;; q" := (bind p (fun x => q))
  (at level 61, p at next level, right associativity).
Notation "' pat <- p ;; q" := (bind p (fun x => match x with pat => q end))
  (at level 61, pat pattern, p at next level, right associativity).

Local Open Scope char_scope.

Definition seq (r1 r2 : regex) : regex :=
  match r2 with Empty => r1 | _ => Seq r1 r2 end.

Definition class_escape (c : code_unit) : option class_item :=
  if N.eqb c (ch "d") then Some (CDigit false)
  else if N.eqb c (ch "D") then Some (CDigit true)
  else if N.eqb c (ch "s") then Some (CSpace false)
  else if N.eqb c (ch "S") then Some (CSpace true)
  else if N.eqb c (ch "w") then Some (CWord false)
  else if N.eqb c (ch "W") then Some (CWord true)
  else None.

Definition one_of (s : string) (c : code_unit) : bool :=
  existsb (N.eqb c) (js s).

(** CharacterEscape after the backslash: the code unit it stands for. *)
Definition character_escape (c : code_unit) (rest : jsstring) : parsed code_unit :=
  if N.eqb c (ch "n") then Parsed 10%N
  else if N.eqb c (ch "r") then Parsed 13%N
  else if N.eqb c (ch "t") then Parsed 9%N
  else if N.eqb c (ch "f") then Parsed 12%N
  else if N.eqb c (ch "v") then Parsed 11%N
  else if N.eqb c (ch "0") then
    match rest with
    | d :: _ => if is_digit d then NotModelled else Parsed 0%N
    | [] => Parsed 0%N
    end
  else if (is_digit c || one_of "cxukpP" c)%bool then NotModelled
  else Parsed c.

Fixpoint digits (s : jsstring) : jsstring * jsstring :=
  match s with
  | c :: s' =>
      if is_digit c then let (ds, rest) := digits s' in (c :: ds, rest)
      else ([], s)
  | [] => ([], [])
  end.

Definition number (ds : jsstring) : nat := N.to_nat (decimal_value ds).

(** A quantifier at the head of [s], if there is one: bounds, greediness
    and the rest of the source. *)
Definition braces (s : jsstring) : parsed (option (nat * option nat * jsstring)) :=
  let (lo, r1) := digits s in
  match lo with
  | [] => Parsed None
  | _ :: _ =>
      match r1 with
      | c :: r2 =>
          if N.eqb c (ch "}") then
            if Nat.ltb 3 (length lo) then NotModelled
            else Parsed (Some (number lo, Some (number lo), r2))
          else if N.eqb c (ch ",") then
            let (hi, r3) := digits r2 in
            match r3 with
            | e :: r4 =>
                if N.eqb e (ch "}") then
                  if (Nat.ltb 3 (length lo) || Nat.ltb 3 (length hi))%bool
                  then NotModelled
                  else
                    match hi with
                    | [] => Parsed (Some (number lo, None, r4))
                    | _ :: _ =>
                        if Nat.ltb (number hi) (number lo) then SyntaxError
                        else Parsed (Some (number lo, Some (number hi), r4))
                    end
                else Parsed None
            | [] => Parsed None
            end
          else Parsed None
      | [] => Parsed None
      end
  end.

Definition quantifier_prefix (s : jsstring)
    : parsed (option (nat * option nat * jsstring)) :=
  match s with
  | c :: rest =>
      if N.eqb c (ch "*") then Parsed (Some (0, None, rest))
      else if N.eqb c (ch "+") then Parsed (Some (1, None, rest))
      else if N.eqb c (ch "?") then Parsed (Some (0, Some 1, rest))
      else if N.eqb c (ch "{") then braces rest
      else Parsed None
  | [] => Parsed None
  end.

(** An atom followed by its quantifier, if any. *)
Definition quantified (atom : regex) (s : jsstring) : parsed (regex * jsstring) :=
  q <- quantifier_prefix s ;;
  match q with
  | None => Parsed (atom, s)
  | Some (lo, hi, rest) =>
      match rest with
      | c :: rest' =>
          if N.eqb c (ch "?") then Parsed (Repeat lo hi false atom, rest')
          else Parsed (Repeat lo hi true atom, rest)
      | [] => Parsed (Repeat lo hi true atom, rest)
      end
  end.

Inductive class_atom : Type :=
| AChar (c : code_unit)
| AClass (it : class_item).

Definition item_of (a : class_atom) : class_item :=
  match a with AChar c => CRange c c | AClass it => it end.

Definition parse_class_atom (s : jsstring) : parsed (class_atom * jsstring) :=
  match s with
  | [] => SyntaxError
  | c :: rest =>
      if N.eqb c (ch "\") then
        match rest with
        | [] => SyntaxError
        | e :: rest' =>
            match class_escape e with
            | Some it => Parsed (AClass it, rest')
            | None =>
                if N.eqb e (ch "b") then Parsed (AChar 8%N, rest')
                else u <- character_escape e rest' ;; Parsed (AChar u, rest')
            end
        end
      else Parsed (AChar c, rest)
  end.

Fixpoint parse_class_ranges (fuel : nat) (s : jsstring)
    : parsed (list class_item * jsstring) :=
  match fuel with
  | O => NotModelled
  | S fuel' =>
      match s with
      | [] => SyntaxError
      | c :: rest =>
          if N.eqb c (ch "]") then Parsed ([], rest)
          else
            '(a, r1) <- parse_class_atom s ;;
            match r1 with
            | d :: r2 =>
                if (N.eqb d (ch "-")
                    && negb (match r2 with e :: _ => N.eqb e (ch "]") | [] => false end))%bool
                then
                  '(b, r3) <- parse_class_atom r2 ;;
                  '(items, r4) <- parse_class_ranges fuel' r3 ;;
                  match a, b with
                  | AChar lo, AChar hi =>
                      if N.ltb hi lo then SyntaxError
                      else Parsed (CRange lo hi :: items, r4)
                  | _, _ =>
                      Parsed (item_of a :: CRange (ch "-") (ch "-") :: item_of b :: items, r4)
                  end
                else
                  '(items, r4) <- parse_class_ranges fuel' r1 ;;
                  Parsed (item_of a :: items, r4)
            | [] => SyntaxError
            end
      end
  end.

Definition parse_class (s : jsstring) : parsed (regex * jsstring) :=
  match s with
  | c :: rest =>
      if N.eqb c (ch "^") then
        '(items, r) <- parse_class_ranges (S (length rest)) rest ;;
        Parsed (CharClass true items, r)
      else
        '(items, r) <- parse_class_ranges (S (length s)) s ;;
        Parsed (CharClass false items, r)
  | [] => SyntaxError
  end.

(** AtomEscape after the backslash. *)
Definition parse_escape (s : jsstring) : parsed (regex * jsstring) :=
  match s with
  | [] => SyntaxError
  | e :: rest =>
      match class_escape e with
      | Some it => Parsed (CharClass false [it], rest)
      | None => u <- character_escape e rest ;; Parsed (Char u, rest)
      end
  end.

Definition expect_close (p : regex * jsstring * nat) (wrap : regex -> regex)
    : parsed (regex * jsstring * nat) :=
  let '(d, rest, g) := p in
  match rest with
  | c :: rest' =>
      if N.eqb c (ch ")") then
        '(t, r) <- quantified (wrap d) rest' ;; Parsed (t, r, g)
      else SyntaxError
  | [] => SyntaxError
  end.

(** Disjunction, Alternative and Term.  [g] counts the capturing groups
    opened so far: groups are numbered by their opening parenthesis. *)
Fixpoint parse_disjunction (fuel : nat) (s : jsstring) (g : nat)
    : parsed (regex * jsstring * nat) :=
  match fuel with
  | O => NotModelled
  | S fuel' =>
      '(a, r1, g1) <- parse_alternative fuel' s g ;;
      match r1 with
      | c :: r2 =>
          if N.eqb c (ch "|") then
            '(d, r3, g3) <- parse_disjunction fuel' r2 g1 ;;
            Parsed (Alt a d, r3, g3)
          else Parsed (a, r1, g1)
      | [] => Parsed (a, r1, g1)
      end
  end
with parse_alternative (fuel : nat) (s : jsstring) (g : nat)
    : parsed (regex * jsstring * nat) :=
  match fuel with
  | O => NotModelled
  | S fuel' =>
      match s with
      | [] => Parsed (Empty, s, g)
      | c :: _ =>
          if (N.eqb c (ch "|") || N.eqb c (ch ")"))%bool then Parsed (Empty, s, g)
          else
            '(t, r1, g1) <- parse_term fuel' s g ;;
            '(a, r2, g2) <- parse_alternative fuel' r1 g1 ;;
            Parsed (seq t a, r2, g2)
      end
  end
with parse_term (fuel : nat) (s : jsstring) (g : nat)
    : parsed (regex * jsstring * nat) :=
  match fuel with
  | O => NotModelled
  | S fuel' =>
      match s with
      | [] => SyntaxError
      | c :: rest =>
          if N.eqb c (ch "^") then Parsed (AssertStart, rest, g)
          else if N.eqb c (ch "$") then Parsed (AssertEnd, rest, g)
          else if one_of "*+?" c then SyntaxError
          else if N.eqb c (ch "{") then
            q <- braces rest ;;
            match q with
            | Some _ => SyntaxError
            | None => '(t, r) <- quantified (Char c) rest ;; Parsed (t, r, g)
            end
          else if N.eqb c (ch "(") then
            match rest with
            | q :: rest' =>
                if N.eqb q (ch "?") then
                  match rest' with
                  | k :: rest'' =>
                      if N.eqb k (ch ":") then
                        p <- parse_disjunction fuel' rest'' g ;;
                        expect_close p (fun d => d)
                      else NotModelled
                  | [] => SyntaxError
                  end
                else
                  p <- parse_disjunction fuel' rest (S g) ;;
                  expect_close p (Group (S g))
            | [] => SyntaxError
            end
          else if N.eqb c (ch ")") then SyntaxError
          else if N.eqb c (ch "[") then
            '(a, r1) <- parse_class rest ;;
            '(t, r) <- quantified a r1 ;; Parsed (t, r, g)
          else if N.eqb c (ch ".") then
            '(t, r) <- quantified AnyChar rest ;; Parsed (t, r, g)
          else if N.eqb c (ch "\") then
            match rest with
            | e :: rest' =>
                if N.eqb e (ch "b") then Parsed (WordBoundary false, rest', g)
                else if N.eqb e (ch "B") then Parsed (WordBoundary true, rest', g)
                else
                  '(a, r1) <- parse_escape rest ;;
                  '(t, r) <- quantified a r1 ;; Parsed (t, r, g)
            | [] => SyntaxError
            end
          else '(t, r) <- quantified (Char c) rest ;; Parsed (t, r, g)
      end
  end.

(** [new RegExp(source)] *)
Definition compile (source : jsstring) : parsed regex :=
  '(r, rest, _) <- parse_disjunction (3 * length source + 5) source 0 ;;
  match rest with
  | [] => Parsed r
  | _ :: _ => SyntaxError
  end.

(** A regular expression literal of the source: its pattern.  The literals
    of the source all compile; the last case is never taken for them. *)
Definition literal (source : string) : regex :=
  match compile (js source) with
  | Parsed r => r
  | _ => CharClass false []
  end.

End RegExp.

Import RegExp.

(** ** The document tree *)

Module Dom.

(** The nodes cheerio builds from a page. *)
Inductive node : Type :=
| Text (data : jsstring)
| Comment (data : jsstring)
| Element (name : jsstring) (attribs : list (jsstring * jsstring)) (children : list node).

(** A document: the children of its root. *)
Definition document := list node.

(** The place of a node: the indices of the children that lead to it, the
    index of the node itself first and the one below the root last. *)
Definition loc := list nat.

Section Indexed.
Variable A : Type.
Variable f : nat -> node -> list A.

Fixpoint indexed (i : nat) (cs : list node) : list A :=
  match cs with
  | [] => []
  | c :: cs' => f i c ++ indexed (S i) cs'
  end.
End Indexed.

(** A node and its descendants, in document order. *)
Fixpoint subtree (here : loc) (n : node) : list (loc * node) :=
  (here, n) ::
  match n with
  | Element _ _ cs => indexed (fun i c => subtree (i :: here) c) 0 cs
  | _ => []
  end.

Definition descendants (e : loc * node) : list (loc * node) :=
  tl (subtree (fst e) (snd e)).

Definition all_nodes (doc : document) : list (loc * node) :=
  indexed (fun i c => subtree [i] c) 0 doc.

(** [.text()] of one node: the data of the text nodes below it. *)
Fixpoint textContent (n : node) : jsstring :=
  match n with
  | Text d => d
  | Comment _ => []
  | Element _ _ cs => flat_map textContent cs
  end.

(** [.text()] of a selection. *)
Definition text (sel : list (loc * node)) : jsstring :=
  flat_map (fun e => textContent (snd e)) sel.

Fixpoint lookup (name : jsstring) (attribs : list (jsstring * jsstring))
    : option jsstring :=
  match attribs with
  | [] => None
  | (k, v) :: rest => if eqb k name then Some v else lookup name rest
  end.

(** [.attr(name)] *)
Definition attr (name : string) (n : node) : option jsstring :=
  match n with
  | Element _ attribs _ => lookup (js name) attribs
  | _ => None
  end.

(** Simple selectors. *)
Definition tag (name : string) (n : node) : bool :=
  match n with
  | Element t _ _ => eqb t (js name)
  | _ => false
  end.

Definition attr_is (name : string) (p : jsstring -> bool) (n : node) : bool :=
  match attr name n with
  | Some v => p v
  | None => false
  end.

(** [$(selector)] and [$e.find(selector)] for a selector that tests one
    node. *)
Definition select (p : node -> bool) (doc : document) : list (loc * node) :=
  filter (fun e => p (snd e)) (all_nodes doc).

Definition find (p : node -> bool) (e : loc * node) : list (loc * node) :=
  filter (fun e' => p (snd e')) (descendants e).

(** [.first()] *)
Definition first (sel : list (loc * node)) : option (loc * node) := hd_error sel.

(** [.parent()]: the parent element; the root of the document is not one. *)
Definition parent (p : loc) : option loc :=
  match p with
  | _ :: q => match q with [] => None | _ :: _ => Some q end
  | [] => None
  end.

Fixpoint node_along (cs : list node) (path : list nat) : option node :=
  match path with
  | [] => None
  | i :: path' =>
      match nth_error cs i with
      | None => None
      | Some n =>
          match path' with
          | [] => Some n
          | _ :: _ =>
              match n with
              | Element _ _ cs' => node_along cs' path'
              | _ => None
              end
          end
      end
  end.

Definition node_at (doc : document) (p : loc) : option node :=
  node_along doc (rev p).

Definition text_at (doc : document) (p : loc) : jsstring :=
  match node_at doc p with
  | Some n => textContent n
  | None => []
  end.

Definition children_at (doc : document) (q : loc) : list node :=
  match q with
  | [] => doc
  | _ :: _ =>
      match node_at doc q with
      | Some (Element _ _ cs) => cs
      | _ => []
      end
  end.

Fixpoint first_element (i : nat) (cs : list node) : option (nat * node) :=
  match cs with
  | [] => None
  | c :: cs' =>
      match c with
      | Element _ _ _ => Some (i, c)
      | _ => first_element (S i) cs'
      end
  end.

(** [.next()]: the next sibling that is an element. *)
Definition next (doc : document) (p : loc) : option (loc * node) :=
  match p with
  | [] => None
  | i :: q =>
      match first_element (S i) (skipn (S i) (children_at doc q)) with
      | Some (j, c) => Some (j :: q, c)
      | None => None
      end
  end.

(** [.closest(selector)]: the node itself or its nearest ancestor that the
    selector accepts. *)
Fixpoint closest (p : node -> bool) (doc : document) (l : loc) : option (loc * node) :=
  match l with
  | [] => None
  | _ :: q =>
      match node_at doc l with
      | Some n => if p n then Some (l, n) else closest p doc q
      | None => closest p doc q
      end
  end.

End Dom.

Import Dom.

(** ** The scraper *)

Module ModelListItem.
Record t : Type := {
  name : jsstring;
  description : jsstring;
  parameters : list jsstring;
  pulls : jsstring;
  tags : double;
  lastUpdated : jsstring;
  url : jsstring;
  capabilities : option (list jsstring)
}.
End ModelListItem.

Module ModelTag.
Record t : Type := {
  name : jsstring;
  size : jsstring;
  digest : jsstring;
  modifiedAt : jsstring;
  contextWindow : option jsstring;
  inputType : option jsstring;
  aliases : option (list jsstring)
}.
End ModelTag.

Module Variant.
Record t : Type := {
  name : jsstring;
  size : jsstring;
  contextWindow : option jsstring;
  inputType : option jsstring;
  lastUpdated : jsstring
}.
End Variant.

Module ModelDetails.
Record t : Type := {
  name : jsstring;
  description : jsstring;
  downloads : jsstring;
  lastUpdated : jsstring;
  readmeHtml : option jsstring;
  readmeMarkdown : option jsstring;
  models : list Variant.t
}.
End ModelDetails.

Inductive SortOption : Type := newest | most_popular | oldest | alphabetical.

Definition sort_text (o : SortOption) : jsstring :=
  match o with
  | newest => js "newest"
  | most_popular => js "most-popular"
  | oldest => js "oldest"
  | alphabetical => js "alphabetical"
  end.

Record options : Type := { query : option jsstring; sort : option SortOption }.

(** *** Collaborators *)

(** What [fetch(url)] followed by [response.text()] and [cheerio.load] gives:
    the promise is rejected (by the transport, or while the body is read), or
    there is a response with its [ok] flag, its status and, once loaded, the
    document of its body. *)
Inductive response : Type :=
| Rejected (reason : jsstring)
| Response (ok : bool) (status : N) (body : document).

Record collaborators : Type := {
  (** the transport *)
  fetch : jsstring -> response;
  (** the serialisation of a query value by [URLSearchParams] *)
  encode : jsstring -> jsstring;
  (** cheerio's [.html()] of the children of an element *)
  html : list node -> jsstring;
  (** the Markdown converter; [None] when it throws *)
  turndown : jsstring -> option jsstring
}.

(** *** Outcomes *)

(** The value caught by the [catch] of an operation. *)
Inductive cause : Type :=
| HttpError (status : N)          (* new Error(`HTTP error! status: ${status}`) *)
| FetchRejected (reason : jsstring)
| InvalidRegExp (source : jsstring) (* SyntaxError of new RegExp *)
| TypeError.                        (* a method called on undefined *)

(** An operation returns, or throws
    [new Error(`Failed to fetch <operation>: ${cause}`)].  [Unmodelled]: the
    call leaves this development (see [RegExp.compile] and [getModelTags]). *)
Inductive outcome (A : Type) : Type :=
| Return (a : A)
| Throw (operation : jsstring) (c : cause)
| Unmodelled.

Arguments Return {A} a.
Arguments Throw {A} operation c.
Arguments Unmodelled {A}.

(** Inside a [try] block: a value, or the thrown cause. *)
Inductive attempt (A : Type) : Type :=
| Ok (a : A)
| Raise (c : cause)
| Beyond.

Arguments Ok {A} a.
Arguments Raise {A} c.
Arguments Beyond {A}.

Definition try_bind {A B : Type} (m : attempt A) (f : A -> attempt B) : attempt B :=
  match m with
  | Ok a => f a
  | Raise c => Raise c
  | Beyond => Beyond
  end.

Notation "x <-- m ;; f" := (try_bind m (fun x => f))
  (at level 61, m at next level, right associativity).

(** [try { ... } catch (error) { throw new Error(`Failed to fetch ...`) }] *)
Definition catch {A : Type} (operation : string) (m : attempt A) : outcome A :=
  match m with
  | Ok a => Return a
  | Raise c => Throw (js operation) c
  | Beyond => Unmodelled
  end.

(** The first lines of every [try] block: fetch, check [response.ok], load
    the body. *)
Definition load (w : collaborators) (url : jsstring) : attempt document :=
  match fetch w url with
  | Rejected reason => Raise (FetchRejected reason)
  | Response ok status body => if ok then Ok body else Raise (HttpError status)
  end.

Definition baseUrl : jsstring := js "https://ollama.com".

Definition or_default (d : jsstring) (o : option jsstring) : jsstring :=
  match o with Some s => s | None => d end.

(** A [Set<string>] with [has] and [add]. *)
Definition has (seen : list jsstring) (s : jsstring) : bool := existsb (eqb s) seen.
Definition add (seen : list jsstring) (s : jsstring) : list jsstring := seen ++ [s].

(** *** Patterns shared by the operations *)

(** [/(\d+\.?\d*\s*[GMT]B)/i] then [.replace(/\s+/g, '')] *)
Definition size_of (text : jsstring) : jsstring :=
  match match_group flag_i (literal "(\d+\.?\d*\s*[GMT]B)") 1 text with
  | Some s => stripSpaces s
  | None => []
  end.

(** [/(\d+K)\s*context\s*window/i] *)
Definition contextWindow_of (text : jsstring) : option jsstring :=
  match_group flag_i (literal "(\d+K)\s*context\s*window") 1 text.

Definition inputType_of (text : jsstring) : option jsstring :=
  if test flag_i (literal "\bvision\b") text then Some (js "Vision")
  else if test flag_i (literal "\btext\b") text then Some (js "Text")
  else None.

(** [/Updated\s+(.+?)(?:\n|$)/i], trimmed *)
Definition updated_of (text : jsstring) : jsstring :=
  match match_group flag_i (literal "Updated\s+(.+?)(?:\n|$)") 1 text with
  | Some s => trim s
  | None => []
  end.

(** [/:([^/]+)$/] on a [href] *)
Definition tag_of_href (href : jsstring) : option jsstring :=
  match_group no_flags (literal ":([^/]+)$") 1 href.

Definition compile_or_raise (source : jsstring) : attempt regex :=
  match compile source with
  | Parsed r => Ok r
  | SyntaxError => Raise (InvalidRegExp source)
  | NotModelled => Beyond
  end.

(** [.each(f)] over a selection, with the variables [f] assigns as a state;
    an exception leaves the loop. *)
Fixpoint each {S E : Type} (f : S -> E -> attempt S) (sel : list E) (st : S)
    : attempt S :=
  match sel with
  | [] => Ok st
  | e :: rest => st' <-- f st e ;; each f rest st'
  end.

(** A loop left at the first element that gives a value. *)
Fixpoint first_some {E B : Type} (f : E -> option B) (sel : list E) : option B :=
  match sel with
  | [] => None
  | e :: rest =>
      match f e with
      | Some b => Some b
      | None => first_some f rest
      end
  end.

(** *** getModelListing *)

Definition listing_url (w : collaborators) (o : option options) : jsstring :=
  let q := match o with Some o' => query o' | None => None end in
  let s := match o with Some o' => sort o' | None => None end in
  let params :=
    match q with
    | Some ((_ :: _) as v) => [js "q=" ++ encode w v]
    | _ => []
    end ++
    match s with
    | Some v => [js "sort=" ++ sort_text v]
    | None => []
    end in
  baseUrl ++ js "/library" ++
  match params with
  | [] => []
  | p :: ps => js "?" ++ p ++ flat_map (fun p' => js "&" ++ p') ps
  end.

(** [a[href^="/library/"]] *)
Definition library_link (n : node) : bool :=
  (tag "a" n && attr_is "href" (startsWith (js "/library/")) n)%bool.

(** The description of an entry: the text of its first [p], or else what
    follows the name of the model in the text of the entry, up to the end
    of the line.  The name goes into the source of the pattern as it is. *)
Definition description_of (li : loc * node) (modelName : jsstring) : attempt jsstring :=
  match first (find (tag "p") li) with
  | Some descElement => Ok (trim (textContent (snd descElement)))
  | None =>
      let fullText := textContent (snd li) in
      r <-- compile_or_raise (modelName ++ js "\s+(.+?)(?:\n|$)") ;;
      match exec flag_s r fullText with
      | None => Ok []
      | Some m =>
          match group 1 m with
          | Some d => Ok (trim d)
          | None => Raise TypeError
          end
      end
  end.

Definition capability (word : string) (fullText : jsstring) : list jsstring :=
  if test flag_i (literal ("\b" ++ word ++ "\b")) fullText then [js word] else [].

Definition capabilities_of (fullText : jsstring) : list jsstring :=
  capability "tools" fullText ++ capability "vision" fullText
  ++ capability "thinking" fullText ++ capability "embedding" fullText.

(** [param.replace(/[.*+?^${}()|[\]\\]/g, '\\$&')] *)
Definition escapeRegExp (s : jsstring) : jsstring :=
  flat_map (fun c => if one_of ".*+?^${}()|[]\" c then [ch "\"%char; c] else [c]) s.

(** [new RegExp(`\\b${escaped}\\s*(Pulls|Tags)`, 'i')] *)
Definition paramRegex (param : jsstring) : attempt regex :=
  compile_or_raise (js "\b" ++ escapeRegExp param ++ js "\s*(Pulls|Tags)").

(** [paramMatches.forEach(...)], with the array [parameters] as state. *)
Fixpoint parameters_loop (fullText : jsstring) (paramMatches : list jsstring)
    (parameters : list jsstring) : attempt (list jsstring) :=
  match paramMatches with
  | [] => Ok parameters
  | param :: rest =>
      let normalized := toLowerCase param in
      r <-- paramRegex param ;;
      if (negb (test flag_i r fullText) && negb (existsb (eqb normalized) parameters))%bool
      then parameters_loop fullText rest (parameters ++ [normalized])
      else parameters_loop fullText rest parameters
  end.

Definition parameters_of (fullText : jsstring) : attempt (list jsstring) :=
  parameters_loop fullText (match_all flag_i (literal "\b\d+\.?\d*[bmk]\b") fullText) [].

Definition pulls_of (fullText : jsstring) : jsstring :=
  or_default (js "0") (match_group flag_i (literal "(\d+\.?\d*[KMB]?)\s*Pulls") 1 fullText).

Definition tags_of (fullText : jsstring) : double :=
  match match_group flag_i (literal "(\d+)\s*Tags") 1 fullText with
  | Some s => parseInt s
  | None => Finite 0
  end.

(** The [href] an entry is read from: that of the first link of the entry
    whose [href] starts with [/library/]; [None] where the body of the loop
    returns early. *)
Definition entry_href (li : loc * node) : option jsstring :=
  match first (find library_link li) with
  | None => None
  | Some link =>
      match attr "href" (snd link) with
      | None => None
      | Some href =>
          if (eqb href [] || includes (js "/tags") href || includes (js ":") href)%bool
          then None
          else Some href
      end
  end.

(** The record of an entry. *)
Definition listing_item (li : loc * node) (href modelName : jsstring)
    : attempt ModelListItem.t :=
  description <-- description_of li modelName ;;
  let fullText := textContent (snd li) in
  let capabilities := capabilities_of fullText in
  parameters <-- parameters_of fullText ;;
  Ok {| ModelListItem.name := modelName;
        ModelListItem.description := description;
        ModelListItem.parameters := parameters;
        ModelListItem.pulls := pulls_of fullText;
        ModelListItem.tags := tags_of fullText;
        ModelListItem.lastUpdated := updated_of fullText;
        ModelListItem.url := baseUrl ++ href;
        ModelListItem.capabilities :=
          match capabilities with
          | [] => None
          | _ :: _ => Some capabilities
          end |}.

(** The body of [$('li').each(...)]: the state is the array [models] and
    the set [seenModels]. *)
Definition listing_each (st : list ModelListItem.t * list jsstring) (li : loc * node)
    : attempt (list ModelListItem.t * list jsstring) :=
  let (models, seenModels) := st in
  match entry_href li with
  | None => Ok st
  | Some href =>
      let modelName := replace (js "/library/") [] href in
      if has seenModels modelName then Ok st
      else
        let seenModels := add seenModels modelName in
        item <-- listing_item li href modelName ;;
        Ok (models ++ [item], seenModels)
  end.

Definition listing_of (doc : document) : attempt (list ModelListItem.t) :=
  st <-- each listing_each (select (tag "li") doc) ([], []) ;;
  Ok (fst st).

Definition getModelListing (w : collaborators) (o : option options)
    : outcome (list ModelListItem.t) :=
  catch "model listing"
    (doc <-- load w (listing_url w o) ;; listing_of doc).

(** *** getModelDetails *)

Definition details_url (modelName : jsstring) (tag : option jsstring) : jsstring :=
  match tag with
  | Some ((_ :: _) as t) => baseUrl ++ js "/library/" ++ modelName ++ js ":" ++ t
  | _ => baseUrl ++ js "/library/" ++ modelName
  end.

(** The first [span] or [div] whose whole text is a download count. *)
Definition downloads_of (doc : document) : jsstring :=
  or_default (js "0")
    (first_some
       (fun el => match_group flag_i (literal "^(\d+\.?\d*[KMB]?)\s*Downloads?$") 1
                    (textContent (snd el)))
       (select (fun n => (tag "span" n || tag "div" n)%bool) doc)).

Definition lastUpdated_of (doc : document) : jsstring :=
  let lastUpdated :=
    or_default []
      (first_some
         (fun el => match trim (textContent (snd el)) with
                    | [] => None
                    | (_ :: _) as text => Some text
                    end)
         (select (tag "time") doc)) in
  match lastUpdated with
  | [] => updated_of (text (select (tag "main") doc))
  | _ :: _ => lastUpdated
  end.

(** [a[href*="/library/"][href*=":"]] *)
Definition variant_link (n : node) : bool :=
  (tag "a" n && attr_is "href" (includes (js "/library/")) n
   && attr_is "href" (includes (js ":")) n)%bool.

(** [$el.attr('href') || ''] *)
Definition href_of (el : loc * node) : jsstring :=
  or_default [] (attr "href" (snd el)).

(** The text around a variant link. *)
Definition variant_text (doc : document) (el : loc) : jsstring :=
  match closest (fun n => (tag "li" n || tag "div" n || tag "tr" n)%bool) doc el with
  | Some parent' => textContent (snd parent')
  | None =>
      match parent el with
      | Some q => text_at doc q
      | None => []
      end
  end.

Definition variant_record (doc : document) (el : loc * node) (tagName : jsstring)
    : Variant.t :=
  let tagText := variant_text doc (fst el) in
  {| Variant.name := tagName;
     Variant.size := size_of tagText;
     Variant.contextWindow := contextWindow_of tagText;
     Variant.inputType := inputType_of tagText;
     Variant.lastUpdated :=
       match match_group no_flags (literal "·\s*(.+?)$") 1 tagText with
       | Some s => trim s
       | None => []
       end |}.

(** The body of the loop over the variant links: the state is the array
    [models] and the set [seenTags]. *)
Definition variant_each (doc : document) (st : list Variant.t * list jsstring)
    (el : loc * node) : list Variant.t * list jsstring :=
  let (models, seenTags) := st in
  match tag_of_href (href_of el) with
  | None => st
  | Some tagName =>
      if has seenTags tagName then st
      else (models ++ [variant_record doc el tagName], add seenTags tagName)
  end.

Definition variants_of (doc : document) : list Variant.t :=
  fst (fold_left (variant_each doc) (select variant_link doc) ([], [])).

Definition readme_warning : jsstring := js "Failed to convert readme to markdown:".

(** [$displayDiv.html()?.trim() || undefined] for the first element with the
    id [display], if there is one. *)
Definition readmeHtml_of (w : collaborators) (doc : document) : option jsstring :=
  match select (attr_is "id" (eqb (js "display"))) doc with
  | [] => None
  | displayDiv :: _ =>
      let content :=
        match snd displayDiv with
        | Element _ _ cs => cs
        | _ => []
        end in
      match trim (html w content) with
      | [] => None
      | (_ :: _) as readmeHtml => Some readmeHtml
      end
  end.

(** The readme: [readmeHtml], [readmeMarkdown] and what [console.warn]
    printed. *)
Definition readme_of (w : collaborators) (doc : document)
    : option jsstring * option jsstring * list jsstring :=
  match readmeHtml_of w doc with
  | None => (None, None, [])
  | Some readmeHtml =>
      match turndown w readmeHtml with
      | Some markdown =>
          (Some readmeHtml,
           match trim markdown with
           | [] => None
           | (_ :: _) as readmeMarkdown => Some readmeMarkdown
           end,
           [])
      | None => (Some readmeHtml, None, [readme_warning])
      end
  end.

Definition details_of (w : collaborators) (modelName : jsstring) (doc : document)
    : ModelDetails.t * list jsstring :=
  let '(readmeHtml, readmeMarkdown, warnings) := readme_of w doc in
  ({| ModelDetails.name := modelName;
      ModelDetails.description :=
        trim (text (select (attr_is "id" (eqb (js "summary-content"))) doc));
      ModelDetails.downloads := downloads_of doc;
      ModelDetails.lastUpdated := lastUpdated_of doc;
      ModelDetails.readmeHtml := readmeHtml;
      ModelDetails.readmeMarkdown := readmeMarkdown;
      ModelDetails.models := variants_of doc |},
   warnings).

(** The result of the call and the warnings it printed. *)
Definition getModelDetails (w : collaborators) (modelName : jsstring)
    (tag : option jsstring) : outcome ModelDetails.t * list jsstring :=
  match load w (details_url modelName tag) with
  | Ok doc => let (d, warnings) := details_of w modelName doc in (Return d, warnings)
  | Raise c => (Throw (js "model details") c, [])
  | Beyond => (Unmodelled, [])
  end.

(** *** getModelTags *)

Definition has_size_unit (t : jsstring) : bool :=
  (includes (js "GB") t || includes (js "MB") t || includes (js "TB") t)%bool.

(** The [while] loop over the containers of the link. *)
Fixpoint walk_up (doc : document) (container : option loc) (maxDepth : nat) : jsstring :=
  match maxDepth with
  | O => []
  | S maxDepth' =>
      match container with
      | None => []
      | Some c =>
          let containerText := text_at doc c in
          if (has_size_unit containerText && Nat.ltb (length containerText) 200)%bool
          then containerText
          else walk_up doc (parent c) maxDepth'
      end
  end.

(** The [for] loop over the elements that follow the link; [n] is the
    number of iterations left. *)
Fixpoint scan_next (doc : document) (current : loc) (n : nat) : jsstring :=
  match n with
  | O => []
  | S n' =>
      match next doc current with
      | None => []
      | Some (c, e) =>
          let elementText := textContent e in
          if (has_size_unit elementText && Nat.ltb (length elementText) 100)%bool
          then elementText
          else scan_next doc c n'
      end
  end.

(** The text that holds the information of a tag link. *)
Definition tag_text (doc : document) (link : loc) : jsstring :=
  let text :=
    match next doc link with
    | Some (_, nextSibling) =>
        let siblingText := textContent nextSibling in
        if has_size_unit siblingText then siblingText else []
    | None => []
    end in
  let text :=
    match text with
    | [] => walk_up doc (parent link) 3
    | _ :: _ => text
    end in
  match text with
  | [] => scan_next doc link 3
  | _ :: _ => text
  end.

Definition digest_of (text : jsstring) : jsstring :=
  or_default [] (match_group no_flags (literal "\b([a-f0-9]{12})\b") 1 text).

Definition datePatterns : list (flags * regex) :=
  [ (flag_i, literal "(\d+\s*(?:hour|day|week|month|year)s?\s*ago)");
    (no_flags, literal "•\s*([^•]+?)\s*$");
    (flag_i, literal "(\d{1,2}\s*\w+\s*ago)") ].

Definition modifiedAt_of (text : jsstring) : jsstring :=
  or_default []
    (first_some (fun p => option_map trim (match_group (fst p) (snd p) 1 text))
       datePatterns).

Definition aliases_of (tagName text tagText : jsstring) : list jsstring :=
  if (eqb tagName (js "latest") && includes (js "latest") text)%bool then []
  else if (negb (eqb tagName (js "latest")) && includes (js "latest") tagText)%bool
  then [js "latest"]
  else [].

(** The record of a tag link. *)
Definition tag_record (doc : document) (link : loc * node) (tagName : jsstring)
    : ModelTag.t :=
  let text := tag_text doc (fst link) in
  let aliases := aliases_of tagName text (toLowerCase (textContent (snd link))) in
  {| ModelTag.name := tagName;
     ModelTag.size := size_of text;
     ModelTag.digest := digest_of text;
     ModelTag.modifiedAt := modifiedAt_of text;
     ModelTag.contextWindow := contextWindow_of text;
     ModelTag.inputType := inputType_of text;
     ModelTag.aliases :=
       match aliases with
       | [] => None
       | _ :: _ => Some aliases
       end |}.

(** The body of the loop over the tag links: the state is the array [tags]
    and the set [seenTags]. *)
Definition tags_each (doc : document) (st : list ModelTag.t * list jsstring)
    (link : loc * node) : list ModelTag.t * list jsstring :=
  let (tags, seenTags) := st in
  match tag_of_href (href_of link) with
  | None => st
  | Some tagName =>
      if has seenTags tagName then st
      else (tags ++ [tag_record doc link tagName], add seenTags tagName)
  end.

(** [a[href*="/library/<modelName>:"]] *)
Definition tag_link (modelName : jsstring) (n : node) : bool :=
  (tag "a" n && attr_is "href" (includes (js "/library/" ++ modelName ++ js ":")) n)%bool.

Definition tags_of_page (modelName : jsstring) (doc : document) : list ModelTag.t :=
  fst (fold_left (tags_each doc) (select (tag_link modelName) doc) ([], [])).

(** The name of the model goes into the selector between double quotes as it
    is: a name with a double quote or a backslash changes the selector, and
    is left out of this development. *)
Definition plain_in_selector (modelName : jsstring) : bool :=
  forallb (fun c => negb (N.eqb c 34 || N.eqb c 92)) modelName.

Definition getModelTags (w : collaborators) (modelName : jsstring)
    : outcome (list ModelTag.t) :=
  catch "model tags"
    (doc <-- load w (baseUrl ++ js "/library/" ++ modelName ++ js "/tags") ;;
     if plain_in_selector modelName then Ok (tags_of_page modelName doc)
     else Beyond).

(** ** Pages and collaborators of the scenarios *)

(** What cheerio loads from a fragment: the fragment in the [body] of an
    [html] element. *)
Definition page (body : list node) : document :=
  [Element (js "html") []
     [Element (js "head") [] []; Element (js "body") [] body]].

(** Collaborators that answer every request with [doc]. *)
Definition serve (doc : document) : collaborators :=
  {| fetch := fun _ => Response true 200 doc;
     encode := fun s => s;
     html := fun _ => js "<p>readme</p>";
     turndown := fun s => Some s |}.

(** [<li><a href="/library/test-model">test-model</a> Test description
    Parameters: 7b, 13b 100K Pulls 5 Tags Updated 2 hours ago</li>] *)
Definition scenario_A : document :=
  page [Element (js "li") []
          [Element (js "a") [(js "href", js "/library/test-model")]
             [Text (js "test-model")];
           Text (js " Test description Parameters: 7b, 13b 100K Pulls 5 Tags Updated 2 hours ago")]].

Definition record_A (description : string) : ModelListItem.t :=
  {| ModelListItem.name := js "test-model";
     ModelListItem.description := js description;
     ModelListItem.parameters := [js "7b"; js "13b"];
     ModelListItem.pulls := js "100K";
     ModelListItem.tags := 5%N;
     ModelListItem.lastUpdated := js "2 hours ago";
     ModelListItem.url := js "https://ollama.com/library/test-model";
     ModelListItem.capabilities := None |}.

(** [<li><a href="/library/c++">c++</a> A compiler model</li>] *)
Definition special_slug_page : document :=
  page [Element (js "li") []
          [Element (js "a") [(js "href", js "/library/c++")] [Text (js "c++")];
           Text (js " A compiler model")]].

(** A details page with a readme:
    [<div id="display"><p>readme</p></div>
     <a href="/library/test-model:7b">7b</a>] *)
Definition readme_page : document :=
  page [Element (js "div") [(js "id", js "display")]
          [Element (js "p") [] [Text (js "readme")]];
        Element (js "a") [(js "href", js "/library/test-model:7b")] [Text (js "7b")]].

(** Collaborators whose Markdown converter throws. *)
Definition serve_failing_converter (doc : document) : collaborators :=
  {| fetch := fun _ => Response true 200 doc;
     encode := fun s => s;
     html := fun _ => js "<p>readme</p>";
     turndown := fun _ => None |}.

(** ** Loops with a set of seen names *)

(** The elements of a selection that such a loop keeps, with their names:
    an element that has a name is kept when the name was not seen before. *)
Fixpoint first_of_each {E : Type} (key : E -> option jsstring)
    (seen : list jsstring) (sel : list E) : list (E * jsstring) :=
  match sel with
  | [] => []
  | e :: rest =>
      match key e with
      | None => first_of_each key seen rest
      | Some k =>
          if has seen k then first_of_each key seen rest
          else (e, k) :: first_of_each key (add seen k) rest
      end
  end.

(** The name under which an entry of the catalog is listed. *)
Definition entry_name (li : loc * node) : option jsstring :=
  option_map (replace (js "/library/") []) (entry_href li).

(** A tags page on which a tag is linked twice:
    [<a href="/library/test-model:latest">latest</a> <div>4.1GB abc123def456 2 hours ago</div>
     <a href="/library/test-model:latest">Latest</a>
     <a href="/library/test-model:7b">7b (latest)</a> <div>no size here</div>] *)
Definition repeated_tags_page : document :=
  page [Element (js "a") [(js "href", js "/library/test-model:latest")]
          [Text (js "latest")];
        Element (js "div") [] [Text (js "4.1GB abc123def456 2 hours ago")];
        Element (js "a") [(js "href", js "/library/test-model:latest")]
          [Text (js "Latest")];
        Element (js "a") [(js "href", js "/library/test-model:7b")]
          [Text (js "7b (Latest)")];
        Element (js "div") [] [Text (js "no size here")]].

(** The candidate name of a tag or variant link. *)
Definition link_tag (el : loc * node) : option jsstring := tag_of_href (href_of el).

(** [e] is the first element of [sel] that gives the name [k]. *)
Definition first_named (E : Type) (key : E -> option jsstring) (sel : list E)
    (e : E) (k : jsstring) : Prop :=
  exists earlier later,
    sel = earlier ++ e :: later
    /\ key e = Some k
    /\ forall e', In e' earlier -> key e' <> Some k.

(** A tags page on which the two links of a tag give different records:
    [<div><a href="/library/m:t">t</a><span>1GB</span></div>
     <div><a href="/library/m:t">latest t</a><span>2GB</span></div>] *)
Definition twice_tagged_page : document :=
  page [Element (js "div") []
          [Element (js "a") [(js "href", js "/library/m:t")] [Text (js "t")];
           Element (js "span") [] [Text (js "1GB")]];
        Element (js "div") []
          [Element (js "a") [(js "href", js "/library/m:t")] [Text (js "latest t")];
           Element (js "span") [] [Text (js "2GB")]]].

(** An entry whose first link is a variant link:
    [<li><a href="/library/llama3:8b">8b</a> <a href="/library/llama3">llama3</a>
     Meta Llama 3 1M Pulls 10 Tags Updated 2 days ago</li>] *)
Definition variant_link_first_page : document :=
  page [Element (js "li") []
          [Element (js "a") [(js "href", js "/library/llama3:8b")] [Text (js "8b")];
           Text (js " ");
           Element (js "a") [(js "href", js "/library/llama3")] [Text (js "llama3")];
           Text (js " Meta Llama 3 1M Pulls 10 Tags Updated 2 days ago")]].

(** The catalog-entry pattern, in the words of the specification: a
    [/library/] path whose slug has no colon and does not end with [/tags]. *)
Definition catalog_pattern (href : jsstring) : bool :=
  let slug := skipn (length (js "/library/")) href in
  (startsWith (js "/library/") href
   && negb (includes (js ":") slug)
   && negb (startsWith (rev (js "/tags")) (rev slug)))%bool.

Definition catalog_link (n : node) : bool :=
  (tag "a" n && attr_is "href" catalog_pattern n)%bool.

(** ** The cascade of [getModelTags] *)

(** The test of a stage on a text: a size unit, and fewer code units than the
    limit of the stage, if it has one. *)
Definition plausible (limit : option nat) (t : jsstring) : bool :=
  (has_size_unit t
   && match limit with Some n => Nat.ltb (length t) n | None => true end)%bool.

(** A tags page without any size:
    [<a href="/library/test-model:7b">7b</a>] *)
Definition bare_tag_page : document :=
  page [Element (js "a") [(js "href", js "/library/test-model:7b")] [Text (js "7b")]].

(** ** Digests, in the words of the specification *)

Definition is_lower_hex (c : code_unit) : bool := (between 97 102 c || between 48 57 c)%bool.

(** Exactly 12 lowercase hexadecimal characters. *)
Definition digest_token (t : jsstring) : Prop :=
  length t = 12 /\ Forall (fun c => is_lower_hex c = true) t.

(** A token between [pre] and [post] stands alone: no word character
    touches it on either side. *)
Definition standalone (pre post : jsstring) : Prop :=
  head_is_word (rev pre) = false /\ head_is_word post = false.

(** The cursor after [n] more code units. *)
Definition advance (n : nat) (x : cursor) : cursor :=
  {| before := rev (firstn n (after x)) ++ before x;
     after := skipn n (after x);
     caps := caps x |}.

(** The cursor of a search between [pre] and [rest]. *)
Definition cursor_at (bef pre rest : jsstring) : cursor :=
  {| before := rev pre ++ bef; after := rest; caps := [] |}.

(** ** What a pattern matches *)

(** One code unit accepted by [p] lies between [x] and [y]. *)
Definition takes (p : code_unit -> bool) (x y : cursor) : Prop :=
  exists d rest,
    after x = d :: rest /\ p d = true
    /\ y = {| before := d :: before x; after := rest; caps := caps x |}.

(** [n] iterations of a repetition lead from [x] to [y]. *)
Fixpoint iterate (R : cursor -> cursor -> Prop) (gs : list nat) (n : nat)
    (x y : cursor) : Prop :=
  match n with
  | O => y = x
  | S n' => exists z, R (clear_caps gs x) z /\ iterate R gs n' z y
  end.

(** [matches fl r x y]: the pattern [r] matches the subject from [x] to [y].
    The relation leaves out the order in which the matcher tries the ways to
    match, and the iterations it refuses. *)
Fixpoint matches (fl : flags) (r : regex) (x y : cursor) : Prop :=
  match r with
  | Empty => y = x
  | Char c => takes (fun d => N.eqb (canon fl c) (canon fl d)) x y
  | AnyChar => takes (fun d => (dotAll fl || negb (is_line_terminator d))%bool) x y
  | CharClass inv items => takes (fun d => xorb inv (class_has fl items d)) x y
  | Seq a b => exists z, matches fl a x z /\ matches fl b z y
  | Alt a b => matches fl a x y \/ matches fl b x y
  | Group i a => exists z, matches fl a x z /\ y = set_cap i (consumed x z) z
  | AssertStart => before x = [] /\ y = x
  | AssertEnd => after x = [] /\ y = x
  | WordBoundary neg => xorb neg (at_word_boundary x) = true /\ y = x
  | Repeat min max _ a =>
      exists n,
        min <= n
        /\ match max with Some m => n <= m | None => True end
        /\ iterate (matches fl a) (groups_of a) n x y
  end.

(** The bounds of every repetition are in order, as [compile] checks. *)
Fixpoint bounds_in_order (r : regex) : bool :=
  match r with
  | Seq a b | Alt a b => (bounds_in_order a && bounds_in_order b)%bool
  | Group _ a => bounds_in_order a
  | Repeat min max _ a =>
      (match max with Some m => Nat.leb min m | None => true end
       && bounds_in_order a)%bool
  | _ => true
  end.

(** ** Size tokens, in the words of the specification *)

Definition is_size_letter (c : code_unit) : bool := one_of "bmkBMK" c.

(** A size token: digits, possibly a point, possibly more digits, and one of
    the letters b, m and k, in either case. *)
Definition size_token (t : jsstring) : Prop :=
  exists whole point fraction letter,
    t = whole ++ point ++ fraction ++ [letter]
    /\ whole <> []
    /\ Forall (fun c => is_digit c = true) whole
    /\ (point = [] \/ point = [46%N])
    /\ Forall (fun c => is_digit c = true) fraction
    /\ is_size_letter letter = true.

(** The characters of a size token. *)
Definition token_char (c : code_unit) : bool :=
  (is_digit c || N.eqb c 46 || is_size_letter c)%bool.

(** ** The pattern of [paramRegex] *)

(** The pattern of [\s*(Pulls|Tags)]. *)
Definition label_pattern : regex :=
  Seq (Repeat 0 None true (CharClass false [CSpace false]))
    (Group 1
       (Alt (Seq (Char 80) (Seq (Char 117) (Seq (Char 108) (Seq (Char 108) (Char 115)))))
            (Seq (Char 84) (Seq (Char 97) (Seq (Char 103) (Char 115)))))).

(** The characters of [s], one after the other, and then [tail]. *)
Definition chars (s : jsstring) (tail : regex) : regex :=
  fold_right (fun c r => Seq (Char c) r) tail s.

(** What [paramRegex] compiles for a size token: a word boundary, the
    characters of the token, white space and one of the two labels. *)
Definition param_pattern (param : jsstring) : regex :=
  Seq (WordBoundary false) (chars param label_pattern).

(** The entry of scenario A with its fields on lines of their own:
    [<li><a href="/library/test-model">test-model</a>
     Test description
     Parameters: 7b, 13b
     100K Pulls
     5 Tags
     Updated 2 hours ago</li>] *)
Definition scenario_A_lines : document :=
  page [Element (js "li") []
          [Element (js "a") [(js "href", js "/library/test-model")]
             [Text (js "test-model")];
           Text ([10%N] ++ js "Test description" ++ [10%N]
                 ++ js "Parameters: 7b, 13b" ++ [10%N]
                 ++ js "100K Pulls" ++ [10%N]
                 ++ js "5 Tags" ++ [10%N]
                 ++ js "Updated 2 hours ago")]].

(** ** The fields of the records, in words *)

(** White space only. *)
Definition blank (ws : jsstring) : Prop := Forall (fun c => is_space c = true) ws.

(** Digits only. *)
Definition numeral (t : jsstring) : Prop := Forall (fun c => is_digit c = true) t.

(** A decimal number: digits, possibly a point, possibly more digits. *)
Definition decimal (t : jsstring) : Prop :=
  exists whole point fraction,
    t = whole ++ point ++ fraction
    /\ whole <> [] /\ numeral whole
    /\ (point = [] \/ point = [46%N])
    /\ numeral fraction.

(** [label] is [word], whatever the case of its letters. *)
Definition spells (word : string) (label : jsstring) : Prop :=
  toLowerCase label = js word.

(** A count: a decimal number, possibly followed by one of the letters K, M
    and B, in either case. *)
Definition count_token (t : jsstring) : Prop :=
  exists number suffix,
    t = number ++ suffix /\ decimal number
    /\ (suffix = [] \/ exists c, suffix = [c] /\ one_of "KMBkmb" c = true).

(** A size: a decimal number and one of the units GB, MB and TB, in either
    case. *)
Definition size_text (number unit : jsstring) : Prop :=
  decimal number
  /\ exists g b, unit = [g; b] /\ one_of "GMTgmt" g = true /\ one_of "Bb" b = true.

(** A context window: digits and the letter K, in either case. *)
Definition window_text (t : jsstring) : Prop :=
  exists ds k, t = ds ++ [k] /\ ds <> [] /\ numeral ds /\ one_of "Kk" k = true.

(** The word occurs in the text, in any case, and no word character touches
    the occurrence. *)
Definition occurs_as_word (word : string) (text : jsstring) : Prop :=
  exists pre t post,
    text = pre ++ t ++ post /\ spells word t /\ standalone pre post.

(** No white space at either end. *)
Definition trimmed (s : jsstring) : Prop :=
  match s with c :: _ => is_space c = false | [] => True end
  /\ match rev s with c :: _ => is_space c = false | [] => True end.

(** The matcher went from [x] to [y] over [t], and set the captures [cs]. *)
Definition spans (cs : list (nat * jsstring)) (t : jsstring) (x y : cursor) : Prop :=
  after x = t ++ after y /\ before y = rev t ++ before x /\ caps y = cs ++ caps x.

(** ** The records of an operation and the places of the page they come from *)

(** Every record of the listing comes from the first entry of the page that
    carries its name, and [P] holds of the entry and the record. *)
Definition each_entry (w : collaborators) (o : option options)
    (models : list ModelListItem.t)
    (P : loc * node -> ModelListItem.t -> Prop) : Prop :=
  exists status doc,
    fetch w (listing_url w o) = Response true status doc
    /\ Forall (fun item =>
         exists li,
           first_named entry_name (select (tag "li") doc) li (ModelListItem.name item)
           /\ P li item)
         models.

(** Every tag record comes from the first link of the page that carries its
    name, and [P] holds of the text the fields are read from and the record. *)
Definition each_tag (w : collaborators) (modelName : jsstring) (tags : list ModelTag.t)
    (P : loc * node -> jsstring -> ModelTag.t -> Prop) : Prop :=
  exists status doc,
    fetch w (baseUrl ++ js "/library/" ++ modelName ++ js "/tags")
      = Response true status doc
    /\ Forall (fun r =>
         exists link,
           first_named link_tag (select (tag_link modelName) doc) link (ModelTag.name r)
           /\ P link (tag_text doc (fst link)) r)
         tags.

(** Every variant of the details comes from the first link of the page that
    carries its name, and [P] holds of the text the fields are read from and
    the variant. *)
Definition each_variant (w : collaborators) (modelName : jsstring)
    (tag : option jsstring) (d : ModelDetails.t)
    (P : loc * node -> jsstring -> Variant.t -> Prop) : Prop :=
  exists status doc,
    fetch w (details_url modelName tag) = Response true status doc
    /\ Forall (fun v =>
         exists el,
           first_named link_tag (select variant_link doc) el (Variant.name v)
           /\ P el (variant_text doc (fst el)) v)
         (ModelDetails.models d).

(** ** More pages *)

(** An entry with a description of its own and capabilities:
    [<li><a href="/library/llava"><h2>llava</h2><p> A vision model </p>
     <span>vision</span> <span>Tools</span> 7b 1.2M Pulls 98 Tags
     Updated 3 weeks ago</a></li>] *)
Definition capable_entry_page : document :=
  page [Element (js "li") []
          [Element (js "a") [(js "href", js "/library/llava")]
             [Element (js "h2") [] [Text (js "llava")];
              Element (js "p") [] [Text (js " A vision model ")];
              Element (js "span") [] [Text (js "vision")];
              Text (js " ");
              Element (js "span") [] [Text (js "Tools")];
              Text (js " 7b 1.2M Pulls 98 Tags Updated 3 weeks ago")]]].

Definition capable_entry_record : ModelListItem.t :=
  {| ModelListItem.name := js "llava";
     ModelListItem.description := js "A vision model";
     ModelListItem.parameters := [js "7b"];
     ModelListItem.pulls := js "1.2M";
     ModelListItem.tags := 98%N;
     ModelListItem.lastUpdated := js "3 weeks ago";
     ModelListItem.url := js "https://ollama.com/library/llava";
     ModelListItem.capabilities := Some [js "tools"; js "vision"] |}.

(** An entry whose number of tags is above 2^53:
    [<li><a href="/library/big"><p>Many tags</p></a>
     9007199254740993 Tags</li>] *)
Definition large_count_page : document :=
  page [Element (js "li") []
          [Element (js "a") [(js "href", js "/library/big")]
             [Element (js "p") [] [Text (js "Many tags")]];
           Text (js " 9007199254740993 Tags")]].

Definition large_count_record : ModelListItem.t :=
  {| ModelListItem.name := js "big";
     ModelListItem.description := js "Many tags";
     ModelListItem.parameters := [];
     ModelListItem.pulls := js "0";
     ModelListItem.tags := Finite 9007199254740992;
     ModelListItem.lastUpdated := [];
     ModelListItem.url := js "https://ollama.com/library/big";
     ModelListItem.capabilities := None |}.

(** A details page:
    [<span>1.2M Downloads</span> <time> 3 days ago </time>
     <ul><li><a href="/library/llava:7b">7b</a> 4.7 GB · 32K context window ·
     Text, Vision · 2 days ago</li></ul>] *)
Definition details_page : document :=
  page [Element (js "span") [] [Text (js "1.2M Downloads")];
        Element (js "time") [] [Text (js " 3 days ago ")];
        Element (js "ul") []
          [Element (js "li") []
             [Element (js "a") [(js "href", js "/library/llava:7b")] [Text (js "7b")];
              Text (js " 4.7 GB " ++ [183%N] ++ js " 32K context window "
                    ++ [183%N] ++ js " Text, Vision " ++ [183%N] ++ js " 2 days ago")]]].

Definition details_page_variant : Variant.t :=
  {| Variant.name := js "7b";
     Variant.size := js "4.7GB";
     Variant.contextWindow := Some (js "32K");
     Variant.inputType := Some (js "Vision");
     Variant.lastUpdated :=
       js "32K context window " ++ [183%N] ++ js " Text, Vision " ++ [183%N]
       ++ js " 2 days ago" |}.

(** A tags page:
    [<div><a href="/library/llava:7b">7b</a>
     <span>4.7GB • 32K context window • Text input • abc123def456 • 2 days ago</span></div>] *)
Definition tags_page : document :=
  page [Element (js "div") []
          [Element (js "a") [(js "href", js "/library/llava:7b")] [Text (js "7b")];
           Element (js "span") []
             [Text (js "4.7GB " ++ [8226%N] ++ js " 32K context window " ++ [8226%N]
                   ++ js " Text input " ++ [8226%N] ++ js " abc123def456 "
                   ++ [8226%N] ++ js " 2 days ago")]]].

Definition tags_page_record : ModelTag.t :=
  {| ModelTag.name := js "7b";
     ModelTag.size := js "4.7GB";
     ModelTag.digest := js "abc123def456";
     ModelTag.modifiedAt := js "2 days ago";
     ModelTag.contextWindow := Some (js "32K");
     ModelTag.inputType := Some (js "Text");
     ModelTag.aliases := None |}.

(** Collaborators whose transport answers every request with [status], not a
    success. *)
Definition answer_with_status (status : N) : collaborators :=
  {| fetch := fun _ => Response false status [];
     encode := fun s => s;
     html := fun _ => [];
     turndown := fun s => Some s |}.

(** A page without any entry: [<p>No models found</p>] *)
Definition no_entries_page : document :=
  page [Element (js "p") [] [Text (js "No models found")]].

(** ** The patterns of a count and of white space *)

(** The pattern of a count, [\d+\.?\d*[KMB]?]. *)
Definition count_pattern : regex :=
  Seq (Repeat 1 None true (CharClass false [CDigit false]))
    (Seq (Repeat 0 (Some 1) true (Char 46))
       (Seq (Repeat 0 None true (CharClass false [CDigit false]))
          (Repeat 0 (Some 1) true
             (CharClass false [CRange 75 75; CRange 77 77; CRange 66 66])))).

(** The pattern of [\s*]. *)
Definition spaces_pattern : regex := Repeat 0 None true (CharClass false [CSpace false]).

(** ** Patterns whose repetitions are over single characters *)

Definition atom (r : regex) : bool :=
  match r with
  | Char _ | AnyChar | CharClass _ _ => true
  | _ => false
  end.

(** Every repetition of the pattern repeats a single character, as in all
    the patterns of the source: no iteration is ever empty. *)
Fixpoint loops_over_atoms (r : regex) : bool :=
  match r with
  | Seq a b | Alt a b => (loops_over_atoms a && loops_over_atoms b)%bool
  | Group _ a => loops_over_atoms a
  | Repeat _ _ _ a => atom a
  | _ => true
  end.

(** ** Words *)

(** The pattern of [\bword\b]. *)
Definition word_pattern (word : string) : regex :=
  Seq (WordBoundary false) (chars (js word) (WordBoundary false)).

(** The capabilities the listing looks for, in the order of the source. *)
Definition capability_words : list string :=
  ["tools"; "vision"; "thinking"; "embedding"]%string.

(** The capabilities of an entry: the words of the list that occur in its
    text, in the order of the list, and [undefined] when there is none. *)
Definition capabilities_read (text : jsstring) (capabilities : option (list jsstring))
    : Prop :=
  let listed := match capabilities with Some l => l | None => [] end in
  (forall word, In word capability_words ->
     (In (js word) listed <-> occurs_as_word word text))
  /\ listed = filter (has listed) (map js capability_words)
  /\ capabilities <> Some [].

(** The input type read from a text: "Vision" when the word vision occurs,
    or else "Text" when the word text occurs, or else [undefined]. *)
Definition inputType_read (text : jsstring) (inputType : option jsstring) : Prop :=
  (inputType = Some (js "Vision") <-> occurs_as_word "vision" text)
  /\ (inputType = Some (js "Text") <->
      ~ occurs_as_word "vision" text /\ occurs_as_word "text" text)
  /\ (inputType = None <->
      ~ occurs_as_word "vision" text /\ ~ occurs_as_word "text" text).

(** ** What the fields are read from *)

(** [t] stands in the text before white space (possibly none) and the
    label, in any case, and is as [Q] says. *)
Definition labelled (word : string) (Q : jsstring -> Prop) (text t : jsstring) : Prop :=
  exists pre ws label post,
    text = pre ++ t ++ ws ++ label ++ post
    /\ Q t /\ blank ws /\ spells word label.

(** The pulls of an entry: a count that the text of the entry follows with
    "Pulls", and "0" when the text has none. *)
Definition pulls_read (text pulls : jsstring) : Prop :=
  labelled "pulls" count_token text pulls
  \/ (pulls = js "0" /\ forall t, ~ labelled "pulls" count_token text t).

(** [m] is the value of a double: an integer of at most 53 significant
    bits, times a power of 2. *)
Definition representable (m : N) : Prop :=
  exists q e, (m = q * 2 ^ e /\ q < 2 ^ 53)%N.

Definition distance (a b : N) : N := ((a - b) + (b - a))%N.

(** The significand of the double [m], of 53 bits, is even. *)
Definition even_significand (m : N) : Prop :=
  exists q e,
    (m = q * 2 ^ e)%N /\ (2 ^ 52 <= q)%N /\ (q < 2 ^ 53)%N /\ N.even q = true.

(** The integer [v] as a Number: no double is nearer to [v] than the one it
    gives, which has the even significand where another is as near;
    [Infinity] from [2^1024 - 2^970] on, half-way between the largest double
    and [2^1024]. *)
Definition rounds_to (v : N) (d : double) : Prop :=
  match d with
  | Finite m =>
      representable m /\ (m < 2 ^ 1024)%N
      /\ (forall m', representable m' -> (distance v m <= distance v m')%N)
      /\ (forall m',
            representable m' -> m' <> m -> distance v m' = distance v m ->
            even_significand m)
  | Infinity => (2 ^ 1024 - 2 ^ 970 <= v)%N
  end.

(** The number of tags of an entry: the Number value of a run of digits that
    the text of the entry follows with "Tags", which is the value of the
    digits below 2^53 and the nearest double from there on; 0 when the text
    has none. *)
Definition tags_read (text : jsstring) (tags : double) : Prop :=
  (exists ds,
     labelled "tags" (fun t => t <> [] /\ numeral t) text ds
     /\ rounds_to (decimal_value ds) tags
     /\ ((decimal_value ds < 2 ^ 53)%N -> tags = Finite (decimal_value ds)))
  \/ (tags = Finite 0
      /\ forall t, ~ labelled "tags" (fun t => t <> [] /\ numeral t) text t).

(** The text has the size [number], white space (possibly none), [unit]. *)
Definition size_in (text number ws unit : jsstring) : Prop :=
  size_text number unit /\ blank ws
  /\ exists pre post, text = pre ++ number ++ ws ++ unit ++ post.

(** A size: the number and the unit of a size of the text, without the white
    space between them; empty when the text has no size. *)
Definition size_read (text size : jsstring) : Prop :=
  (exists number ws unit, size_in text number ws unit /\ size = number ++ unit)
  \/ (size = [] /\ forall number ws unit, ~ size_in text number ws unit).

(** The text has the context window [t]: digits and K, followed by "context
    window", in any case and with any white space. *)
Definition window_in (text t : jsstring) : Prop :=
  exists pre ws1 context ws2 window post,
    text = pre ++ t ++ ws1 ++ context ++ ws2 ++ window ++ post
    /\ window_text t
    /\ blank ws1 /\ spells "context" context
    /\ blank ws2 /\ spells "window" window.

(** A context window: one of the text, and [undefined] when the text has
    none. *)
Definition window_read (text : jsstring) (contextWindow : option jsstring) : Prop :=
  match contextWindow with
  | Some t => window_in text t
  | None => forall t, ~ window_in text t
  end.

(** The name read from the [href] of a link: what follows the first colon
    after which the [href] has at least one character and no slash; none
    when the [href] has no such colon. *)
Definition name_read (href : jsstring) (name : option jsstring) : Prop :=
  match name with
  | Some k =>
      exists pre,
        href = pre ++ [58%N] ++ k /\ k <> [] /\ ~ In 47%N k
        /\ forall pre' k',
             href = pre' ++ [58%N] ++ k' -> k' <> [] -> ~ In 47%N k' ->
             length pre <= length pre'
  | None =>
      forall pre k, href = pre ++ [58%N] ++ k -> k = [] \/ In 47%N k
  end.

(** The names of the records of a loop over links: the names read from the
    links. *)
Definition names_read (links : list (loc * node)) (names : list jsstring) : Prop :=
  (forall k, In k names <-> exists link, In link links /\ link_tag link = Some k)
  /\ (forall link, In link links -> name_read (href_of link) (link_tag link)).

(** The date of a variant: empty, or what follows a middle dot of the text,
    trimmed; where the text has no line terminator after its first middle
    dot, it is all that follows that dot. *)
Definition after_dot_read (text lastUpdated : jsstring) : Prop :=
  (lastUpdated = []
   \/ exists pre rest, text = pre ++ [183%N] ++ rest /\ lastUpdated = trim rest)
  /\ (forall pre rest,
        text = pre ++ [183%N] ++ rest ->
        ~ In 183%N pre ->
        rest <> [] ->
        Forall (fun c => is_line_terminator c = false) rest ->
        lastUpdated = trim rest).

(** The text has "Updated", in any case, white space, and [body] up to the
    end of the line. *)
Definition updated_in (text body : jsstring) : Prop :=
  exists pre label ws post,
    text = pre ++ label ++ ws ++ body ++ post
    /\ spells "updated" label
    /\ ws <> [] /\ blank ws
    /\ body <> [] /\ Forall (fun c => is_line_terminator c = false) body
    /\ (post = [] \/ exists post', post = 10%N :: post').

(** The date after "Updated": the rest of a line of the text that follows
    "Updated" and white space, trimmed; empty when the text has none. *)
Definition updated_read (text lastUpdated : jsstring) : Prop :=
  (exists body, updated_in text body /\ lastUpdated = trim body)
  \/ (lastUpdated = [] /\ forall body, ~ updated_in text body).

(** [t] occurs in the text. *)
Definition occurs (t text : jsstring) : Prop := exists pre post, text = pre ++ t ++ post.

(** A relative date: digits, a unit of time, possibly in the plural, and
    "ago", in any case and with any white space between them. *)
Definition relative_date (t : jsstring) : Prop :=
  exists ds ws1 unit s ws2 ago,
    t = ds ++ ws1 ++ unit ++ s ++ ws2 ++ ago
    /\ ds <> [] /\ numeral ds
    /\ blank ws1
    /\ (spells "hour" unit \/ spells "day" unit \/ spells "week" unit
        \/ spells "month" unit \/ spells "year" unit)
    /\ (s = [] \/ spells "s" s)
    /\ blank ws2 /\ spells "ago" ago.

(** One or two digits, a word and "ago". *)
Definition short_date (t : jsstring) : Prop :=
  exists ds ws1 word ws2 ago,
    t = ds ++ ws1 ++ word ++ ws2 ++ ago
    /\ ds <> [] /\ length ds <= 2 /\ numeral ds
    /\ blank ws1
    /\ word <> [] /\ Forall (fun c => is_word c = true) word
    /\ blank ws2 /\ spells "ago" ago.

(** [rest] is what follows the last bullet of the text, and is not empty. *)
Definition after_last_bullet (text rest : jsstring) : Prop :=
  exists pre, text = pre ++ [8226%N] ++ rest /\ ~ In 8226%N rest /\ rest <> [].

(** The date of a tag: a relative date of the text, if it has one; or else
    what follows the last bullet of the text, trimmed, if something does; or
    else a short date of the text, if it has one; or else empty. *)
Definition modifiedAt_read (text modifiedAt : jsstring) : Prop :=
  (relative_date modifiedAt /\ occurs modifiedAt text)
  \/ ((forall t, relative_date t -> ~ occurs t text)
      /\ ((exists rest, after_last_bullet text rest /\ modifiedAt = trim rest)
          \/ ((forall rest, ~ after_last_bullet text rest)
              /\ ((short_date modifiedAt /\ occurs modifiedAt text)
                  \/ (modifiedAt = [] /\ forall t, short_date t -> ~ occurs t text))))).

(** The whole of [text] is the count [c], white space (possibly none) and
    "Download" or "Downloads", in any case. *)
Definition download_text (text c : jsstring) : Prop :=
  exists ws label plural,
    text = c ++ ws ++ label ++ plural
    /\ count_token c /\ blank ws /\ spells "download" label
    /\ (plural = [] \/ spells "s" plural).

(** The downloads of a model: the count of the first [span] or [div] of the
    page whose whole text is a count of downloads, and "0" when the page has
    none. *)
Definition downloads_read (doc : document) (downloads : jsstring) : Prop :=
  let sel := select (fun n => (tag "span" n || tag "div" n)%bool) doc in
  (exists earlier el later,
     sel = earlier ++ el :: later
     /\ download_text (textContent (snd el)) downloads
     /\ forall el', In el' earlier -> forall c, ~ download_text (textContent (snd el')) c)
  \/ (downloads = js "0"
      /\ forall el, In el sel -> forall c, ~ download_text (textContent (snd el)) c).

(** The date of a model: the text of the first [time] element of the page
    that has one, trimmed; without any, the date after "Updated" in the text
    of [main]. *)
Definition details_updated_read (doc : document) (lastUpdated : jsstring) : Prop :=
  let sel := select (tag "time") doc in
  (exists earlier el later,
     sel = earlier ++ el :: later
     /\ lastUpdated = trim (textContent (snd el)) /\ lastUpdated <> []
     /\ forall el', In el' earlier -> trim (textContent (snd el')) = [])
  \/ ((forall el, In el sel -> trim (textContent (snd el)) = [])
      /\ updated_read (text (select (tag "main") doc)) lastUpdated).

(** The name and the address of a record of the listing: the [href] of the
    first library link of the entry is [/library/] and the name; the name
    has no colon and no [/tags]; the address is the address of the library
    and the name. *)
Definition entry_read (li : loc * node) (item : ModelListItem.t) : Prop :=
  let name := ModelListItem.name item in
  (exists link,
     first (find library_link li) = Some link
     /\ attr "href" (snd link) = Some (js "/library/" ++ name))
  /\ includes (js ":") name = false
  /\ includes (js "/tags") name = false
  /\ ModelListItem.url item = js "https://ollama.com/library/" ++ name.

(** The readme of the details: [readmeHtml] is the trimmed content of the
    element [#display], if it is not empty; [readmeMarkdown] is the trimmed
    result of the converter on it, if it is not empty; a warning is printed
    exactly when the converter throws. *)
Definition readme_read (w : collaborators) (doc : document)
    (readmeHtml readmeMarkdown : option jsstring) (log : list jsstring) : Prop :=
  (select (attr_is "id" (eqb (js "display"))) doc = [] -> readmeHtml = None)
  /\ (readmeHtml = None -> readmeMarkdown = None /\ log = [])
  /\ (forall h, readmeHtml = Some h -> h <> [] /\ trimmed h)
  /\ (forall m,
        readmeMarkdown = Some m ->
        m <> [] /\ trimmed m
        /\ exists h out, readmeHtml = Some h /\ turndown w h = Some out /\ m = trim out)
  /\ (log = []
      \/ (log = [readme_warning]
          /\ exists h, readmeHtml = Some h /\ turndown w h = None)).

(** ** The pattern of the description of an entry *)

(** A name without any of the characters [^ $ \ * + ? ( ) [ ] { } |]: as a
    pattern, it stands for its own characters, a point standing for any
    character. *)
Definition plain_name (name : jsstring) : Prop :=
  Forall (fun c => one_of "^$\*+?()[]{}|" c = false) name.

(** The pattern of [\s+(.+?)(?:\n|$)]. *)
Definition description_tail : regex :=
  Seq (Repeat 1 None true (CharClass false [CSpace false]))
    (Seq (Group 1 (Repeat 1 None false AnyChar)) (Alt (Char 10) AssertEnd)).

(** What a plain name compiles to, followed by [tail]. *)
Definition name_pattern (name : jsstring) (tail : regex) : regex :=
  fold_right (fun c r => Seq (if N.eqb c 46 then AnyChar else Char c) r) tail name.

(** The description of an entry: trimmed; the text of the first [p] of the
    entry when it has one. *)
Definition description_read (li : loc * node) (description : jsstring) : Prop :=
  trimmed description
  /\ forall p, first (find (tag "p") li) = Some p ->
               description = trim (textContent (snd p)).

(** ** The image rule of the Markdown converter *)

Module Image.
(** The properties of an [img] element that the rule reads; [None] stands
    for a property that is [undefined]. *)
Record t : Type := {
  alt : option jsstring;
  src : option jsstring;
  title : option jsstring
}.
End Image.

(** [src.startsWith('/') ? `https://ollama.com${src}` : src] *)
Definition fullSrc (src : jsstring) : jsstring :=
  if startsWith (js "/") src then js "https://ollama.com" ++ src else src.

(** The replacement of the rule [images]: [![alt](fullSrc "title")], and
    [![alt](fullSrc)] without a title.  The double quote is the code unit
    34. *)
Definition image_replacement (img : Image.t) : jsstring :=
  let alt := or_default [] (Image.alt img) in
  let src := or_default [] (Image.src img) in
  let title := or_default [] (Image.title img) in
  match title with
  | [] => js "![" ++ alt ++ js "](" ++ fullSrc src ++ js ")"
  | _ :: _ =>
      js "![" ++ alt ++ js "](" ++ fullSrc src ++ [32%N; 34%N] ++ title ++ [34%N; 41%N]
  end.

(** The target of the image in the replacement. *)
Definition image_target (img : Image.t) : jsstring :=
  fullSrc (or_default [] (Image.src img)).

(** ** The description of an entry without a [p] *)

(** The first line of [s]: what comes before its first line feed. *)
Fixpoint first_line (s : jsstring) : jsstring :=
  match s with
  | [] => []
  | c :: s' => if N.eqb c 10 then [] else c :: first_line s'
  end.

(** [t] is the name read as a pattern: a point of the name stands for any
    character, every other character for itself. *)
Definition reads_as (name t : jsstring) : Prop :=
  Forall2 (fun c d => c = 46%N \/ d = c) name t.

(** After [pre], the text has the name, a white space and at least one more
    character: [rest] is what follows the name. *)
Definition follows_name (name text pre rest : jsstring) : Prop :=
  exists t w rest',
    text = pre ++ t ++ rest /\ reads_as name t
    /\ rest = w :: rest' /\ is_space w = true /\ rest' <> [].

(** The description read from the text of an entry: the first line of what
    follows the first occurrence of the name that white space and one more
    character follow, and that white space, trimmed; empty when the text has
    no such occurrence. *)
Definition fallback_read (name text description : jsstring) : Prop :=
  (exists pre rest,
      follows_name name text pre rest
      /\ (forall pre' rest',
            follows_name name text pre' rest' -> length pre <= length pre')
      /\ description = trim (first_line (trimStart rest)))
  \/ (description = [] /\ forall pre rest, ~ follows_name name text pre rest).

(** The pattern of [(.+?)(?:\n|$)]. *)
Definition line_pattern : regex :=
  Seq (Group 1 (Repeat 1 None false AnyChar)) (Alt (Char 10) AssertEnd).

(** ** The cascade of [getModelTags], read from the tree *)

Definition is_element (n : node) : Prop :=
  match n with Element _ _ _ => True | _ => False end.

(** [e], at [l'], is the next sibling of the node at [l] that is an element:
    both have the same parent, [e] comes later, and no element stands
    between them. *)
Definition next_element (doc : document) (l l' : loc) (e : node) : Prop :=
  exists i j q,
    l = i :: q /\ l' = j :: q /\ i < j
    /\ node_at doc l' = Some e /\ is_element e
    /\ forall k n, i < k -> k < j -> node_at doc (k :: q) = Some n -> ~ is_element n.

(** The text has one of the units GB, MB and TB, in upper case. *)
Definition has_unit (t : jsstring) : Prop :=
  occurs (js "GB") t \/ occurs (js "MB") t \/ occurs (js "TB") t.

(** A text that a stage accepts: it has a unit and fewer code units than the
    limit of the stage, if the stage has one. *)
Definition accepted (limit : option nat) (t : jsstring) : Prop :=
  has_unit t /\ match limit with Some n => length t < n | None => True end.

(** [t] is the text of the nearest of the [n] first ancestors of [l] whose
    text has a unit and fewer than 200 code units.  The root of the document
    is no ancestor. *)
Inductive climbs (doc : document) : nat -> loc -> jsstring -> Prop :=
| climbs_here (n i : nat) (q : loc) (a : node) :
    q <> [] -> node_at doc q = Some a ->
    accepted (Some 200) (textContent a) ->
    climbs doc (S n) (i :: q) (textContent a)
| climbs_up (n i : nat) (q : loc) (t : jsstring) :
    q <> [] ->
    (forall a, node_at doc q = Some a -> ~ accepted (Some 200) (textContent a)) ->
    climbs doc n q t ->
    climbs doc (S n) (i :: q) t.

(** [t] is the text of the first of the [n] elements that follow [l] among
    its siblings whose text has a unit and fewer than 100 code units. *)
Inductive scans (doc : document) : nat -> loc -> jsstring -> Prop :=
| scans_here (n : nat) (l l' : loc) (e : node) :
    next_element doc l l' e ->
    accepted (Some 100) (textContent e) ->
    scans doc (S n) l (textContent e)
| scans_on (n : nat) (l l' : loc) (e : node) (t : jsstring) :
    next_element doc l l' e ->
    ~ accepted (Some 100) (textContent e) ->
    scans doc n l' t ->
    scans doc (S n) l t.

(** The text the cascade chooses for the link at [link]: the text of its
    next sibling element, if that has a unit; or else the text of the
    nearest of its 3 first ancestors that has a unit and fewer than 200 code
    units; or else the text of the first of the 3 elements that follow it
    that has a unit and fewer than 100 code units; or else the empty text. *)
Definition cascade_text (doc : document) (link : loc) (t : jsstring) : Prop :=
  (exists l' e,
      next_element doc link l' e /\ accepted None (textContent e) /\ t = textContent e)
  \/ ((forall l' e, next_element doc link l' e -> ~ accepted None (textContent e))
      /\ (climbs doc 3 link t
          \/ ((forall t', ~ climbs doc 3 link t')
              /\ (scans doc 3 link t
                  \/ ((forall t', ~ scans doc 3 link t') /\ t = []))))).

(** The record of a tag is read from the text the cascade chooses for its
    link, the only one it can choose; from the empty text every field is
    empty or [undefined]. *)
Definition cascade_record (doc : document) (link : loc * node) (r : ModelTag.t) : Prop :=
  exists t,
    cascade_text doc (fst link) t
    /\ (forall t', cascade_text doc (fst link) t' -> t' = t)
    /\ ModelTag.size r = size_of t
    /\ ModelTag.digest r = digest_of t
    /\ ModelTag.modifiedAt r = modifiedAt_of t
    /\ ModelTag.contextWindow r = contextWindow_of t
    /\ ModelTag.inputType r = inputType_of t
    /\ (t = [] ->
        ModelTag.digest r = [] /\ ModelTag.size r = [] /\ ModelTag.modifiedAt r = []
        /\ ModelTag.contextWindow r = None /\ ModelTag.inputType r = None).

(** A tags page whose link has no sibling element, in a small container:
    [<div><a href="/library/llava:13b">13b</a> 8.0GB · 3 weeks ago</div>] *)
Definition container_tag_page : document :=
  page [Element (js "div") []
          [Element (js "a") [(js "href", js "/library/llava:13b")] [Text (js "13b")];
           Text (js " 8.0GB " ++ [183%N] ++ js " 3 weeks ago")]].

Definition container_tag_record : ModelTag.t :=
  {| ModelTag.name := js "13b";
     ModelTag.size := js "8.0GB";
     ModelTag.digest := [];
     ModelTag.modifiedAt := js "3 weeks ago";
     ModelTag.contextWindow := None;
     ModelTag.inputType := None;
     ModelTag.aliases := None |}.

(** More than 200 code units without a unit. *)
Definition long_note : jsstring :=
  js "This model card goes on for a while: it tells where the weights come from, how they were trained, which licence applies to them, what the model does well and what it does badly, and whom to ask about it.".

(** A tags page whose link is followed by an element without a unit, in
    containers of more than 200 code units:
    [<div><a href="/library/llava:34b">34b</a><span>new</span>
     <span>20GB</span><p>...</p></div>] *)
Definition far_sibling_tag_page : document :=
  page [Element (js "div") []
          [Element (js "a") [(js "href", js "/library/llava:34b")] [Text (js "34b")];
           Element (js "span") [] [Text (js "new")];
           Element (js "span") [] [Text (js "20GB")];
           Element (js "p") [] [Text long_note]]].

Definition far_sibling_tag_record : ModelTag.t :=
  {| ModelTag.name := js "34b";
     ModelTag.size := js "20GB";
     ModelTag.digest := [];
     ModelTag.modifiedAt := [];
     ModelTag.contextWindow := None;
     ModelTag.inputType := None;
     ModelTag.aliases := None |}.

(** * Properties *)

(** ** The patterns of the source *)

(** Every regular expression literal of the source compiles. *)
Lemma literals_compile :
  Forall (fun source => compile (js source) = Parsed (literal source))
    [ "(\d+\.?\d*\s*[GMT]B)";
      "(\d+K)\s*context\s*window";
      "\bvision\b";
      "\btext\b";
      "Updated\s+(.+?)(?:\n|$)";
      ":([^/]+)$";
      "\btools\b";
      "\bthinking\b";
      "\bembedding\b";
      "\b\d+\.?\d*[bmk]\b";
      "(\d+\.?\d*[KMB]?)\s*Pulls";
      "(\d+)\s*Tags";
      "^(\d+\.?\d*[KMB]?)\s*Downloads?$";
      "·\s*(.+?)$";
      "\b([a-f0-9]{12})\b";
      "(\d+\s*(?:hour|day|week|month|year)s?\s*ago)";
      "•\s*([^•]+?)\s*$";
      "(\d{1,2}\s*\w+\s*ago)" ]%string.
Proof. repeat constructor. Qed.

Lemma listing_of_scenario_A :
  listing_of scenario_A =
  Ok [record_A "Test description Parameters: 7b, 13b 100K Pulls 5 Tags Updated 2 hours ago"].
Proof. vm_compute. reflexivity. Qed.

(** With a line break after the description, the description stops there. *)
Lemma listing_of_scenario_A_lines :
  listing_of scenario_A_lines = Ok [record_A "Test description"].
Proof. vm_compute. reflexivity. Qed.

Lemma getModelListing_loaded (w : collaborators) (o : option options)
    (status : N) (doc : document) :
  fetch w (listing_url w o) = Response true status doc ->
  getModelListing w o = catch "model listing" (listing_of doc).
Proof.
  intros H. unfold getModelListing, load. rewrite H. reflexivity.
Qed.

(** C1, as the code has it: the entry of scenario A has no [p] element and no
    line break, so the description is everything that follows the name, up
    to the end of the text; the other fields are those of the scenario. *)
Theorem C1_scenario_A_listing (w : collaborators) (o : option options) (status : N) :
  fetch w (listing_url w o) = Response true status scenario_A ->
  getModelListing w o =
  Return [record_A "Test description Parameters: 7b, 13b 100K Pulls 5 Tags Updated 2 hours ago"].
Proof.
  intros H. rewrite (getModelListing_loaded _ _ H), listing_of_scenario_A.
  reflexivity.
Qed.

Lemma C1_scenario_A_listing_witness :
  fetch (serve scenario_A) (listing_url (serve scenario_A) None)
    = Response true 200 scenario_A
  /\ getModelListing (serve scenario_A) None =
     Return [record_A "Test description Parameters: 7b, 13b 100K Pulls 5 Tags Updated 2 hours ago"].
Proof.
  split; [reflexivity | apply (@C1_scenario_A_listing (serve scenario_A) None 200%N); reflexivity].
Defined.

(** C1 as stated fails: on scenario A the operation does not return a record
    whose description is "Test description". *)
Lemma C1_scenario_A_description_differs :
  ~ (exists r, getModelListing (serve scenario_A) None = Return [r]
               /\ ModelListItem.name r = js "test-model"
               /\ ModelListItem.description r = js "Test description"
               /\ ModelListItem.parameters r = [js "7b"; js "13b"]
               /\ ModelListItem.pulls r = js "100K"
               /\ ModelListItem.tags r = 5%N
               /\ ModelListItem.lastUpdated r = js "2 hours ago").
Proof.
  intros (r & Hr & _ & Hd & _).
  rewrite (@getModelListing_loaded (serve scenario_A) None 200%N scenario_A eq_refl),
    listing_of_scenario_A in Hr.
  injection Hr as <-. vm_compute in Hd. discriminate Hd.
Qed.

(** ** Failures *)

Lemma getModelDetails_loaded (w : collaborators) (modelName : jsstring)
    (tag : option jsstring) (status : N) (doc : document) :
  fetch w (details_url modelName tag) = Response true status doc ->
  getModelDetails w modelName tag =
  (Return (fst (details_of w modelName doc)), snd (details_of w modelName doc)).
Proof.
  intros H. unfold getModelDetails, load. rewrite H.
  destruct (details_of w modelName doc); reflexivity.
Qed.

Lemma getModelDetails_returns (w : collaborators) (modelName : jsstring)
    (tag : option jsstring) (d : ModelDetails.t) (log : list jsstring) :
  getModelDetails w modelName tag = (Return d, log) ->
  exists status doc,
    fetch w (details_url modelName tag) = Response true status doc
    /\ details_of w modelName doc = (d, log).
Proof.
  unfold getModelDetails, load.
  destruct (fetch w (details_url modelName tag)) as [reason | ok status doc];
    [discriminate |].
  destruct ok; [| discriminate].
  destruct (details_of w modelName doc) as [d' log'] eqn:E.
  intros H. injection H as <- <-. exists status, doc. split; [reflexivity | assumption].
Qed.

(** X1: [getModelDetails] throws exactly when the transport fails or answers
    with a status that is not a success; the error names "model details" and
    carries the cause. *)
Lemma getModelDetails_throws (w : collaborators) (modelName : jsstring)
    (tag : option jsstring) (operation : jsstring) (c : cause) :
  fst (getModelDetails w modelName tag) = Throw operation c <->
  operation = js "model details"
  /\ ((exists reason, fetch w (details_url modelName tag) = Rejected reason
                      /\ c = FetchRejected reason)
      \/ (exists status doc,
             fetch w (details_url modelName tag) = Response false status doc
             /\ c = HttpError status)).
Proof.
  unfold getModelDetails, load.
  destruct (fetch w (details_url modelName tag)) as [reason | ok status doc].
  - simpl. split.
    + intros H. injection H as <- <-. split; [reflexivity |].
      left. exists reason. split; reflexivity.
    + intros (-> & [(r & Hr & ->) | (st & d & Hr & _)]); [| discriminate].
      injection Hr as <-. reflexivity.
  - destruct ok.
    + destruct (details_of w modelName doc). simpl. split; [discriminate |].
      intros (_ & [(r & Hr & _) | (st & d & Hr & _)]); discriminate.
    + simpl. split.
      * intros H. injection H as <- <-. split; [reflexivity |].
        right. exists status, doc. split; reflexivity.
      * intros (-> & [(r & Hr & _) | (st & d & Hr & ->)]); [discriminate |].
        injection Hr as <- _. reflexivity.
Qed.

(** For a name that goes into the selector as it is, [getModelTags] throws
    exactly when the transport fails or answers with a status that is not a
    success. *)
Lemma getModelTags_throws (w : collaborators) (modelName : jsstring)
    (operation : jsstring) (c : cause) :
  plain_in_selector modelName = true ->
  getModelTags w modelName = Throw operation c <->
  operation = js "model tags"
  /\ ((exists reason,
         fetch w (baseUrl ++ js "/library/" ++ modelName ++ js "/tags") = Rejected reason
         /\ c = FetchRejected reason)
      \/ (exists status doc,
             fetch w (baseUrl ++ js "/library/" ++ modelName ++ js "/tags")
               = Response false status doc
             /\ c = HttpError status)).
Proof.
  intros P. unfold getModelTags, load. rewrite P.
  destruct (fetch w _) as [reason | ok status doc].
  - simpl. split.
    + intros H. injection H as <- <-. split; [reflexivity |].
      left. exists reason. split; reflexivity.
    + intros (-> & [(r & Hr & ->) | (st & d & Hr & _)]); [| discriminate].
      injection Hr as <-. reflexivity.
  - destruct ok.
    + simpl. split; [discriminate |].
      intros (_ & [(r & Hr & _) | (st & d & Hr & _)]); discriminate.
    + simpl. split.
      * intros H. injection H as <- <-. split; [reflexivity |].
        right. exists status, doc. split; reflexivity.
      * intros (-> & [(r & Hr & _) | (st & d & Hr & ->)]); [discriminate |].
        injection Hr as <- _. reflexivity.
Qed.

(** A page none of whose [li] holds a link into the library gives the empty
    listing. *)
Lemma each_without_links (sel : list (loc * node)) :
  (forall li, In li sel -> find library_link li = []) ->
  forall st, each listing_each sel st = Ok st.
Proof.
  induction sel as [| li rest IH]; intros H st; [reflexivity |].
  simpl. destruct st as [models seen]. unfold listing_each, entry_href.
  rewrite (H li (or_introl eq_refl)). simpl.
  apply IH. intros li' I. apply H. right. exact I.
Qed.

Lemma getModelListing_without_links (w : collaborators) (o : option options)
    (status : N) (doc : document) :
  fetch w (listing_url w o) = Response true status doc ->
  (forall li, In li (select (tag "li") doc) -> find library_link li = []) ->
  getModelListing w o = Return [].
Proof.
  intros Hf H. rewrite (getModelListing_loaded _ _ Hf). unfold listing_of.
  rewrite (each_without_links _ H). reflexivity.
Qed.

(** C3, at a page the transport delivered with status 200: the entry
    [<li><a href="/library/c++">c++</a> A compiler model</li>] has no [p]
    element, its slug goes into the source of the description pattern as it
    is, [new RegExp] throws, and [getModelListing] throws
    "Failed to fetch model listing: SyntaxError ...". *)
Theorem C3_listing_throws_on_loaded_page :
  fetch (serve special_slug_page) (listing_url (serve special_slug_page) None)
    = Response true 200 special_slug_page
  /\ getModelListing (serve special_slug_page) None
     = Throw (js "model listing") (InvalidRegExp (js "c++\s+(.+?)(?:\n|$)")).
Proof.
  split; [reflexivity |]. vm_compute. reflexivity.
Qed.

(** ** The record of [getModelDetails] *)

(** C10: the name of the record [getModelDetails] returns is its first
    argument, whatever the page holds; the tag only chooses the address that
    is fetched: a call with another tag that is served the same response
    returns the same record. *)
Theorem C10_details_name_is_slug (w : collaborators) (modelName : jsstring)
    (tag : option jsstring) (d : ModelDetails.t) (log : list jsstring) :
  getModelDetails w modelName tag = (Return d, log) ->
  ModelDetails.name d = modelName
  /\ (forall tag',
        fetch w (details_url modelName tag') = fetch w (details_url modelName tag) ->
        getModelDetails w modelName tag' = (Return d, log)).
Proof.
  intros H. split.
  - apply getModelDetails_returns in H. destruct H as (status & doc & _ & H).
    unfold details_of in H. destruct (readme_of w doc) as [[h m] l].
    injection H as <- _. reflexivity.
  - intros tag' E. rewrite <- H. unfold getModelDetails, load. rewrite E.
    reflexivity.
Qed.

Lemma C10_details_name_is_slug_witness :
  ModelDetails.name
    (fst (details_of (serve readme_page) (js "test-model") readme_page))
  = js "test-model".
Proof.
  refine (proj1 (@C10_details_name_is_slug (serve readme_page) (js "test-model")
                   (Some (js "7b")) _ _ _)).
  apply (@getModelDetails_loaded _ _ _ 200%N). reflexivity.
Defined.

Lemma readme_of_cases (w : collaborators) (doc : document) :
  match readmeHtml_of w doc with
  | None => readme_of w doc = (None, None, [])
  | Some h =>
      match turndown w h with
      | None => readme_of w doc = (Some h, None, [readme_warning])
      | Some markdown =>
          exists m, readme_of w doc = (Some h, m, [])
      end
  end.
Proof.
  unfold readme_of. destruct (readmeHtml_of w doc) as [h |]; [| reflexivity].
  destruct (turndown w h); [eexists |]; reflexivity.
Qed.

(** C6: in a record [getModelDetails] returns, [readmeMarkdown] is never
    present without [readmeHtml]; and when the page has a readme and the
    converter throws on it, the call returns a record with that
    [readmeHtml], no [readmeMarkdown], and one warning is printed. *)
Theorem C6_readme_fields (w : collaborators) (modelName : jsstring)
    (tag : option jsstring) :
  (forall d log,
      getModelDetails w modelName tag = (Return d, log) ->
      ~ (ModelDetails.readmeMarkdown d <> None /\ ModelDetails.readmeHtml d = None))
  /\ (forall status doc h,
        fetch w (details_url modelName tag) = Response true status doc ->
        readmeHtml_of w doc = Some h ->
        turndown w h = None ->
        exists d,
          getModelDetails w modelName tag = (Return d, [readme_warning])
          /\ ModelDetails.readmeHtml d = Some h
          /\ ModelDetails.readmeMarkdown d = None).
Proof.
  split.
  - intros d log H. apply getModelDetails_returns in H.
    destruct H as (status & doc & _ & H). unfold details_of in H.
    pose proof (readme_of_cases w doc) as C.
    destruct (readme_of w doc) as [[h m] l]. injection H as <- _. simpl.
    destruct (readmeHtml_of w doc) as [h' |].
    + destruct (turndown w h').
      * destruct C as (m' & C). injection C as -> _ _. intros [_ ?]. discriminate.
      * injection C as -> _ _. intros [_ ?]. discriminate.
    + injection C as _ -> _. intros [? _]. congruence.
  - intros status doc h Hf Hh Ht.
    rewrite (getModelDetails_loaded _ _ _ Hf). unfold details_of.
    pose proof (readme_of_cases w doc) as C. rewrite Hh, Ht in C. rewrite C.
    eexists. split; [reflexivity |]. split; reflexivity.
Qed.

Lemma C6_readme_fields_witness :
  exists d,
    getModelDetails (serve_failing_converter readme_page) (js "test-model") None
    = (Return d, [readme_warning])
    /\ ModelDetails.readmeHtml d = Some (js "<p>readme</p>")
    /\ ModelDetails.readmeMarkdown d = None.
Proof.
  refine (proj2 (@C6_readme_fields (serve_failing_converter readme_page)
                   (js "test-model") None) 200%N readme_page _ _ _ _);
    vm_compute; reflexivity.
Defined.

(** ** Loops with a set of seen names *)

Lemma eqb_eq (s t : jsstring) : eqb s t = true <-> s = t.
Proof.
  unfold eqb. destruct (list_eq_dec N.eq_dec s t); split; congruence.
Qed.

Lemma eqb_refl (s : jsstring) : eqb s s = true.
Proof. apply eqb_eq. reflexivity. Qed.

Lemma has_In (seen : list jsstring) (s : jsstring) : has seen s = true <-> In s seen.
Proof.
  unfold has. rewrite existsb_exists. split.
  - intros (t & Ht & E). apply eqb_eq in E. subst. assumption.
  - intros H. exists s. split; [assumption | apply eqb_refl].
Qed.

Lemma has_false (seen : list jsstring) (s : jsstring) :
  has seen s = false <-> ~ In s seen.
Proof.
  rewrite <- has_In. destruct (has seen s); split; congruence.
Qed.

Section Loops.
Variables E R : Type.
Variable key : E -> option jsstring.

Lemma first_of_each_names (sel : list E) : forall seen,
  NoDup seen -> NoDup (seen ++ map snd (first_of_each key seen sel)).
Proof.
  induction sel as [| e rest IH]; intros seen Hs; simpl.
  - rewrite app_nil_r. assumption.
  - destruct (key e) as [k |]; [| apply IH; assumption].
    destruct (has seen k) eqn:Hk; [apply IH; assumption |].
    simpl. specialize (IH (add seen k)). unfold add in IH.
    rewrite <- app_assoc in IH. apply IH.
    apply NoDup_app; [assumption | repeat constructor; intros [] |].
    intros a Ha [<- | []]. apply has_false in Hk. contradiction.
Qed.

(** Every element that is kept is the first of the selection with its
    name. *)
Lemma first_of_each_first (sel : list E) : forall seen e k,
  In (e, k) (first_of_each key seen sel) ->
  ~ In k seen
  /\ exists s1 s2,
       sel = s1 ++ e :: s2 /\ key e = Some k
       /\ forall e', In e' s1 -> key e' <> Some k.
Proof.
  induction sel as [| e0 rest IH]; intros seen e k H; simpl in H; [contradiction |].
  destruct (key e0) as [k0 |] eqn:K0.
  - destruct (has seen k0) eqn:Hk.
    + destruct (IH _ _ _ H) as (Hn & s1 & s2 & -> & Hk' & Hf). split; [assumption |].
      exists (e0 :: s1), s2. split; [reflexivity |]. split; [assumption |].
      intros e' [<- | He']; [| apply Hf; assumption].
      rewrite K0. intros [= ->]. apply has_In in Hk. contradiction.
    + destruct H as [[= <- <-] | H].
      * split; [apply has_false; assumption |].
        exists [], rest. split; [reflexivity |]. split; [assumption |].
        intros e' [].
      * destruct (IH _ _ _ H) as (Hn & s1 & s2 & -> & Hk' & Hf).
        unfold add in Hn. rewrite in_app_iff in Hn. split; [tauto |].
        exists (e0 :: s1), s2. split; [reflexivity |]. split; [assumption |].
        intros e' [<- | He']; [| apply Hf; assumption].
        rewrite K0. intros [= ->]. apply Hn. right. left. reflexivity.
  - destruct (IH _ _ _ H) as (Hn & s1 & s2 & -> & Hk' & Hf). split; [assumption |].
    exists (e0 :: s1), s2. split; [reflexivity |]. split; [assumption |].
    intros e' [<- | He']; [congruence | apply Hf; assumption].
Qed.

(** A loop whose body never throws. *)
Lemma fold_first_of_each (build : E -> jsstring -> R)
    (f : list R * list jsstring -> E -> list R * list jsstring) :
  (forall models seen e,
      f (models, seen) e =
      match key e with
      | None => (models, seen)
      | Some k =>
          if has seen k then (models, seen)
          else (models ++ [build e k], add seen k)
      end) ->
  forall sel models seen,
    fold_left f sel (models, seen) =
    (models ++ map (fun p => build (fst p) (snd p)) (first_of_each key seen sel),
     seen ++ map snd (first_of_each key seen sel)).
Proof.
  intros Hf. induction sel as [| e rest IH]; intros models seen; simpl.
  - rewrite !app_nil_r. reflexivity.
  - rewrite Hf. destruct (key e) as [k |]; [| apply IH].
    destruct (has seen k); [apply IH |].
    rewrite IH. simpl. unfold add. rewrite <- !app_assoc. reflexivity.
Qed.

(** A loop whose body may throw. *)
Lemma each_first_of_each (build : E -> jsstring -> attempt R)
    (f : list R * list jsstring -> E -> attempt (list R * list jsstring)) :
  (forall models seen e,
      f (models, seen) e =
      match key e with
      | None => Ok (models, seen)
      | Some k =>
          if has seen k then Ok (models, seen)
          else r <-- build e k ;; Ok (models ++ [r], add seen k)
      end) ->
  forall sel models seen models' seen',
    each f sel (models, seen) = Ok (models', seen') ->
    exists items,
      Forall2 (fun p r => build (fst p) (snd p) = Ok r)
        (first_of_each key seen sel) items
      /\ models' = models ++ items
      /\ seen' = seen ++ map snd (first_of_each key seen sel).
Proof.
  intros Hf. induction sel as [| e rest IH]; intros models seen models' seen' H;
    simpl in H |- *.
  - injection H as <- <-. exists []. rewrite !app_nil_r.
    split; [constructor | split; reflexivity].
  - rewrite Hf in H. destruct (key e) as [k |]; [| apply IH; assumption].
    destruct (has seen k); [apply IH; assumption |].
    destruct (build e k) as [r | c |] eqn:B; simpl in H; try discriminate.
    destruct (IH _ _ _ _ H) as (items & HF & -> & ->).
    exists (r :: items). split; [constructor; assumption |].
    simpl. unfold add. rewrite <- !app_assoc. split; reflexivity.
Qed.
End Loops.

(** ** The records of the operations and the elements they come from *)

Lemma listing_each_step (models : list ModelListItem.t) (seen : list jsstring)
    (li : loc * node) :
  listing_each (models, seen) li =
  match entry_name li with
  | None => Ok (models, seen)
  | Some k =>
      if has seen k then Ok (models, seen)
      else r <-- listing_item li (or_default [] (entry_href li)) k ;;
           Ok (models ++ [r], add seen k)
  end.
Proof.
  unfold listing_each, entry_name. destruct (entry_href li); reflexivity.
Qed.

Lemma listing_item_name (li : loc * node) (href k : jsstring) (r : ModelListItem.t) :
  listing_item li href k = Ok r -> ModelListItem.name r = k.
Proof.
  unfold listing_item.
  destruct (description_of li k); simpl; try discriminate.
  destruct (parameters_of (textContent (snd li))); simpl; try discriminate.
  intros [= <-]. reflexivity.
Qed.

(** The entries [getModelListing] returns are those of the first [li] of
    each name, in the order of the page. *)
Lemma listing_of_entries (doc : document) (models : list ModelListItem.t) :
  listing_of doc = Ok models ->
  Forall2 (fun p r => listing_item (fst p) (or_default [] (entry_href (fst p))) (snd p) = Ok r)
    (first_of_each entry_name [] (select (tag "li") doc)) models.
Proof.
  unfold listing_of.
  destruct (each listing_each (select (tag "li") doc) ([], [])) as [[ms sn] | |] eqn:E;
    simpl; try discriminate.
  intros [= <-].
  destruct (each_first_of_each entry_name
              (fun li k => listing_item li (or_default [] (entry_href li)) k)
              listing_each listing_each_step _ _ _ E) as (items & HF & -> & _).
  exact HF.
Qed.

Lemma Forall2_names (E R : Type) (P : E * jsstring -> R -> Prop) (name : R -> jsstring)
    (l : list (E * jsstring)) (rs : list R) :
  Forall2 P l rs -> (forall p r, P p r -> name r = snd p) ->
  map name rs = map snd l.
Proof.
  intros HF Hn. induction HF as [| p r l rs Hp _ IH]; simpl; [reflexivity |].
  rewrite (Hn _ _ Hp), IH. reflexivity.
Qed.

Lemma listing_of_names (doc : document) (models : list ModelListItem.t) :
  listing_of doc = Ok models ->
  map ModelListItem.name models =
  map snd (first_of_each entry_name [] (select (tag "li") doc)).
Proof.
  intros H. apply listing_of_entries in H.
  apply (Forall2_names ModelListItem.name H).
  intros p r Hp. apply (listing_item_name _ _ _ Hp).
Qed.

Lemma getModelListing_returns (w : collaborators) (o : option options)
    (models : list ModelListItem.t) :
  getModelListing w o = Return models ->
  exists status doc,
    fetch w (listing_url w o) = Response true status doc
    /\ listing_of doc = Ok models.
Proof.
  unfold getModelListing, load.
  destruct (fetch w (listing_url w o)) as [reason | ok status doc]; [discriminate |].
  destruct ok; [| discriminate]. simpl.
  destruct (listing_of doc) eqn:E; simpl; try discriminate.
  intros [= <-]. exists status, doc. split; [reflexivity | assumption].
Qed.

Lemma variant_each_step (doc : document) (models : list Variant.t)
    (seen : list jsstring) (el : loc * node) :
  variant_each doc (models, seen) el =
  match link_tag el with
  | None => (models, seen)
  | Some k =>
      if has seen k then (models, seen)
      else (models ++ [variant_record doc el k], add seen k)
  end.
Proof. reflexivity. Qed.

Lemma variants_of_links (doc : document) :
  variants_of doc =
  map (fun p => variant_record doc (fst p) (snd p))
    (first_of_each link_tag [] (select variant_link doc)).
Proof.
  unfold variants_of.
  rewrite (fold_first_of_each link_tag (variant_record doc) (variant_each doc)
             (variant_each_step doc)).
  reflexivity.
Qed.

Lemma tags_each_step (doc : document) (tags : list ModelTag.t)
    (seen : list jsstring) (link : loc * node) :
  tags_each doc (tags, seen) link =
  match link_tag link with
  | None => (tags, seen)
  | Some k =>
      if has seen k then (tags, seen)
      else (tags ++ [tag_record doc link k], add seen k)
  end.
Proof. reflexivity. Qed.

(** The records [getModelTags] returns are those of the first link of each
    tag, in the order of the page. *)
Lemma tags_of_page_links (modelName : jsstring) (doc : document) :
  tags_of_page modelName doc =
  map (fun p => tag_record doc (fst p) (snd p))
    (first_of_each link_tag [] (select (tag_link modelName) doc)).
Proof.
  unfold tags_of_page.
  rewrite (fold_first_of_each link_tag (tag_record doc) (tags_each doc)
             (tags_each_step doc)).
  reflexivity.
Qed.

Lemma getModelTags_returns (w : collaborators) (modelName : jsstring)
    (tags : list ModelTag.t) :
  getModelTags w modelName = Return tags ->
  exists status doc,
    fetch w (baseUrl ++ js "/library/" ++ modelName ++ js "/tags")
      = Response true status doc
    /\ tags = tags_of_page modelName doc.
Proof.
  unfold getModelTags, load.
  destruct (fetch w _) as [reason | ok status doc]; [discriminate |].
  destruct ok; [| discriminate]. simpl.
  destruct (plain_in_selector modelName); simpl; [| discriminate].
  intros [= <-]. exists status, doc. split; reflexivity.
Qed.

Lemma getModelTags_loaded (w : collaborators) (modelName : jsstring)
    (status : N) (doc : document) :
  fetch w (baseUrl ++ js "/library/" ++ modelName ++ js "/tags")
    = Response true status doc ->
  plain_in_selector modelName = true ->
  getModelTags w modelName = Return (tags_of_page modelName doc).
Proof.
  intros Hf Hp. unfold getModelTags, load. rewrite Hf. simpl. rewrite Hp.
  reflexivity.
Qed.

(** Every record of a tags page is the record of a link of the page that
    carries its name, and of the first such link. *)
Lemma tags_of_page_record (modelName : jsstring) (doc : document) (r : ModelTag.t) :
  In r (tags_of_page modelName doc) ->
  exists link before_link after_link,
    select (tag_link modelName) doc = before_link ++ link :: after_link
    /\ link_tag link = Some (ModelTag.name r)
    /\ (forall l, In l before_link -> link_tag l <> Some (ModelTag.name r))
    /\ r = tag_record doc link (ModelTag.name r).
Proof.
  rewrite tags_of_page_links, in_map_iff. intros ([link k] & <- & H).
  apply first_of_each_first in H. destruct H as (_ & s1 & s2 & E & K & F).
  exists link, s1, s2. simpl. repeat split; assumption.
Qed.

Lemma map_map_snd (E R : Type) (name : R -> jsstring) (build : E -> jsstring -> R)
    (l : list (E * jsstring)) :
  (forall e k, name (build e k) = k) ->
  map name (map (fun p => build (fst p) (snd p)) l) = map snd l.
Proof.
  intros H. rewrite map_map. apply map_ext. intros [e k]. apply H.
Qed.

Lemma NoDup_first_of_each (E : Type) (key : E -> option jsstring) (sel : list E) :
  NoDup (map snd (first_of_each key [] sel)).
Proof. apply (first_of_each_names key sel (seen := [])). constructor. Qed.

(** ** Unique names *)

Lemma Forall2_In_right (A B : Type) (P : A -> B -> Prop) (l : list A) (rs : list B) :
  Forall2 P l rs -> Forall (fun r => exists a, In a l /\ P a r) rs.
Proof.
  induction 1 as [| a r l rs Pa _ IH]; constructor.
  - exists a. split; [left; reflexivity | exact Pa].
  - eapply Forall_impl; [| exact IH]. intros r' (a' & I & Pr).
    exists a'. split; [right; exact I | exact Pr].
Qed.

(** The pairs [first_of_each] keeps are the first elements of their names. *)
Lemma first_of_each_first_named (E : Type) (key : E -> option jsstring) (sel : list E)
    (e : E) (k : jsstring) :
  In (e, k) (first_of_each key [] sel) -> first_named key sel e k.
Proof.
  intros H. apply first_of_each_first in H. destruct H as (_ & s1 & s2 & S & K & F).
  exists s1, s2. repeat split; assumption.
Qed.

Lemma Forall_map_first_named (E R : Type) (key : E -> option jsstring)
    (build : E -> jsstring -> R) (name : R -> jsstring) (sel : list E) :
  (forall e k, name (build e k) = k) ->
  Forall (fun r => exists e, first_named key sel e (name r) /\ r = build e (name r))
    (map (fun p => build (fst p) (snd p)) (first_of_each key [] sel)).
Proof.
  intros Hn. apply Forall_forall. intros r Hr. apply in_map_iff in Hr.
  destruct Hr as ([e k] & <- & I). cbn [fst snd]. rewrite Hn.
  exists e. split; [apply first_of_each_first_named; exact I | reflexivity].
Qed.

(** C5: in the array each operation returns (the entries of the catalog, the
    variants of a details record, the tags), no two records have the same
    name, and the first occurrence wins: the records are, in the order of the
    page of this call, the records built from the first element of each
    name, whatever later elements of that name hold.  The set of seen names
    starts empty at every call: the result depends on the page of this call
    only. *)
Theorem C5_names_unique (w : collaborators) :
  (forall o models,
      getModelListing w o = Return models ->
      NoDup (map ModelListItem.name models)
      /\ exists status doc,
           fetch w (listing_url w o) = Response true status doc
           /\ map ModelListItem.name models =
              map snd (first_of_each entry_name [] (select (tag "li") doc))
           /\ Forall2
                (fun p item =>
                   listing_item (fst p) (or_default [] (entry_href (fst p))) (snd p)
                   = Ok item)
                (first_of_each entry_name [] (select (tag "li") doc)) models
           /\ Forall
                (fun item =>
                   exists li,
                     first_named entry_name (select (tag "li") doc) li
                       (ModelListItem.name item)
                     /\ listing_item li (or_default [] (entry_href li))
                          (ModelListItem.name item) = Ok item)
                models)
  /\ (forall modelName tag d log,
        getModelDetails w modelName tag = (Return d, log) ->
        NoDup (map Variant.name (ModelDetails.models d))
        /\ exists status doc,
             fetch w (details_url modelName tag) = Response true status doc
             /\ map Variant.name (ModelDetails.models d) =
                map snd (first_of_each link_tag [] (select variant_link doc))
             /\ ModelDetails.models d =
                map (fun p => variant_record doc (fst p) (snd p))
                  (first_of_each link_tag [] (select variant_link doc))
             /\ Forall
                  (fun v =>
                     exists el,
                       first_named link_tag (select variant_link doc) el (Variant.name v)
                       /\ v = variant_record doc el (Variant.name v))
                  (ModelDetails.models d))
  /\ (forall modelName tags,
        getModelTags w modelName = Return tags ->
        NoDup (map ModelTag.name tags)
        /\ exists status doc,
             fetch w (baseUrl ++ js "/library/" ++ modelName ++ js "/tags")
               = Response true status doc
             /\ map ModelTag.name tags =
                map snd (first_of_each link_tag [] (select (tag_link modelName) doc))
             /\ tags =
                map (fun p => tag_record doc (fst p) (snd p))
                  (first_of_each link_tag [] (select (tag_link modelName) doc))
             /\ Forall
                  (fun r =>
                     exists link,
                       first_named link_tag (select (tag_link modelName) doc) link
                         (ModelTag.name r)
                       /\ r = tag_record doc link (ModelTag.name r))
                  tags).
Proof.
  split; [| split].
  - intros o models H. apply getModelListing_returns in H.
    destruct H as (status & doc & Hf & H).
    split; [rewrite (listing_of_names _ H); apply NoDup_first_of_each |].
    exists status, doc. split; [assumption |].
    split; [apply listing_of_names; assumption |].
    pose proof (listing_of_entries _ H) as F2. split; [exact F2 |].
    apply Forall2_In_right in F2. apply Forall_forall. intros item I.
    rewrite Forall_forall in F2. destruct (F2 item I) as ([li k] & Ip & B).
    cbn [fst snd] in B. rewrite (listing_item_name _ _ _ B).
    exists li. split; [apply first_of_each_first_named; exact Ip | exact B].
  - intros modelName tag d log H. apply getModelDetails_returns in H.
    destruct H as (status & doc & Hf & H).
    assert (M : ModelDetails.models d = variants_of doc).
    { unfold details_of in H. destruct (readme_of w doc) as [[h m] l].
      injection H as <- _. reflexivity. }
    rewrite M, variants_of_links.
    split; [rewrite (map_map_snd Variant.name (variant_record doc)) by reflexivity;
            apply NoDup_first_of_each |].
    exists status, doc. split; [assumption |].
    split; [apply (map_map_snd Variant.name (variant_record doc)); reflexivity |].
    split; [reflexivity |].
    apply (Forall_map_first_named link_tag (variant_record doc) Variant.name).
    reflexivity.
  - intros modelName tags H. apply getModelTags_returns in H.
    destruct H as (status & doc & Hf & ->). rewrite tags_of_page_links.
    split; [rewrite (map_map_snd ModelTag.name (tag_record doc)) by reflexivity;
            apply NoDup_first_of_each |].
    exists status, doc. split; [assumption |].
    split; [apply (map_map_snd ModelTag.name (tag_record doc)); reflexivity |].
    split; [reflexivity |].
    apply (Forall_map_first_named link_tag (tag_record doc) ModelTag.name).
    reflexivity.
Qed.

Lemma C5_names_unique_witness :
  getModelTags (serve repeated_tags_page) (js "test-model")
    = Return (tags_of_page (js "test-model") repeated_tags_page)
  /\ map ModelTag.name (tags_of_page (js "test-model") repeated_tags_page)
     = [js "latest"; js "7b"]
  /\ NoDup (map ModelTag.name (tags_of_page (js "test-model") repeated_tags_page))
  /\ getModelTags (serve twice_tagged_page) (js "m")
     = Return [{| ModelTag.name := js "t";
                  ModelTag.size := js "1GB";
                  ModelTag.digest := [];
                  ModelTag.modifiedAt := [];
                  ModelTag.contextWindow := None;
                  ModelTag.inputType := None;
                  ModelTag.aliases := None |}]
  /\ exists status doc,
       fetch (serve twice_tagged_page) (baseUrl ++ js "/library/" ++ js "m" ++ js "/tags")
         = Response true status doc
       /\ tags_of_page (js "m") twice_tagged_page =
          map (fun p => tag_record doc (fst p) (snd p))
            (first_of_each link_tag [] (select (tag_link (js "m")) doc)).
Proof.
  assert (H : getModelTags (serve repeated_tags_page) (js "test-model")
              = Return (tags_of_page (js "test-model") repeated_tags_page))
    by (apply (@getModelTags_loaded _ _ 200%N); reflexivity).
  assert (H2 : getModelTags (serve twice_tagged_page) (js "m")
               = Return (tags_of_page (js "m") twice_tagged_page))
    by (apply (@getModelTags_loaded _ _ 200%N); reflexivity).
  split; [exact H |]. split; [vm_compute; reflexivity |].
  split; [exact (proj1 (proj2 (proj2 (C5_names_unique (serve repeated_tags_page))) _ _ H)) |].
  split; [rewrite H2; vm_compute; reflexivity |].
  destruct (proj2 (proj2 (proj2 (C5_names_unique (serve twice_tagged_page))) _ _ H2))
    as (status & doc & Hf & _ & Hr & _).
  exists status, doc. split; [exact Hf | exact Hr].
Defined.

(** ** Aliases *)

Lemma aliases_of_cases (tagName text tagText : jsstring) :
  aliases_of tagName text tagText =
  if (negb (eqb tagName (js "latest")) && includes (js "latest") tagText)%bool
  then [js "latest"] else [].
Proof.
  unfold aliases_of. destruct (eqb tagName (js "latest")); simpl; [| reflexivity].
  destruct (includes (js "latest") text); reflexivity.
Qed.

Lemma tag_record_aliases (doc : document) (link : loc * node) (tagName : jsstring) :
  ModelTag.aliases (tag_record doc link tagName) =
  if (negb (eqb tagName (js "latest"))
      && includes (js "latest") (toLowerCase (textContent (snd link))))%bool
  then Some [js "latest"] else None.
Proof.
  unfold tag_record. simpl. rewrite aliases_of_cases.
  destruct (negb _ && _)%bool; reflexivity.
Qed.

(** C9: the record of a tag has the aliases ["latest"] exactly when its name
    is not "latest" and the text of its own link, in lower case, contains
    "latest"; otherwise it has no aliases. *)
Theorem C9_aliases_from_link_label (w : collaborators) (modelName : jsstring)
    (tags : list ModelTag.t) :
  getModelTags w modelName = Return tags ->
  exists status doc,
    fetch w (baseUrl ++ js "/library/" ++ modelName ++ js "/tags")
      = Response true status doc
    /\ Forall (fun r =>
         exists link,
           In link (select (tag_link modelName) doc)
           /\ link_tag link = Some (ModelTag.name r)
           /\ r = tag_record doc link (ModelTag.name r)
           /\ (ModelTag.aliases r = Some [js "latest"] <->
               ModelTag.name r <> js "latest"
               /\ includes (js "latest") (toLowerCase (textContent (snd link))) = true)
           /\ (ModelTag.aliases r = Some [js "latest"] \/ ModelTag.aliases r = None))
         tags.
Proof.
  intros H. apply getModelTags_returns in H. destruct H as (status & doc & Hf & ->).
  exists status, doc. split; [assumption |]. apply Forall_forall. intros r Hr.
  apply tags_of_page_record in Hr.
  destruct Hr as (link & s1 & s2 & Hs & Hk & _ & Hr).
  exists link. split; [rewrite Hs; apply in_elt |]. split; [assumption |].
  split; [assumption |].
  assert (A : ModelTag.aliases r =
              if (negb (eqb (ModelTag.name r) (js "latest"))
                  && includes (js "latest") (toLowerCase (textContent (snd link))))%bool
              then Some [js "latest"] else None)
    by (rewrite <- (tag_record_aliases doc link (ModelTag.name r)), <- Hr; reflexivity).
  rewrite A. clear A Hr.
  destruct (eqb (ModelTag.name r) (js "latest")) eqn:E; simpl.
  - apply eqb_eq in E. split; [| right; reflexivity].
    split; [discriminate | intros [N _]; contradiction].
  - assert (N : ModelTag.name r <> js "latest")
      by (intros C; apply eqb_eq in C; congruence).
    destruct (includes (js "latest") (toLowerCase (textContent (snd link)))).
    + split; [| left; reflexivity]. split; [intros _; split; [assumption | reflexivity] | reflexivity].
    + split; [| right; reflexivity]. split; [discriminate | intros [_ C]; discriminate].
Qed.

Lemma C9_aliases_from_link_label_witness :
  getModelTags (serve repeated_tags_page) (js "test-model")
    = Return (tags_of_page (js "test-model") repeated_tags_page)
  /\ map ModelTag.aliases (tags_of_page (js "test-model") repeated_tags_page)
     = [None; Some [js "latest"]]
  /\ exists status doc,
       fetch (serve repeated_tags_page)
         (baseUrl ++ js "/library/" ++ js "test-model" ++ js "/tags")
         = Response true status doc
       /\ Forall (fun r =>
            exists link,
              In link (select (tag_link (js "test-model")) doc)
              /\ link_tag link = Some (ModelTag.name r)
              /\ r = tag_record doc link (ModelTag.name r)
              /\ (ModelTag.aliases r = Some [js "latest"] <->
                  ModelTag.name r <> js "latest"
                  /\ includes (js "latest") (toLowerCase (textContent (snd link))) = true)
              /\ (ModelTag.aliases r = Some [js "latest"] \/ ModelTag.aliases r = None))
            (tags_of_page (js "test-model") repeated_tags_page).
Proof.
  assert (H : getModelTags (serve repeated_tags_page) (js "test-model")
              = Return (tags_of_page (js "test-model") repeated_tags_page))
    by (apply (@getModelTags_loaded _ _ 200%N); reflexivity).
  split; [exact H |]. split; [vm_compute; reflexivity |].
  exact (C9_aliases_from_link_label _ _ H).
Defined.

(** ** The link of a catalog entry *)

Lemma first_In (A : Type) (l : list A) (a : A) : hd_error l = Some a -> In a l.
Proof. destruct l; simpl; [discriminate | intros [= ->]; left; reflexivity]. Qed.

Lemma library_link_href (li link : loc * node) :
  first (find library_link li) = Some link ->
  exists href,
    attr "href" (snd link) = Some href
    /\ startsWith (js "/library/") href = true.
Proof.
  intros H. apply first_In in H. unfold find in H. apply filter_In in H.
  destruct H as [_ H]. unfold library_link, attr_is in H.
  apply andb_true_iff in H. destruct H as [_ H].
  destruct (attr "href" (snd link)) as [href |]; [| discriminate].
  exists href. split; [reflexivity | assumption].
Qed.

Lemma entry_href_cases (li : loc * node) :
  entry_href li =
  match first (find library_link li) with
  | None => None
  | Some link =>
      if (includes (js "/tags") (href_of link) || includes (js ":") (href_of link))%bool
      then None else Some (href_of link)
  end.
Proof.
  unfold entry_href. destruct (first (find library_link li)) as [link |] eqn:F;
    [| reflexivity].
  destruct (library_link_href _ F) as (href & Ha & Hs).
  unfold href_of. rewrite Ha. simpl.
  destruct href as [| c href']; [discriminate Hs |]. reflexivity.
Qed.

Lemma app_one_neq (A : Type) (l : list A) (a : A) : l ++ [a] <> l.
Proof.
  intros H. apply (f_equal (@length A)) in H. rewrite length_app in H.
  simpl in H. lia.
Qed.

(** C8, as the code has it: the link an entry is read from is the first link
    of the container whose [href] starts with [/library/], whatever follows
    the prefix.  The container is rejected exactly when there is no such
    link, or the [href] of that link contains [/tags] or a colon, or its slug
    was already seen; links that come later in the container are not looked
    at.  A container that gives a record gives the record of that slug. *)
Theorem C8_container_rejection (li : loc * node) (models : list ModelListItem.t)
    (seen : list jsstring) :
  (listing_each (models, seen) li = Ok (models, seen) <->
   match first (find library_link li) with
   | None => True
   | Some link =>
       includes (js "/tags") (href_of link) = true
       \/ includes (js ":") (href_of link) = true
       \/ has seen (replace (js "/library/") [] (href_of link)) = true
   end)
  /\ (forall st',
        listing_each (models, seen) li = Ok st' -> st' <> (models, seen) ->
        exists link item,
          first (find library_link li) = Some link
          /\ ModelListItem.name item = replace (js "/library/") [] (href_of link)
          /\ st' = (models ++ [item], add seen (ModelListItem.name item))).
Proof.
  unfold listing_each. rewrite entry_href_cases.
  destruct (first (find library_link li)) as [link |]; [| split; [tauto |]].
  2: { intros st' [= <-] N. contradiction. }
  destruct (includes (js "/tags") (href_of link)); simpl.
  { split; [tauto |]. intros st' [= <-] N. contradiction. }
  destruct (includes (js ":") (href_of link)); simpl.
  { split; [tauto |]. intros st' [= <-] N. contradiction. }
  destruct (has seen (replace (js "/library/") [] (href_of link))).
  { split; [tauto |]. intros st' [= <-] N. contradiction. }
  destruct (listing_item li (href_of link) (replace (js "/library/") [] (href_of link)))
    as [item | c |] eqn:I; simpl.
  - split.
    + split.
      * intros [= H _]. apply app_one_neq in H. contradiction.
      * intros [H | [H | H]]; discriminate.
    + intros st' [= <-] _. exists link, item.
      rewrite (listing_item_name _ _ _ I). repeat split.
  - split; [| discriminate]. split; [discriminate |].
    intros [H | [H | H]]; discriminate.
  - split; [| discriminate]. split; [discriminate |].
    intros [H | [H | H]]; discriminate.
Qed.

(** C8 as stated fails: the container of [variant_link_first_page] holds a
    link of the catalog pattern whose slug was not seen, and is rejected,
    because a variant link comes first. *)
Lemma C8_variant_link_hides_catalog_link :
  exists li link,
    In li (select (tag "li") variant_link_first_page)
    /\ first (find catalog_link li) = Some link
    /\ href_of link = js "/library/llama3"
    /\ has [] (replace (js "/library/") [] (href_of link)) = false
    /\ listing_each ([], []) li = Ok ([], [])
    /\ getModelListing (serve variant_link_first_page) None = Return [].
Proof.
  eexists. eexists. split; [left; reflexivity |].
  split; [vm_compute; reflexivity |].
  repeat split; vm_compute; reflexivity.
Qed.

(** ** The text of a tag *)

Lemma has_size_unit_nonempty (t : jsstring) : has_size_unit t = true -> t <> [].
Proof. intros H ->. discriminate H. Qed.

Lemma fields_of_empty_text :
  size_of [] = [] /\ digest_of [] = [] /\ modifiedAt_of [] = []
  /\ contextWindow_of [] = None /\ inputType_of [] = None.
Proof. repeat split; vm_compute; reflexivity. Qed.

Lemma startsWith_prefix (p s : jsstring) :
  startsWith p s = true <-> exists post, s = p ++ post.
Proof.
  revert s. induction p as [| a p IH]; intros s.
  - split; [intros _; exists s; reflexivity | reflexivity].
  - destruct s as [| b s]; cbn [startsWith].
    + split; [discriminate | intros (post & E); discriminate E].
    + rewrite andb_true_iff, N.eqb_eq, IH. split.
      * intros (-> & post & ->). exists post. reflexivity.
      * intros (post & E). injection E as -> ->. split; [reflexivity |].
        exists post. reflexivity.
Qed.

Lemma includes_occurs (p s : jsstring) : includes p s = true <-> occurs p s.
Proof.
  unfold occurs. induction s as [| c s IH].
  - cbn [includes]. rewrite orb_false_r, startsWith_prefix. split.
    + intros (post & E). exists [], post. exact E.
    + intros (pre & post & E). destruct pre; [exists post; exact E | discriminate E].
  - cbn [includes]. rewrite orb_true_iff, startsWith_prefix, IH. split.
    + intros [(post & E) | (pre & post & E)].
      * exists [], post. exact E.
      * exists (c :: pre), post. rewrite E. reflexivity.
    + intros (pre & post & E). destruct pre as [| d pre].
      * left. exists post. exact E.
      * right. injection E as _ E. exists pre, post. exact E.
Qed.

Lemma has_size_unit_spec (t : jsstring) : has_size_unit t = true <-> has_unit t.
Proof.
  unfold has_size_unit, has_unit.
  rewrite !orb_true_iff, !includes_occurs. tauto.
Qed.

Lemma plausible_spec (limit : option nat) (t : jsstring) :
  plausible limit t = true <-> accepted limit t.
Proof.
  unfold plausible, accepted. rewrite andb_true_iff, has_size_unit_spec.
  destruct limit as [n |]; [rewrite Nat.ltb_lt |]; tauto.
Qed.

(** The node at the end of a path that goes one step further. *)
Lemma node_along_app (path : list nat) (j : nat) : forall cs,
  path <> [] ->
  node_along cs (path ++ [j]) =
  match node_along cs path with
  | Some (Element _ _ cs') => nth_error cs' j
  | _ => None
  end.
Proof.
  induction path as [| i path IH]; intros cs N; [contradiction |].
  cbn [app node_along]. destruct (nth_error cs i) as [n |]; [| reflexivity].
  destruct path as [| i' path].
  - cbn [app]. destruct n as [| | name attribs cs']; try reflexivity.
    cbn [node_along]. destruct (nth_error cs' j); reflexivity.
  - cbn [app]. destruct n as [| | name attribs cs']; try reflexivity.
    apply (IH cs'). discriminate.
Qed.

(** The node at a place is the child of that index of its parent. *)
Lemma node_at_child (doc : document) (j : nat) (q : loc) :
  node_at doc (j :: q) = nth_error (children_at doc q) j.
Proof.
  unfold children_at. destruct q as [| i q].
  - unfold node_at. cbn [rev app node_along]. destruct (nth_error doc j); reflexivity.
  - unfold node_at at 1. change (rev (j :: i :: q)) with (rev (i :: q) ++ [j]).
    rewrite node_along_app.
    + unfold node_at. destruct (node_along doc (rev (i :: q))) as [[| | name attribs cs] |];
        try reflexivity; destruct j; reflexivity.
    + cbn [rev]. intros E. apply app_eq_nil in E. destruct E as (_ & E). discriminate E.
Qed.

Lemma first_element_spec (cs : list node) : forall k j c,
  first_element k cs = Some (j, c) <->
  exists d,
    j = k + d /\ nth_error cs d = Some c /\ is_element c
    /\ forall d' n, d' < d -> nth_error cs d' = Some n -> ~ is_element n.
Proof.
  induction cs as [| c0 cs IH]; intros k j c.
  - cbn [first_element]. split; [discriminate |].
    intros (d & _ & E & _). destruct d; discriminate E.
  - cbn [first_element].
    assert (Step : ~ is_element c0 ->
                   (first_element (S k) cs = Some (j, c) <->
                    exists d,
                      j = k + d /\ nth_error (c0 :: cs) d = Some c /\ is_element c
                      /\ forall d' n, d' < d -> nth_error (c0 :: cs) d' = Some n ->
                                      ~ is_element n)).
    { intros N0. rewrite IH. split.
      - intros (d & -> & E & El & F). exists (S d). split; [lia |].
        split; [exact E |]. split; [exact El |].
        intros d' n L En. destruct d' as [| d']; [injection En as <-; exact N0 |].
        apply (F d' n); [lia | exact En].
      - intros (d & -> & E & El & F). destruct d as [| d].
        + injection E as <-. contradiction.
        + exists d. split; [lia |]. split; [exact E |]. split; [exact El |].
          intros d' n L En. apply (F (S d') n); [lia | exact En]. }
    destruct c0 as [data | data | name attribs children].
    + apply Step. intros [].
    + apply Step. intros [].
    + split.
      * intros [= <- <-]. exists 0. split; [lia |]. split; [reflexivity |].
        split; [exact I |]. intros d' n L. lia.
      * intros (d & -> & E & El & F). destruct d as [| d].
        -- injection E as <-. rewrite Nat.add_0_r. reflexivity.
        -- exfalso. apply (F 0 (Element name attribs children)); [lia | reflexivity | exact I].
Qed.

Lemma nth_error_skipn (A : Type) (l : list A) : forall n d,
  nth_error (skipn n l) d = nth_error l (n + d).
Proof.
  induction l as [| a l IH]; intros n d.
  - rewrite skipn_nil. destruct d, n; reflexivity.
  - destruct n as [| n]; [reflexivity |]. cbn [skipn Nat.add nth_error]. apply IH.
Qed.

(** [.next()] gives the next sibling that is an element. *)
Lemma next_spec (doc : document) (l l' : loc) (e : node) :
  next doc l = Some (l', e) <-> next_element doc l l' e.
Proof.
  unfold next, next_element. destruct l as [| i q].
  - split; [discriminate | intros (i & j & q & E & _); discriminate E].
  - destruct (first_element (S i) (skipn (S i) (children_at doc q))) as [[j c] |] eqn:F.
    + apply first_element_spec in F. destruct F as (d & -> & E & El & Fn).
      rewrite nth_error_skipn in E. split.
      * intros [= <- <-]. exists i, (S i + d), q.
        split; [reflexivity |]. split; [reflexivity |]. split; [lia |].
        split; [rewrite node_at_child; exact E |]. split; [exact El |].
        intros k n L1 L2 Nk. rewrite node_at_child in Nk.
        apply (Fn (k - S i) n); [lia |].
        rewrite nth_error_skipn. replace (S i + (k - S i)) with k by lia. exact Nk.
      * intros (i' & j & q' & [= <- <-] & -> & L & Nj & Ej & Fj).
        rewrite node_at_child in Nj.
        destruct (Nat.lt_trichotomy j (S i + d)) as [C | [C | C]].
        -- exfalso. apply (Fn (j - S i) e); [lia | | exact Ej].
           rewrite nth_error_skipn. replace (S i + (j - S i)) with j by lia. exact Nj.
        -- subst j. rewrite E in Nj. injection Nj as <-. reflexivity.
        -- exfalso. apply (Fj (S i + d) c); [lia | exact C | | exact El].
           rewrite node_at_child. exact E.
    + split; [discriminate |].
      intros (i' & j & q' & [= <- <-] & -> & L & Nj & Ej & Fj). exfalso.
      rewrite node_at_child in Nj.
      assert (G : forall k, first_element k (skipn (S i) (children_at doc q)) = None ->
                  forall d n, nth_error (skipn (S i) (children_at doc q)) d = Some n ->
                              ~ is_element n).
      { generalize (skipn (S i) (children_at doc q)). intros cs.
        induction cs as [| c0 cs IH]; intros k H d n E; [destruct d; discriminate E |].
        cbn [first_element] in H. destruct c0 as [data | data | name attribs children];
          try discriminate H;
          (destruct d as [| d]; [injection E as <-; intros [] | exact (IH _ H d n E)]). }
      apply (G _ F (j - S i) e); [| exact Ej].
      rewrite nth_error_skipn. replace (S i + (j - S i)) with j by lia. exact Nj.
Qed.

Lemma next_element_functional (doc : document) (l l1 l2 : loc) (e1 e2 : node) :
  next_element doc l l1 e1 -> next_element doc l l2 e2 -> l1 = l2 /\ e1 = e2.
Proof.
  intros H1 H2. apply next_spec in H1, H2. rewrite H1 in H2.
  injection H2 as -> ->. split; reflexivity.
Qed.

Lemma has_unit_nonempty (t : jsstring) : has_unit t -> t <> [].
Proof. intros H. apply has_size_unit_spec in H. exact (@has_size_unit_nonempty t H). Qed.

Lemma climbs_nonempty (doc : document) (n : nat) (l : loc) (t : jsstring) :
  climbs doc n l t -> t <> [].
Proof.
  induction 1 as [n i q a _ _ A | n i q t _ _ _ IH]; [| exact IH].
  apply has_unit_nonempty. exact (proj1 A).
Qed.

Lemma scans_nonempty (doc : document) (n : nat) (l : loc) (t : jsstring) :
  scans doc n l t -> t <> [].
Proof.
  induction 1 as [n l l' e _ A | n l l' e t _ _ _ IH]; [| exact IH].
  apply has_unit_nonempty. exact (proj1 A).
Qed.

Lemma climbs_functional (doc : document) (n : nat) (l : loc) (t t' : jsstring) :
  climbs doc n l t -> climbs doc n l t' -> t = t'.
Proof.
  intros H. revert t'.
  induction H as [n i q a Nq Na A | n i q t Nq Fa _ IH]; intros t' H'.
  - inversion H' as [? ? ? a' _ Na' _ | ? ? ? ? _ Fa' _]; subst.
    + rewrite Na in Na'. injection Na' as <-. reflexivity.
    + exfalso. exact (Fa' a Na A).
  - inversion H' as [? ? ? a' _ Na' A' | ? ? ? ? _ _ H'']; subst.
    + exfalso. exact (Fa a' Na' A').
    + exact (IH _ H'').
Qed.

Lemma scans_functional (doc : document) (n : nat) (l : loc) (t t' : jsstring) :
  scans doc n l t -> scans doc n l t' -> t = t'.
Proof.
  intros H. revert t'.
  induction H as [n l l1 e N1 A | n l l1 e t N1 Fa _ IH]; intros t' H'.
  - inversion H' as [? ? l2 e2 N2 _ | ? ? l2 e2 ? N2 Fa' _]; subst;
      destruct (next_element_functional N1 N2) as (<- & <-).
    + reflexivity.
    + exfalso. exact (Fa' A).
  - inversion H' as [? ? l2 e2 N2 A' | ? ? l2 e2 ? N2 _ H'']; subst;
      destruct (next_element_functional N1 N2) as (<- & <-).
    + exfalso. exact (Fa A').
    + exact (IH _ H'').
Qed.

(** The loop over the containers of the link. *)
Lemma walk_up_spec (doc : document) (n : nat) : forall l,
  climbs doc n l (walk_up doc (parent l) n)
  \/ ((forall t, ~ climbs doc n l t) /\ walk_up doc (parent l) n = []).
Proof.
  induction n as [| n IH]; intros l.
  - right. split; [intros t H; inversion H | destruct (parent l); reflexivity].
  - destruct l as [| i [| i' q']].
    + right. split; [intros t H; inversion H | reflexivity].
    + right. split; [| reflexivity].
      intros t H. inversion H as [? ? ? ? Nq _ _ | ? ? ? ? Nq _ _]; contradiction.
    + set (q := i' :: q'). change (parent (i :: q)) with (Some q).
      cbn [walk_up].
      assert (Nq : q <> []) by discriminate.
      assert (T : forall a, node_at doc q = Some a -> text_at doc q = textContent a)
        by (intros a Ha; unfold text_at; rewrite Ha; reflexivity).
      destruct (has_size_unit (text_at doc q) && Nat.ltb (length (text_at doc q)) 200)%bool
        eqn:P.
      * left. change (plausible (Some 200) (text_at doc q) = true) in P.
        apply plausible_spec in P.
        destruct (node_at doc q) as [a |] eqn:Na.
        -- rewrite (T a eq_refl) in *. exact (@climbs_here doc n i q a Nq Na P).
        -- exfalso. unfold text_at in P. rewrite Na in P.
           exact (has_unit_nonempty (proj1 P) eq_refl).
      * assert (Fa : forall a, node_at doc q = Some a ->
                     ~ accepted (Some 200) (textContent a)).
        { intros a Na A. rewrite <- (T a Na) in A. apply plausible_spec in A.
          unfold plausible in A. rewrite A in P. discriminate P. }
        destruct (IH q) as [C | (C & E)].
        -- left. exact (@climbs_up doc n i q _ Nq Fa C).
        -- right. split; [| exact E].
           intros t H. inversion H as [? ? ? a _ Na A | ? ? ? ? _ _ H']; subst.
           ++ exact (Fa a Na A).
           ++ exact (C t H').
Qed.

(** The loop over the elements that follow the link. *)
Lemma scan_next_spec (doc : document) (n : nat) : forall l,
  scans doc n l (scan_next doc l n)
  \/ ((forall t, ~ scans doc n l t) /\ scan_next doc l n = []).
Proof.
  induction n as [| n IH]; intros l.
  - right. split; [intros t H; inversion H | reflexivity].
  - cbn [scan_next]. destruct (next doc l) as [[l' e] |] eqn:Nx.
    + apply next_spec in Nx.
      destruct (has_size_unit (textContent e) && Nat.ltb (length (textContent e)) 100)%bool
        eqn:P.
      * left. change (plausible (Some 100) (textContent e) = true) in P.
        apply plausible_spec in P. exact (@scans_here doc n l l' e Nx P).
      * assert (Fa : ~ accepted (Some 100) (textContent e)).
        { intros A. apply plausible_spec in A. unfold plausible in A.
          rewrite A in P. discriminate P. }
        destruct (IH l') as [C | (C & E)].
        -- left. exact (@scans_on doc n l l' e _ Nx Fa C).
        -- right. split; [| exact E].
           intros t H. inversion H as [? ? l2 e2 N2 A | ? ? l2 e2 ? N2 _ H']; subst;
             destruct (next_element_functional Nx N2) as (<- & <-).
           ++ exact (Fa A).
           ++ exact (C t H').
    + right. split; [| reflexivity].
      intros t H. inversion H as [? ? l2 e2 N2 _ | ? ? l2 e2 ? N2 _ _]; subst;
        apply next_spec in N2; rewrite Nx in N2; discriminate N2.
Qed.

(** The text [getModelTags] reads the fields of a tag from is the text the
    cascade chooses. *)
Lemma tag_text_spec (doc : document) (link : loc) :
  cascade_text doc link (tag_text doc link).
Proof.
  unfold tag_text, cascade_text.
  assert (Later :
            (forall l' e, next_element doc link l' e -> ~ accepted None (textContent e)) ->
            let t := match walk_up doc (parent link) 3 with
                     | [] => scan_next doc link 3
                     | _ :: _ => walk_up doc (parent link) 3
                     end in
            (forall l' e, next_element doc link l' e -> ~ accepted None (textContent e))
            /\ (climbs doc 3 link t
                \/ ((forall t', ~ climbs doc 3 link t')
                    /\ (scans doc 3 link t
                        \/ ((forall t', ~ scans doc 3 link t') /\ t = []))))).
  { intros F1 t. split; [exact F1 |]. unfold t.
    destruct (walk_up_spec doc 3 link) as [C | (C & E)].
    - left. pose proof (climbs_nonempty C) as Nw.
      destruct (walk_up doc (parent link) 3) eqn:W; [contradiction | exact C].
    - right. split; [exact C |]. rewrite E.
      destruct (scan_next_spec doc 3 link) as [S | (S & E')].
      + left. exact S.
      + right. split; [exact S | exact E']. }
  destruct (next doc link) as [[l1 sibling] |] eqn:Nx.
  - apply next_spec in Nx. destruct (has_size_unit (textContent sibling)) eqn:U.
    + left. exists l1, sibling. split; [exact Nx |].
      assert (A : accepted None (textContent sibling))
        by (split; [apply has_size_unit_spec; exact U | exact I]).
      split; [exact A |].
      destruct (textContent sibling) as [| c s] eqn:T;
        [exfalso; exact (has_unit_nonempty (proj1 A) eq_refl) | reflexivity].
    + right. apply Later. intros l' e N2 A.
      destruct (next_element_functional Nx N2) as (<- & <-).
      apply proj1, has_size_unit_spec in A. rewrite A in U. discriminate U.
  - right. apply Later. intros l' e N2 _. apply next_spec in N2.
    rewrite Nx in N2. discriminate N2.
Qed.

(** The cascade chooses one text. *)
Lemma cascade_text_unique (doc : document) (link : loc) (t t' : jsstring) :
  cascade_text doc link t -> cascade_text doc link t' -> t' = t.
Proof.
  intros [(l1 & e1 & N1 & A1 & ->) | (F1 & H1)] [(l2 & e2 & N2 & A2 & ->) | (F2 & H2)].
  - destruct (next_element_functional N1 N2) as (_ & <-). reflexivity.
  - exfalso. exact (F2 l1 e1 N1 A1).
  - exfalso. exact (F1 l2 e2 N2 A2).
  - destruct H1 as [C1 | (C1 & S1)], H2 as [C2 | (C2 & S2)].
    + exact (climbs_functional C2 C1).
    + exfalso. exact (C2 t C1).
    + exfalso. exact (C1 t' C2).
    + destruct S1 as [S1 | (S1 & ->)], S2 as [S2 | (S2 & ->)].
      * exact (scans_functional S2 S1).
      * exfalso. exact (S2 t S1).
      * exfalso. exact (S1 t' S2).
      * reflexivity.
Qed.

(** The record of a tag link is read from the text the cascade chooses. *)
Lemma tag_record_cascade (doc : document) (link : loc * node) (k : jsstring) :
  cascade_record doc link (tag_record doc link k).
Proof.
  exists (tag_text doc (fst link)).
  pose proof (tag_text_spec doc (fst link)) as T.
  split; [exact T |].
  split; [intros t' T'; exact (cascade_text_unique T T') |].
  cbn [tag_record ModelTag.size ModelTag.digest ModelTag.modifiedAt
       ModelTag.contextWindow ModelTag.inputType].
  repeat (split; [reflexivity |]).
  intros ->. destruct fields_of_empty_text as (E1 & E2 & E3 & E4 & E5).
  repeat split; assumption.
Qed.

(** C2: the record of every tag is read from the text a three-stage cascade
    chooses for the first link of the tag, stopping at the first stage that
    accepts a text: (1) the text of the next sibling element of the link, if
    it has one of the units GB, MB and TB; (2) or else the text of the
    nearest of the 3 first ancestors of the link whose text has a unit and
    fewer than 200 code units; (3) or else the text of the first of the 3
    elements that follow the link whose text has a unit and fewer than 100
    code units.  The stages are read from the tree, and choose one text.
    When the three stages fail the text is empty, digest, size and
    modifiedAt are empty and contextWindow and inputType are undefined. *)
Theorem C2_metadata_text_cascade (w : collaborators) (modelName : jsstring)
    (tags : list ModelTag.t) :
  getModelTags w modelName = Return tags ->
  exists status doc,
    fetch w (baseUrl ++ js "/library/" ++ modelName ++ js "/tags")
      = Response true status doc
    /\ Forall (fun r =>
         exists link,
           first_named link_tag (select (tag_link modelName) doc) link (ModelTag.name r)
           /\ cascade_record doc link r)
         tags.
Proof.
  intros H. apply getModelTags_returns in H. destruct H as (status & doc & Hf & ->).
  exists status, doc. split; [assumption |]. apply Forall_forall. intros r Hr.
  apply tags_of_page_record in Hr.
  destruct Hr as (link & s1 & s2 & Hs & Hk & Hn & Hr).
  exists link. split; [exists s1, s2; repeat split; assumption |].
  rewrite Hr. apply tag_record_cascade.
Qed.

Lemma C2_metadata_text_cascade_witness :
  (* stage 1: the next sibling element *)
  (getModelTags (serve tags_page) (js "llava") = Return [tags_page_record]
   /\ map (fun link => tag_text tags_page (fst link))
        (select (tag_link (js "llava")) tags_page)
      = [js "4.7GB " ++ [8226%N] ++ js " 32K context window " ++ [8226%N]
         ++ js " Text input " ++ [8226%N] ++ js " abc123def456 "
         ++ [8226%N] ++ js " 2 days ago"]
   /\ exists status doc,
        fetch (serve tags_page) (baseUrl ++ js "/library/" ++ js "llava" ++ js "/tags")
          = Response true status doc
        /\ Forall (fun r =>
             exists link,
               first_named link_tag (select (tag_link (js "llava")) doc) link
                 (ModelTag.name r)
               /\ cascade_record doc link r)
             [tags_page_record])
  (* stage 2: the container of the link *)
  /\ (getModelTags (serve container_tag_page) (js "llava") = Return [container_tag_record]
      /\ map (fun link => tag_text container_tag_page (fst link))
           (select (tag_link (js "llava")) container_tag_page)
         = [js "13b 8.0GB " ++ [183%N] ++ js " 3 weeks ago"]
      /\ exists status doc,
           fetch (serve container_tag_page)
             (baseUrl ++ js "/library/" ++ js "llava" ++ js "/tags")
             = Response true status doc
           /\ Forall (fun r =>
                exists link,
                  first_named link_tag (select (tag_link (js "llava")) doc) link
                    (ModelTag.name r)
                  /\ cascade_record doc link r)
                [container_tag_record])
  (* stage 3: the second element after the link *)
  /\ (getModelTags (serve far_sibling_tag_page) (js "llava")
        = Return [far_sibling_tag_record]
      /\ map (fun link => tag_text far_sibling_tag_page (fst link))
           (select (tag_link (js "llava")) far_sibling_tag_page)
         = [js "20GB"]
      /\ exists status doc,
           fetch (serve far_sibling_tag_page)
             (baseUrl ++ js "/library/" ++ js "llava" ++ js "/tags")
             = Response true status doc
           /\ Forall (fun r =>
                exists link,
                  first_named link_tag (select (tag_link (js "llava")) doc) link
                    (ModelTag.name r)
                  /\ cascade_record doc link r)
                [far_sibling_tag_record])
  (* no stage accepts a text *)
  /\ (map (fun r => (ModelTag.digest r, ModelTag.size r, ModelTag.modifiedAt r,
                     ModelTag.contextWindow r, ModelTag.inputType r))
        (tags_of_page (js "test-model") bare_tag_page)
      = [([], [], [], None, None)]
      /\ map (fun link => tag_text bare_tag_page (fst link))
           (select (tag_link (js "test-model")) bare_tag_page)
         = [[]]
      /\ exists status doc,
           fetch (serve bare_tag_page)
             (baseUrl ++ js "/library/" ++ js "test-model" ++ js "/tags")
             = Response true status doc
           /\ Forall (fun r =>
                exists link,
                  first_named link_tag (select (tag_link (js "test-model")) doc) link
                    (ModelTag.name r)
                  /\ cascade_record doc link r)
                (tags_of_page (js "test-model") bare_tag_page)).
Proof.
  assert (L : forall doc name tags,
            tags_of_page name doc = tags -> plain_in_selector name = true ->
            getModelTags (serve doc) name = Return tags).
  { intros doc name tags <- P. exact (@getModelTags_loaded (serve doc) name 200%N doc eq_refl P). }
  assert (H1 : getModelTags (serve tags_page) (js "llava") = Return [tags_page_record])
    by (apply L; vm_compute; reflexivity).
  assert (H2 : getModelTags (serve container_tag_page) (js "llava")
               = Return [container_tag_record])
    by (apply L; vm_compute; reflexivity).
  assert (H3 : getModelTags (serve far_sibling_tag_page) (js "llava")
               = Return [far_sibling_tag_record])
    by (apply L; vm_compute; reflexivity).
  assert (H4 := L bare_tag_page (js "test-model") _ eq_refl eq_refl).
  split; [| split; [| split]].
  - split; [exact H1 |]. split; [vm_compute; reflexivity |].
    exact (@C2_metadata_text_cascade _ _ _ H1).
  - split; [exact H2 |]. split; [vm_compute; reflexivity |].
    exact (@C2_metadata_text_cascade _ _ _ H2).
  - split; [exact H3 |]. split; [vm_compute; reflexivity |].
    exact (@C2_metadata_text_cascade _ _ _ H3).
  - split; [vm_compute; reflexivity |]. split; [vm_compute; reflexivity |].
    exact (@C2_metadata_text_cascade _ _ _ H4).
Defined.

(** ** The matcher *)

Lemma clear_caps_nil (x : cursor) : clear_caps [] x = x.
Proof.
  destruct x as [b a c]. unfold clear_caps. simpl. f_equal.
  induction c as [| p c IH]; simpl; [reflexivity | rewrite IH; reflexivity].
Qed.

Lemma advance_0 (x : cursor) : advance 0 x = x.
Proof. destruct x; reflexivity. Qed.

Lemma advance_S (n : nat) (b a : jsstring) (c : code_unit) (cs : list (nat * jsstring)) :
  advance (S n) {| before := b; after := c :: a; caps := cs |}
  = advance n {| before := c :: b; after := a; caps := cs |}.
Proof.
  unfold advance. simpl. rewrite <- app_assoc. reflexivity.
Qed.

(** A pattern that takes one code unit, exactly [n] times. *)
Lemma repeat_exact (p : code_unit -> bool) (greedy : bool)
    (k : cursor -> option cursor) (n : nat) : forall fuel x,
  n < fuel ->
  repeat_matcher (step p) [] greedy k fuel n (Some n) x =
  if (Nat.leb n (length (after x)) && forallb p (firstn n (after x)))%bool
  then k (advance n x) else None.
Proof.
  induction n as [| n IH]; intros fuel x Hf;
    (destruct fuel as [| fuel]; [lia |]); simpl.
  - rewrite advance_0. reflexivity.
  - rewrite clear_caps_nil. destruct x as [b a cs]. unfold step. simpl.
    destruct a as [| c a]; [reflexivity |]. simpl.
    destruct (p c); simpl; [| rewrite andb_false_r; reflexivity].
    rewrite IH by lia. simpl. rewrite advance_S. reflexivity.
Qed.

Lemma cursor_at_cons (bef pre rest : jsstring) (c : code_unit) :
  cursor_at bef (c :: pre) rest = cursor_at (c :: bef) pre rest.
Proof.
  unfold cursor_at. simpl. rewrite <- app_assoc. reflexivity.
Qed.

(** The search of [exec] stops at the leftmost position where the pattern
    matches. *)
Lemma exec_from_leftmost (fl : flags) (r : regex) : forall aft bef x y,
  exec_from fl r bef aft = Some (x, y) ->
  exists pre rest,
    aft = pre ++ rest /\ x = cursor_at bef pre rest
    /\ run fl r x Some = Some y
    /\ forall pre' rest',
         aft = pre' ++ rest' -> length pre' < length pre ->
         run fl r (cursor_at bef pre' rest') Some = None.
Proof.
  induction aft as [| c aft IH]; intros bef x y H; simpl in H.
  - destruct (run fl r {| before := bef; after := []; caps := [] |} Some) eqn:E;
      [| discriminate].
    injection H as <- <-. exists [], []. repeat split; try assumption.
    intros pre' rest' _ L. simpl in L. lia.
  - destruct (run fl r {| before := bef; after := c :: aft; caps := [] |} Some) eqn:E.
    + injection H as <- <-. exists [], (c :: aft). repeat split; try assumption.
      intros pre' rest' _ L. simpl in L. lia.
    + destruct (IH _ _ _ H) as (pre & rest & -> & -> & R & F).
      exists (c :: pre), rest. split; [reflexivity |].
      rewrite cursor_at_cons. split; [reflexivity |]. split; [assumption |].
      intros pre' rest' Hs L. destruct pre' as [| c' pre'].
      * simpl in Hs. subst rest'. exact E.
      * simpl in Hs. injection Hs as <- Hs. simpl in L.
        rewrite cursor_at_cons. apply F; [assumption | lia].
Qed.

Lemma exec_from_none (fl : flags) (r : regex) : forall aft bef,
  exec_from fl r bef aft = None ->
  forall pre rest,
    aft = pre ++ rest -> run fl r (cursor_at bef pre rest) Some = None.
Proof.
  induction aft as [| c aft IH]; intros bef H pre rest Hs; simpl in H.
  - destruct (run fl r {| before := bef; after := []; caps := [] |} Some) eqn:E;
      [discriminate |].
    symmetry in Hs. apply app_eq_nil in Hs. destruct Hs as [-> ->]. exact E.
  - destruct (run fl r {| before := bef; after := c :: aft; caps := [] |} Some) eqn:E;
      [discriminate |].
    destruct pre as [| c' pre].
    + simpl in Hs. subst rest. exact E.
    + simpl in Hs. injection Hs as <- Hs.
      rewrite cursor_at_cons. apply IH; assumption.
Qed.

(** ** Digests *)

Lemma literal_digest :
  literal "\b([a-f0-9]{12})\b" =
  Seq (WordBoundary false)
    (Seq (Group 1 (Repeat 12 (Some 12) true
                     (CharClass false [CRange 97 102; CRange 48 57])))
       (WordBoundary false)).
Proof. vm_compute. reflexivity. Qed.

Lemma class_lower_hex (c : code_unit) :
  xorb false (class_has no_flags [CRange 97 102; CRange 48 57] c) = is_lower_hex c.
Proof.
  unfold class_has, is_lower_hex. simpl.
  destruct (between 97 102 c), (between 48 57 c); reflexivity.
Qed.

Lemma forallb_eq (A : Type) (f g : A -> bool) (l : list A) :
  (forall a, f a = g a) -> forallb f l = forallb g l.
Proof.
  intros H. induction l as [| a l IH]; simpl; [reflexivity |].
  rewrite H, IH. reflexivity.
Qed.

Lemma consumed_advance (n : nat) (x : cursor) :
  n <= length (after x) -> consumed x (advance n x) = firstn n (after x).
Proof.
  intros H. unfold consumed, advance. simpl. rewrite length_skipn.
  f_equal. lia.
Qed.

Lemma at_word_boundary_set_cap (i : nat) (s : jsstring) (y : cursor) :
  at_word_boundary (set_cap i s y) = at_word_boundary y.
Proof. reflexivity. Qed.

(** The digest pattern at a position. *)
Lemma run_digest (x : cursor) :
  run no_flags (literal "\b([a-f0-9]{12})\b") x Some =
  if (at_word_boundary x
      && (Nat.leb 12 (length (after x)) && forallb is_lower_hex (firstn 12 (after x)))
      && at_word_boundary (advance 12 x))%bool
  then Some (set_cap 1 (firstn 12 (after x)) (advance 12 x))
  else None.
Proof.
  rewrite literal_digest. cbn [run xorb].
  destruct (at_word_boundary x); [| reflexivity].
  change (run no_flags (CharClass false [CRange 97 102; CRange 48 57]))
    with (step (fun d => xorb false (class_has no_flags [CRange 97 102; CRange 48 57] d))).
  cbn [groups_of]. rewrite repeat_exact by lia.
  rewrite (forallb_eq _ _ _ class_lower_hex).
  cbn [andb].
  destruct (Nat.leb 12 (length (after x))) eqn:L; [| reflexivity].
  destruct (forallb is_lower_hex (firstn 12 (after x))); [| reflexivity].
  cbn [andb]. apply Nat.leb_le in L. rewrite (consumed_advance _ L).
  rewrite at_word_boundary_set_cap.
  destruct (at_word_boundary (advance 12 x)); reflexivity.
Qed.

Lemma lower_hex_word (c : code_unit) : is_lower_hex c = true -> is_word c = true.
Proof.
  unfold is_lower_hex, is_word, is_lower, is_upper, is_digit, between.
  rewrite !orb_true_iff, !andb_true_iff, !N.leb_le, N.eqb_eq. lia.
Qed.

Lemma digest_token_head (t post : jsstring) :
  digest_token t -> head_is_word (t ++ post) = true.
Proof.
  intros [L F]. destruct t as [| c t]; [discriminate L |].
  simpl. apply lower_hex_word. inversion F; assumption.
Qed.

Lemma digest_token_last (t bef : jsstring) :
  digest_token t -> head_is_word (rev t ++ bef) = true.
Proof.
  intros [L F]. destruct (rev t) as [| c t'] eqn:E.
  - apply (f_equal (@length _)) in E. rewrite length_rev, L in E. discriminate E.
  - simpl. apply lower_hex_word.
    rewrite Forall_forall in F. apply F. apply in_rev. rewrite E. left. reflexivity.
Qed.

(** At a position of the text, the digest pattern matches exactly when a
    standalone token of 12 lowercase hexadecimal characters starts there. *)
Lemma digest_at_token (pre t post : jsstring) :
  digest_token t ->
  run no_flags (literal "\b([a-f0-9]{12})\b") (cursor_at [] pre (t ++ post)) Some
    <> None
  <-> standalone pre post.
Proof.
  intros T. rewrite run_digest. unfold advance, cursor_at, at_word_boundary.
  cbn [before after caps]. destruct T as [L F].
  assert (E : firstn 12 (t ++ post) = t)
    by (rewrite <- L, firstn_app, Nat.sub_diag, firstn_all; simpl; apply app_nil_r).
  assert (E' : skipn 12 (t ++ post) = post)
    by (rewrite <- L, skipn_app, Nat.sub_diag, skipn_all; reflexivity).
  rewrite E, E'.
  rewrite (digest_token_head post (conj L F)), (digest_token_last _ (conj L F)).
  assert (B : Nat.leb 12 (length (t ++ post)) = true)
    by (apply Nat.leb_le; rewrite length_app; lia).
  assert (H : forallb is_lower_hex t = true) by (apply forallb_forall, Forall_forall, F).
  rewrite B, H. rewrite app_nil_r. unfold standalone.
  destruct (head_is_word (rev pre)), (head_is_word post); simpl;
    split; try congruence; try tauto; intros [? ?]; congruence.
Qed.

Lemma digest_at_position (pre rest : jsstring) (y : cursor) :
  run no_flags (literal "\b([a-f0-9]{12})\b") (cursor_at [] pre rest) Some = Some y ->
  rest = firstn 12 rest ++ skipn 12 rest
  /\ digest_token (firstn 12 rest)
  /\ capture 1 (caps y) = Some (firstn 12 rest).
Proof.
  rewrite run_digest. cbn [cursor_at after].
  destruct (at_word_boundary _); [| discriminate]. cbn [andb].
  destruct (Nat.leb 12 (length rest)) eqn:L; [| discriminate]. cbn [andb].
  destruct (forallb is_lower_hex (firstn 12 rest)) eqn:F; [| discriminate].
  cbn [andb]. destruct (at_word_boundary _); [| discriminate].
  intros [= <-]. apply Nat.leb_le in L.
  split; [symmetry; apply firstn_skipn |]. split; [| reflexivity].
  split; [rewrite length_firstn; lia |].
  apply Forall_forall. apply forallb_forall. exact F.
Qed.

(** The digest read from a text: the first standalone token of 12 lowercase
    hexadecimal characters of the text, or the empty string when the text
    has none. *)
Lemma digest_of_spec (text : jsstring) :
  (digest_of text = []
   /\ forall pre t post,
        text = pre ++ t ++ post -> digest_token t -> ~ standalone pre post)
  \/ (exists pre post,
        text = pre ++ digest_of text ++ post
        /\ digest_token (digest_of text)
        /\ standalone pre post
        /\ forall pre' t' post',
             text = pre' ++ t' ++ post' -> digest_token t' -> standalone pre' post' ->
             length pre <= length pre').
Proof.
  unfold digest_of, match_group, exec.
  destruct (exec_from no_flags (literal "\b([a-f0-9]{12})\b") [] text)
    as [[x y] |] eqn:E.
  - right. apply exec_from_leftmost in E.
    destruct E as (pre & rest & -> & -> & R & F).
    destruct (digest_at_position _ _ R) as (Hs & T & C).
    cbn [group snd]. rewrite C. cbn [or_default].
    exists pre, (skipn 12 rest). split; [rewrite <- Hs; reflexivity |].
    split; [assumption |]. split.
    + apply (digest_at_token pre (skipn 12 rest) T). rewrite <- Hs, R. discriminate.
    + intros pre' t' post' Hs' T' S'.
      destruct (Nat.le_gt_cases (length pre) (length pre')) as [? | G]; [assumption |].
      specialize (F pre' (t' ++ post') Hs' G).
      apply (digest_at_token pre' post' T') in S'. contradiction.
  - left. split; [reflexivity |]. intros pre t post Hs T S.
    apply (digest_at_token pre post T) in S. apply S.
    eapply exec_from_none; [exact E | exact Hs].
Qed.

(** C4: the digest of every record [getModelTags] returns is the empty
    string or exactly 12 characters, each a digit or a lowercase letter from
    a to f; in the second case it is the first token of that shape that
    stands alone (no word character before or after it) in the text of the
    tag, and in the first case the text has no such token. *)
Theorem C4_digest_shape (w : collaborators) (modelName : jsstring)
    (tags : list ModelTag.t) :
  getModelTags w modelName = Return tags ->
  exists status doc,
    fetch w (baseUrl ++ js "/library/" ++ modelName ++ js "/tags")
      = Response true status doc
    /\ Forall (fun r =>
         exists link,
           In link (select (tag_link modelName) doc)
           /\ link_tag link = Some (ModelTag.name r)
           /\ let text := tag_text doc (fst link) in
              let digest := ModelTag.digest r in
              (digest = []
               /\ forall pre t post,
                    text = pre ++ t ++ post -> digest_token t -> ~ standalone pre post)
              \/ (digest_token digest
                  /\ exists pre post,
                       text = pre ++ digest ++ post
                       /\ standalone pre post
                       /\ forall pre' t' post',
                            text = pre' ++ t' ++ post' -> digest_token t' ->
                            standalone pre' post' -> length pre <= length pre'))
         tags.
Proof.
  intros H. apply getModelTags_returns in H. destruct H as (status & doc & Hf & ->).
  exists status, doc. split; [assumption |]. apply Forall_forall. intros r Hr.
  apply tags_of_page_record in Hr.
  destruct Hr as (link & s1 & s2 & Hs & Hk & _ & Hr).
  exists link. split; [rewrite Hs; apply in_elt |]. split; [assumption |].
  assert (D : ModelTag.digest r = digest_of (tag_text doc (fst link)))
    by (rewrite Hr; reflexivity).
  cbv zeta. rewrite D.
  destruct (digest_of_spec (tag_text doc (fst link)))
    as [[E N] | (pre & post & E & T & S & F)].
  - left. split; assumption.
  - right. split; [assumption |]. exists pre, post. repeat split; try assumption.
    apply S. apply S.
Qed.

Lemma C4_digest_shape_witness :
  getModelTags (serve repeated_tags_page) (js "test-model")
    = Return (tags_of_page (js "test-model") repeated_tags_page)
  /\ map ModelTag.digest (tags_of_page (js "test-model") repeated_tags_page)
     = [js "abc123def456"; js "abc123def456"]
  /\ Forall (fun r => ModelTag.digest r = [] \/ digest_token (ModelTag.digest r))
       (tags_of_page (js "test-model") repeated_tags_page).
Proof.
  assert (H : getModelTags (serve repeated_tags_page) (js "test-model")
              = Return (tags_of_page (js "test-model") repeated_tags_page))
    by (apply (@getModelTags_loaded _ _ 200%N); reflexivity).
  split; [exact H |]. split; [vm_compute; reflexivity |].
  destruct (C4_digest_shape _ _ H) as (status & doc & _ & F).
  eapply Forall_impl; [| exact F].
  intros r (link & _ & _ & [[E _] | [T _]]); [left | right]; assumption.
Defined.

(** ** Soundness of the matcher *)

Lemma step_sound (p : code_unit -> bool) (x z : cursor) (k : cursor -> option cursor) :
  step p x k = Some z -> exists y, takes p x y /\ k y = Some z.
Proof.
  unfold step, takes. destruct (after x) as [| d rest]; [discriminate |].
  destruct (p d) eqn:P; [| discriminate]. intros H.
  eexists. split; [| exact H]. exists d, rest. repeat split. assumption.
Qed.

Lemma repeat_matcher_sound (m : cursor -> (cursor -> option cursor) -> option cursor)
    (R : cursor -> cursor -> Prop) (gs : list nat) (greedy : bool)
    (k : cursor -> option cursor) :
  (forall x k' z, m x k' = Some z -> exists y, R x y /\ k' y = Some z) ->
  forall fuel min max x z,
    match max with Some hi => min <= hi | None => True end ->
    repeat_matcher m gs greedy k fuel min max x = Some z ->
    exists n y,
      min <= n
      /\ match max with Some hi => n <= hi | None => True end
      /\ iterate R gs n x y /\ k y = Some z.
Proof.
  intros Hm. induction fuel as [| fuel IH]; intros min max x z Hb H; [discriminate |].
  assert (More : forall d y,
             d = (fun y =>
               if (Nat.eqb min 0 && Nat.eqb (length (after y)) (length (after x)))%bool
               then None
               else repeat_matcher m gs greedy k fuel (Nat.pred min)
                      (option_map Nat.pred max) y) ->
             m (clear_caps gs x) d = Some y ->
             max <> Some 0 ->
             exists n y',
               min <= n
               /\ match max with Some hi => n <= hi | None => True end
               /\ iterate R gs n x y' /\ k y' = Some y).
  { intros d y -> Hy Hmax. apply Hm in Hy. destruct Hy as (y1 & R1 & Hy).
    destruct (Nat.eqb min 0 && _)%bool; [discriminate |].
    apply IH in Hy.
    - destruct Hy as (n & y' & Hn & Hx & It & K).
      exists (S n), y'. split; [lia |]. split.
      + destruct max as [hi |]; [| exact I]. simpl in Hx.
        destruct hi; [congruence | simpl in Hx; lia].
      + split; [| assumption]. simpl. exists y1. split; assumption.
    - destruct max as [hi |]; [| exact I]. simpl. lia. }
  simpl in H. destruct max as [[| hi] |].
  - exists 0, x. simpl. repeat split; try assumption; lia.
  - destruct (Nat.eqb min 0) eqn:Z.
    + apply Nat.eqb_eq in Z. subst min.
      destruct greedy; unfold or_else in H.
      * destruct (m (clear_caps gs x) _) eqn:E.
        -- injection H as ->. eapply More; [reflexivity | exact E | discriminate].
        -- exists 0, x. simpl. repeat split; try assumption; lia.
      * destruct (k x) eqn:E.
        -- injection H as ->. exists 0, x. simpl. repeat split; try assumption; lia.
        -- eapply More; [reflexivity | exact H | discriminate].
    + eapply More; [reflexivity | exact H | discriminate].
  - destruct (Nat.eqb min 0) eqn:Z.
    + apply Nat.eqb_eq in Z. subst min.
      destruct greedy; unfold or_else in H.
      * destruct (m (clear_caps gs x) _) eqn:E.
        -- injection H as ->. eapply More; [reflexivity | exact E | discriminate].
        -- exists 0, x. simpl. repeat split; try assumption; lia.
      * destruct (k x) eqn:E.
        -- injection H as ->. exists 0, x. simpl. repeat split; try assumption; lia.
        -- eapply More; [reflexivity | exact H | discriminate].
    + eapply More; [reflexivity | exact H | discriminate].
Qed.

(** Whatever the matcher hands to its continuation is a match of the
    pattern. *)
Lemma run_sound (fl : flags) (r : regex) : forall x k z,
  bounds_in_order r = true ->
  run fl r x k = Some z ->
  exists y, matches fl r x y /\ k y = Some z.
Proof.
  induction r as [| c | | inv items | a IHa b IHb | a IHa b IHb
                  | min max greedy a IHa | i a IHa | | | neg];
    intros x k z W H; cbn [run] in H; cbn [bounds_in_order matches] in W |- *.
  - exists x. split; [reflexivity | assumption].
  - apply step_sound in H. exact H.
  - apply step_sound in H. exact H.
  - apply step_sound in H. exact H.
  - apply andb_true_iff in W. destruct W as [Wa Wb].
    apply IHa in H; [| assumption]. destruct H as (y1 & Ma & H).
    apply IHb in H; [| assumption]. destruct H as (y & Mb & H).
    exists y. split; [exists y1; split; assumption | assumption].
  - apply andb_true_iff in W. destruct W as [Wa Wb].
    unfold or_else in H. destruct (run fl a x k) eqn:E.
    + injection H as ->. apply IHa in E; [| assumption].
      destruct E as (y & M & K). exists y. split; [left |]; assumption.
    + apply IHb in H; [| assumption].
      destruct H as (y & M & K). exists y. split; [right |]; assumption.
  - apply andb_true_iff in W. destruct W as [Wm Wa].
    apply (repeat_matcher_sound (run fl a) (matches fl a)) in H.
    + destruct H as (n & y & Hn & Hx & It & K). exists y.
      split; [exists n; repeat split; assumption | assumption].
    + intros x' k' z' H'. apply IHa; assumption.
    + destruct max as [hi |]; [apply Nat.leb_le; assumption | exact I].
  - apply IHa in H; [| assumption]. destruct H as (y1 & M & K).
    eexists. split; [exists y1; split; [exact M | reflexivity] | exact K].
  - destruct (before x) eqn:B; [| discriminate].
    exists x. repeat split; assumption.
  - destruct (after x) eqn:A; [| discriminate].
    exists x. repeat split; assumption.
  - destruct (xorb neg (at_word_boundary x)) eqn:B; [| discriminate].
    exists x. repeat split; assumption.
Qed.

(** ** The fuel of the matcher never runs out *)

(** A matcher calls its continuation at positions that are not before its
    own. *)
Lemma step_respects (p : code_unit -> bool) (x : cursor)
    (k k' : cursor -> option cursor) :
  (forall y, length (after y) <= length (after x) -> k y = k' y) ->
  step p x k = step p x k'.
Proof.
  intros H. unfold step. destruct x as [b a cs]. simpl in *.
  destruct a as [| d rest]; [reflexivity |].
  destruct (p d); [| reflexivity]. apply H. simpl. lia.
Qed.

Lemma repeat_matcher_respects
    (m : cursor -> (cursor -> option cursor) -> option cursor)
    (gs : list nat) (greedy : bool) :
  (forall x k k',
      (forall y, length (after y) <= length (after x) -> k y = k' y) ->
      m x k = m x k') ->
  forall fuel min max x k k',
    (forall y, length (after y) <= length (after x) -> k y = k' y) ->
    repeat_matcher m gs greedy k fuel min max x
    = repeat_matcher m gs greedy k' fuel min max x.
Proof.
  intros Hm. induction fuel as [| fuel IH]; intros min max x k k' H; [reflexivity |].
  simpl.
  assert (Hx : k x = k' x) by (apply H; lia).
  assert (Hd : m (clear_caps gs x)
                 (fun y =>
                    if (Nat.eqb min 0 && Nat.eqb (length (after y)) (length (after x)))%bool
                    then None
                    else repeat_matcher m gs greedy k fuel (Nat.pred min)
                           (option_map Nat.pred max) y)
               = m (clear_caps gs x)
                   (fun y =>
                      if (Nat.eqb min 0 && Nat.eqb (length (after y)) (length (after x)))%bool
                      then None
                      else repeat_matcher m gs greedy k' fuel (Nat.pred min)
                             (option_map Nat.pred max) y)).
  { apply Hm. intros y Hy. simpl in Hy.
    destruct (Nat.eqb min 0 && _)%bool; [reflexivity |].
    apply IH. intros z Hz. apply H. lia. }
  rewrite Hd, Hx. reflexivity.
Qed.

Lemma run_respects (fl : flags) (r : regex) : forall x k k',
  (forall y, length (after y) <= length (after x) -> k y = k' y) ->
  run fl r x k = run fl r x k'.
Proof.
  induction r as [| c | | inv items | a IHa b IHb | a IHa b IHb
                  | min max greedy a IHa | i a IHa | | | neg];
    intros x k k' H; cbn [run].
  - apply H. lia.
  - apply step_respects, H.
  - apply step_respects, H.
  - apply step_respects, H.
  - apply IHa. intros y Hy. apply IHb. intros z Hz. apply H. lia.
  - rewrite (IHa x k k' H), (IHb x k k' H). reflexivity.
  - apply repeat_matcher_respects; assumption.
  - apply IHa. intros y Hy. apply H. exact Hy.
  - destruct (before x); [apply H; lia | reflexivity].
  - destruct (after x) eqn:A; [apply H; rewrite A; simpl; lia | reflexivity].
  - destruct (xorb neg (at_word_boundary x)); [apply H; lia | reflexivity].
Qed.

(** More fuel than the bound does not change the result of a repetition. *)
Lemma repeat_matcher_fuel (fl : flags) (a : regex) (gs : list nat) (greedy : bool)
    (k : cursor -> option cursor) :
  forall fuel fuel' min max x,
    min + length (after x) < fuel ->
    min + length (after x) < fuel' ->
    repeat_matcher (run fl a) gs greedy k fuel min max x
    = repeat_matcher (run fl a) gs greedy k fuel' min max x.
Proof.
  induction fuel as [| fuel IH]; intros fuel' min max x L L'; [lia |].
  destruct fuel' as [| fuel']; [lia |]. simpl.
  assert (Hd : run fl a (clear_caps gs x)
                 (fun y =>
                    if (Nat.eqb min 0 && Nat.eqb (length (after y)) (length (after x)))%bool
                    then None
                    else repeat_matcher (run fl a) gs greedy k fuel (Nat.pred min)
                           (option_map Nat.pred max) y)
               = run fl a (clear_caps gs x)
                   (fun y =>
                      if (Nat.eqb min 0 && Nat.eqb (length (after y)) (length (after x)))%bool
                      then None
                      else repeat_matcher (run fl a) gs greedy k fuel' (Nat.pred min)
                             (option_map Nat.pred max) y)).
  { apply run_respects. intros y Hy. simpl in Hy.
    destruct (Nat.eqb min 0) eqn:Z; simpl.
    - apply Nat.eqb_eq in Z. subst min.
      destruct (Nat.eqb (length (after y)) (length (after x))) eqn:E; [reflexivity |].
      apply Nat.eqb_neq in E. apply IH; simpl; lia.
    - apply Nat.eqb_neq in Z. apply IH; lia. }
  rewrite Hd. reflexivity.
Qed.

Lemma run_repeat_fuel (fl : flags) (min : nat) (max : option nat) (greedy : bool)
    (a : regex) (x : cursor) (k : cursor -> option cursor) (extra : nat) :
  run fl (Repeat min max greedy a) x k
  = repeat_matcher (run fl a) (groups_of a) greedy k
      (S (min + length (after x)) + extra) min max x.
Proof. cbn [run]. apply repeat_matcher_fuel; lia. Qed.

(** The matcher only moves forward. *)
Lemma repeat_matcher_forward
    (m : cursor -> (cursor -> option cursor) -> option cursor)
    (gs : list nat) (greedy : bool) (k : cursor -> option cursor) :
  (forall x k' z,
      m x k' = Some z ->
      exists y, k' y = Some z /\ length (after y) <= length (after x)) ->
  forall fuel min max x z,
    repeat_matcher m gs greedy k fuel min max x = Some z ->
    exists y, k y = Some z /\ length (after y) <= length (after x).
Proof.
  intros Hm. induction fuel as [| fuel IH]; intros min max x z H; [discriminate |].
  assert (More : forall d,
             d = (fun y =>
               if (Nat.eqb min 0 && Nat.eqb (length (after y)) (length (after x)))%bool
               then None
               else repeat_matcher m gs greedy k fuel (Nat.pred min)
                      (option_map Nat.pred max) y) ->
             m (clear_caps gs x) d = Some z ->
             exists y, k y = Some z /\ length (after y) <= length (after x)).
  { intros d -> Hy. apply Hm in Hy. destruct Hy as (y1 & Hy & L1). simpl in L1.
    destruct (Nat.eqb min 0 && _)%bool; [discriminate |].
    apply IH in Hy. destruct Hy as (y & K & L). exists y. split; [assumption | lia]. }
  assert (Stop : k x = Some z ->
                 exists y, k y = Some z /\ length (after y) <= length (after x))
    by (intros K; exists x; split; [assumption | lia]).
  simpl in H. destruct max as [[| hi] |]; [exact (Stop H) | |];
    (destruct (Nat.eqb min 0);
     [destruct greedy; unfold or_else in H;
      [destruct (m (clear_caps gs x) _) eqn:E;
       [injection H as ->; exact (More _ eq_refl E) | exact (Stop H)]
      |destruct (k x) eqn:E;
       [injection H as ->; exists x; split; [exact E | lia]
       |exact (More _ eq_refl H)]]
     |exact (More _ eq_refl H)]).
Qed.

Lemma run_forward (fl : flags) (r : regex) : forall x k z,
  run fl r x k = Some z ->
  exists y, k y = Some z /\ length (after y) <= length (after x).
Proof.
  induction r as [| c | | inv items | a IHa b IHb | a IHa b IHb
                  | min max greedy a IHa | i a IHa | | | neg];
    intros x k z H; cbn [run] in H.
  - exists x. split; [assumption | lia].
  - apply step_sound in H. destruct H as (y & (d & rest & A & _ & ->) & K).
    eexists. split; [exact K | simpl; rewrite A; simpl; lia].
  - apply step_sound in H. destruct H as (y & (d & rest & A & _ & ->) & K).
    eexists. split; [exact K | simpl; rewrite A; simpl; lia].
  - apply step_sound in H. destruct H as (y & (d & rest & A & _ & ->) & K).
    eexists. split; [exact K | simpl; rewrite A; simpl; lia].
  - apply IHa in H. destruct H as (y1 & H & L1).
    apply IHb in H. destruct H as (y & K & L). exists y. split; [assumption | lia].
  - unfold or_else in H. destruct (run fl a x k) eqn:E.
    + injection H as ->. apply IHa in E. exact E.
    + apply IHb in H. exact H.
  - apply (repeat_matcher_forward (run fl a)) in H; [exact H | exact IHa].
  - apply IHa in H. destruct H as (y & K & L). eexists. split; [exact K | exact L].
  - destruct (before x); [| discriminate]. exists x. split; [assumption | lia].
  - destruct (after x) eqn:A; [| discriminate].
    exists x. split; [assumption | rewrite A; simpl; lia].
  - destruct (xorb neg (at_word_boundary x)); [| discriminate].
    exists x. split; [assumption | lia].
Qed.

(** More fuel than the bound does not change the matches of a global
    pattern. *)
Lemma match_all_from_fuel (fl : flags) (r : regex) :
  forall fuel fuel' bef aft,
    length aft < fuel -> length aft < fuel' ->
    match_all_from fl r fuel bef aft = match_all_from fl r fuel' bef aft.
Proof.
  induction fuel as [| fuel IH]; intros fuel' bef aft L L'; [lia |].
  destruct fuel' as [| fuel']; [lia |]. simpl.
  destruct (exec_from fl r bef aft) as [[x y] |] eqn:E; [| reflexivity].
  apply exec_from_leftmost in E. destruct E as (pre & rest & -> & -> & R & _).
  apply run_forward in R. destruct R as (y' & [= ->] & Ly).
  cbn [cursor_at after] in *. rewrite length_app in L, L'. f_equal.
  destruct (Nat.eqb (length rest) (length (after y))) eqn:Q.
  - destruct (after y) as [| c rest'] eqn:A; [reflexivity |].
    simpl in Ly. apply IH; lia.
  - apply Nat.eqb_neq in Q. apply IH; lia.
Qed.

(** ** Size tokens *)

Ltac unbool :=
  repeat rewrite ?orb_true_iff, ?andb_true_iff, ?orb_false_iff, ?andb_false_iff,
    ?negb_true_iff, ?negb_false_iff, ?N.leb_le, ?N.leb_gt, ?N.eqb_eq, ?N.eqb_neq in *.

Lemma digit_ignoring_case (d : code_unit) :
  xorb false (class_has flag_i [CDigit false] d) = true -> is_digit d = true.
Proof.
  unfold class_has. cbn [existsb item_has flag_i ignoreCase xorb andb].
  unfold upper, lower, is_digit, is_lower, is_upper, between.
  destruct (N.leb 97 d && N.leb d 122)%bool eqn:L;
    destruct (N.leb 65 d && N.leb d 90)%bool eqn:U; unbool; lia.
Qed.

Lemma point_ignoring_case (d : code_unit) :
  N.eqb (canon flag_i 46) (canon flag_i d) = true -> d = 46%N.
Proof.
  unfold canon. cbn [flag_i ignoreCase]. change (upper 46) with 46%N.
  unfold upper, is_lower, between.
  destruct (N.leb 97 d && N.leb d 122)%bool eqn:L; unbool; lia.
Qed.

Lemma size_letter_ignoring_case (d : code_unit) :
  xorb false (class_has flag_i [CRange 98 98; CRange 109 109; CRange 107 107] d) = true ->
  is_size_letter d = true.
Proof.
  unfold class_has, is_size_letter, one_of.
  change (js "bmkBMK") with [98; 109; 107; 66; 77; 75]%N.
  cbn [existsb item_has flag_i ignoreCase xorb andb].
  unfold upper, lower, is_lower, is_upper, between.
  destruct (N.leb 97 d && N.leb d 122)%bool eqn:L;
    destruct (N.leb 65 d && N.leb d 90)%bool eqn:U; unbool; lia.
Qed.

Lemma iterate_takes (p : code_unit -> bool) (n : nat) : forall x y,
  iterate (takes p) [] n x y ->
  exists t,
    length t = n /\ Forall (fun c => p c = true) t /\ after x = t ++ after y.
Proof.
  induction n as [| n IH]; intros x y H; simpl in H.
  - subst y. exists []. repeat split. constructor.
  - destruct H as (z & (d & rest & A & P & ->) & It).
    rewrite clear_caps_nil in A. apply IH in It.
    destruct It as (t & L & F & E). simpl in E.
    exists (d :: t). simpl. split; [lia |]. split; [constructor; assumption |].
    rewrite A, E. reflexivity.
Qed.

Lemma literal_size_token :
  literal "\b\d+\.?\d*[bmk]\b" =
  Seq (WordBoundary false)
    (Seq (Repeat 1 None true (CharClass false [CDigit false]))
       (Seq (Repeat 0 (Some 1) true (Char 46))
          (Seq (Repeat 0 None true (CharClass false [CDigit false]))
             (Seq (CharClass false [CRange 98 98; CRange 109 109; CRange 107 107])
                (WordBoundary false))))).
Proof. vm_compute. reflexivity. Qed.

Lemma Forall_impl_bool (p q : code_unit -> bool) (t : jsstring) :
  (forall c, p c = true -> q c = true) ->
  Forall (fun c => p c = true) t -> Forall (fun c => q c = true) t.
Proof. intros H. apply Forall_impl. exact H. Qed.

(** What the pattern of the parameters matches is a size token. *)
Lemma matches_size_token (x y : cursor) :
  matches flag_i (literal "\b\d+\.?\d*[bmk]\b") x y ->
  exists t, after x = t ++ after y /\ size_token t.
Proof.
  rewrite literal_size_token. cbn [matches groups_of].
  intros (z0 & (_ & ->) & z1 & (n1 & N1 & _ & I1) & z2 & (n2 & _ & N2 & I2)
          & z3 & (n3 & _ & _ & I3) & z4 & (u & rest & A4 & P4 & ->) & (_ & ->)).
  apply iterate_takes in I1. destruct I1 as (t1 & L1 & F1 & E1).
  apply iterate_takes in I2. destruct I2 as (t2 & L2 & F2 & E2).
  apply iterate_takes in I3. destruct I3 as (t3 & L3 & F3 & E3).
  exists (t1 ++ t2 ++ t3 ++ [u]). split.
  - rewrite E1, E2, E3, A4. cbn [after]. rewrite <- !app_assoc. reflexivity.
  - exists t1, t2, t3, u. split; [reflexivity |].
    split; [intros ->; simpl in L1; lia |].
    split; [exact (Forall_impl_bool _ _ digit_ignoring_case F1) |].
    split.
    + destruct t2 as [| d [| d' t2]]; [left; reflexivity | right | simpl in L2; lia].
      inversion F2 as [| ? ? P _]. apply point_ignoring_case in P. subst d. reflexivity.
    + split; [exact (Forall_impl_bool _ _ digit_ignoring_case F3) |].
      apply size_letter_ignoring_case. exact P4.
Qed.

(** ** The pattern of a parameter *)

Lemma token_char_cases (c : code_unit) :
  token_char c = true ->
  In c [48; 49; 50; 51; 52; 53; 54; 55; 56; 57; 46; 98; 109; 107; 66; 77; 75]%N.
Proof.
  unfold token_char, is_size_letter, one_of, is_digit, between.
  change (js "bmkBMK") with [98; 109; 107; 66; 77; 75]%N.
  cbn [existsb In]. unbool. lia.
Qed.

Lemma parse_alternative_label (f : nat) : 24 <= f ->
  parse_alternative f (js "\s*(Pulls|Tags)") 0 = Parsed (label_pattern, [], 1).
Proof.
  intros H. do 24 (destruct f as [| f]; [lia |]). clear H.
  vm_compute. reflexivity.
Qed.

Lemma quantifier_prefix_rest (p : jsstring) :
  Forall (fun c => token_char c = true) p ->
  quantifier_prefix (escapeRegExp p ++ js "\s*(Pulls|Tags)") = Parsed None.
Proof.
  intros F. destruct F as [| c p C _]; [vm_compute; reflexivity |].
  apply token_char_cases in C. cbn [In] in C.
  repeat (destruct C as [<- | C]; [reflexivity |]). contradiction.
Qed.

Lemma step_case (p : jsstring) (c : code_unit) (f : nat) :
  token_char c = true -> Forall (fun c => token_char c = true) p ->
  parse_term (S f) (escapeRegExp [c] ++ escapeRegExp p ++ js "\s*(Pulls|Tags)") 0 =
  Parsed (Char c, escapeRegExp p ++ js "\s*(Pulls|Tags)", 0).
Proof.
  intros C F. pose proof (quantifier_prefix_rest F) as Q.
  remember (escapeRegExp p ++ js "\s*(Pulls|Tags)") as rest eqn:R. clear R.
  apply token_char_cases in C. cbn [In] in C.
  repeat (destruct C as [<- | C];
    [cbn -[quantifier_prefix]; unfold quantified; rewrite Q; reflexivity |]).
  contradiction.
Qed.

Lemma seq_chars (c : code_unit) (p : jsstring) :
  seq (Char c) (chars p label_pattern) = Seq (Char c) (chars p label_pattern).
Proof. destruct p; reflexivity. Qed.

Lemma parse_alternative_S (f : nat) (s : jsstring) (g : nat) :
  parse_alternative (S f) s g =
  match s with
  | [] => Parsed (Empty, s, g)
  | c :: _ =>
      if (N.eqb c (ch "|") || N.eqb c (ch ")"))%bool then Parsed (Empty, s, g)
      else
        '(t, r1, g1) <- parse_term f s g ;;
        '(a, r2, g2) <- parse_alternative f r1 g1 ;;
        Parsed (seq t a, r2, g2)
  end.
Proof. reflexivity. Qed.

Lemma escape_head (c : code_unit) (p : jsstring) :
  token_char c = true ->
  exists h t, escapeRegExp (c :: p) ++ js "\s*(Pulls|Tags)" = h :: t
              /\ (N.eqb h (ch "|") || N.eqb h (ch ")"))%bool = false.
Proof.
  intros C. apply token_char_cases in C. cbn [In] in C.
  repeat (destruct C as [<- | C]; [eexists; eexists; split; reflexivity |]).
  contradiction.
Qed.

Lemma escapeRegExp_cons (c : code_unit) (p : jsstring) :
  escapeRegExp (c :: p) = escapeRegExp [c] ++ escapeRegExp p.
Proof. unfold escapeRegExp. simpl. rewrite app_nil_r. reflexivity. Qed.

Lemma parse_alternative_param (p : jsstring) : forall f,
  Forall (fun c => token_char c = true) p ->
  2 * length p + 24 <= f ->
  parse_alternative f (escapeRegExp p ++ js "\s*(Pulls|Tags)") 0 =
  Parsed (chars p label_pattern, [], 1).
Proof.
  induction p as [| c p IH]; intros f F H.
  - apply parse_alternative_label. simpl in H. lia.
  - simpl in H. destruct f as [| [| f]]; try lia.
    inversion F as [| ? ? C F']; subst.
    rewrite parse_alternative_S.
    destruct (@escape_head c p C) as (h & t & E & N). rewrite E, N. rewrite <- E.
    rewrite escapeRegExp_cons, <- app_assoc. rewrite (@step_case p c f C F').
    cbn [bind]. rewrite IH by (assumption || lia). cbn [bind].
    rewrite seq_chars. reflexivity.
Qed.

Lemma parse_disjunction_S (f : nat) (s : jsstring) (g : nat) :
  parse_disjunction (S f) s g =
  '(a, r1, g1) <- parse_alternative f s g ;;
  match r1 with
  | c :: r2 =>
      if N.eqb c (ch "|") then
        '(d, r3, g3) <- parse_disjunction f r2 g1 ;;
        Parsed (Alt a d, r3, g3)
      else Parsed (a, r1, g1)
  | [] => Parsed (a, r1, g1)
  end.
Proof. reflexivity. Qed.

Lemma parse_alternative_word_boundary (f : nat) (rest : jsstring) :
  parse_alternative (S (S f)) (js "\b" ++ rest) 0 =
  '(a, r2, g2) <- parse_alternative (S f) rest 0 ;;
  Parsed (seq (WordBoundary false) a, r2, g2).
Proof. reflexivity. Qed.

Lemma length_escapeRegExp (p : jsstring) : length p <= length (escapeRegExp p).
Proof.
  induction p as [| c p IH]; [simpl; lia |].
  rewrite escapeRegExp_cons, length_app. simpl length at 1.
  assert (1 <= length (escapeRegExp [c])); [| lia].
  unfold escapeRegExp. simpl. destruct (one_of _ c); simpl; lia.
Qed.

Lemma paramRegex_size_token (p : jsstring) :
  Forall (fun c => token_char c = true) p ->
  paramRegex p = Ok (param_pattern p).
Proof.
  intros F. unfold paramRegex, compile_or_raise, compile.
  set (src := js "\b" ++ escapeRegExp p ++ js "\s*(Pulls|Tags)").
  assert (L : exists f, 3 * length src + 5 = S (S (S f)) /\ 2 * length p + 24 <= S f).
  { exists (3 * length src + 2). split; [lia |]. unfold src.
    rewrite !length_app. pose proof (length_escapeRegExp p).
    change (length (js "\b")) with 2.
    change (length (js "\s*(Pulls|Tags)")) with 15. lia. }
  destruct L as (f & -> & Hf). unfold src.
  rewrite parse_disjunction_S, parse_alternative_word_boundary.
  rewrite parse_alternative_param by assumption.
  cbn [bind]. destruct p; reflexivity.
Qed.

Lemma lower_upper (c d : code_unit) : lower c = lower d -> upper c = upper d.
Proof.
  unfold lower, upper, is_upper, is_lower, between.
  destruct (N.leb 65 c && N.leb c 90)%bool eqn:U1;
    destruct (N.leb 65 d && N.leb d 90)%bool eqn:U2;
    destruct (N.leb 97 c && N.leb c 122)%bool eqn:L1;
    destruct (N.leb 97 d && N.leb d 122)%bool eqn:L2; unbool; lia.
Qed.

Lemma toLowerCase_Forall2 (s t : jsstring) :
  toLowerCase s = toLowerCase t -> Forall2 (fun c d => lower c = lower d) s t.
Proof.
  revert t. induction s as [| c s IH]; intros [| d t] H; simpl in H;
    try discriminate; constructor.
  - injection H as H _. exact H.
  - apply IH. injection H as _ H. exact H.
Qed.

Lemma run_chars (tail : regex) (k : cursor -> option cursor) (s t : jsstring) :
  Forall2 (fun c d => lower c = lower d) s t ->
  forall x rest,
    after x = t ++ rest ->
    run flag_i (chars s tail) x k = run flag_i tail (advance (length t) x) k.
Proof.
  induction 1 as [| c d s t E _ IH]; intros x rest A.
  - rewrite advance_0. reflexivity.
  - destruct x as [b a cs]. simpl in A. subst a.
    cbn [chars fold_right run]. unfold step. cbn [after before caps].
    unfold canon. cbn [flag_i ignoreCase]. rewrite (lower_upper _ _ E), N.eqb_refl.
    cbn [length]. rewrite advance_S. apply (IH _ rest). reflexivity.
Qed.

Lemma run_spaces (p : code_unit -> bool) (k : cursor -> option cursor) :
  (forall c, is_space c = true -> p c = true) ->
  forall ws x fuel rest,
    after x = ws ++ rest ->
    Forall (fun c => is_space c = true) ws ->
    length ws < fuel ->
    k (advance (length ws) x) <> None ->
    repeat_matcher (step p) [] true k fuel 0 None x <> None.
Proof.
  intros Hp. induction ws as [| c ws IH]; intros x fuel rest A F L K;
    (destruct fuel as [| fuel]; [simpl in L; lia |]); simpl.
  - rewrite advance_0 in K. unfold or_else. destruct (step p _ _); [discriminate | exact K].
  - rewrite clear_caps_nil. destruct x as [b a cs]. simpl in A. subst a.
    unfold step. cbn [after before caps]. inversion F as [| ? ? Sc F']; subst.
    rewrite (Hp _ Sc). cbn [length] in K |- *.
    replace (Nat.eqb (length (ws ++ rest)) (S (length (ws ++ rest)))) with false
      by (symmetry; apply Nat.eqb_neq; lia).
    cbn [or_else]. rewrite advance_S in K.
    specialize (IH {| before := c :: b; after := ws ++ rest; caps := cs |} fuel rest
                  eq_refl F' ltac:(simpl in L; lia) K).
    destruct (repeat_matcher _ _ _ _ _ _ _ _); [discriminate | contradiction].
Qed.

Lemma space_ignoring_case (c : code_unit) :
  is_space c = true -> xorb false (class_has flag_i [CSpace false] c) = true.
Proof.
  intros H. unfold class_has. cbn [existsb item_has xorb]. rewrite H. reflexivity.
Qed.

Lemma run_char (c d : code_unit) (x : cursor) (rest : jsstring)
    (k : cursor -> option cursor) :
  after x = d :: rest -> lower c = lower d ->
  run flag_i (Char c) x k =
  k {| before := d :: before x; after := rest; caps := caps x |}.
Proof.
  intros A E. cbn [run]. unfold step. rewrite A. unfold canon.
  cbn [flag_i ignoreCase]. rewrite (lower_upper _ _ E), N.eqb_refl. reflexivity.
Qed.

Lemma run_label_word (x : cursor) (label post : jsstring) :
  after x = label ++ post ->
  toLowerCase label = js "pulls" \/ toLowerCase label = js "tags" ->
  run flag_i
    (Group 1
       (Alt (chars (js "Pull") (Char 115)) (chars (js "Tag") (Char 115)))) x Some
  <> None.
Proof.
  intros A [H | H]; cbn [run]; unfold or_else.
  - destruct label as [| c1 [| c2 [| c3 [| c4 [| c5 [| c6 label]]]]]]; try discriminate H.
    assert (F : Forall2 (fun c d => lower c = lower d) (js "Pull") [c1; c2; c3; c4]).
    { injection H as H1 H2 H3 H4 H5. repeat constructor; symmetry; assumption. }
    rewrite (run_chars (Char 115) _ F x (c5 :: post) A).
    rewrite (@run_char 115 c5 _ post).
    + discriminate.
    + unfold advance. cbn [after]. rewrite A. reflexivity.
    + injection H as _ _ _ _ H5. symmetry. exact H5.
  - destruct label as [| c1 [| c2 [| c3 [| c4 [| c5 label]]]]]; try discriminate H.
    assert (F : Forall2 (fun c d => lower c = lower d) (js "Tag") [c1; c2; c3]).
    { injection H as H1 H2 H3 H4. repeat constructor; symmetry; assumption. }
    destruct (run flag_i (chars (js "Pull") (Char 115)) x _); [discriminate |].
    rewrite (run_chars (Char 115) _ F x (c4 :: post) A).
    rewrite (@run_char 115 c4 _ post).
    + discriminate.
    + unfold advance. cbn [after]. rewrite A. reflexivity.
    + injection H as _ _ _ H4. symmetry. exact H4.
Qed.

Lemma run_label (x : cursor) (ws label post : jsstring) :
  after x = ws ++ label ++ post ->
  Forall (fun c => is_space c = true) ws ->
  toLowerCase label = js "pulls" \/ toLowerCase label = js "tags" ->
  run flag_i label_pattern x Some <> None.
Proof.
  intros A F H. unfold label_pattern. cbn [run groups_of].
  change (run flag_i (CharClass false [CSpace false]))
    with (step (fun d => xorb false (class_has flag_i [CSpace false] d))).
  apply (@run_spaces _ _ space_ignoring_case ws x _ (label ++ post)); try assumption.
  - rewrite A, length_app. lia.
  - apply (@run_label_word _ label post); [| assumption].
    unfold advance. cbn [after]. rewrite A, skipn_app, Nat.sub_diag, skipn_all.
    reflexivity.
Qed.

Lemma size_token_chars (t : jsstring) :
  size_token t ->
  Forall (fun c => token_char c = true) t
  /\ exists d t', t = d :: t' /\ is_digit d = true.
Proof.
  intros (whole & point & fraction & letter & -> & W & Fw & P & Ff & L). split.
  - apply Forall_app. split.
    + eapply Forall_impl; [| exact Fw].
      intros c H. unfold token_char. rewrite H. reflexivity.
    + apply Forall_app. split.
      * destruct P as [-> | ->]; repeat constructor.
      * apply Forall_app. split.
        -- eapply Forall_impl; [| exact Ff].
           intros c H. unfold token_char. rewrite H. reflexivity.
        -- repeat constructor. unfold token_char. rewrite L. apply orb_true_r.
  - destruct whole as [| d whole]; [contradiction |].
    exists d, (whole ++ point ++ fraction ++ [letter]). split; [reflexivity |].
    inversion Fw; assumption.
Qed.

Lemma digit_lower (c d : code_unit) : is_digit c = true -> lower d = lower c -> d = c.
Proof.
  unfold lower, is_upper, is_digit, between.
  destruct (N.leb 65 c && N.leb c 90)%bool eqn:U1;
    destruct (N.leb 65 d && N.leb d 90)%bool eqn:U2; unbool; lia.
Qed.

Lemma digit_word (c : code_unit) : is_digit c = true -> is_word c = true.
Proof.
  intros H. unfold is_word. rewrite H. rewrite orb_true_r. reflexivity.
Qed.

(** Where an occurrence of the token, in any case, is followed by white space
    (possibly none) and one of the labels, the pattern of the parameter
    matches. *)
Lemma run_param_pattern (param pre t ws label post : jsstring) :
  size_token param ->
  toLowerCase t = toLowerCase param ->
  head_is_word (rev pre) = false ->
  Forall (fun c => is_space c = true) ws ->
  toLowerCase label = js "pulls" \/ toLowerCase label = js "tags" ->
  run flag_i (param_pattern param) (cursor_at [] pre (t ++ ws ++ label ++ post)) Some
  <> None.
Proof.
  intros T E B F L. unfold param_pattern. cbn [run xorb].
  destruct (size_token_chars T) as (_ & d & param' & -> & D).
  destruct t as [| d' t']; [discriminate E |].
  assert (d' = d) by (apply digit_lower; [assumption | injection E as E _; exact E]).
  subst d'.
  unfold at_word_boundary, cursor_at. cbn [before after]. rewrite app_nil_r, B.
  cbn [app head_is_word]. rewrite (digit_word _ D). cbn [xorb].
  erewrite (@run_chars label_pattern Some (d :: param') (d :: t')
              (toLowerCase_Forall2 _ _ (eq_sym E)) _ (ws ++ label ++ post));
    [| reflexivity].
  apply (@run_label _ ws label post); try assumption.
  unfold advance. cbn [after].
  change (d :: t' ++ ws ++ label ++ post) with ((d :: t') ++ ws ++ label ++ post).
  rewrite skipn_app, Nat.sub_diag, skipn_all. reflexivity.
Qed.

Lemma test_at (fl : flags) (r : regex) (pre rest : jsstring) :
  run fl r (cursor_at [] pre rest) Some <> None -> test fl r (pre ++ rest) = true.
Proof.
  intros H. unfold test, exec.
  destruct (exec_from fl r [] (pre ++ rest)) eqn:E; [reflexivity |].
  exfalso. apply H. eapply exec_from_none; [exact E | reflexivity].
Qed.

Lemma match_all_from_matches (fl : flags) (r : regex) (fuel : nat) : forall bef aft t,
  In t (match_all_from fl r fuel bef aft) ->
  exists x y, run fl r x Some = Some y /\ t = consumed x y.
Proof.
  induction fuel as [| fuel IH]; intros bef aft t H; simpl in H; [contradiction |].
  destruct (exec_from fl r bef aft) as [[x y] |] eqn:E; [| contradiction].
  destruct H as [<- | H].
  - apply exec_from_leftmost in E. destruct E as (pre & rest & _ & _ & R & _).
    exists x, y. split; [assumption | reflexivity].
  - destruct (Nat.eqb (length (after x)) (length (after y))).
    + destruct (after y); [contradiction | apply IH in H; exact H].
    + apply IH in H. exact H.
Qed.

Lemma consumed_prefix (x y : cursor) (t : jsstring) :
  after x = t ++ after y -> consumed x y = t.
Proof.
  intros A. unfold consumed. rewrite A, length_app.
  replace (length t + length (after y) - length (after y)) with (length t) by lia.
  rewrite firstn_app, Nat.sub_diag, firstn_all. simpl. apply app_nil_r.
Qed.

(** Every match of the pattern of the parameters is a size token. *)
Lemma match_all_size_tokens (text : jsstring) :
  Forall size_token (match_all flag_i (literal "\b\d+\.?\d*[bmk]\b") text).
Proof.
  apply Forall_forall. intros t H. apply match_all_from_matches in H.
  destruct H as (x & y & R & ->).
  apply run_sound in R; [| vm_compute; reflexivity].
  destruct R as (y' & M & [= <-]).
  apply matches_size_token in M. destruct M as (t & A & T).
  rewrite (@consumed_prefix x y' t A). exact T.
Qed.

Lemma parameters_loop_spec (fullText : jsstring) (params : list jsstring) :
  Forall size_token params ->
  forall acc,
    parameters_loop fullText params acc =
    Ok (acc ++ map snd (first_of_each (fun p => Some p) acc
                          (map toLowerCase
                             (filter (fun p => negb (test flag_i (param_pattern p) fullText))
                                params)))).
Proof.
  induction 1 as [| param params T _ IH]; intros acc; simpl.
  - rewrite app_nil_r. reflexivity.
  - rewrite (paramRegex_size_token (proj1 (size_token_chars T))). cbn [try_bind].
    destruct (test flag_i (param_pattern param) fullText); cbn [negb andb].
    + apply IH.
    + cbn [map first_of_each].
      change (existsb (eqb (toLowerCase param)) acc) with (has acc (toLowerCase param)).
      destruct (has acc (toLowerCase param)); cbn [negb].
      * apply IH.
      * rewrite IH. cbn [map snd]. unfold add. rewrite <- app_assoc. reflexivity.
Qed.
(** ** The parameters of an entry *)

Lemma first_of_each_all (E : Type) (key : E -> option jsstring) (sel : list E) :
  forall seen e k,
    In e sel -> key e = Some k ->
    In k (seen ++ map snd (first_of_each key seen sel)).
Proof.
  induction sel as [| e0 rest IH]; intros seen e k H K; [contradiction |].
  simpl. destruct H as [-> | H].
  - rewrite K. destruct (has seen k) eqn:S.
    + apply in_or_app. left. apply has_In. exact S.
    + apply in_or_app. right. left. reflexivity.
  - destruct (key e0) as [k0 |]; [| apply (IH seen e k H K)].
    destruct (has seen k0); [apply (IH seen e k H K) |].
    specialize (IH (add seen k0) e k H K). unfold add in IH.
    rewrite <- app_assoc in IH. exact IH.
Qed.

Lemma In_distinct (l : list jsstring) (k : jsstring) :
  In k (map snd (first_of_each (fun p => Some p) [] l)) <-> In k l.
Proof.
  split.
  - rewrite in_map_iff. intros ([e k'] & <- & H).
    apply first_of_each_first in H. destruct H as (_ & s1 & s2 & -> & [= ->] & _).
    apply in_elt.
  - intros H. apply (first_of_each_all (fun p => Some p) l [] k H eq_refl).
Qed.

Lemma lower_lower (c : code_unit) : lower (lower c) = lower c.
Proof.
  unfold lower, is_upper, between.
  destruct (N.leb 65 c && N.leb c 90)%bool eqn:U.
  - destruct (N.leb 65 (c + 32) && N.leb (c + 32) 90)%bool eqn:U'; [| reflexivity].
    unbool. lia.
  - rewrite U. reflexivity.
Qed.

Lemma toLowerCase_idempotent (s : jsstring) : toLowerCase (toLowerCase s) = toLowerCase s.
Proof.
  unfold toLowerCase. rewrite map_map. apply map_ext. exact lower_lower.
Qed.

Lemma parameters_of_spec (fullText : jsstring) :
  parameters_of fullText =
  Ok (map snd
        (first_of_each (fun p => Some p) []
           (map toLowerCase
              (filter (fun p => negb (test flag_i (param_pattern p) fullText))
                 (match_all flag_i (literal "\b\d+\.?\d*[bmk]\b") fullText))))).
Proof.
  unfold parameters_of.
  rewrite (parameters_loop_spec fullText (match_all_size_tokens fullText)).
  reflexivity.
Qed.

Lemma listing_item_parameters (li : loc * node) (href k : jsstring) (r : ModelListItem.t) :
  listing_item li href k = Ok r ->
  parameters_of (textContent (snd li)) = Ok (ModelListItem.parameters r).
Proof.
  unfold listing_item.
  destruct (description_of li k); simpl; try discriminate.
  destruct (parameters_of (textContent (snd li))); simpl; try discriminate.
  intros [= <-]. reflexivity.
Qed.

Lemma Forall2_right (A B : Type) (P : A -> B -> Prop) (l : list A) (rs : list B) :
  Forall2 P l rs -> Forall (fun r => exists a, In a l /\ P a r) rs.
Proof.
  induction 1 as [| a r l rs H _ IH]; constructor.
  - exists a. split; [left; reflexivity | assumption].
  - eapply Forall_impl; [| exact IH].
    intros r' (a' & I & P'). exists a'. split; [right |]; assumption.
Qed.

(** C7: the parameters of an entry are the size tokens of its text, in
    lower case, without repetition and in the order of their first occurrence,
    leaving out the tokens that the text follows with "Pulls" or "Tags"; a
    token that stands in the text before white space (possibly none) and one
    of the two labels, in any case, is never among the parameters. *)
Theorem C7_parameters (w : collaborators) (o : option options)
    (models : list ModelListItem.t) :
  getModelListing w o = Return models ->
  exists status doc,
    fetch w (listing_url w o) = Response true status doc
    /\ Forall (fun item =>
         exists li,
           In li (select (tag "li") doc)
           /\ entry_name li = Some (ModelListItem.name item)
           /\ let fullText := textContent (snd li) in
              let tokens := match_all flag_i (literal "\b\d+\.?\d*[bmk]\b") fullText in
              let parameters := ModelListItem.parameters item in
              Forall size_token tokens
              /\ parameters =
                 map snd
                   (first_of_each (fun p => Some p) []
                      (map toLowerCase
                         (filter (fun t => negb (test flag_i (param_pattern t) fullText))
                            tokens)))
              /\ NoDup parameters
              /\ (forall p, In p parameters ->
                    toLowerCase p = p /\ exists t, In t tokens /\ p = toLowerCase t)
              /\ (forall pre t ws label post,
                    fullText = pre ++ t ++ ws ++ label ++ post ->
                    head_is_word (rev pre) = false ->
                    Forall (fun c => is_space c = true) ws ->
                    toLowerCase label = js "pulls" \/ toLowerCase label = js "tags" ->
                    ~ In (toLowerCase t) parameters))
         models.
Proof.
  intros H. apply getModelListing_returns in H. destruct H as (status & doc & Hf & H).
  exists status, doc. split; [assumption |].
  apply listing_of_entries, Forall2_right in H.
  eapply Forall_impl; [| exact H]. clear H.
  intros item ([li k] & I & B). cbn [fst snd] in B.
  pose proof (listing_item_name _ _ _ B) as N.
  apply listing_item_parameters in B. rewrite parameters_of_spec in B.
  injection B as B.
  apply first_of_each_first in I. destruct I as (_ & s1 & s2 & S & K & _).
  exists li. split; [rewrite S; apply in_elt |]. split; [congruence |].
  cbv zeta. rewrite <- B.
  pose proof (match_all_size_tokens (textContent (snd li))) as T.
  split; [exact T |]. split; [reflexivity |].
  split; [apply NoDup_first_of_each |]. split.
  - intros p Hp. apply (proj1 (In_distinct _ _)), in_map_iff in Hp.
    destruct Hp as (t & <- & Ht). apply filter_In in Ht.
    split; [apply toLowerCase_idempotent |]. exists t. split; [apply Ht | reflexivity].
  - intros pre t ws label post E Bd Sp L Hp.
    apply (proj1 (In_distinct _ _)), in_map_iff in Hp. destruct Hp as (param & El & Hp).
    apply filter_In in Hp. destruct Hp as [Hp Ht].
    rewrite Forall_forall in T. specialize (T _ Hp).
    rewrite E in Ht.
    rewrite (test_at flag_i (param_pattern param) pre (t ++ ws ++ label ++ post)) in Ht;
      [discriminate |].
    apply run_param_pattern; try assumption. symmetry. exact El.
Qed.

Lemma C7_parameters_witness :
  getModelListing (serve scenario_A) None =
    Return [record_A "Test description Parameters: 7b, 13b 100K Pulls 5 Tags Updated 2 hours ago"]
  /\ Forall (fun item =>
       ModelListItem.parameters item = [js "7b"; js "13b"]
       /\ NoDup (ModelListItem.parameters item)
       /\ ~ In (toLowerCase (js "100K")) (ModelListItem.parameters item))
       [record_A "Test description Parameters: 7b, 13b 100K Pulls 5 Tags Updated 2 hours ago"].
Proof.
  assert (H : getModelListing (serve scenario_A) None =
              Return [record_A "Test description Parameters: 7b, 13b 100K Pulls 5 Tags Updated 2 hours ago"]).
  { rewrite (@getModelListing_loaded (serve scenario_A) None 200%N scenario_A eq_refl),
      listing_of_scenario_A. reflexivity. }
  split; [exact H |].
  destruct (C7_parameters _ _ H) as (status & doc & Hf & F).
  injection Hf as _ <-.
  eapply Forall_impl; [| exact F]. clear F H.
  intros item (li & I & _ & _ & E & N & _ & P).
  destruct I as [<- | []].
  split; [rewrite E; vm_compute; reflexivity |]. split; [exact N |].
  apply (P (js "test-model Test description Parameters: 7b, 13b ") (js "100K")
           (js " ") (js "Pulls") (js " 5 Tags Updated 2 hours ago"));
    [vm_compute; reflexivity | reflexivity | repeat constructor | left; reflexivity].
Defined.

(** * The fields of the records *)

(** ** The pages of the examples *)

Lemma listing_of_capable_entry_page :
  listing_of capable_entry_page = Ok [capable_entry_record].
Proof. vm_compute. reflexivity. Qed.

Lemma details_of_details_page (w : collaborators) :
  ModelDetails.models (fst (details_of w (js "llava") details_page)) = [details_page_variant]
  /\ ModelDetails.downloads (fst (details_of w (js "llava") details_page)) = js "1.2M"
  /\ ModelDetails.lastUpdated (fst (details_of w (js "llava") details_page)) = js "3 days ago".
Proof.
  unfold details_of. destruct (readme_of w details_page) as [[h m] log].
  cbn [fst ModelDetails.models ModelDetails.downloads ModelDetails.lastUpdated].
  repeat split; vm_compute; reflexivity.
Qed.

Lemma tags_of_tags_page :
  tags_of_page (js "llava") tags_page = [tags_page_record].
Proof. vm_compute. reflexivity. Qed.

(** ** The records and the places of the page they come from *)

Lemma getModelListing_each (w : collaborators) (o : option options)
    (models : list ModelListItem.t) (P : loc * node -> ModelListItem.t -> Prop) :
  getModelListing w o = Return models ->
  (forall li href item,
      entry_href li = Some href ->
      listing_item li href (replace (js "/library/") [] href) = Ok item ->
      P li item) ->
  each_entry w o models P.
Proof.
  intros H HP. apply getModelListing_returns in H. destruct H as (status & doc & Hf & H).
  exists status, doc. split; [assumption |].
  apply listing_of_entries, Forall2_right in H.
  eapply Forall_impl; [| exact H]. clear H.
  intros item ([li k] & I & B). cbn [fst snd] in B.
  pose proof (listing_item_name _ _ _ B) as N.
  pose proof (first_of_each_first_named _ _ _ _ I) as FN.
  apply first_of_each_first in I. destruct I as (_ & s1 & s2 & S & K & _).
  exists li. split; [rewrite N; exact FN |].
  unfold entry_name in K. destruct (entry_href li) as [href |] eqn:E; [| discriminate].
  cbn [option_map] in K. injection K as <-. cbn [or_default] in B.
  exact (HP li href item E B).
Qed.

Lemma getModelTags_each (w : collaborators) (modelName : jsstring)
    (tags : list ModelTag.t) (P : loc * node -> jsstring -> ModelTag.t -> Prop) :
  getModelTags w modelName = Return tags ->
  (forall doc link k, P link (tag_text doc (fst link)) (tag_record doc link k)) ->
  each_tag w modelName tags P.
Proof.
  intros H HP. apply getModelTags_returns in H. destruct H as (status & doc & Hf & ->).
  exists status, doc. split; [assumption |].
  apply Forall_forall. intros r I. apply tags_of_page_record in I.
  destruct I as (link & b & a & S & K & F & R).
  exists link. split; [exists b, a; repeat split; assumption |].
  rewrite R. apply HP.
Qed.

Lemma variants_of_record (doc : document) (v : Variant.t) :
  In v (variants_of doc) ->
  exists el,
    first_named link_tag (select variant_link doc) el (Variant.name v)
    /\ v = variant_record doc el (Variant.name v).
Proof.
  rewrite variants_of_links. intros I. apply in_map_iff in I.
  destruct I as ([el k] & <- & I). cbn [fst snd].
  exists el. split; [apply first_of_each_first_named; exact I | reflexivity].
Qed.

Lemma details_of_models (w : collaborators) (modelName : jsstring) (doc : document) :
  ModelDetails.models (fst (details_of w modelName doc)) = variants_of doc.
Proof. unfold details_of. destruct (readme_of w doc) as [[h m] l]. reflexivity. Qed.

Lemma getModelDetails_each (w : collaborators) (modelName : jsstring)
    (tag : option jsstring) (d : ModelDetails.t) (log : list jsstring)
    (P : loc * node -> jsstring -> Variant.t -> Prop) :
  getModelDetails w modelName tag = (Return d, log) ->
  (forall doc el k, P el (variant_text doc (fst el)) (variant_record doc el k)) ->
  each_variant w modelName tag d P.
Proof.
  intros H HP. apply getModelDetails_returns in H. destruct H as (status & doc & Hf & D).
  exists status, doc. split; [assumption |].
  pose proof (details_of_models w modelName doc) as Hm. rewrite D in Hm.
  cbn [fst] in Hm. rewrite Hm.
  apply Forall_forall. intros v I. apply variants_of_record in I.
  destruct I as (el & FN & R).
  exists el. split; [exact FN |].
  rewrite R. apply HP.
Qed.

Lemma listing_item_fields (li : loc * node) (href k : jsstring) (item : ModelListItem.t) :
  listing_item li href k = Ok item ->
  exists description parameters,
    description_of li k = Ok description
    /\ item =
       {| ModelListItem.name := k;
          ModelListItem.description := description;
          ModelListItem.parameters := parameters;
          ModelListItem.pulls := pulls_of (textContent (snd li));
          ModelListItem.tags := tags_of (textContent (snd li));
          ModelListItem.lastUpdated := updated_of (textContent (snd li));
          ModelListItem.url := baseUrl ++ href;
          ModelListItem.capabilities :=
            match capabilities_of (textContent (snd li)) with
            | [] => None
            | _ :: _ => Some (capabilities_of (textContent (snd li)))
            end |}.
Proof.
  unfold listing_item.
  destruct (description_of li k) as [description | |]; simpl; try discriminate.
  destruct (parameters_of (textContent (snd li))) as [parameters | |]; simpl;
    try discriminate.
  intros [= <-]. exists description, parameters. split; reflexivity.
Qed.

Lemma serve_listing (doc : document) (models : list ModelListItem.t) :
  listing_of doc = Ok models -> getModelListing (serve doc) None = Return models.
Proof.
  intros H.
  rewrite (@getModelListing_loaded (serve doc) None 200%N doc eq_refl), H. reflexivity.
Qed.

(** ** From a match to the text *)

Lemma spans_trans (cs cs' : list (nat * jsstring)) (s t : jsstring) (x z y : cursor) :
  spans cs s x z -> spans cs' t z y -> spans (cs' ++ cs) (s ++ t) x y.
Proof.
  intros (A1 & B1 & C1) (A2 & B2 & C2). repeat split.
  - rewrite A1, A2, app_assoc. reflexivity.
  - rewrite B2, B1, rev_app_distr, app_assoc. reflexivity.
  - rewrite C2, C1, app_assoc. reflexivity.
Qed.

Lemma takes_spans (p : code_unit -> bool) (x y : cursor) :
  takes p x y -> exists d, p d = true /\ spans [] [d] x y.
Proof.
  intros (d & rest & A & P & ->). exists d. split; [assumption |].
  repeat split. exact A.
Qed.

Lemma iterate_spans (p : code_unit -> bool) (n : nat) : forall x y,
  iterate (takes p) [] n x y ->
  exists t, length t = n /\ Forall (fun c => p c = true) t /\ spans [] t x y.
Proof.
  induction n as [| n IH]; intros x y H; simpl in H.
  - subst y. exists []. repeat split. constructor.
  - destruct H as (z & T & It). rewrite clear_caps_nil in T.
    apply takes_spans in T. destruct T as (d & P & S1).
    apply IH in It. destruct It as (t & L & F & S2).
    exists (d :: t). split; [simpl; lia |]. split; [constructor; assumption |].
    exact (spans_trans S1 S2).
Qed.

Lemma spans_group (i : nat) (cs : list (nat * jsstring)) (t : jsstring) (x z : cursor) :
  spans cs t x z -> spans ((i, t) :: cs) t x (set_cap i (consumed x z) z).
Proof.
  intros (A & B & C). rewrite (@consumed_prefix x z t A).
  repeat split; cbn [set_cap after before caps]; try assumption.
  rewrite C. reflexivity.
Qed.

Lemma upper_lower (c d : code_unit) : upper c = upper d -> lower c = lower d.
Proof.
  unfold lower, upper, is_upper, is_lower, between.
  destruct (N.leb 65 c && N.leb c 90)%bool eqn:U1;
    destruct (N.leb 65 d && N.leb d 90)%bool eqn:U2;
    destruct (N.leb 97 c && N.leb c 122)%bool eqn:L1;
    destruct (N.leb 97 d && N.leb d 122)%bool eqn:L2; unbool; lia.
Qed.

Lemma matches_char (c : code_unit) (x y : cursor) :
  matches flag_i (Char c) x y -> exists d, lower d = lower c /\ spans [] [d] x y.
Proof.
  intros H. apply takes_spans in H. destruct H as (d & P & S).
  exists d. split; [| exact S].
  apply N.eqb_eq in P. unfold canon in P. cbn [flag_i ignoreCase] in P.
  symmetry. apply upper_lower. exact P.
Qed.

Lemma matches_chars (tail : regex) (s : jsstring) : forall x y,
  matches flag_i (chars s tail) x y ->
  exists t z,
    toLowerCase t = toLowerCase s /\ spans [] t x z /\ matches flag_i tail z y.
Proof.
  induction s as [| c s IH]; intros x y H.
  - exists [], x. repeat split. exact H.
  - cbn [chars fold_right] in H. change (fold_right _ tail s) with (chars s tail) in H.
    cbn [matches] in H. destruct H as (z & Hc & H).
    apply matches_char in Hc. destruct Hc as (d & E & S1).
    apply IH in H. destruct H as (t & z' & Et & S2 & M).
    exists (d :: t), z'. split; [simpl; rewrite E, Et; reflexivity |].
    split; [exact (spans_trans S1 S2) | exact M].
Qed.

Lemma matches_word (s : jsstring) (c : code_unit) (x y : cursor) :
  matches flag_i (chars s (Char c)) x y ->
  exists t, toLowerCase t = toLowerCase (s ++ [c]) /\ spans [] t x y.
Proof.
  intros H. apply matches_chars in H. destruct H as (t & z & E & S1 & H).
  apply matches_char in H. destruct H as (d & Ed & S2).
  exists (t ++ [d]). split; [| exact (spans_trans S1 S2)].
  unfold toLowerCase in *. rewrite !map_app, E. simpl. rewrite Ed. reflexivity.
Qed.

Lemma space_class (d : code_unit) :
  xorb false (class_has flag_i [CSpace false] d) = true -> is_space d = true.
Proof.
  unfold class_has. cbn [existsb item_has flag_i ignoreCase xorb andb].
  destruct (is_space d) eqn:S; [reflexivity |].
  unfold upper, lower, is_lower, is_upper.
  destruct (between 97 122 d) eqn:L; destruct (between 65 90 d) eqn:U;
    rewrite ?S; cbn [orb]; try discriminate;
    unfold is_space, between in *; unbool; lia.
Qed.

Lemma blank_class (t : jsstring) :
  Forall (fun c => xorb false (class_has flag_i [CSpace false] c) = true) t -> blank t.
Proof. apply Forall_impl. exact space_class. Qed.

Lemma numeral_class (t : jsstring) :
  Forall (fun c => xorb false (class_has flag_i [CDigit false] c) = true) t -> numeral t.
Proof. apply Forall_impl. exact digit_ignoring_case. Qed.

Lemma decimal_parts (t1 t2 t3 : jsstring) :
  1 <= length t1 -> length t2 <= 1 ->
  Forall (fun c => xorb false (class_has flag_i [CDigit false] c) = true) t1 ->
  Forall (fun c => N.eqb (canon flag_i 46) (canon flag_i c) = true) t2 ->
  Forall (fun c => xorb false (class_has flag_i [CDigit false] c) = true) t3 ->
  decimal (t1 ++ t2 ++ t3).
Proof.
  intros L1 L2 F1 F2 F3. exists t1, t2, t3. split; [reflexivity |].
  split; [intros ->; simpl in L1; lia |].
  split; [exact (numeral_class F1) |].
  split; [| exact (numeral_class F3)].
  destruct t2 as [| d [| d' t2]]; [left; reflexivity | right | simpl in L2; lia].
  inversion F2 as [| ? ? P _]. apply point_ignoring_case in P. subst d. reflexivity.
Qed.

(** ** From the text to a match *)

Lemma atom_consumes (fl : flags) (a : regex) (x z : cursor) :
  atom a = true -> matches fl a x z -> length (after z) < length (after x).
Proof.
  destruct a; try discriminate; intros _ (d & rest & A & _ & ->);
    rewrite A; cbn [after length]; lia.
Qed.

Lemma iterate_length (R : cursor -> cursor -> Prop) (gs : list nat) (y : cursor) :
  (forall x z, R (clear_caps gs x) z -> length (after z) < length (after x)) ->
  forall n x, iterate R gs n x y -> n + length (after y) <= length (after x).
Proof.
  intros HR. induction n as [| n IH]; intros x It; simpl in It.
  - subst y. simpl. lia.
  - destruct It as (z & Rz & It). apply HR in Rz. apply IH in It. lia.
Qed.

Lemma repeat_matcher_complete
    (m : cursor -> (cursor -> option cursor) -> option cursor)
    (R : cursor -> cursor -> Prop) (gs : list nat) (greedy : bool)
    (k : cursor -> option cursor) (y : cursor) :
  (forall x z d, R x z -> d z <> None -> m x d <> None) ->
  (forall x z, R (clear_caps gs x) z -> length (after z) < length (after x)) ->
  k y <> None ->
  forall n fuel min max x,
    min <= n ->
    match max with Some hi => n <= hi | None => True end ->
    n < fuel ->
    iterate R gs n x y ->
    repeat_matcher m gs greedy k fuel min max x <> None.
Proof.
  intros Hm HR K. induction n as [| n IH]; intros fuel min max x Hmin Hmax Hf It;
    (destruct fuel as [| fuel]; [lia |]); simpl in It.
  - subst y. assert (min = 0) by lia. subst min. simpl.
    destruct max as [[| hi] |]; try exact K;
      destruct greedy; unfold or_else;
      try (destruct (m (clear_caps gs x) _); [discriminate | exact K]);
      destruct (k x); [discriminate | contradiction | discriminate | contradiction].
  - destruct It as (z & Rz & It).
    assert (D : (fun y0 : cursor =>
                   if (Nat.eqb min 0
                       && Nat.eqb (length (after y0)) (length (after x)))%bool
                   then None
                   else repeat_matcher m gs greedy k fuel (Nat.pred min)
                          (option_map Nat.pred max) y0) z <> None).
    { cbv beta. pose proof (HR _ _ Rz) as Lz.
      replace (Nat.eqb (length (after z)) (length (after x))) with false
        by (symmetry; apply Nat.eqb_neq; lia).
      rewrite andb_false_r. apply IH; try lia; [| exact It].
      destruct max as [hi |]; [| exact I]. simpl. lia. }
    pose proof (Hm _ _ _ Rz D) as M.
    simpl. destruct max as [[| hi] |]; [simpl in Hmax; lia | |];
      (destruct (Nat.eqb min 0); [| exact M]);
      destruct greedy; unfold or_else;
      try (destruct (m (clear_caps gs x) _); [discriminate | contradiction]);
      destruct (k x); try discriminate; exact M.
Qed.

(** The matcher finds a match wherever the pattern has one. *)
Lemma run_complete (fl : flags) (r : regex) :
  loops_over_atoms r = true ->
  forall x y k, matches fl r x y -> k y <> None -> run fl r x k <> None.
Proof.
  induction r as [| c | | inv items | a IHa b IHb | a IHa b IHb
                  | min max greedy a IHa | i a IHa | | | neg];
    intros L x y k M K; cbn [run]; cbn [matches] in M; cbn [loops_over_atoms] in L.
  - subst y. exact K.
  - destruct M as (d & rest & A & P & ->). unfold step. rewrite A, P. exact K.
  - destruct M as (d & rest & A & P & ->). unfold step. rewrite A, P. exact K.
  - destruct M as (d & rest & A & P & ->). unfold step. rewrite A, P. exact K.
  - apply andb_true_iff in L. destruct L as [La Lb]. destruct M as (z & Ma & Mb).
    apply (IHa La x z); [exact Ma |]. apply (IHb Lb z y); assumption.
  - apply andb_true_iff in L. destruct L as [La Lb]. unfold or_else.
    destruct M as [M | M].
    + destruct (run fl a x k) eqn:E; [discriminate |].
      exfalso. exact (IHa La x y k M K E).
    + destruct (run fl a x k); [discriminate |]. exact (IHb Lb x y k M K).
  - destruct M as (n & Hmin & Hmax & It).
    assert (HR : forall x0 z, matches fl a (clear_caps (groups_of a) x0) z ->
                              length (after z) < length (after x0)).
    { intros x0 z Mz. exact (@atom_consumes fl a _ z L Mz). }
    pose proof (@iterate_length _ _ y HR n x It) as Ln.
    apply (@repeat_matcher_complete (run fl a) (matches fl a) (groups_of a) greedy k y)
      with (n := n); try assumption; [| lia].
    assert (La : loops_over_atoms a = true) by (destruct a; try discriminate; reflexivity).
    intros x0 z d Mz Dz. exact (IHa La x0 z d Mz Dz).
  - destruct M as (z & Ma & ->). apply (IHa L x z); [exact Ma | exact K].
  - destruct M as (B & ->). rewrite B. exact K.
  - destruct M as (A & ->). rewrite A. exact K.
  - destruct M as (B & ->). rewrite B. exact K.
Qed.

(** ** The leftmost match *)

Lemma exec_leftmost_matches (fl : flags) (r : regex) (text : jsstring) (x y : cursor) :
  bounds_in_order r = true ->
  loops_over_atoms r = true ->
  exec fl r text = Some (x, y) ->
  exists pre rest,
    text = pre ++ rest /\ x = cursor_at [] pre rest
    /\ matches fl r x y
    /\ forall pre' rest' y',
         text = pre' ++ rest' -> matches fl r (cursor_at [] pre' rest') y' ->
         length pre <= length pre'.
Proof.
  intros B L E. unfold exec in E. apply exec_from_leftmost in E.
  destruct E as (pre & rest & -> & -> & R & Lm).
  exists pre, rest. split; [reflexivity |]. split; [reflexivity |].
  apply run_sound in R; [| exact B]. destruct R as (y' & M & [= ->]).
  split; [exact M |].
  intros pre' rest' y' E M'. destruct (Nat.le_gt_cases (length pre) (length pre'))
    as [Le | Gt]; [exact Le | exfalso].
  apply (@run_complete fl r L _ y' Some M'); [discriminate |].
  apply Lm; assumption.
Qed.

Lemma exec_none_matches (fl : flags) (r : regex) (pre rest : jsstring) (y : cursor) :
  loops_over_atoms r = true ->
  exec fl r (pre ++ rest) = None ->
  ~ matches fl r (cursor_at [] pre rest) y.
Proof.
  intros L E M. apply (@run_complete fl r L _ y Some M); [discriminate |].
  eapply exec_from_none; [exact E | reflexivity].
Qed.

Lemma takes_advance (p : code_unit -> bool) (x : cursor) (d : code_unit)
    (rest : jsstring) :
  after x = d :: rest -> p d = true -> takes p x (advance 1 x).
Proof.
  intros A P. exists d, rest. split; [exact A |]. split; [exact P |].
  unfold advance. rewrite A. reflexivity.
Qed.

Lemma advance_add (n m : nat) (x : cursor) :
  advance m (advance n x) = advance (n + m) x.
Proof.
  unfold advance. cbn [after before caps].
  assert (E : firstn (n + m) (after x)
              = firstn n (after x) ++ firstn m (skipn n (after x))).
  { rewrite firstn_skipn_comm.
    rewrite <- (firstn_skipn n (firstn (n + m) (after x))) at 1.
    rewrite firstn_firstn, Nat.min_l by lia. reflexivity. }
  rewrite E, rev_app_distr, app_assoc, skipn_skipn, (Nat.add_comm m n). reflexivity.
Qed.

Lemma iterate_advance (p : code_unit -> bool) (t : jsstring) : forall x rest,
  Forall (fun c => p c = true) t ->
  after x = t ++ rest ->
  iterate (takes p) [] (length t) x (advance (length t) x).
Proof.
  induction t as [| c t IH]; intros x rest F A.
  - simpl. apply advance_0.
  - inversion F as [| ? ? Pc F']; subst. cbn [length iterate].
    exists (advance 1 x). rewrite clear_caps_nil.
    split; [exact (takes_advance p x A Pc) |].
    replace (advance (S (length t)) x) with (advance (length t) (advance 1 x))
      by (rewrite advance_add; reflexivity).
    apply (IH _ rest F'). unfold advance. cbn [after]. rewrite A. reflexivity.
Qed.

(** ** Building a match *)

Lemma after_advance (n : nat) (x : cursor) (t rest : jsstring) :
  after x = t ++ rest -> length t = n -> after (advance n x) = rest.
Proof.
  intros A <-. unfold advance. cbn [after]. rewrite A, skipn_app, Nat.sub_diag, skipn_all.
  reflexivity.
Qed.

Lemma matches_class_run (fl : flags) (inv : bool) (items : list class_item)
    (min : nat) (max : option nat) (greedy : bool) (t : jsstring) (x : cursor)
    (rest : jsstring) :
  Forall (fun c => xorb inv (class_has fl items c) = true) t ->
  min <= length t ->
  match max with Some hi => length t <= hi | None => True end ->
  after x = t ++ rest ->
  matches fl (Repeat min max greedy (CharClass inv items)) x (advance (length t) x).
Proof.
  intros F Hmin Hmax A. cbn [matches groups_of]. exists (length t).
  split; [exact Hmin |]. split; [exact Hmax |].
  exact (@iterate_advance _ t x rest F A).
Qed.

Lemma matches_char_run (fl : flags) (c : code_unit)
    (min : nat) (max : option nat) (greedy : bool) (t : jsstring) (x : cursor)
    (rest : jsstring) :
  Forall (fun d => N.eqb (canon fl c) (canon fl d) = true) t ->
  min <= length t ->
  match max with Some hi => length t <= hi | None => True end ->
  after x = t ++ rest ->
  matches fl (Repeat min max greedy (Char c)) x (advance (length t) x).
Proof.
  intros F Hmin Hmax A. cbn [matches groups_of]. exists (length t).
  split; [exact Hmin |]. split; [exact Hmax |].
  exact (@iterate_advance _ t x rest F A).
Qed.

Lemma matches_char_advance (c d : code_unit) (x : cursor) (rest : jsstring) :
  lower c = lower d -> after x = d :: rest -> matches flag_i (Char c) x (advance 1 x).
Proof.
  intros E A. cbn [matches]. apply (@takes_advance _ x d rest A).
  unfold canon. cbn [flag_i ignoreCase]. rewrite (lower_upper _ _ E). apply N.eqb_refl.
Qed.

Lemma matches_chars_advance (tail : regex) (y : cursor) (s t : jsstring) :
  Forall2 (fun c d => lower c = lower d) s t ->
  forall x rest,
    after x = t ++ rest ->
    matches flag_i tail (advance (length t) x) y ->
    matches flag_i (chars s tail) x y.
Proof.
  induction 1 as [| c d s t E _ IH]; intros x rest A M.
  - rewrite advance_0 in M. exact M.
  - cbn [chars fold_right matches]. exists (advance 1 x).
    split; [exact (@matches_char_advance c d x (t ++ rest) E A) |].
    apply (IH (advance 1 x) rest).
    + exact (@after_advance 1 x [d] (t ++ rest) A eq_refl).
    + rewrite advance_add. exact M.
Qed.

Lemma matches_word_advance (s : jsstring) (c : code_unit) (t : jsstring) (x : cursor)
    (rest : jsstring) :
  toLowerCase t = toLowerCase (s ++ [c]) ->
  after x = t ++ rest ->
  matches flag_i (chars s (Char c)) x (advance (length t) x).
Proof.
  intros E A. destruct (exists_last (l := t)) as (t' & d & ->).
  { intros ->. destruct s; discriminate E. }
  unfold toLowerCase in E. rewrite !map_app in E. apply app_inj_tail in E.
  destruct E as (E & Ed). rewrite <- app_assoc in A.
  apply (@matches_chars_advance _ _ s t' (toLowerCase_Forall2 _ _ (eq_sym E)) x _ A).
  rewrite length_app, <- advance_add. cbn [length].
  apply (@matches_char_advance c d _ rest); [symmetry; exact Ed |].
  exact (@after_advance _ x t' _ A eq_refl).
Qed.

Lemma digit_in_class (d : code_unit) :
  is_digit d = true -> xorb false (class_has flag_i [CDigit false] d) = true.
Proof.
  intros H. unfold class_has. cbn [existsb item_has xorb]. rewrite H. reflexivity.
Qed.

Lemma matches_spaces_advance (ws : jsstring) (x : cursor) (rest : jsstring) :
  blank ws -> after x = ws ++ rest ->
  matches flag_i spaces_pattern x (advance (length ws) x).
Proof.
  intros B A. apply (@matches_class_run flag_i false _ 0 None true ws x rest);
    [| lia | exact I | exact A].
  exact (Forall_impl _ space_ignoring_case B).
Qed.

Lemma count_suffix_in_class (c : code_unit) :
  one_of "KMBkmb" c = true ->
  xorb false (class_has flag_i [CRange 75 75; CRange 77 77; CRange 66 66] c) = true.
Proof.
  unfold one_of. change (js "KMBkmb") with [75; 77; 66; 107; 109; 98]%N.
  cbn [existsb]. rewrite !orb_true_iff, !N.eqb_eq.
  intros [-> | [-> | [-> | [-> | [-> | [-> | H]]]]]]; [.. | discriminate H];
    reflexivity.
Qed.

Lemma count_matches (c rest : jsstring) (x : cursor) :
  count_token c -> after x = c ++ rest ->
  matches flag_i count_pattern x (advance (length c) x).
Proof.
  intros (number & suffix & -> & (whole & point & fraction & -> & Nw & Fw & P & Ff) & Sx) A.
  rewrite <- !app_assoc in A.
  unfold count_pattern. cbn [matches].
  exists (advance (length whole) x). split.
  { apply (@matches_class_run flag_i false _ 1 None true whole x
             (point ++ fraction ++ suffix ++ rest));
      [exact (Forall_impl _ digit_in_class Fw) | | exact I | exact A].
    destruct whole; [contradiction | simpl; lia]. }
  pose proof (@after_advance _ x whole (point ++ fraction ++ suffix ++ rest) A eq_refl)
    as A1.
  exists (advance (length point) (advance (length whole) x)). split.
  { apply (@matches_char_run flag_i 46 0 (Some 1) true point _
             (fraction ++ suffix ++ rest));
      [| lia | | exact A1];
      destruct P as [-> | ->]; repeat constructor. }
  pose proof (@after_advance _ _ point (fraction ++ suffix ++ rest) A1 eq_refl) as A2.
  exists (advance (length fraction) (advance (length point) (advance (length whole) x))).
  split.
  { apply (@matches_class_run flag_i false _ 0 None true fraction _ (suffix ++ rest));
      [exact (Forall_impl _ digit_in_class Ff) | lia | exact I | exact A2]. }
  pose proof (@after_advance _ _ fraction (suffix ++ rest) A2 eq_refl) as A3.
  replace (advance (length ((whole ++ point ++ fraction) ++ suffix)) x)
    with (advance (length suffix)
            (advance (length fraction)
               (advance (length point) (advance (length whole) x))))
    by (rewrite !advance_add, !length_app; f_equal; lia).
  apply (@matches_class_run flag_i false _ 0 (Some 1) true suffix _ rest);
    [| lia | | exact A3].
  - destruct Sx as [-> | (k & -> & K)]; repeat constructor.
    exact (count_suffix_in_class _ K).
  - destruct Sx as [-> | (k & -> & K)]; simpl; lia.
Qed.

(** A capture followed by white space and a label. *)
Lemma labelled_matches (inner : regex) (s : jsstring) (c : code_unit)
    (t ws label rest : jsstring) (x : cursor) :
  after x = t ++ ws ++ label ++ rest ->
  matches flag_i inner x (advance (length t) x) ->
  blank ws ->
  toLowerCase label = toLowerCase (s ++ [c]) ->
  exists y,
    matches flag_i (Seq (Group 1 inner) (Seq spaces_pattern (chars s (Char c)))) x y.
Proof.
  intros A Mi B E.
  set (z := advance (length t) x).
  set (zc := set_cap 1 (consumed x z) z).
  assert (Az : after zc = ws ++ label ++ rest)
    by exact (@after_advance _ x t _ A eq_refl).
  exists (advance (length label) (advance (length ws) zc)).
  cbn [matches]. exists zc. split; [exists z; split; [exact Mi | reflexivity] |].
  exists (advance (length ws) zc).
  split; [exact (@matches_spaces_advance ws zc (label ++ rest) B Az) |].
  apply (@matches_word_advance s c label _ rest E).
  exact (@after_advance _ zc ws (label ++ rest) Az eq_refl).
Qed.

(** ** Trimming *)

Lemma trimStart_blank_app (ws s : jsstring) :
  blank ws -> trimStart (ws ++ s) = trimStart s.
Proof. induction 1 as [| c ws C _ IH]; [reflexivity |]. simpl. rewrite C. exact IH. Qed.

Lemma trim_blank_app (ws s : jsstring) : blank ws -> trim (ws ++ s) = trim s.
Proof. intros B. unfold trim. rewrite (trimStart_blank_app s B). reflexivity. Qed.

Lemma trimStart_head (s : jsstring) :
  match trimStart s with c :: _ => is_space c = false | [] => True end.
Proof.
  induction s as [| c s IH]; [exact I |]. simpl.
  destruct (is_space c) eqn:C; [exact IH | exact C].
Qed.

Lemma trimStart_suffix (s : jsstring) :
  exists ws, blank ws /\ s = ws ++ trimStart s.
Proof.
  induction s as [| c s (ws & B & E)]; [exists []; split; [constructor | reflexivity] |].
  simpl. destruct (is_space c) eqn:C.
  - exists (c :: ws). split; [constructor; assumption |]. simpl. rewrite <- E. reflexivity.
  - exists []. split; [constructor | reflexivity].
Qed.

Lemma trimStart_fixed (s : jsstring) :
  match s with c :: _ => is_space c = false | [] => True end -> trimStart s = s.
Proof. destruct s as [| c s]; [reflexivity |]. simpl. intros ->. reflexivity. Qed.

Lemma trimEnd_app_blank (s ws : jsstring) : blank ws -> trimEnd (s ++ ws) = trimEnd s.
Proof.
  intros B. unfold trimEnd. rewrite rev_app_distr, trimStart_blank_app; [reflexivity |].
  apply Forall_rev. exact B.
Qed.

Lemma trimEnd_prefix (s : jsstring) : exists ws, blank ws /\ s = trimEnd s ++ ws.
Proof.
  unfold trimEnd. destruct (trimStart_suffix (rev s)) as (ws & B & E).
  exists (rev ws). split; [apply Forall_rev; exact B |].
  rewrite <- rev_app_distr, <- E, rev_involutive. reflexivity.
Qed.

Lemma trimStart_app_keep (s t : jsstring) :
  trimStart s <> [] -> trimStart (s ++ t) = trimStart s ++ t.
Proof.
  induction s as [| c s IH]; [contradiction |]. simpl.
  destruct (is_space c); [exact IH | reflexivity].
Qed.

Lemma trim_app_blank (s ws : jsstring) : blank ws -> trim (s ++ ws) = trim s.
Proof.
  intros B. unfold trim. destruct (trimStart s) as [| c t] eqn:E.
  - destruct (trimStart_suffix s) as (ws' & B' & Es). rewrite E, app_nil_r in Es.
    subst ws'. rewrite (trimStart_blank_app ws B').
    destruct (trimStart_suffix ws) as (ws2 & B2 & E2).
    assert (Bt : blank (trimStart ws)).
    { unfold blank in *. rewrite E2 in B. apply Forall_app in B. apply B. }
    rewrite <- (app_nil_l (trimStart ws)), (trimEnd_app_blank [] Bt). reflexivity.
  - rewrite trimStart_app_keep by (rewrite E; discriminate).
    rewrite E. apply trimEnd_app_blank. exact B.
Qed.

(** A trimmed string has no white space at either end. *)
Lemma trim_trimmed (s : jsstring) : trimmed (trim s).
Proof.
  unfold trimmed, trim. split.
  - pose proof (trimStart_head s) as H. destruct (trimEnd_prefix (trimStart s)) as (ws & B & E).
    destruct (trimEnd (trimStart s)) as [| c t]; [exact I |].
    rewrite E in H. exact H.
  - unfold trimEnd. rewrite rev_involutive. apply trimStart_head.
Qed.

Lemma trimmed_nil : trimmed [].
Proof. split; exact I. Qed.

(** ** Words: capabilities and input types *)

Lemma bounds_chars (s : jsstring) (tail : regex) :
  bounds_in_order (chars s tail) = bounds_in_order tail.
Proof. induction s as [| c s IH]; [reflexivity | exact IH]. Qed.

Lemma letters_word (word t : jsstring) :
  Forall (fun c => is_lower c = true) word ->
  toLowerCase t = word ->
  Forall (fun d => is_word d = true) t.
Proof.
  intros F <-. unfold toLowerCase in F. rewrite Forall_map in F.
  eapply Forall_impl; [| exact F]. clear. intros d.
  unfold is_word, lower, is_lower, is_upper, is_digit, between.
  destruct (N.leb 65 d && N.leb d 90)%bool eqn:U; [intros _; rewrite orb_true_r; reflexivity |].
  intros ->. reflexivity.
Qed.

Lemma head_is_word_app (t post : jsstring) :
  t <> [] -> Forall (fun d => is_word d = true) t -> head_is_word (t ++ post) = true.
Proof.
  destruct t as [| d t]; [contradiction |]. intros _ F. inversion F; assumption.
Qed.

Lemma spells_nonempty (word : jsstring) (t : jsstring) :
  word <> [] -> toLowerCase t = word -> t <> [].
Proof. intros N E ->. apply N. symmetry. exact E. Qed.

(** Where the pattern of a word matches. *)
Lemma word_pattern_at (word : string) (pre rest : jsstring) :
  js word <> [] ->
  Forall (fun c => is_lower c = true) (js word) ->
  (run flag_i (word_pattern word) (cursor_at [] pre rest) Some <> None
   <-> exists t post, rest = t ++ post /\ spells word t /\ standalone pre post).
Proof.
  intros N F. assert (Lw : toLowerCase (js word) = js word).
  { clear N. unfold toLowerCase. induction F as [| c s C _ IH]; [reflexivity |].
    cbn [map]. rewrite IH. f_equal.
    unfold lower, is_upper, is_lower, between in *.
    destruct (N.leb 65 c && N.leb c 90)%bool eqn:U; [| reflexivity]. unbool. lia. }
  split.
  - intros R. destruct (run flag_i (word_pattern word) (cursor_at [] pre rest) Some)
      as [y |] eqn:E; [clear R | contradiction].
    apply run_sound in E; [| unfold word_pattern; cbn [bounds_in_order];
                             rewrite bounds_chars; reflexivity].
    destruct E as (y' & M & _). unfold word_pattern in M. cbn [matches] in M.
    destruct M as (x' & (B1 & ->) & M). apply matches_chars in M.
    destruct M as (t & z & Et & (A & B & _) & (B2 & _)).
    rewrite Lw in Et. exists t, (after z). cbn [cursor_at after before] in A, B.
    split; [exact A |]. split; [exact Et |].
    pose proof (@letters_word _ _ F Et) as W. pose proof (@spells_nonempty _ _ N Et) as Nt.
    unfold at_word_boundary in B1, B2. cbn [xorb] in B1, B2.
    cbn [cursor_at after before] in B1. rewrite app_nil_r in B1.
    rewrite A, (@head_is_word_app t _ Nt W) in B1.
    rewrite B in B2. rewrite head_is_word_app in B2.
    + split.
      * destruct (head_is_word (rev pre)); [discriminate | reflexivity].
      * destruct (head_is_word (after z)); [discriminate | reflexivity].
    + intros Hr. apply Nt. apply (f_equal (@rev code_unit)) in Hr.
      rewrite rev_involutive in Hr. exact Hr.
    + apply Forall_rev. exact W.
  - intros (t & post & -> & Et & (S1 & S2)).
    pose proof (@letters_word _ _ F Et) as W. pose proof (@spells_nonempty _ _ N Et) as Nt.
    unfold word_pattern. cbn [run xorb].
    unfold at_word_boundary at 1. cbn [cursor_at after before].
    rewrite app_nil_r, S1, (@head_is_word_app t _ Nt W). cbn [xorb].
    assert (F2 : Forall2 (fun c d => lower c = lower d) (js word) t).
    { apply toLowerCase_Forall2. rewrite Lw. symmetry. exact Et. }
    erewrite (@run_chars (WordBoundary false) Some (js word) t F2 _ post); [| reflexivity].
    cbn [run xorb]. unfold at_word_boundary, advance. cbn [cursor_at after before].
    rewrite firstn_app, Nat.sub_diag, firstn_all, skipn_app, Nat.sub_diag, skipn_all.
    cbn [firstn skipn app]. rewrite !app_nil_r, S2.
    rewrite head_is_word_app; [discriminate | | apply Forall_rev; exact W].
    intros Hr. apply Nt. apply (f_equal (@rev code_unit)) in Hr.
    rewrite rev_involutive in Hr. exact Hr.
Qed.

(** The test of the pattern of a word succeeds exactly where the word
    occurs. *)
Lemma test_word (word : string) (text : jsstring) :
  js word <> [] ->
  Forall (fun c => is_lower c = true) (js word) ->
  (test flag_i (word_pattern word) text = true <-> occurs_as_word word text).
Proof.
  intros N F. split.
  - unfold test, exec.
    destruct (exec_from flag_i (word_pattern word) [] text) as [[x y] |] eqn:E;
      [intros _ | discriminate].
    apply exec_from_leftmost in E. destruct E as (pre & rest & -> & -> & R & _).
    assert (R' : run flag_i (word_pattern word) (cursor_at [] pre rest) Some <> None)
      by (rewrite R; discriminate).
    apply (word_pattern_at word pre rest N F) in R'.
    destruct R' as (t & post & -> & Et & S). exists pre, t, post.
    repeat split; try assumption; apply S.
  - intros (pre & t & post & -> & Et & S). apply test_at.
    apply (word_pattern_at word pre (t ++ post) N F). exists t, post.
    repeat split; try assumption; apply S.
Qed.

Lemma literal_words :
  Forall (fun word => literal ("\b" ++ word ++ "\b") = word_pattern word
                      /\ js word <> []
                      /\ forallb is_lower (js word) = true)
    ["tools"; "vision"; "thinking"; "embedding"; "text"]%string.
Proof. repeat constructor; try discriminate; vm_compute; reflexivity. Qed.

Lemma test_literal_word (word : string) (text : jsstring) :
  In word ["tools"; "vision"; "thinking"; "embedding"; "text"]%string ->
  (test flag_i (literal ("\b" ++ word ++ "\b")) text = true <-> occurs_as_word word text).
Proof.
  intros I. pose proof literal_words as L. rewrite Forall_forall in L.
  destruct (L word I) as (-> & N & F). apply test_word; [exact N |].
  apply Forall_forall. rewrite forallb_forall in F. exact F.
Qed.

Lemma capabilities_flags (b1 b2 b3 b4 : bool) :
  let l := (if b1 then [js "tools"] else []) ++ (if b2 then [js "vision"] else [])
           ++ (if b3 then [js "thinking"] else [])
           ++ (if b4 then [js "embedding"] else []) in
  (In (js "tools") l <-> b1 = true) /\ (In (js "vision") l <-> b2 = true)
  /\ (In (js "thinking") l <-> b3 = true) /\ (In (js "embedding") l <-> b4 = true)
  /\ l = filter (has l) (map js capability_words).
Proof.
  destruct b1, b2, b3, b4; vm_compute;
    repeat split; intros; try reflexivity; try discriminate;
    intuition (try discriminate; try congruence).
Qed.

Lemma capabilities_of_read (text : jsstring) :
  capabilities_read text
    match capabilities_of text with
    | [] => None
    | _ :: _ => Some (capabilities_of text)
    end.
Proof.
  unfold capabilities_read.
  assert (E : match match capabilities_of text with
                    | [] => None
                    | _ :: _ => Some (capabilities_of text)
                    end with
              | Some l => l
              | None => []
              end = capabilities_of text)
    by (destruct (capabilities_of text); reflexivity).
  cbv zeta. rewrite E. clear E. split; [| split].
  - pose proof (fun word => @test_literal_word word text) as T.
    unfold capabilities_of, capability.
    destruct (capabilities_flags
                (test flag_i (literal ("\b" ++ "tools" ++ "\b")) text)
                (test flag_i (literal ("\b" ++ "vision" ++ "\b")) text)
                (test flag_i (literal ("\b" ++ "thinking" ++ "\b")) text)
                (test flag_i (literal ("\b" ++ "embedding" ++ "\b")) text))
      as (H1 & H2 & H3 & H4 & _).
    intros word [<- | [<- | [<- | [<- | []]]]].
    + rewrite H1. apply T. simpl. tauto.
    + rewrite H2. apply T. simpl. tauto.
    + rewrite H3. apply T. simpl. tauto.
    + rewrite H4. apply T. simpl. tauto.
  - unfold capabilities_of, capability. apply capabilities_flags.
  - destruct (capabilities_of text); discriminate.
Qed.

Lemma inputType_of_read (text : jsstring) : inputType_read text (inputType_of text).
Proof.
  unfold inputType_read, inputType_of.
  pose proof (@test_literal_word "vision" text ltac:(simpl; tauto)) as V.
  pose proof (@test_literal_word "text" text ltac:(simpl; tauto)) as T.
  change ("\b" ++ "vision" ++ "\b")%string with "\bvision\b"%string in V.
  change ("\b" ++ "text" ++ "\b")%string with "\btext\b"%string in T.
  destruct (test flag_i (literal "\bvision\b") text);
    destruct (test flag_i (literal "\btext\b") text);
    repeat split; intros; try discriminate; try tauto;
    try (exfalso; intuition discriminate);
    try (intros O; apply (proj2 V) in O; discriminate O);
    try (intros O; apply (proj2 T) in O; discriminate O).
Qed.

(** ** Counts: pulls and tags *)

Lemma count_suffix_class (d : code_unit) :
  xorb false (class_has flag_i [CRange 75 75; CRange 77 77; CRange 66 66] d) = true ->
  one_of "KMBkmb" d = true.
Proof.
  unfold class_has, one_of.
  change (js "KMBkmb") with [75; 77; 66; 107; 109; 98]%N.
  cbn [existsb item_has flag_i ignoreCase xorb andb].
  unfold upper, lower, is_lower, is_upper, between.
  destruct (N.leb 97 d && N.leb d 122)%bool eqn:L;
    destruct (N.leb 65 d && N.leb d 90)%bool eqn:U; unbool; lia.
Qed.

Lemma matches_count (x y : cursor) :
  matches flag_i count_pattern x y -> exists t, count_token t /\ spans [] t x y.
Proof.
  unfold count_pattern. cbn [matches groups_of].
  intros (z1 & (n1 & N1 & _ & I1) & z2 & (n2 & _ & N2 & I2)
          & z3 & (n3 & _ & _ & I3) & (n4 & _ & N4 & I4)).
  apply iterate_spans in I1. destruct I1 as (t1 & L1 & F1 & S1).
  apply iterate_spans in I2. destruct I2 as (t2 & L2 & F2 & S2).
  apply iterate_spans in I3. destruct I3 as (t3 & L3 & F3 & S3).
  apply iterate_spans in I4. destruct I4 as (t4 & L4 & F4 & S4).
  exists ((t1 ++ t2 ++ t3) ++ t4). split.
  - exists (t1 ++ t2 ++ t3), t4. split; [reflexivity |].
    split; [apply decimal_parts; try assumption; lia |].
    destruct t4 as [| c [| c' t4]]; [left; reflexivity | right | simpl in L4; lia].
    exists c. split; [reflexivity |]. inversion F4 as [| ? ? P _].
    apply count_suffix_class. exact P.
  - pose proof (spans_trans (spans_trans S1 (spans_trans S2 S3)) S4) as S.
    rewrite <- !app_assoc in S. rewrite <- !app_assoc. exact S.
Qed.

Lemma literal_pulls :
  literal "(\d+\.?\d*[KMB]?)\s*Pulls" =
  Seq (Group 1 count_pattern) (Seq spaces_pattern (chars (js "Pull") (Char 115))).
Proof. vm_compute. reflexivity. Qed.

Lemma literal_tags :
  literal "(\d+)\s*Tags" =
  Seq (Group 1 (Repeat 1 None true (CharClass false [CDigit false])))
    (Seq spaces_pattern (chars (js "Tag") (Char 115))).
Proof. vm_compute. reflexivity. Qed.

Lemma matches_spaces (x y : cursor) :
  matches flag_i spaces_pattern x y -> exists ws, blank ws /\ spans [] ws x y.
Proof.
  unfold spaces_pattern. cbn [matches groups_of]. intros (n & _ & _ & I).
  apply iterate_spans in I. destruct I as (ws & _ & F & S).
  exists ws. split; [exact (blank_class F) | exact S].
Qed.

(** What follows a capture: white space and a label. *)
Lemma matches_labelled (inner : regex) (s : jsstring) (c : code_unit) (x y : cursor)
    (Q : jsstring -> Prop) :
  (forall x' z, matches flag_i inner x' z -> exists t, Q t /\ spans [] t x' z) ->
  matches flag_i (Seq (Group 1 inner) (Seq spaces_pattern (chars s (Char c)))) x y ->
  exists t ws label,
    Q t /\ blank ws /\ toLowerCase label = toLowerCase (s ++ [c])
    /\ after x = t ++ ws ++ label ++ after y
    /\ caps y = (1, t) :: caps x.
Proof.
  intros HQ H. cbn [matches] in H.
  destruct H as (z & (z0 & Mi & ->) & z1 & Ms & Mw).
  apply HQ in Mi. destruct Mi as (t & Qt & S1). apply (spans_group 1) in S1.
  apply matches_spaces in Ms. destruct Ms as (ws & Bw & S2).
  apply matches_word in Mw. destruct Mw as (label & El & S3).
  destruct (spans_trans (spans_trans S1 S2) S3) as (A & _ & C).
  exists t, ws, label. repeat split; try assumption.
  rewrite A, <- !app_assoc. reflexivity.
Qed.

Lemma labelled_capture (inner : regex) (s : jsstring) (c : code_unit)
    (Q : jsstring -> Prop) (word : string) (text : jsstring) :
  js word = toLowerCase (s ++ [c]) ->
  loops_over_atoms inner = true ->
  bounds_in_order inner = true ->
  (forall x z, matches flag_i inner x z -> exists t, Q t /\ spans [] t x z) ->
  (forall t rest x, Q t -> after x = t ++ rest ->
                    matches flag_i inner x (advance (length t) x)) ->
  match match_group flag_i
          (Seq (Group 1 inner) (Seq spaces_pattern (chars s (Char c)))) 1 text with
  | Some t => labelled word Q text t
  | None => forall t, ~ labelled word Q text t
  end.
Proof.
  intros W La Ba Sound Complete.
  set (r := Seq (Group 1 inner) (Seq spaces_pattern (chars s (Char c)))).
  assert (L : loops_over_atoms r = true).
  { unfold r. cbn [loops_over_atoms spaces_pattern atom]. rewrite La. cbn [andb].
    clear. induction s as [| d s IH]; [reflexivity | exact IH]. }
  assert (B : bounds_in_order r = true).
  { unfold r. cbn [bounds_in_order spaces_pattern]. rewrite Ba, bounds_chars.
    reflexivity. }
  unfold match_group.
  destruct (exec flag_i r text) as [[x y] |] eqn:E.
  - apply (@exec_leftmost_matches flag_i r text x y B L) in E.
    destruct E as (pre & rest & -> & -> & M & _).
    apply (@matches_labelled inner s c _ _ Q Sound) in M.
    destruct M as (t & ws & label & Qt & Bw & El & A & C).
    cbn [group snd]. rewrite C. cbn [capture Nat.eqb].
    exists pre, ws, label, (after y). cbn [cursor_at after] in A.
    rewrite A. unfold spells. rewrite W. repeat split; assumption.
  - intros t (pre & ws & label & post & -> & Qt & Bw & El).
    unfold spells in El. rewrite W in El.
    set (x := cursor_at [] pre (t ++ ws ++ label ++ post)).
    destruct (@labelled_matches inner s c t ws label post x eq_refl
                (Complete t (ws ++ label ++ post) x Qt eq_refl) Bw El) as (y & M).
    exact (@exec_none_matches flag_i r pre _ y L E M).
Qed.

Lemma pulls_of_read (text : jsstring) : pulls_read text (pulls_of text).
Proof.
  unfold pulls_read, pulls_of. rewrite literal_pulls.
  pose proof (@labelled_capture count_pattern (js "Pull") 115%N count_token "pulls" text
                eq_refl eq_refl eq_refl matches_count
                (fun t rest x Q A => @count_matches t rest x Q A)) as H.
  destruct (match_group _ _ _ _) as [t |]; cbn [or_default];
    [left; exact H | right; split; [reflexivity | exact H]].
Qed.

Lemma digits_matches (t rest : jsstring) (x : cursor) :
  t <> [] /\ numeral t -> after x = t ++ rest ->
  matches flag_i (Repeat 1 None true (CharClass false [CDigit false])) x
    (advance (length t) x).
Proof.
  intros (N & F) A.
  apply (@matches_class_run flag_i false _ 1 None true t x rest);
    [exact (Forall_impl _ digit_in_class F) | | exact I | exact A].
  destruct t; [contradiction | simpl; lia].
Qed.

Lemma matches_digits (x z : cursor) :
  matches flag_i (Repeat 1 None true (CharClass false [CDigit false])) x z ->
  exists t, (t <> [] /\ numeral t) /\ spans [] t x z.
Proof.
  cbn [matches groups_of]. intros (n & N1 & _ & I).
  apply iterate_spans in I. destruct I as (t & L & F & S).
  exists t. split; [| exact S]. split; [intros ->; simpl in L; lia |].
  exact (numeral_class F).
Qed.

(** ** The Number value of an integer *)

Section Doubles.
Local Open Scope N_scope.

Lemma pow_split (a b : N) : a <= b -> 2 ^ b = 2 ^ (b - a) * 2 ^ a.
Proof.
  intros H. rewrite <- N.pow_add_r. f_equal. lia.
Qed.

(** No double lies strictly between two neighbours of the grid of step
    [2 ^ e], from [2 ^ 52 * 2 ^ e] on. *)
Lemma double_grid (q e m' : N) :
  1 <= e -> 2 ^ 52 <= q -> representable m' ->
  m' <= q * 2 ^ e \/ (q + 1) * 2 ^ e <= m'.
Proof.
  intros He Hq (q2 & e2 & -> & H2).
  destruct (N.lt_ge_cases e2 e) as [L | L].
  - left. rewrite (@pow_split e2 e) by lia.
    assert (P : 2 ^ 53 = 2 * 2 ^ 52) by reflexivity.
    assert (B : 2 <= 2 ^ (e - e2)).
    { change 2 with (2 ^ 1) at 1. apply N.pow_le_mono_r; lia. }
    rewrite N.mul_assoc. apply N.mul_le_mono_r.
    transitivity (2 ^ 52 * 2); [lia |].
    apply N.mul_le_mono; assumption.
  - rewrite (@pow_split e e2) by lia. rewrite N.mul_assoc.
    set (k := q2 * 2 ^ (e2 - e)).
    destruct (N.le_gt_cases k q) as [K | K].
    + left. apply N.mul_le_mono_r. exact K.
    + right. apply N.mul_le_mono_r. lia.
Qed.

Lemma to_double_small (v : N) : v < 2 ^ 53 -> to_double v = Finite v.
Proof.
  intros H. unfold to_double. apply N.ltb_lt in H. rewrite H. reflexivity.
Qed.

Lemma pow_53_1024 : 2 ^ 53 < 2 ^ 1024.
Proof. apply N.pow_lt_mono_r; lia. Qed.

Lemma distance_refl (v : N) : distance v v = 0.
Proof. unfold distance. lia. Qed.

(** The Number value of an integer is the nearest double, ties to even. *)
Lemma to_double_rounds (v : N) : rounds_to v (to_double v).
Proof.
  destruct (N.lt_ge_cases v (2 ^ 53)) as [S | B].
  - rewrite (@to_double_small v S). cbn [rounds_to].
    split; [exists v, 0; split; [rewrite N.pow_0_r; lia | exact S] |].
    split; [pose proof pow_53_1024; lia |].
    split; [intros m' _; rewrite distance_refl; lia |].
    intros m' _ N D. rewrite distance_refl in D. unfold distance in D. lia.
  - unfold to_double.
    assert (Hb : (v <? 2 ^ 53) = false) by (apply N.ltb_ge; exact B).
    rewrite Hb. cbv zeta.
    assert (V0 : 0 < v) by (assert (0 < 2 ^ 53) by reflexivity; lia).
    destruct (N.log2_spec v V0) as (Lo & Hi).
    assert (L53 : 53 <= N.log2 v) by (apply N.log2_le_pow2; assumption).
    set (e := N.log2 v - 52) in *.
    assert (He : 1 <= e) by (unfold e; lia).
    assert (E1 : 2 ^ N.log2 v = 2 ^ 52 * 2 ^ e)
      by (unfold e; rewrite <- N.pow_add_r; f_equal; lia).
    assert (E2 : 2 ^ N.succ (N.log2 v) = 2 ^ 53 * 2 ^ e).
    { unfold e. rewrite <- N.pow_add_r. f_equal. lia. }
    rewrite E1 in Lo. rewrite E2 in Hi.
    assert (Bh : 2 ^ e = 2 * 2 ^ (e - 1)).
    { replace e with (N.succ (e - 1)) at 1 by lia. apply N.pow_succ_r'. }
    assert (Bp : 2 ^ e <> 0) by (apply N.pow_nonzero; discriminate).
    pose proof (N.div_mod v (2 ^ e) Bp) as DM.
    pose proof (N.mod_lt v (2 ^ e) Bp) as RL.
    assert (Q1 : 2 ^ 52 <= v / 2 ^ e)
      by (apply N.div_le_lower_bound; [exact Bp | rewrite N.mul_comm; exact Lo]).
    assert (Q2 : v / 2 ^ e < 2 ^ 53)
      by (apply N.Div0.div_lt_upper_bound; rewrite N.mul_comm; exact Hi).
    set (q := v / 2 ^ e) in *. set (r := v mod 2 ^ e) in *.
    set (h := 2 ^ (e - 1)) in *.
    assert (G : forall m', representable m' -> m' <= q * 2 ^ e \/ (q + 1) * 2 ^ e <= m')
      by (intros m' R; apply (@double_grid q e m'); assumption).
    assert (Qb : (q + 1) * 2 ^ e = q * 2 ^ e + 2 ^ e) by lia.
    rewrite (N.mul_comm (2 ^ e) q) in DM.
    set (up := ((h <? r) || ((r =? h) && N.odd q))%bool).
    assert (U : if up then h <= r /\ (r = h -> N.odd q = true)
                else r <= h /\ (r = h -> N.even q = true)).
    { unfold up. destruct (h <? r) eqn:C1; cbn [orb].
      - apply N.ltb_lt in C1. split; lia.
      - apply N.ltb_ge in C1. destruct (r =? h) eqn:C2; cbn [andb].
        + apply N.eqb_eq in C2. destruct (N.odd q) eqn:O.
          * split; [lia | reflexivity].
          * split; [lia | intros _; rewrite <- N.negb_odd, O; reflexivity].
        + apply N.eqb_neq in C2. split; [lia | intros; contradiction]. }
    set (m := (if up then q + 1 else q) * 2 ^ e).
    assert (Rm : representable m).
    { unfold m. destruct up.
      - destruct (N.eq_dec (q + 1) (2 ^ 53)) as [T | T].
        + exists (2 ^ 52), (e + 1). rewrite T, N.pow_add_r.
          split; [change (2 ^ 53) with (2 ^ 52 * 2 ^ 1); lia | reflexivity].
        + exists (q + 1), e. split; [reflexivity | lia].
      - exists q, e. split; [reflexivity | exact Q2]. }
    assert (Near : forall m', representable m' -> distance v m <= distance v m').
    { intros m' R. specialize (G m' R). unfold distance, m.
      destruct up; destruct U as (U1 & _); lia. }
    assert (Tie : forall m', representable m' -> m' <> m -> distance v m' = distance v m ->
                  even_significand m).
    { intros m' R Nm D. specialize (G m' R). unfold distance in D. unfold m in *.
      destruct up; destruct U as (U1 & U2).
      - assert (r = h) by lia. specialize (U2 H).
        destruct (N.eq_dec (q + 1) (2 ^ 53)) as [T | T].
        + exists (2 ^ 52), (e + 1). rewrite T, N.pow_add_r.
          split; [change (2 ^ 53) with (2 ^ 52 * 2 ^ 1); lia |].
          split; [lia |]. split; reflexivity.
        + exists (q + 1), e. split; [reflexivity |]. split; [lia |]. split; [lia |].
          rewrite N.add_1_r, N.even_succ. exact U2.
      - assert (r = h) by lia. specialize (U2 H).
        exists q, e. split; [reflexivity |]. split; [exact Q1 |]. split; assumption. }
    destruct (m <? 2 ^ 1024) eqn:F.
    + apply N.ltb_lt in F. cbn [rounds_to]. repeat split; assumption.
    + apply N.ltb_ge in F. cbn [rounds_to].
      assert (Dm : m <= v + h) by (unfold m; destruct up; destruct U as (U1 & _); lia).
      assert (Mq : m <= 2 ^ 53 * 2 ^ e).
      { unfold m. apply N.mul_le_mono_r. destruct up; lia. }
      destruct (N.lt_trichotomy e 971) as [C | [C | C]].
      * exfalso. assert (2 ^ 53 * 2 ^ e < 2 ^ 1024); [| lia].
        rewrite <- N.pow_add_r. apply N.pow_lt_mono_r; lia.
      * assert (X : h = 2 ^ 970) by (unfold h; rewrite C; reflexivity). lia.
      * assert (2 ^ 1024 <= 2 ^ 52 * 2 ^ e); [| lia].
        rewrite <- N.pow_add_r. apply N.pow_le_mono_r; lia.
Qed.

End Doubles.

Lemma tags_of_read (text : jsstring) : tags_read text (tags_of text).
Proof.
  unfold tags_read, tags_of. rewrite literal_tags.
  pose proof (@labelled_capture (Repeat 1 None true (CharClass false [CDigit false]))
                (js "Tag") 115%N (fun t => t <> [] /\ numeral t)
                "tags" text eq_refl eq_refl eq_refl matches_digits digits_matches) as H.
  destruct (match_group _ _ _ _) as [t |];
    [left; exists t; split; [exact H |]
    | right; split; [reflexivity | exact H]].
  unfold parseInt. split; [apply to_double_rounds | apply to_double_small].
Qed.

(** ** Sizes and context windows *)

Lemma stripSpaces_app (s t : jsstring) :
  stripSpaces (s ++ t) = stripSpaces s ++ stripSpaces t.
Proof. apply filter_app. Qed.

Lemma stripSpaces_blank (ws : jsstring) : blank ws -> stripSpaces ws = [].
Proof.
  induction 1 as [| c ws C _ IH]; [reflexivity |].
  unfold stripSpaces in *. simpl. rewrite C. exact IH.
Qed.

Lemma stripSpaces_none (t : jsstring) :
  Forall (fun c => is_space c = false) t -> stripSpaces t = t.
Proof.
  induction 1 as [| c t C _ IH]; [reflexivity |].
  unfold stripSpaces in *. simpl. rewrite C. simpl. rewrite IH. reflexivity.
Qed.

Lemma digit_not_space (c : code_unit) : is_digit c = true -> is_space c = false.
Proof.
  unfold is_digit, is_space, between. intros H.
  destruct (N.leb 48 c && N.leb c 57)%bool eqn:D; [| discriminate].
  unbool. lia.
Qed.

Lemma decimal_no_space (t : jsstring) :
  decimal t -> Forall (fun c => is_space c = false) t.
Proof.
  intros (whole & point & fraction & -> & _ & Fw & P & Ff).
  apply Forall_app. split; [exact (Forall_impl _ digit_not_space Fw) |].
  apply Forall_app. split; [| exact (Forall_impl _ digit_not_space Ff)].
  destruct P as [-> | ->]; repeat constructor.
Qed.

Lemma size_unit_class (d : code_unit) :
  xorb false (class_has flag_i [CRange 71 71; CRange 77 77; CRange 84 84] d) = true ->
  one_of "GMTgmt" d = true.
Proof.
  unfold class_has, one_of.
  change (js "GMTgmt") with [71; 77; 84; 103; 109; 116]%N.
  cbn [existsb item_has flag_i ignoreCase xorb andb].
  unfold upper, lower, is_lower, is_upper, between.
  destruct (N.leb 97 d && N.leb d 122)%bool eqn:L;
    destruct (N.leb 65 d && N.leb d 90)%bool eqn:U; unbool; lia.
Qed.

Lemma letter_not_space (s : string) (c : code_unit) :
  forallb (fun d => negb (is_space d)) (js s) = true ->
  one_of s c = true -> is_space c = false.
Proof.
  unfold one_of. intros F O. apply existsb_exists in O. destruct O as (d & I & E).
  apply N.eqb_eq in E. subst d. rewrite forallb_forall in F.
  apply F in I. apply negb_true_iff in I. exact I.
Qed.

Lemma lower_of_letter (c d : code_unit) :
  is_upper c = true -> lower d = lower c -> d = c \/ d = (c + 32)%N.
Proof.
  unfold lower, is_upper, between.
  destruct (N.leb 65 c && N.leb c 90)%bool eqn:U1; [| discriminate].
  destruct (N.leb 65 d && N.leb d 90)%bool eqn:U2; unbool; lia.
Qed.

Lemma literal_size :
  literal "(\d+\.?\d*\s*[GMT]B)" =
  Group 1
    (Seq (Repeat 1 None true (CharClass false [CDigit false]))
       (Seq (Repeat 0 (Some 1) true (Char 46))
          (Seq (Repeat 0 None true (CharClass false [CDigit false]))
             (Seq spaces_pattern
                (Seq (CharClass false [CRange 71 71; CRange 77 77; CRange 84 84])
                   (Char 66)))))).
Proof. vm_compute. reflexivity. Qed.

Lemma literal_window :
  literal "(\d+K)\s*context\s*window" =
  Seq (Group 1 (Seq (Repeat 1 None true (CharClass false [CDigit false])) (Char 75)))
    (Seq spaces_pattern
       (chars (js "context") (Seq spaces_pattern (chars (js "windo") (Char 119))))).
Proof. vm_compute. reflexivity. Qed.

Lemma size_unit_in_class (g : code_unit) :
  one_of "GMTgmt" g = true ->
  xorb false (class_has flag_i [CRange 71 71; CRange 77 77; CRange 84 84] g) = true.
Proof.
  unfold one_of. change (js "GMTgmt") with [71; 77; 84; 103; 109; 116]%N.
  cbn [existsb]. rewrite !orb_true_iff, !N.eqb_eq.
  intros [-> | [-> | [-> | [-> | [-> | [-> | H]]]]]]; [.. | discriminate H];
    reflexivity.
Qed.

Lemma size_matches (pre number ws unit post : jsstring) :
  size_text number unit -> blank ws ->
  exists y,
    matches flag_i (literal "(\d+\.?\d*\s*[GMT]B)")
      (cursor_at [] pre (number ++ ws ++ unit ++ post)) y.
Proof.
  intros ((whole & point & fraction & -> & Nw & Fw & P & Ff) & g & b & -> & Og & Ob) Bw.
  set (x := cursor_at [] pre ((whole ++ point ++ fraction) ++ ws ++ [g; b] ++ post)).
  assert (A : after x = whole ++ point ++ fraction ++ ws ++ [g] ++ [b] ++ post)
    by (unfold x; cbn [cursor_at after]; rewrite <- !app_assoc; reflexivity).
  pose proof (@after_advance _ x whole _ A eq_refl) as A1.
  pose proof (@after_advance _ _ point _ A1 eq_refl) as A2.
  pose proof (@after_advance _ _ fraction _ A2 eq_refl) as A3.
  pose proof (@after_advance _ _ ws _ A3 eq_refl) as A4.
  pose proof (@after_advance _ _ [g] _ A4 eq_refl) as A5.
  set (z1 := advance (length whole) x) in *.
  set (z2 := advance (length point) z1) in *.
  set (z3 := advance (length fraction) z2) in *.
  set (z4 := advance (length ws) z3) in *.
  set (z5 := advance (length [g]) z4) in *.
  set (z6 := advance 1 z5).
  rewrite literal_size. cbn [matches].
  exists (set_cap 1 (consumed x z6) z6), z6. split; [| reflexivity].
  exists z1. split.
  { eapply (@matches_class_run flag_i false _ 1 None true whole x _);
      [exact (Forall_impl _ digit_in_class Fw) | | exact I | exact A].
    destruct whole; [contradiction | simpl; lia]. }
  exists z2. split.
  { eapply (@matches_char_run flag_i 46 0 (Some 1) true point _ _);
      [| lia | | exact A1];
      destruct P as [-> | ->]; repeat constructor. }
  exists z3. split.
  { eapply (@matches_class_run flag_i false _ 0 None true fraction _ _);
      [exact (Forall_impl _ digit_in_class Ff) | lia | exact I | exact A2]. }
  exists z4. split; [exact (@matches_spaces_advance ws z3 _ Bw A3) |].
  exists z5. split.
  { apply (@takes_advance _ z4 g _ A4). exact (size_unit_in_class _ Og). }
  assert (Hb : lower 66 = lower b).
  { unfold one_of in Ob. change (js "Bb") with [66; 98]%N in Ob. cbn [existsb] in Ob.
    rewrite !orb_true_iff, !N.eqb_eq in Ob.
    destruct Ob as [-> | [-> | H]]; [reflexivity | reflexivity | discriminate H]. }
  exact (@matches_char_advance 66 b z5 post Hb A5).
Qed.

Lemma size_of_read (text : jsstring) : size_read text (size_of text).
Proof.
  unfold size_read, size_of, match_group.
  destruct (exec flag_i (literal "(\d+\.?\d*\s*[GMT]B)") text) as [[x y] |] eqn:E.
  - left. apply exec_leftmost_matches in E; try (vm_compute; reflexivity).
    destruct E as (pre & rest & -> & -> & M & _).
    rewrite literal_size in M. cbn [matches groups_of] in M.
    destruct M as (z & (z1 & (n1 & N1 & _ & I1) & z2 & (n2 & _ & N2 & I2)
                       & z3 & (n3 & _ & _ & I3) & z4 & Ms & z5 & Mg & Mb) & ->).
    apply iterate_spans in I1. destruct I1 as (t1 & L1 & F1 & S1).
    apply iterate_spans in I2. destruct I2 as (t2 & L2 & F2 & S2).
    apply iterate_spans in I3. destruct I3 as (t3 & L3 & F3 & S3).
    apply matches_spaces in Ms. destruct Ms as (ws & Bw & S4).
    apply takes_spans in Mg. destruct Mg as (g & Pg & S5).
    apply matches_char in Mb. destruct Mb as (b & Eb & S6).
    pose proof (spans_trans (spans_trans S1 (spans_trans S2 S3))
                  (spans_trans S4 (spans_trans S5 S6))) as S.
    apply (spans_group 1) in S. destruct S as (A & _ & C).
    cbn [group snd]. rewrite C. cbn [app capture Nat.eqb].
    cbn [cursor_at after set_cap] in A.
    assert (D : decimal (t1 ++ t2 ++ t3)) by (apply decimal_parts; try assumption; lia).
    assert (Ob : one_of "Bb" b = true).
    { destruct (@lower_of_letter 66 b eq_refl Eb) as [-> | ->]; reflexivity. }
    pose proof (size_unit_class _ Pg) as Og.
    exists (t1 ++ t2 ++ t3), ws, [g; b]. split.
    + split; [split; [exact D | exists g, b; repeat split; assumption] |].
      split; [exact Bw |]. exists pre, (after z). rewrite A, <- !app_assoc. reflexivity.
    + change ([g] ++ [b]) with [g; b].
      rewrite (stripSpaces_app (t1 ++ t2 ++ t3)), (stripSpaces_app ws),
        (stripSpaces_blank Bw).
      rewrite (stripSpaces_none (decimal_no_space D)).
      rewrite (@stripSpaces_none [g; b]); [reflexivity |].
      repeat constructor.
      * exact (@letter_not_space "GMTgmt" g eq_refl Og).
      * exact (@letter_not_space "Bb" b eq_refl Ob).
  - right. split; [reflexivity |].
    intros number ws unit (St & Bw & pre & post & ->).
    destruct (@size_matches pre number ws unit post St Bw) as (y & M).
    refine (@exec_none_matches flag_i _ pre _ y _ E M). vm_compute. reflexivity.
Qed.

Lemma window_matches (pre t ws1 context ws2 window post : jsstring) :
  window_text t -> blank ws1 -> spells "context" context ->
  blank ws2 -> spells "window" window ->
  exists y,
    matches flag_i (literal "(\d+K)\s*context\s*window")
      (cursor_at [] pre (t ++ ws1 ++ context ++ ws2 ++ window ++ post)) y.
Proof.
  intros (ds & k & -> & Nd & Fd & Ok) B1 Ec B2 Ew.
  set (x := cursor_at [] pre ((ds ++ [k]) ++ ws1 ++ context ++ ws2 ++ window ++ post)).
  assert (A : after x = ds ++ [k] ++ ws1 ++ context ++ ws2 ++ window ++ post)
    by (unfold x; cbn [cursor_at after]; rewrite <- !app_assoc; reflexivity).
  pose proof (@after_advance _ x ds _ A eq_refl) as A1.
  pose proof (@after_advance _ _ [k] _ A1 eq_refl) as A2.
  set (z1 := advance (length ds) x) in *.
  set (z2 := advance (length [k]) z1) in *.
  set (zc := set_cap 1 (consumed x z2) z2).
  assert (Ac : after zc = ws1 ++ context ++ ws2 ++ window ++ post) by exact A2.
  pose proof (@after_advance _ zc ws1 _ Ac eq_refl) as A3.
  pose proof (@after_advance _ _ context _ A3 eq_refl) as A4.
  pose proof (@after_advance _ _ ws2 _ A4 eq_refl) as A5.
  rewrite literal_window. cbn [matches].
  exists (advance (length window)
            (advance (length ws2) (advance (length context) (advance (length ws1) zc)))).
  exists zc. split.
  { exists z2. split; [| reflexivity]. exists z1. split.
    - eapply (@matches_class_run flag_i false _ 1 None true ds x _);
        [exact (Forall_impl _ digit_in_class Fd) | | exact I | exact A].
      destruct ds; [contradiction | simpl; lia].
    - assert (Hk : lower 75 = lower k).
      { unfold one_of in Ok. change (js "Kk") with [75; 107]%N in Ok.
        cbn [existsb] in Ok. rewrite !orb_true_iff, !N.eqb_eq in Ok.
        destruct Ok as [-> | [-> | H]]; [reflexivity | reflexivity | discriminate H]. }
      exact (@matches_char_advance 75 k z1 _ Hk A1). }
  exists (advance (length ws1) zc).
  split; [exact (@matches_spaces_advance ws1 zc _ B1 Ac) |].
  apply (@matches_chars_advance _ _ (js "context") context
           (toLowerCase_Forall2 (js "context") context (eq_sym Ec)) _ _ A3).
  cbn [matches]. exists (advance (length ws2)
                           (advance (length context) (advance (length ws1) zc))).
  split; [exact (@matches_spaces_advance ws2 _ _ B2 A4) |].
  exact (@matches_word_advance (js "windo") 119 window _ post Ew A5).
Qed.

Lemma contextWindow_of_read (text : jsstring) :
  window_read text (contextWindow_of text).
Proof.
  unfold window_read, contextWindow_of, match_group.
  destruct (exec flag_i (literal "(\d+K)\s*context\s*window") text) as [[x y] |] eqn:E.
  - apply exec_leftmost_matches in E; try (vm_compute; reflexivity).
    destruct E as (pre & rest & -> & -> & M & _).
    rewrite literal_window in M. cbn [matches groups_of] in M.
    destruct M as (z & (z0 & (z1 & (n1 & N1 & _ & I1) & Mk) & ->) & z2 & Ms1 & Mc).
    apply iterate_spans in I1. destruct I1 as (ds & L1 & F1 & S1).
    apply matches_char in Mk. destruct Mk as (k & Ek & S2).
    pose proof (spans_group 1 (spans_trans S1 S2)) as S12.
    apply matches_spaces in Ms1. destruct Ms1 as (ws1 & B1 & S3).
    apply matches_chars in Mc. destruct Mc as (c & z3 & Ec & S4 & z4 & Ms2 & Mw).
    apply matches_spaces in Ms2. destruct Ms2 as (ws2 & B2 & S5).
    apply matches_word in Mw. destruct Mw as (wd & Ew & S6).
    destruct (spans_trans S12 (spans_trans S3 (spans_trans S4 (spans_trans S5 S6))))
      as (A & _ & C).
    cbn [group snd]. rewrite C. cbn [app capture Nat.eqb].
    cbn [cursor_at after] in A.
    exists pre, ws1, c, ws2, wd, (after y).
    split; [rewrite A, <- !app_assoc; reflexivity |].
    split; [| repeat split; assumption].
    exists ds, k. split; [reflexivity |].
    split; [intros ->; simpl in L1; lia |]. split; [exact (numeral_class F1) |].
    destruct (@lower_of_letter 75 k eq_refl Ek) as [-> | ->]; reflexivity.
  - intros t (pre & ws1 & c & ws2 & wd & post & -> & Wt & B1 & Ec & B2 & Ew).
    destruct (@window_matches pre t ws1 c ws2 wd post Wt B1 Ec B2 Ew) as (y & M).
    refine (@exec_none_matches flag_i _ pre _ y _ E M). vm_compute. reflexivity.
Qed.

(** ** The names of tags and variants *)

Lemma literal_href :
  literal ":([^/]+)$" =
  Seq (Char 58) (Seq (Group 1 (Repeat 1 None true (CharClass true [CRange 47 47])))
                   AssertEnd).
Proof. vm_compute. reflexivity. Qed.

Lemma not_slash (c : code_unit) :
  xorb true (class_has no_flags [CRange 47 47] c) = true <-> c <> 47%N.
Proof.
  unfold class_has. cbn [existsb item_has no_flags ignoreCase andb orb xorb].
  unfold between. rewrite !orb_false_r.
  destruct (N.leb 47 c && N.leb c 47)%bool eqn:E; unbool; split; intros; try lia;
    try discriminate; try reflexivity.
Qed.

Lemma matches_href (pre rest : jsstring) (y : cursor) :
  matches no_flags (literal ":([^/]+)$") (cursor_at [] pre rest) y ->
  exists k, rest = [58%N] ++ k /\ k <> [] /\ ~ In 47%N k /\ capture 1 (caps y) = Some k.
Proof.
  rewrite literal_href. cbn [matches groups_of].
  intros (z1 & T & z2 & (z & (n & N1 & _ & I) & ->) & (A & ->)).
  apply takes_spans in T. destruct T as (d & Pd & S1).
  apply N.eqb_eq in Pd. cbn in Pd. subst d.
  apply iterate_spans in I. destruct I as (k & L & F & S2).
  destruct (spans_trans S1 (spans_group 1 S2)) as (A' & _ & C).
  cbn [set_cap after] in A, A'. rewrite A, app_nil_r in A'.
  cbn [cursor_at after] in A'. exists k. split; [exact A' |].
  split; [intros ->; simpl in L; lia |]. split.
  - intros I. rewrite Forall_forall in F. apply F in I. apply not_slash in I.
    apply I. reflexivity.
  - rewrite C. reflexivity.
Qed.

Lemma href_matches (pre k : jsstring) :
  k <> [] -> ~ In 47%N k ->
  exists y, matches no_flags (literal ":([^/]+)$") (cursor_at [] pre ([58%N] ++ k)) y.
Proof.
  intros N S. rewrite literal_href. cbn [matches groups_of].
  set (x := cursor_at [] pre ([58%N] ++ k)).
  set (z := advance (length k) (advance 1 x)).
  exists (set_cap 1 (consumed (advance 1 x) z) z), (advance 1 x).
  split; [apply (@takes_advance _ x 58%N k); reflexivity |].
  exists (set_cap 1 (consumed (advance 1 x) z) z). split.
  - exists z. split; [| reflexivity]. exists (length k).
    split; [destruct k; [contradiction | simpl; lia] |]. split; [exact I |].
    apply (@iterate_advance _ k (advance 1 x) []).
    + apply Forall_forall. intros c I. apply not_slash. intros ->. exact (S I).
    + unfold advance, x. cbn. rewrite app_nil_r. reflexivity.
  - split; [| reflexivity]. unfold z, advance, x. cbn. apply skipn_all.
Qed.

Lemma tag_of_href_read (href : jsstring) : name_read href (tag_of_href href).
Proof.
  unfold name_read, tag_of_href, match_group.
  destruct (exec no_flags (literal ":([^/]+)$") href) as [[x y] |] eqn:E.
  - apply exec_leftmost_matches in E; try (vm_compute; reflexivity).
    destruct E as (pre & rest & -> & -> & M & Lm).
    destruct (@matches_href _ _ _ M) as (k & -> & N & S & C).
    cbn [group snd]. rewrite C. exists pre. repeat split; try assumption.
    intros pre' k' E N' S'. destruct (@href_matches pre' k' N' S') as (y' & M').
    exact (Lm pre' _ y' E M').
  - intros pre k ->. destruct k as [| c k]; [left; reflexivity | right].
    destruct (in_dec N.eq_dec 47%N (c :: k)) as [I | NI]; [exact I | exfalso].
    destruct (@href_matches pre (c :: k) ltac:(discriminate) NI) as (y & M).
    refine (@exec_none_matches no_flags (literal ":([^/]+)$") pre ([58%N] ++ c :: k) y _ E M).
    vm_compute. reflexivity.
Qed.

(** ** Dates *)

Lemma space_class_any (fl : flags) (d : code_unit) :
  xorb false (class_has fl [CSpace false] d) = true -> is_space d = true.
Proof.
  destruct fl as [[] s]; [exact (space_class d) |].
  unfold class_has. cbn [existsb item_has ignoreCase xorb andb].
  rewrite !orb_false_r. exact (fun H => H).
Qed.

Lemma matches_spaces_any (fl : flags) (x y : cursor) :
  matches fl spaces_pattern x y -> exists ws, blank ws /\ spans [] ws x y.
Proof.
  unfold spaces_pattern. cbn [matches groups_of]. intros (n & _ & _ & I).
  apply iterate_spans in I. destruct I as (ws & _ & F & S).
  exists ws. split; [| exact S]. eapply Forall_impl; [| exact F].
  exact (space_class_any fl).
Qed.

Lemma literal_after_dot :
  literal "·\s*(.+?)$" =
  Seq (Char 183) (Seq spaces_pattern (Seq (Group 1 (Repeat 1 None false AnyChar)) AssertEnd)).
Proof. vm_compute. reflexivity. Qed.

Lemma matches_after_dot (pre rest : jsstring) (y : cursor) :
  matches no_flags (literal "·\s*(.+?)$") (cursor_at [] pre rest) y ->
  exists tail body,
    rest = [183%N] ++ tail
    /\ capture 1 (caps y) = Some body
    /\ trim body = trim tail.
Proof.
  rewrite literal_after_dot. cbn [matches groups_of].
  intros (z1 & T & z2 & Ms & z3 & (z & (n & _ & _ & I) & ->) & (A & ->)).
  apply takes_spans in T. destruct T as (d & Pd & S1).
  apply N.eqb_eq in Pd. cbn in Pd. subst d.
  apply matches_spaces_any in Ms. destruct Ms as (ws & Bw & S2).
  apply iterate_spans in I. destruct I as (body & _ & _ & S3).
  destruct (spans_trans S1 (spans_trans S2 (spans_group 1 S3))) as (A' & _ & C).
  cbn [set_cap after] in A, A'. rewrite A, app_nil_r in A'.
  cbn [cursor_at after] in A'. exists (ws ++ body), body.
  split; [exact A' |].
  split; [rewrite C; reflexivity |].
  symmetry. apply trim_blank_app. exact Bw.
Qed.

Lemma after_dot_matches (pre rest : jsstring) :
  rest <> [] -> Forall (fun c => is_line_terminator c = false) rest ->
  exists y, matches no_flags (literal "·\s*(.+?)$") (cursor_at [] pre ([183%N] ++ rest)) y.
Proof.
  intros N F. rewrite literal_after_dot. cbn [matches groups_of].
  set (x := cursor_at [] pre ([183%N] ++ rest)).
  set (z := advance (length rest) (advance 1 x)).
  exists (set_cap 1 (consumed (advance 1 x) z) z), (advance 1 x).
  split; [apply (@takes_advance _ x 183%N rest); reflexivity |].
  exists (advance 1 x). split; [exists 0; repeat split; lia |].
  exists (set_cap 1 (consumed (advance 1 x) z) z). split.
  - exists z. split; [| reflexivity]. exists (length rest).
    split; [destruct rest; [contradiction | simpl; lia] |]. split; [exact I |].
    apply (@iterate_advance _ rest (advance 1 x) []).
    + eapply Forall_impl; [| exact F]. intros c ->. reflexivity.
    + unfold advance, x. cbn. rewrite app_nil_r. reflexivity.
  - split; [| reflexivity]. unfold z, advance, x. cbn. apply skipn_all.
Qed.

Lemma first_occurrence (c : code_unit) : forall pre0 r0 pre rest,
  pre0 ++ c :: r0 = pre ++ c :: rest ->
  ~ In c pre -> length pre0 <= length pre ->
  pre0 = pre /\ r0 = rest.
Proof.
  induction pre0 as [| a pre0 IH]; intros r0 pre rest E NI L.
  - destruct pre as [| b pre]; [injection E as <-; split; reflexivity |].
    injection E as <- _. exfalso. apply NI. left. reflexivity.
  - destruct pre as [| b pre]; [simpl in L; lia |].
    injection E as <- E. destruct (IH r0 pre rest E) as (-> & ->).
    + intros I. apply NI. right. exact I.
    + simpl in L. lia.
    + split; reflexivity.
Qed.

Lemma after_dot_of_read (text : jsstring) :
  after_dot_read text
    match match_group no_flags (literal "·\s*(.+?)$") 1 text with
    | Some s => trim s
    | None => []
    end.
Proof.
  unfold after_dot_read, match_group.
  destruct (exec no_flags (literal "·\s*(.+?)$") text) as [[x y] |] eqn:E.
  - apply exec_leftmost_matches in E; try (vm_compute; reflexivity).
    destruct E as (pre0 & rest0 & -> & -> & M & Lm).
    destruct (@matches_after_dot _ _ _ M) as (tail & body & -> & C & T).
    cbn [group snd]. rewrite C, T. split.
    + right. exists pre0, tail. split; reflexivity.
    + intros pre rest E NI N F.
      destruct (@after_dot_matches pre rest N F) as (y' & M').
      pose proof (Lm pre _ y' E M') as L.
      destruct (@first_occurrence 183%N pre0 tail pre rest E NI L) as (_ & ->).
      reflexivity.
  - split; [left; reflexivity |].
    intros pre rest -> NI N F. exfalso.
    destruct (@after_dot_matches pre rest N F) as (y' & M').
    refine (@exec_none_matches no_flags _ pre ([183%N] ++ rest) y' _ E M').
    vm_compute. reflexivity.
Qed.

Lemma literal_updated :
  literal "Updated\s+(.+?)(?:\n|$)" =
  chars (js "Updated")
    (Seq (Repeat 1 None true (CharClass false [CSpace false]))
       (Seq (Group 1 (Repeat 1 None false AnyChar)) (Alt (Char 10) AssertEnd))).
Proof. vm_compute. reflexivity. Qed.

Lemma lower_line_feed (d : code_unit) : lower d = lower 10 -> d = 10%N.
Proof.
  unfold lower, is_upper, between. cbn.
  destruct (N.leb 65 d && N.leb d 90)%bool eqn:U; unbool; lia.
Qed.

Lemma literal_relative_date :
  literal "(\d+\s*(?:hour|day|week|month|year)s?\s*ago)" =
  Group 1
    (Seq (Repeat 1 None true (CharClass false [CDigit false]))
       (Seq spaces_pattern
          (Seq (Alt (chars (js "hou") (Char 114))
                  (Alt (chars (js "da") (Char 121))
                     (Alt (chars (js "wee") (Char 107))
                        (Alt (chars (js "mont") (Char 104))
                           (chars (js "yea") (Char 114))))))
             (Seq (Repeat 0 (Some 1) true (Char 115))
                (Seq spaces_pattern (chars (js "ag") (Char 111))))))).
Proof. vm_compute. reflexivity. Qed.

Lemma literal_bullet :
  literal "•\s*([^•]+?)\s*$" =
  Seq (Char 8226)
    (Seq spaces_pattern
       (Seq (Group 1 (Repeat 1 None false (CharClass true [CRange 8226 8226])))
          (Seq spaces_pattern AssertEnd))).
Proof. vm_compute. reflexivity. Qed.

Lemma literal_short_date :
  literal "(\d{1,2}\s*\w+\s*ago)" =
  Group 1
    (Seq (Repeat 1 (Some 2) true (CharClass false [CDigit false]))
       (Seq spaces_pattern
          (Seq (Repeat 1 None true (CharClass false [CWord false]))
             (Seq spaces_pattern (chars (js "ag") (Char 111)))))).
Proof. vm_compute. reflexivity. Qed.

Lemma plural_class (t : jsstring) :
  length t <= 1 ->
  Forall (fun d => N.eqb (canon flag_i 115) (canon flag_i d) = true) t <->
  (t = [] \/ spells "s" t) /\ length t <= 1.
Proof.
  intros L. destruct t as [| c [| c' t]]; [| | simpl in L; lia].
  - split; [intros _; split; [left; reflexivity | simpl; lia] | constructor].
  - unfold spells, toLowerCase. cbn [map]. split.
    + intros F. inversion F as [| ? ? P _]. apply N.eqb_eq in P. unfold canon in P.
      cbn [flag_i ignoreCase] in P. apply upper_lower in P.
      split; [right; rewrite <- P; reflexivity | simpl; lia].
    + intros ([H | H] & _); [discriminate H |]. repeat constructor.
      injection H as H. unfold canon. cbn [flag_i ignoreCase].
      apply N.eqb_eq. apply lower_upper. rewrite H. reflexivity.
Qed.

Lemma matches_any_run (fl : flags) (min : nat) (max : option nat) (greedy : bool)
    (t : jsstring) (x : cursor) (rest : jsstring) :
  Forall (fun c => is_line_terminator c = false) t ->
  min <= length t ->
  match max with Some hi => length t <= hi | None => True end ->
  after x = t ++ rest ->
  matches fl (Repeat min max greedy AnyChar) x (advance (length t) x).
Proof.
  intros F Hmin Hmax A. cbn [matches groups_of]. exists (length t).
  split; [exact Hmin |]. split; [exact Hmax |].
  apply (@iterate_advance _ t x rest); [| exact A].
  eapply Forall_impl; [| exact F]. intros c ->. apply orb_true_r.
Qed.

Lemma updated_matches (pre body : jsstring) (label ws post : jsstring) :
  spells "updated" label ->
  ws <> [] -> blank ws ->
  body <> [] -> Forall (fun c => is_line_terminator c = false) body ->
  post = [] \/ (exists post', post = 10%N :: post') ->
  exists y,
    matches flag_i (literal "Updated\s+(.+?)(?:\n|$)")
      (cursor_at [] pre (label ++ ws ++ body ++ post)) y.
Proof.
  intros El Nw Bw Nb Fb P.
  set (x := cursor_at [] pre (label ++ ws ++ body ++ post)).
  assert (A : after x = label ++ ws ++ body ++ post) by reflexivity.
  pose proof (@after_advance _ x label _ A eq_refl) as A1.
  pose proof (@after_advance _ _ ws _ A1 eq_refl) as A2.
  pose proof (@after_advance _ _ body _ A2 eq_refl) as A3.
  set (z1 := advance (length label) x) in *.
  set (z2 := advance (length ws) z1) in *.
  set (z3 := advance (length body) z2) in *.
  set (zc := set_cap 1 (consumed z2 z3) z3).
  assert (M : exists y, matches flag_i (Alt (Char 10) AssertEnd) zc y).
  { destruct P as [-> | (post' & ->)].
    - exists zc. right. split; [exact A3 | reflexivity].
    - exists (advance 1 zc). left.
      exact (@matches_char_advance 10 10 zc post' eq_refl A3). }
  destruct M as (y & M). exists y. rewrite literal_updated.
  apply (@matches_chars_advance _ _ (js "Updated") label
           (toLowerCase_Forall2 (js "Updated") label (eq_sym El)) x _ A).
  cbn [matches]. exists z2. split.
  { apply (@matches_class_run flag_i false _ 1 None true ws z1 (body ++ post));
      [exact (Forall_impl _ space_ignoring_case Bw) | | exact I | exact A1].
    destruct ws; [contradiction | simpl; lia]. }
  exists zc. split; [| exact M].
  exists z3. split; [| reflexivity].
  apply (@matches_any_run flag_i 1 None false body z2 post Fb); [| exact I | exact A2].
  destruct body; [contradiction | simpl; lia].
Qed.

Lemma updated_of_read (text : jsstring) : updated_read text (updated_of text).
Proof.
  unfold updated_read, updated_of, match_group.
  destruct (exec flag_i (literal "Updated\s+(.+?)(?:\n|$)") text) as [[x y] |] eqn:E.
  - left. apply exec_leftmost_matches in E; try (vm_compute; reflexivity).
    destruct E as (pre & rest & -> & -> & M & _).
    rewrite literal_updated in M. apply matches_chars in M.
    destruct M as (label & z0 & El & S0 & M). cbn [matches groups_of] in M.
    destruct M as (z1 & (n1 & N1 & _ & I1) & z2 & (z & (n2 & N2 & _ & I2) & ->) & M).
    apply iterate_spans in I1. destruct I1 as (ws & Lw & Fw & S1).
    apply iterate_spans in I2. destruct I2 as (body & Lb & Fb & S2).
    pose proof (spans_trans S0 (spans_trans S1 (spans_group 1 S2))) as S.
    assert (T : caps y = caps (set_cap 1 (consumed z1 z) z)
                /\ (after z = [] \/ exists post', after z = 10%N :: post')).
    { destruct M as [M | (A & ->)].
      - apply matches_char in M. destruct M as (d & Ed & (A3 & _ & C3)).
        apply lower_line_feed in Ed. subst d. split; [exact C3 |].
        right. exists (after y). exact A3.
      - split; [reflexivity | left; exact A]. }
    destruct T as (C3 & P). destruct S as (A & _ & C).
    cbn [group snd]. rewrite C3, C. cbn [app capture Nat.eqb].
    cbn [cursor_at after set_cap] in A.
    exists body. split; [| reflexivity].
    exists pre, label, ws, (after z).
    split; [rewrite A, <- !app_assoc; reflexivity |].
    split; [exact El |].
    split; [intros ->; simpl in Lw; lia |].
    split; [exact (blank_class Fw) |].
    split; [intros ->; simpl in Lb; lia |].
    split; [| exact P].
    eapply Forall_impl; [| exact Fb]. intros c Hc. cbn in Hc.
    apply negb_true_iff in Hc. exact Hc.
  - right. split; [reflexivity |].
    intros body (pre & label & ws & post & -> & El & Nw & Bw & Nb & Fb & P).
    destruct (@updated_matches pre body label ws post El Nw Bw Nb Fb P) as (y & M).
    refine (@exec_none_matches flag_i _ pre _ y _ E M). vm_compute. reflexivity.
Qed.

Lemma word_class (d : code_unit) :
  xorb false (class_has flag_i [CWord false] d) = true -> is_word d = true.
Proof.
  unfold class_has. cbn [existsb item_has flag_i ignoreCase xorb andb].
  destruct (is_word d) eqn:W; [reflexivity |].
  unfold upper, lower, is_word, is_lower, is_upper, is_digit, between in *.
  destruct (N.leb 97 d && N.leb d 122)%bool eqn:L;
    destruct (N.leb 65 d && N.leb d 90)%bool eqn:U; cbn [orb] in *; try discriminate;
    unbool; lia.
Qed.

Lemma word_in_class (d : code_unit) :
  is_word d = true -> xorb false (class_has flag_i [CWord false] d) = true.
Proof.
  intros H. unfold class_has. cbn [existsb item_has xorb]. rewrite H. reflexivity.
Qed.

Lemma trim_fixed (s : jsstring) : trimmed s -> trim s = s.
Proof.
  intros (H & T). unfold trim. rewrite (trimStart_fixed s H).
  unfold trimEnd. rewrite (trimStart_fixed (rev s) T). apply rev_involutive.
Qed.

Lemma spells_no_space (word : string) (label : jsstring) :
  spells word label ->
  forallb (fun d => negb (is_space d)) (js word) = true ->
  Forall (fun d => is_space d = false) label.
Proof.
  unfold spells, toLowerCase. intros E F. rewrite forallb_forall in F.
  apply Forall_forall. intros d I.
  assert (H : In (lower d) (js word)) by (rewrite <- E; apply in_map; exact I).
  apply F in H. apply negb_true_iff in H. revert H.
  unfold lower, is_upper, is_space, between.
  destruct (N.leb 65 d && N.leb d 90)%bool eqn:U; [| exact (fun H => H)].
  intros _. unbool. lia.
Qed.

(** A string between a digit and "ago" has no white space at either end. *)
Lemma trimmed_date (ds mid ago : jsstring) :
  ds <> [] -> numeral ds -> spells "ago" ago -> trimmed (ds ++ mid ++ ago).
Proof.
  intros Nd Fd Ea. destruct ds as [| d ds]; [contradiction |].
  pose proof (@spells_no_space "ago" ago Ea eq_refl) as Fa.
  destruct (exists_last (l := ago)) as (ago' & o & ->); [intros ->; discriminate Ea |].
  split.
  - apply digit_not_space. inversion Fd; assumption.
  - rewrite !app_assoc, rev_app_distr. cbn [rev app].
    apply Forall_app in Fa. destruct Fa as (_ & Fo). inversion Fo; assumption.
Qed.

Lemma relative_date_trimmed (t : jsstring) : relative_date t -> trim t = t.
Proof.
  intros (ds & ws1 & unit & s & ws2 & ago & -> & Nd & Fd & _ & _ & _ & _ & Ea).
  apply trim_fixed.
  replace (ds ++ ws1 ++ unit ++ s ++ ws2 ++ ago)
    with (ds ++ (ws1 ++ unit ++ s ++ ws2) ++ ago) by (rewrite <- !app_assoc; reflexivity).
  apply trimmed_date; assumption.
Qed.

Lemma short_date_trimmed (t : jsstring) : short_date t -> trim t = t.
Proof.
  intros (ds & ws1 & word & ws2 & ago & -> & Nd & _ & Fd & _ & _ & _ & _ & Ea).
  apply trim_fixed.
  replace (ds ++ ws1 ++ word ++ ws2 ++ ago)
    with (ds ++ (ws1 ++ word ++ ws2) ++ ago) by (rewrite <- !app_assoc; reflexivity).
  apply trimmed_date; assumption.
Qed.

Lemma relative_date_matches (pre t post : jsstring) :
  relative_date t ->
  exists y,
    matches flag_i (literal "(\d+\s*(?:hour|day|week|month|year)s?\s*ago)")
      (cursor_at [] pre (t ++ post)) y.
Proof.
  intros (ds & ws1 & unit & s & ws2 & ago & -> & Nd & Fd & B1 & Hu & Hs & B2 & Ea).
  set (x := cursor_at [] pre ((ds ++ ws1 ++ unit ++ s ++ ws2 ++ ago) ++ post)).
  assert (A : after x = ds ++ ws1 ++ unit ++ s ++ ws2 ++ ago ++ post)
    by (unfold x; cbn [cursor_at after]; rewrite <- !app_assoc; reflexivity).
  pose proof (@after_advance _ x ds _ A eq_refl) as A1.
  pose proof (@after_advance _ _ ws1 _ A1 eq_refl) as A2.
  pose proof (@after_advance _ _ unit _ A2 eq_refl) as A3.
  pose proof (@after_advance _ _ s _ A3 eq_refl) as A4.
  pose proof (@after_advance _ _ ws2 _ A4 eq_refl) as A5.
  set (z1 := advance (length ds) x) in *.
  set (z2 := advance (length ws1) z1) in *.
  set (z3 := advance (length unit) z2) in *.
  set (z4 := advance (length s) z3) in *.
  set (z5 := advance (length ws2) z4) in *.
  set (z6 := advance (length ago) z5).
  rewrite literal_relative_date. cbn [matches].
  exists (set_cap 1 (consumed x z6) z6), z6. split; [| reflexivity].
  exists z1. split.
  { apply (@matches_class_run flag_i false _ 1 None true ds x
             (ws1 ++ unit ++ s ++ ws2 ++ ago ++ post));
      [exact (Forall_impl _ digit_in_class Fd) | | exact I | exact A].
    destruct ds; [contradiction | simpl; lia]. }
  exists z2. split; [exact (@matches_spaces_advance ws1 z1 _ B1 A1) |].
  exists z3. split.
  { destruct Hu as [Hu | [Hu | [Hu | [Hu | Hu]]]].
    - left. exact (@matches_word_advance (js "hou") 114 unit z2 _ Hu A2).
    - right. left. exact (@matches_word_advance (js "da") 121 unit z2 _ Hu A2).
    - right. right. left. exact (@matches_word_advance (js "wee") 107 unit z2 _ Hu A2).
    - right. right. right. left.
      exact (@matches_word_advance (js "mont") 104 unit z2 _ Hu A2).
    - right. right. right. right.
      exact (@matches_word_advance (js "yea") 114 unit z2 _ Hu A2). }
  assert (Ls : length s <= 1).
  { destruct Hs as [-> | Hs]; [simpl; lia |].
    apply (f_equal (@length code_unit)) in Hs. unfold toLowerCase in Hs.
    rewrite length_map in Hs. rewrite Hs. simpl. lia. }
  exists z4. split.
  { apply (@matches_char_run flag_i 115 0 (Some 1) true s z3 (ws2 ++ ago ++ post));
      [| lia | exact Ls | exact A3].
    apply plural_class; [exact Ls | split; assumption]. }
  exists z5. split; [exact (@matches_spaces_advance ws2 z4 _ B2 A4) |].
  exact (@matches_word_advance (js "ag") 111 ago z5 post Ea A5).
Qed.

Lemma relative_date_match (text : jsstring) :
  match match_group flag_i
          (literal "(\d+\s*(?:hour|day|week|month|year)s?\s*ago)") 1 text with
  | Some s => relative_date s /\ occurs s text
  | None => forall t, relative_date t -> ~ occurs t text
  end.
Proof.
  unfold match_group.
  destruct (exec flag_i (literal "(\d+\s*(?:hour|day|week|month|year)s?\s*ago)") text)
    as [[x y] |] eqn:E.
  - apply exec_leftmost_matches in E; try (vm_compute; reflexivity).
    destruct E as (pre & rest & -> & -> & M & _).
    rewrite literal_relative_date in M. cbn [matches groups_of] in M.
    destruct M as (z & (z1 & (n1 & N1 & _ & I1) & z2 & Ms1 & z3 & Mu & z4
                       & (n4 & _ & N4 & I4) & z5 & Ms2 & Ma) & ->).
    apply iterate_spans in I1. destruct I1 as (ds & L1 & F1 & S1).
    apply matches_spaces in Ms1. destruct Ms1 as (ws1 & B1 & S2).
    assert (U : exists unit,
               spans [] unit z2 z3
               /\ (spells "hour" unit \/ spells "day" unit \/ spells "week" unit
                   \/ spells "month" unit \/ spells "year" unit)).
    { destruct Mu as [Mu | [Mu | [Mu | [Mu | Mu]]]];
        apply matches_word in Mu; destruct Mu as (unit & Eu & Su);
        exists unit; (split; [exact Su |]); unfold spells; rewrite Eu; tauto. }
    destruct U as (unit & S3 & Hu).
    apply iterate_spans in I4. destruct I4 as (s' & L4 & F4 & S4).
    apply matches_spaces in Ms2. destruct Ms2 as (ws2 & B2 & S5).
    apply matches_word in Ma. destruct Ma as (ago & Ea & S6).
    pose proof (spans_trans S1 (spans_trans S2 (spans_trans S3
                  (spans_trans S4 (spans_trans S5 S6))))) as S.
    apply (spans_group 1) in S. destruct S as (A & _ & C).
    cbn [group snd]. rewrite C. cbn [app capture Nat.eqb].
    cbn [cursor_at after set_cap] in A. split.
    + exists ds, ws1, unit, s', ws2, ago. split; [reflexivity |].
      split; [intros ->; simpl in L1; lia |]. split; [exact (numeral_class F1) |].
      split; [exact B1 |]. split; [exact Hu |]. split; [| split; assumption].
      apply plural_class in F4; [apply F4 | lia].
    + exists pre, (after z). rewrite A. reflexivity.
  - intros t R (pre & post & ->).
    destruct (@relative_date_matches pre t post R) as (y & M).
    refine (@exec_none_matches flag_i _ pre _ y _ E M). vm_compute. reflexivity.
Qed.

Lemma short_date_matches (pre t post : jsstring) :
  short_date t ->
  exists y,
    matches flag_i (literal "(\d{1,2}\s*\w+\s*ago)") (cursor_at [] pre (t ++ post)) y.
Proof.
  intros (ds & ws1 & word & ws2 & ago & -> & Nd & Ld & Fd & B1 & Nw & Fw & B2 & Ea).
  set (x := cursor_at [] pre ((ds ++ ws1 ++ word ++ ws2 ++ ago) ++ post)).
  assert (A : after x = ds ++ ws1 ++ word ++ ws2 ++ ago ++ post)
    by (unfold x; cbn [cursor_at after]; rewrite <- !app_assoc; reflexivity).
  pose proof (@after_advance _ x ds _ A eq_refl) as A1.
  pose proof (@after_advance _ _ ws1 _ A1 eq_refl) as A2.
  pose proof (@after_advance _ _ word _ A2 eq_refl) as A3.
  pose proof (@after_advance _ _ ws2 _ A3 eq_refl) as A4.
  set (z1 := advance (length ds) x) in *.
  set (z2 := advance (length ws1) z1) in *.
  set (z3 := advance (length word) z2) in *.
  set (z4 := advance (length ws2) z3) in *.
  set (z5 := advance (length ago) z4).
  rewrite literal_short_date. cbn [matches].
  exists (set_cap 1 (consumed x z5) z5), z5. split; [| reflexivity].
  exists z1. split.
  { apply (@matches_class_run flag_i false _ 1 (Some 2) true ds x
             (ws1 ++ word ++ ws2 ++ ago ++ post));
      [exact (Forall_impl _ digit_in_class Fd) | | exact Ld | exact A].
    destruct ds; [contradiction | simpl; lia]. }
  exists z2. split; [exact (@matches_spaces_advance ws1 z1 _ B1 A1) |].
  exists z3. split.
  { apply (@matches_class_run flag_i false _ 1 None true word z2 (ws2 ++ ago ++ post));
      [exact (Forall_impl _ word_in_class Fw) | | exact I | exact A2].
    destruct word; [contradiction | simpl; lia]. }
  exists z4. split; [exact (@matches_spaces_advance ws2 z3 _ B2 A3) |].
  exact (@matches_word_advance (js "ag") 111 ago z4 post Ea A4).
Qed.

Lemma short_date_match (text : jsstring) :
  match match_group flag_i (literal "(\d{1,2}\s*\w+\s*ago)") 1 text with
  | Some s => short_date s /\ occurs s text
  | None => forall t, short_date t -> ~ occurs t text
  end.
Proof.
  unfold match_group.
  destruct (exec flag_i (literal "(\d{1,2}\s*\w+\s*ago)") text) as [[x y] |] eqn:E.
  - apply exec_leftmost_matches in E; try (vm_compute; reflexivity).
    destruct E as (pre & rest & -> & -> & M & _).
    rewrite literal_short_date in M. cbn [matches groups_of] in M.
    destruct M as (z & (z1 & (n1 & N1 & M1 & I1) & z2 & Ms1 & z3
                       & (n3 & N3 & _ & I3) & z4 & Ms2 & Ma) & ->).
    apply iterate_spans in I1. destruct I1 as (ds & L1 & F1 & S1).
    apply matches_spaces in Ms1. destruct Ms1 as (ws1 & B1 & S2).
    apply iterate_spans in I3. destruct I3 as (word & L3 & F3 & S3).
    apply matches_spaces in Ms2. destruct Ms2 as (ws2 & B2 & S4).
    apply matches_word in Ma. destruct Ma as (ago & Ea & S5).
    pose proof (spans_trans S1 (spans_trans S2 (spans_trans S3 (spans_trans S4 S5))))
      as S.
    apply (spans_group 1) in S. destruct S as (A & _ & C).
    cbn [group snd]. rewrite C. cbn [app capture Nat.eqb].
    cbn [cursor_at after set_cap] in A. split.
    + exists ds, ws1, word, ws2, ago. split; [reflexivity |].
      split; [intros ->; simpl in L1; lia |]. split; [lia |].
      split; [exact (numeral_class F1) |]. split; [exact B1 |].
      split; [intros ->; simpl in L3; lia |].
      split; [exact (Forall_impl _ word_class F3) |]. split; assumption.
    + exists pre, (after z). rewrite A. reflexivity.
  - intros t R (pre & post & ->).
    destruct (@short_date_matches pre t post R) as (y & M).
    refine (@exec_none_matches flag_i _ pre _ y _ E M). vm_compute. reflexivity.
Qed.

Lemma not_bullet (c : code_unit) :
  xorb true (class_has no_flags [CRange 8226 8226] c) = true <-> c <> 8226%N.
Proof.
  unfold class_has. cbn [existsb item_has no_flags ignoreCase andb orb xorb].
  unfold between. rewrite !orb_false_r.
  destruct (N.leb 8226 c && N.leb c 8226)%bool eqn:E; unbool; split; intros; try lia;
    try discriminate; try reflexivity.
Qed.

Lemma blank_no_bullet (ws : jsstring) : blank ws -> ~ In 8226%N ws.
Proof.
  intros B I. unfold blank in B. rewrite Forall_forall in B. apply B in I.
  discriminate I.
Qed.

Lemma bullet_matches (pre rest : jsstring) :
  ~ In 8226%N rest -> rest <> [] ->
  exists y,
    matches no_flags (literal "•\s*([^•]+?)\s*$") (cursor_at [] pre ([8226%N] ++ rest)) y.
Proof.
  intros NI N. rewrite literal_bullet. cbn [matches].
  set (x := cursor_at [] pre ([8226%N] ++ rest)).
  set (z := advance (length rest) (advance 1 x)).
  set (zc := set_cap 1 (consumed (advance 1 x) z) z).
  assert (A1 : after (advance 1 x) = rest ++ []) by (cbn; rewrite app_nil_r; reflexivity).
  exists zc, (advance 1 x).
  split; [apply (@takes_advance _ x 8226%N rest); reflexivity |].
  exists (advance 1 x). split; [exists 0; repeat split; lia |].
  exists zc. split.
  - exists z. split; [| reflexivity].
    apply (@matches_class_run no_flags true _ 1 None false rest (advance 1 x) []);
      [| | exact I | exact A1].
    + apply Forall_forall. intros c Ic. apply not_bullet. intros ->. exact (NI Ic).
    + destruct rest; [contradiction | simpl; lia].
  - exists zc. split; [exists 0; repeat split; lia |].
    split; [| reflexivity]. exact (@after_advance _ _ rest [] A1 eq_refl).
Qed.

Lemma bullet_match (text : jsstring) :
  match match_group no_flags (literal "•\s*([^•]+?)\s*$") 1 text with
  | Some s => exists rest, after_last_bullet text rest /\ trim s = trim rest
  | None => forall rest, ~ after_last_bullet text rest
  end.
Proof.
  unfold match_group.
  destruct (exec no_flags (literal "•\s*([^•]+?)\s*$") text) as [[x y] |] eqn:E.
  - apply exec_leftmost_matches in E; try (vm_compute; reflexivity).
    destruct E as (pre & rest & -> & -> & M & _).
    rewrite literal_bullet in M. cbn [matches groups_of] in M.
    destruct M as (z1 & T & z2 & Ms1 & z3 & (z & (n & N1 & _ & I) & ->) & z4 & Ms2
                   & (A & ->)).
    apply takes_spans in T. destruct T as (d & Pd & S1).
    apply N.eqb_eq in Pd. cbn in Pd. subst d.
    apply matches_spaces_any in Ms1. destruct Ms1 as (ws1 & B1 & S2).
    apply iterate_spans in I. destruct I as (body & Lb & Fb & S3).
    apply matches_spaces_any in Ms2. destruct Ms2 as (ws2 & B2 & S4).
    destruct (spans_trans S1 (spans_trans S2 (spans_trans (spans_group 1 S3) S4)))
      as (A' & _ & C).
    rewrite A, app_nil_r in A'. cbn [cursor_at after] in A'.
    cbn [group snd]. rewrite C. cbn [app capture Nat.eqb].
    exists (ws1 ++ body ++ ws2). split.
    + exists pre. split; [rewrite A'; reflexivity |]. split.
      * intros I. apply in_app_or in I. destruct I as [I | I];
          [exact (blank_no_bullet B1 I) |].
        apply in_app_or in I. destruct I as [I | I]; [| exact (blank_no_bullet B2 I)].
        rewrite Forall_forall in Fb. apply Fb in I. apply not_bullet in I.
        apply I. reflexivity.
      * intros H. apply app_eq_nil in H. destruct H as (_ & H).
        apply app_eq_nil in H. destruct H as (-> & _). simpl in Lb. lia.
    + rewrite (trim_blank_app (body ++ ws2) B1), (trim_app_blank body B2). reflexivity.
  - intros rest (pre & -> & NI & N).
    destruct (@bullet_matches pre rest NI N) as (y & M).
    refine (@exec_none_matches no_flags _ pre _ y _ E M). vm_compute. reflexivity.
Qed.

Lemma modifiedAt_of_read (text : jsstring) : modifiedAt_read text (modifiedAt_of text).
Proof.
  unfold modifiedAt_read, modifiedAt_of, datePatterns. cbn [first_some fst snd].
  pose proof (relative_date_match text) as H1.
  pose proof (bullet_match text) as H2.
  pose proof (short_date_match text) as H3.
  destruct (match_group flag_i
              (literal "(\d+\s*(?:hour|day|week|month|year)s?\s*ago)") 1 text)
    as [s1 |]; cbn [option_map or_default].
  { left. destruct H1 as (R & O). rewrite (relative_date_trimmed R). split; assumption. }
  right. split; [exact H1 |].
  destruct (match_group no_flags (literal "•\s*([^•]+?)\s*$") 1 text) as [s2 |];
    cbn [option_map or_default].
  { left. destruct H2 as (rest & L & T). exists rest. split; assumption. }
  right. split; [exact H2 |].
  destruct (match_group flag_i (literal "(\d{1,2}\s*\w+\s*ago)") 1 text) as [s3 |];
    cbn [option_map or_default].
  - left. destruct H3 as (R & O). rewrite (short_date_trimmed R). split; assumption.
  - right. split; [reflexivity | exact H3].
Qed.

(** ** The fields of the details *)

Lemma first_some_split (E B : Type) (f : E -> option B) (sel : list E) :
  match first_some f sel with
  | Some b =>
      exists earlier e later,
        sel = earlier ++ e :: later /\ f e = Some b
        /\ forall e', In e' earlier -> f e' = None
  | None => forall e, In e sel -> f e = None
  end.
Proof.
  induction sel as [| e sel IH]; simpl; [intros e [] |].
  destruct (f e) as [b |] eqn:Fe.
  - exists [], e, sel. split; [reflexivity |]. split; [exact Fe | intros e' []].
  - destruct (first_some f sel) as [b |].
    + destruct IH as (earlier & e0 & later & -> & F0 & N).
      exists (e :: earlier), e0, later. split; [reflexivity |]. split; [exact F0 |].
      intros e' [<- | I]; [exact Fe | exact (N e' I)].
    + intros e' [<- | I]; [exact Fe | exact (IH e' I)].
Qed.

Lemma literal_downloads :
  literal "^(\d+\.?\d*[KMB]?)\s*Downloads?$" =
  Seq AssertStart
    (Seq (Group 1 count_pattern)
       (Seq spaces_pattern
          (chars (js "Download") (Seq (Repeat 0 (Some 1) true (Char 115)) AssertEnd)))).
Proof. vm_compute. reflexivity. Qed.

Lemma downloads_match (text : jsstring) :
  match match_group flag_i (literal "^(\d+\.?\d*[KMB]?)\s*Downloads?$") 1 text with
  | Some c => download_text text c
  | None => forall c, ~ download_text text c
  end.
Proof.
  unfold match_group.
  destruct (exec flag_i _ text) as [[x y] |] eqn:E.
  - apply exec_leftmost_matches in E; try (vm_compute; reflexivity).
    destruct E as (pre & rest & -> & -> & M & _).
    rewrite literal_downloads in M. cbn [matches] in M.
    destruct M as (x0 & (Bx & ->) & z1 & (z0 & Mc & ->) & z2 & Ms & Ml).
    cbn [cursor_at before] in Bx. rewrite app_nil_r in Bx.
    apply (f_equal (@rev code_unit)) in Bx. rewrite rev_involutive in Bx.
    cbn [rev] in Bx. subst pre. cbn [app].
    apply matches_count in Mc. destruct Mc as (c & Ct & S1).
    apply (spans_group 1) in S1.
    apply matches_spaces in Ms. destruct Ms as (ws & Bw & S2).
    apply matches_chars in Ml. destruct Ml as (label & z3 & El & S3 & M).
    cbn [matches groups_of] in M. destruct M as (z4 & (n & _ & N1 & I) & (A & ->)).
    apply iterate_spans in I. destruct I as (plural & Lp & Fp & S4).
    destruct (spans_trans S1 (spans_trans S2 (spans_trans S3 S4))) as (A' & _ & C).
    cbn [group snd]. rewrite C. cbn [app capture Nat.eqb].
    cbn [cursor_at after] in A'. rewrite A, app_nil_r in A'.
    exists ws, label, plural. split; [exact A' |].
    split; [exact Ct |]. split; [exact Bw |]. split; [exact El |].
    apply plural_class in Fp; [apply Fp | lia].
  - intros c (ws & label & plural & -> & Ct & Bw & El & Pl).
    set (x := cursor_at [] [] (c ++ ws ++ label ++ plural)).
    assert (A : after x = c ++ ws ++ label ++ plural ++ []) by
      (unfold x; cbn [cursor_at after]; rewrite app_nil_r; reflexivity).
    set (zc := set_cap 1 (consumed x (advance (length c) x)) (advance (length c) x)).
    assert (Az : after zc = ws ++ label ++ plural ++ [])
      by exact (@after_advance _ x c _ A eq_refl).
    pose proof (@after_advance _ zc ws _ Az eq_refl) as A2.
    pose proof (@after_advance _ _ label _ A2 eq_refl) as A3.
    pose proof (@after_advance _ _ plural _ A3 eq_refl) as A4.
    refine (@exec_none_matches flag_i _ [] (c ++ ws ++ label ++ plural)
              (advance (length plural)
                 (advance (length label) (advance (length ws) zc))) _ E _);
      [vm_compute; reflexivity |].
    rewrite literal_downloads. cbn [matches]. fold x.
    exists x. split; [split; reflexivity |].
    exists zc. split.
    { exists (advance (length c) x). split; [| reflexivity].
      exact (@count_matches c _ x Ct A). }
    exists (advance (length ws) zc).
    split; [exact (@matches_spaces_advance ws zc _ Bw Az) |].
    apply (@matches_chars_advance _ _ (js "Download") label
             (toLowerCase_Forall2 (js "Download") label (eq_sym El)) _ _ A2).
    cbn [matches groups_of]. exists (advance (length plural)
                                       (advance (length label) (advance (length ws) zc))).
    split; [| split; [exact A4 | reflexivity]].
    assert (Lp : length plural <= 1).
    { destruct Pl as [-> | Pl]; [simpl; lia |].
      apply (f_equal (@length code_unit)) in Pl. unfold toLowerCase in Pl.
      rewrite length_map in Pl. rewrite Pl. simpl. lia. }
    exists (length plural). split; [lia |]. split; [exact Lp |].
    apply (@iterate_advance _ plural _ [] ); [| exact A3].
    apply plural_class; [exact Lp | split; assumption].
Qed.

Lemma downloads_of_read (doc : document) : downloads_read doc (downloads_of doc).
Proof.
  unfold downloads_read, downloads_of. cbv zeta.
  set (f := fun el : loc * node =>
              match_group flag_i (literal "^(\d+\.?\d*[KMB]?)\s*Downloads?$") 1
                (textContent (snd el))).
  assert (Hf : forall el, match f el with
                          | Some c => download_text (textContent (snd el)) c
                          | None => forall c, ~ download_text (textContent (snd el)) c
                          end)
    by (intros el; apply downloads_match).
  pose proof (first_some_split f
                (select (fun n => (tag "span" n || tag "div" n)%bool) doc)) as H.
  destruct (first_some f _) as [c |]; cbn [or_default].
  - left. destruct H as (earlier & el & later & -> & Fe & N).
    exists earlier, el, later. split; [reflexivity |].
    split; [specialize (Hf el); rewrite Fe in Hf; exact Hf |].
    intros el' I. specialize (Hf el'). rewrite (N el' I) in Hf. exact Hf.
  - right. split; [reflexivity |].
    intros el I. specialize (Hf el). rewrite (H el I) in Hf. exact Hf.
Qed.

Lemma lastUpdated_of_read (doc : document) :
  details_updated_read doc (lastUpdated_of doc).
Proof.
  unfold details_updated_read, lastUpdated_of. cbv zeta.
  set (f := fun el : loc * node =>
              match trim (textContent (snd el)) with
              | [] => None
              | (_ :: _) as text => Some text
              end).
  assert (Hf : forall el b, f el = Some b <-> trim (textContent (snd el)) = b /\ b <> []).
  { intros el b. unfold f. destruct (trim (textContent (snd el))) as [| c t].
    - split; [discriminate | intros (<- & N); contradiction].
    - split; [intros [= <-]; split; [reflexivity | discriminate]
             | intros (<- & _); reflexivity]. }
  assert (Hn : forall el, f el = None <-> trim (textContent (snd el)) = []).
  { intros el. unfold f. destruct (trim (textContent (snd el))) as [| c t].
    - split; reflexivity.
    - split; discriminate. }
  pose proof (first_some_split f (select (tag "time") doc)) as H.
  destruct (first_some f _) as [b |]; cbn [or_default].
  - left. destruct H as (earlier & el & later & -> & Fe & N).
    apply Hf in Fe. destruct Fe as (T & Nb).
    exists earlier, el, later. destruct b as [| c t]; [contradiction |].
    split; [reflexivity |]. split; [symmetry; exact T |]. split; [discriminate |].
    intros el' I. apply Hn. exact (N el' I).
  - right. split; [intros el I; apply Hn; exact (H el I) | apply updated_of_read].
Qed.

(** ** The name and the address of an entry *)

Lemma startsWith_app (p s : jsstring) :
  startsWith p s = true -> s = p ++ skipn (length p) s.
Proof.
  revert s. induction p as [| a p IH]; intros s H; [reflexivity |].
  destruct s as [| b s]; [discriminate |]. simpl in H.
  apply andb_true_iff in H. destruct H as (E & H). apply N.eqb_eq in E. subst b.
  simpl. f_equal. apply IH. exact H.
Qed.

Lemma replace_prefix (p r s : jsstring) :
  startsWith p s = true -> replace p r s = r ++ skipn (length p) s.
Proof. intros H. destruct s; simpl; rewrite H; reflexivity. Qed.

Lemma includes_app_r (p a b : jsstring) :
  includes p b = true -> includes p (a ++ b) = true.
Proof.
  intros H. induction a as [| c a IH]; [exact H |].
  simpl. rewrite IH. apply orb_true_r.
Qed.

Lemma includes_suffix (p a b : jsstring) :
  includes p (a ++ b) = false -> includes p b = false.
Proof.
  intros H. destruct (includes p b) eqn:E; [| reflexivity].
  rewrite (includes_app_r p a b E) in H. discriminate H.
Qed.

Lemma entry_href_read (li : loc * node) (href : jsstring) :
  entry_href li = Some href ->
  exists link,
    first (find library_link li) = Some link
    /\ attr "href" (snd link) = Some href
    /\ href = js "/library/" ++ replace (js "/library/") [] href
    /\ includes (js ":") (replace (js "/library/") [] href) = false
    /\ includes (js "/tags") (replace (js "/library/") [] href) = false.
Proof.
  unfold entry_href.
  destruct (first (find library_link li)) as [link |] eqn:F; [| discriminate].
  destruct (library_link_href _ F) as (h & A & S). rewrite A.
  destruct (eqb h [] || includes (js "/tags") h || includes (js ":") h)%bool eqn:T;
    [discriminate |].
  intros [= <-]. apply orb_false_iff in T. destruct T as (T & C).
  apply orb_false_iff in T. destruct T as (_ & T).
  exists link. split; [reflexivity |]. split; [exact A |].
  rewrite (@replace_prefix (js "/library/") [] h S). cbn [app].
  pose proof (@startsWith_app (js "/library/") h S) as E.
  split; [exact E |]. rewrite E in C, T.
  split; [exact (@includes_suffix _ _ _ C) | exact (@includes_suffix _ _ _ T)].
Qed.

Lemma listing_item_entry (li : loc * node) (href : jsstring) (item : ModelListItem.t) :
  entry_href li = Some href ->
  listing_item li href (replace (js "/library/") [] href) = Ok item ->
  entry_read li item.
Proof.
  intros E B. apply listing_item_fields in B.
  destruct B as (description & parameters & _ & ->).
  destruct (entry_href_read _ E) as (link & F & A & H & C & T).
  unfold entry_read. cbn [ModelListItem.name ModelListItem.url].
  split; [exists link; split; [exact F | rewrite A, <- H; reflexivity] |].
  split; [exact C |]. split; [exact T |].
  rewrite H at 1.
  change (js "https://ollama.com/library/") with (baseUrl ++ js "/library/").
  rewrite <- app_assoc. reflexivity.
Qed.

(** ** The readme *)

Lemma readme_of_read (w : collaborators) (doc : document) :
  readme_read w doc (fst (fst (readme_of w doc))) (snd (fst (readme_of w doc)))
    (snd (readme_of w doc)).
Proof.
  unfold readme_read, readme_of, readmeHtml_of.
  destruct (select (attr_is "id" (eqb (js "display"))) doc) as [| displayDiv sel].
  - cbn [fst snd]. split; [reflexivity |]. split; [split; reflexivity |].
    split; [discriminate |]. split; [discriminate | left; reflexivity].
  - set (content := match snd displayDiv with Element _ _ cs => cs | _ => [] end).
    pose proof (trim_trimmed (html w content)) as Th.
    destruct (trim (html w content)) as [| c h] eqn:Eh.
    + cbn [fst snd]. split; [discriminate |]. split; [split; reflexivity |].
      split; [discriminate |]. split; [discriminate | left; reflexivity].
    + assert (H3 : forall h', Some (c :: h) = Some h' -> h' <> [] /\ trimmed h')
        by (intros h' [= <-]; split; [discriminate | exact Th]).
      destruct (turndown w (c :: h)) as [out |] eqn:Et.
      * pose proof (trim_trimmed out) as Tm.
        destruct (trim out) as [| c' m] eqn:Em; cbn [fst snd];
          (split; [discriminate |]); (split; [discriminate |]);
          (split; [exact H3 |]); (split; [| left; reflexivity]).
        -- discriminate.
        -- intros m' [= <-]. split; [discriminate |]. split; [exact Tm |].
           exists (c :: h), out. split; [reflexivity |].
           split; [exact Et | symmetry; exact Em].
      * cbn [fst snd]. split; [discriminate |]. split; [discriminate |].
        split; [exact H3 |]. split; [discriminate |].
        right. split; [reflexivity |]. exists (c :: h). split; [reflexivity | exact Et].
Qed.

(** ** Trimmed fields *)

Lemma description_of_trimmed (li : loc * node) (k d : jsstring) :
  description_of li k = Ok d -> trimmed d.
Proof.
  unfold description_of.
  destruct (first (find (tag "p") li)); [intros [= <-]; apply trim_trimmed |].
  destruct (compile_or_raise _); cbn [try_bind]; try discriminate.
  destruct (exec flag_s a (textContent (snd li))) as [m |];
    [| intros [= <-]; apply trimmed_nil].
  destruct (group 1 m); [intros [= <-]; apply trim_trimmed | discriminate].
Qed.

Lemma updated_of_trimmed (text : jsstring) : trimmed (updated_of text).
Proof.
  unfold updated_of. destruct (match_group _ _ _ _);
    [apply trim_trimmed | apply trimmed_nil].
Qed.

Lemma lastUpdated_of_trimmed (doc : document) : trimmed (lastUpdated_of doc).
Proof.
  destruct (lastUpdated_of_read doc)
    as [(earlier & el & later & _ & -> & _) | (_ & _)];
    [apply trim_trimmed |].
  unfold lastUpdated_of. cbv zeta.
  destruct (or_default [] _) as [| c t] eqn:E; [apply updated_of_trimmed |].
  revert E. set (f := fun el : loc * node => _ ).
  pose proof (first_some_split f (select (tag "time") doc)) as H.
  destruct (first_some f _) as [b |]; cbn [or_default]; [| discriminate].
  destruct H as (earlier & el & later & _ & Fe & _). intros <-.
  unfold f in Fe. pose proof (trim_trimmed (textContent (snd el))) as T.
  destruct (trim (textContent (snd el))); [discriminate |].
  injection Fe as <-. exact T.
Qed.

Lemma modifiedAt_of_trimmed (text : jsstring) : trimmed (modifiedAt_of text).
Proof.
  unfold modifiedAt_of. set (f := fun p : flags * regex => _).
  pose proof (first_some_split f datePatterns) as H.
  destruct (first_some f datePatterns) as [b |]; cbn [or_default];
    [| apply trimmed_nil].
  destruct H as (earlier & p & later & _ & Fe & _). unfold f in Fe.
  destruct (match_group (fst p) (snd p) 1 text); [| discriminate].
  injection Fe as <-. apply trim_trimmed.
Qed.

(** ** The pattern of the description *)

Lemma parse_alternative_tail (f : nat) : 40 <= f ->
  parse_alternative f (js "\s+(.+?)(?:\n|$)") 0 = Parsed (description_tail, [], 1).
Proof.
  intros H. do 40 (destruct f as [| f]; [lia |]). clear H.
  vm_compute. reflexivity.
Qed.

Lemma plain_facts (c : code_unit) :
  one_of "^$\*+?()[]{}|" c = false ->
  N.eqb c 94 = false /\ N.eqb c 36 = false /\ N.eqb c 92 = false
  /\ N.eqb c 42 = false /\ N.eqb c 43 = false /\ N.eqb c 63 = false
  /\ N.eqb c 40 = false /\ N.eqb c 41 = false /\ N.eqb c 91 = false
  /\ N.eqb c 93 = false /\ N.eqb c 123 = false /\ N.eqb c 125 = false
  /\ N.eqb c 124 = false.
Proof.
  unfold one_of. change (js "^$\*+?()[]{}|")
    with [94; 36; 92; 42; 43; 63; 40; 41; 91; 93; 123; 125; 124]%N.
  cbn [existsb]. rewrite !orb_false_iff. tauto.
Qed.

Lemma quantified_plain (a : regex) (c : code_unit) (rest : jsstring) :
  one_of "^$\*+?()[]{}|" c = false \/ c = 92%N ->
  quantified a (c :: rest) = Parsed (a, c :: rest).
Proof.
  intros [H | ->]; [| reflexivity]. apply plain_facts in H.
  destruct H as (_ & _ & _ & H42 & H43 & H63 & _ & _ & _ & _ & H123 & _).
  unfold quantified, quantifier_prefix.
  change (ch "*") with 42%N. change (ch "+") with 43%N.
  change (ch "?") with 63%N. change (ch "{") with 123%N.
  rewrite H42, H43, H63, H123. reflexivity.
Qed.

Lemma parse_term_plain (f : nat) (c d : code_unit) (rest : jsstring) (g : nat) :
  one_of "^$\*+?()[]{}|" c = false ->
  one_of "^$\*+?()[]{}|" d = false \/ d = 92%N ->
  parse_term (S f) (c :: d :: rest) g =
  Parsed (if N.eqb c 46 then AnyChar else Char c, d :: rest, g).
Proof.
  intros H Hd. pose proof (@quantified_plain AnyChar d rest Hd) as QA.
  pose proof (@quantified_plain (Char c) d rest Hd) as QC.
  apply plain_facts in H.
  destruct H as (H94 & H36 & H92 & H42 & H43 & H63 & H40 & H41 & H91 & _ & H123 & _).
  cbn -[N.eqb quantified braces one_of].
  unfold one_of. change (js "*+?") with [42; 43; 63]%N. cbn [existsb].
  rewrite H94, H36, H42, H43, H63, H123, H40, H41, H91, H92. cbn [orb].
  destruct (N.eqb c 46); [rewrite QA | rewrite QC]; reflexivity.
Qed.

Lemma name_pattern_seq (c : code_unit) (name : jsstring) :
  seq (if N.eqb c 46 then AnyChar else Char c) (name_pattern name description_tail)
  = name_pattern (c :: name) description_tail.
Proof. destruct name; reflexivity. Qed.

Lemma plain_head (name : jsstring) :
  plain_name name ->
  exists d rest,
    name ++ js "\s+(.+?)(?:\n|$)" = d :: rest
    /\ (one_of "^$\*+?()[]{}|" d = false \/ d = 92%N).
Proof.
  intros P. destruct P as [| c name' C _];
    [eexists; eexists; split; [reflexivity | right; reflexivity] |].
  exists c, (name' ++ js "\s+(.+?)(?:\n|$)"). split; [reflexivity | left; exact C].
Qed.

Lemma parse_alternative_name (name : jsstring) : forall f,
  plain_name name ->
  2 * length name + 40 <= f ->
  parse_alternative f (name ++ js "\s+(.+?)(?:\n|$)") 0 =
  Parsed (name_pattern name description_tail, [], 1).
Proof.
  induction name as [| c name IH]; intros f P H.
  - apply parse_alternative_tail. simpl in H. lia.
  - simpl in H. destruct f as [| [| f]]; try lia.
    inversion P as [| ? ? C P']; subst.
    destruct (plain_head P') as (d & rest & E & Hd).
    rewrite parse_alternative_S. cbn [app].
    pose proof (plain_facts _ C) as (_ & _ & _ & _ & _ & _ & _ & H41 & _ & _ & _ & _ & H124).
    change (ch "|") with 124%N. change (ch ")") with 41%N. rewrite H124, H41. cbn [orb].
    rewrite E, (@parse_term_plain f c d rest 0 C Hd). cbn [bind]. rewrite <- E.
    rewrite IH by (assumption || lia). cbn [bind].
    rewrite name_pattern_seq. reflexivity.
Qed.

Lemma compile_description (name : jsstring) :
  plain_name name ->
  compile (name ++ js "\s+(.+?)(?:\n|$)") = Parsed (name_pattern name description_tail).
Proof.
  intros P. unfold compile.
  set (src := name ++ js "\s+(.+?)(?:\n|$)").
  assert (L : exists f, 3 * length src + 5 = S f /\ 2 * length name + 40 <= f).
  { exists (3 * length src + 4). split; [lia |]. unfold src. rewrite length_app.
    change (length (js "\s+(.+?)(?:\n|$)")) with 16. lia. }
  destruct L as (f & -> & Hf). unfold src.
  rewrite parse_disjunction_S, (parse_alternative_name P Hf). reflexivity.
Qed.

Lemma bounds_name_pattern (name : jsstring) (tail : regex) :
  bounds_in_order (name_pattern name tail) = bounds_in_order tail.
Proof.
  induction name as [| c name IH]; [reflexivity |].
  cbn [name_pattern fold_right bounds_in_order].
  destruct (N.eqb c 46); exact IH.
Qed.





Lemma each_builds (E R : Type) (key : E -> option jsstring)
    (build : E -> jsstring -> attempt R)
    (f : list R * list jsstring -> E -> attempt (list R * list jsstring)) :
  (forall models seen e,
      f (models, seen) e =
      match key e with
      | None => Ok (models, seen)
      | Some k =>
          if has seen k then Ok (models, seen)
          else r <-- build e k ;; Ok (models ++ [r], add seen k)
      end) ->
  forall sel models seen,
    (forall e k, In e sel -> key e = Some k -> exists r, build e k = Ok r) ->
    exists items seen',
      each f sel (models, seen) = Ok (models ++ items, seen')
      /\ length items = length (first_of_each key seen sel).
Proof.
  intros Hf. induction sel as [| e sel IH]; intros models seen Hb.
  - exists [], seen. rewrite app_nil_r. split; reflexivity.
  - cbn [each first_of_each]. rewrite Hf.
    assert (Hb' : forall e' k, In e' sel -> key e' = Some k -> exists r, build e' k = Ok r)
      by (intros e' k I; apply Hb; right; exact I).
    destruct (key e) as [k |] eqn:K; [| cbn [try_bind]; apply IH; exact Hb'].
    destruct (has seen k); [cbn [try_bind]; apply IH; exact Hb' |].
    destruct (Hb e k (or_introl eq_refl) K) as (r & B). rewrite B. cbn [try_bind].
    destruct (IH (models ++ [r]) (add seen k) Hb') as (items & seen' & Ee & L).
    exists (r :: items), seen'. rewrite Ee, <- app_assoc. split; [reflexivity |].
    simpl. rewrite L. reflexivity.
Qed.

(** ** The description of an entry without a [p] *)

Lemma first_line_split (s : jsstring) :
  exists post,
    s = first_line s ++ post
    /\ (post = [] \/ exists post', post = 10%N :: post')
    /\ Forall (fun c => N.eqb c 10 = false) (first_line s).
Proof.
  induction s as [| c s (post & E & P & F)]; [exists []; repeat split; auto |].
  cbn [first_line]. destruct (N.eqb c 10) eqn:C.
  - apply N.eqb_eq in C. subst c. exists (10%N :: s).
    split; [reflexivity |]. split; [right; exists s; reflexivity | constructor].
  - exists post. split; [cbn [app]; rewrite <- E; reflexivity |].
    split; [exact P | constructor; assumption].
Qed.

Lemma step_cons (p : code_unit -> bool) (b a : jsstring) (c : code_unit)
    (cs : list (nat * jsstring)) (d : cursor -> option cursor) :
  step p {| before := b; after := c :: a; caps := cs |} d =
  if p c then d {| before := c :: b; after := a; caps := cs |} else None.
Proof. reflexivity. Qed.

(** A lazy repetition of a single character stops at the first position,
    from the minimum on, where what follows matches. *)
Lemma lazy_first (p : code_unit -> bool) (k : cursor -> option cursor) (v : cursor) :
  forall body x fuel min post,
    after x = body ++ post ->
    Forall (fun c => p c = true) body ->
    min <= length body -> length body < fuel ->
    (forall i, min <= i -> i < length body -> k (advance i x) = None) ->
    k (advance (length body) x) = Some v ->
    repeat_matcher (step p) [] false k fuel min None x = Some v.
Proof.
  induction body as [| c body IH]; intros x fuel min post A F Hm Hf N K;
    (destruct fuel as [| fuel]; [simpl in Hf; lia |]); cbn [repeat_matcher].
  - simpl in Hm. assert (min = 0) as -> by lia. cbn [Nat.eqb].
    rewrite advance_0 in K. rewrite K. reflexivity.
  - rewrite clear_caps_nil. destruct x as [b a cs]. cbn [after] in A. subst a.
    cbn [app] in *.
    inversion F as [| ? ? Pc F']; subst.
    cbn [app]. rewrite step_cons, Pc. cbv beta. cbn [after].
    assert (L : Nat.eqb (length (body ++ post)) (length (c :: body ++ post)) = false)
      by (apply Nat.eqb_neq; simpl; lia).
    rewrite L, andb_false_r.
    assert (R : repeat_matcher (step p) [] false k fuel (Nat.pred min) None
                  {| before := c :: b; after := body ++ post; caps := cs |} = Some v).
    { apply (IH {| before := c :: b; after := body ++ post; caps := cs |}
               fuel (Nat.pred min) post eq_refl F').
      - simpl in Hm. lia.
      - simpl in Hf. lia.
      - intros i Hi Hl. rewrite <- advance_S. apply N; simpl; lia.
      - rewrite <- advance_S. exact K. }
    cbn [option_map]. rewrite R.
    destruct min as [| min]; cbn [Nat.eqb]; [| reflexivity].
    specialize (N 0 (le_n 0)). rewrite advance_0 in N. rewrite N by (simpl; lia).
    reflexivity.
Qed.

(** A greedy repetition of a single character fails when what follows
    matches at none of its positions. *)
Lemma greedy_none (p : code_unit -> bool) (k : cursor -> option cursor) :
  forall ws x fuel min rem,
    after x = ws ++ rem ->
    Forall (fun c => p c = true) ws ->
    (rem = [] \/ exists c r, rem = c :: r /\ p c = false) ->
    (forall i, min <= i -> i <= length ws -> k (advance i x) = None) ->
    repeat_matcher (step p) [] true k fuel min None x = None.
Proof.
  induction ws as [| c ws IH]; intros x fuel min rem A F E N;
    (destruct fuel as [| fuel]; [reflexivity |]); cbn [repeat_matcher];
    rewrite clear_caps_nil.
  - cbn [app] in A.
    assert (S0 : forall d, step p x d = None).
    { intros d. unfold step. rewrite A.
      destruct E as [-> | (c & r & -> & Pc)]; [reflexivity | rewrite Pc; reflexivity]. }
    rewrite S0. destruct min as [| min]; cbn [Nat.eqb]; [| reflexivity].
    cbn [or_else]. specialize (N 0 (le_n 0) (le_n 0)). rewrite advance_0 in N. exact N.
  - destruct x as [b a cs]. cbn [after] in A. subst a.
    cbn [app] in *.
    inversion F as [| ? ? Pc F']; subst.
    cbn [app]. rewrite step_cons, Pc. cbv beta. cbn [after].
    assert (L : Nat.eqb (length (ws ++ rem)) (length (c :: ws ++ rem)) = false)
      by (apply Nat.eqb_neq; simpl; lia).
    rewrite L, andb_false_r. cbn [option_map].
    rewrite (IH {| before := c :: b; after := ws ++ rem; caps := cs |}
               fuel (Nat.pred min) rem eq_refl F' E)
      by (intros i Hi Hl; rewrite <- advance_S; apply N; simpl; lia).
    destruct min as [| min]; cbn [Nat.eqb]; [| reflexivity].
    cbn [or_else]. specialize (N 0 (le_n 0)). rewrite advance_0 in N.
    apply N. simpl. lia.
Qed.

(** A greedy repetition of a single character stops at the last position
    where what follows matches. *)
Lemma greedy_first (p : code_unit -> bool) (k : cursor -> option cursor) (v : cursor) :
  forall ws x fuel min rem j,
    after x = ws ++ rem ->
    Forall (fun c => p c = true) ws ->
    (rem = [] \/ exists c r, rem = c :: r /\ p c = false) ->
    min <= j -> j <= length ws -> length ws < fuel ->
    (forall i, j < i -> i <= length ws -> k (advance i x) = None) ->
    k (advance j x) = Some v ->
    repeat_matcher (step p) [] true k fuel min None x = Some v.
Proof.
  induction ws as [| c ws IH]; intros x fuel min rem j A F E Hm Hj Hf N K;
    (destruct fuel as [| fuel]; [simpl in Hf; lia |]); cbn [repeat_matcher];
    rewrite clear_caps_nil.
  - simpl in Hj. assert (j = 0) as -> by lia. assert (min = 0) as -> by lia.
    cbn [app] in A.
    assert (S0 : forall d, step p x d = None).
    { intros d. unfold step. rewrite A.
      destruct E as [-> | (c & r & -> & Pc)]; [reflexivity | rewrite Pc; reflexivity]. }
    rewrite S0. cbn [Nat.eqb or_else]. rewrite advance_0 in K. exact K.
  - destruct x as [b a cs]. cbn [after] in A. subst a.
    cbn [app] in *.
    inversion F as [| ? ? Pc F']; subst.
    cbn [app]. rewrite step_cons, Pc. cbv beta. cbn [after].
    assert (L : Nat.eqb (length (ws ++ rem)) (length (c :: ws ++ rem)) = false)
      by (apply Nat.eqb_neq; simpl; lia).
    rewrite L, andb_false_r. cbn [option_map].
    destruct j as [| j].
    + assert (min = 0) as -> by lia. cbn [Nat.eqb Nat.pred].
      rewrite (@greedy_none p k ws {| before := c :: b; after := ws ++ rem; caps := cs |}
                 fuel 0 rem eq_refl F' E)
        by (intros i Hi Hl; rewrite <- advance_S; apply N; simpl; lia).
      cbn [or_else]. rewrite advance_0 in K. exact K.
    + rewrite (IH {| before := c :: b; after := ws ++ rem; caps := cs |}
                 fuel (Nat.pred min) rem j eq_refl F' E);
        [ destruct min; reflexivity
        | lia
        | simpl in Hj; lia
        | simpl in Hf; lia
        | intros i Hi Hl; rewrite <- advance_S; apply N; simpl; lia
        | rewrite <- advance_S; exact K ].
Qed.

Lemma skipn_within (Q : code_unit -> Prop) (post : jsstring) : forall s i,
  Forall Q s -> i < length s ->
  exists d r, skipn i (s ++ post) = d :: r /\ Q d.
Proof.
  induction s as [| c s IH]; intros i F L; [simpl in L; lia |].
  inversion F as [| ? ? Qc F']; subst. destruct i as [| i].
  - exists c, (s ++ post). split; [reflexivity | exact Qc].
  - apply (IH i F'). simpl in L. lia.
Qed.

(** What follows the group of the line: a line feed, or the end. *)
Lemma line_end_none (z : cursor) (d : code_unit) (r : jsstring) :
  after z = d :: r -> N.eqb d 10 = false ->
  run flag_s (Alt (Char 10) AssertEnd) z Some = None.
Proof.
  intros A D. cbn [run]. unfold step. rewrite A.
  unfold canon. cbn [flag_s ignoreCase]. rewrite N.eqb_sym, D. reflexivity.
Qed.

Lemma line_end_some (z : cursor) :
  after z = [] \/ (exists r, after z = 10%N :: r) ->
  exists y, run flag_s (Alt (Char 10) AssertEnd) z Some = Some y /\ caps y = caps z.
Proof.
  intros [A | (r & A)]; cbn [run]; unfold step; rewrite A.
  - exists z. split; reflexivity.
  - eexists. split; reflexivity.
Qed.

(** The pattern of the line at a position where the text goes on: the group
    is the first character and the rest of its line. *)
Lemma run_line (y : cursor) (c : code_unit) (more : jsstring) :
  after y = c :: more ->
  exists y',
    run flag_s line_pattern y Some = Some y'
    /\ capture 1 (caps y') = Some (c :: first_line more).
Proof.
  intros A. destruct (first_line_split more) as (post & E & P & F).
  set (body := c :: first_line more).
  assert (Ab : after y = body ++ post) by (rewrite A; unfold body; cbn [app]; rewrite <- E; reflexivity).
  set (k := fun z => run flag_s (Alt (Char 10) AssertEnd)
                       (set_cap 1 (consumed y z) z) Some).
  destruct (@line_end_some (set_cap 1 (consumed y (advance (length body) y))
                              (advance (length body) y))) as (y' & R & C).
  { cbn [set_cap after]. rewrite (@after_advance _ y body post Ab eq_refl).
    destruct P as [-> | (post' & ->)]; [left | right; exists post']; reflexivity. }
  exists y'. split.
  - change (run flag_s line_pattern y Some)
      with (repeat_matcher
              (step (fun d => (dotAll flag_s || negb (is_line_terminator d))%bool))
              [] false k (S (1 + length (after y))) 1 None y).
    apply (@lazy_first _ k y' body y _ 1 post Ab).
    + apply Forall_forall. intros d _. reflexivity.
    + unfold body. simpl. lia.
    + rewrite Ab, length_app. lia.
    + intros i Hi Hl. unfold k.
      destruct i as [| i]; [lia |].
      destruct (@skipn_within (fun d => N.eqb d 10 = false) post (first_line more) i F)
        as (d & r & S & D); [unfold body in Hl; simpl in Hl; lia |].
      apply (@line_end_none _ d r); [| exact D].
      cbn [set_cap after advance]. rewrite Ab. unfold body. exact S.
    + exact R.
  - rewrite C. cbn [set_cap caps capture Nat.eqb]. f_equal.
    apply consumed_prefix. rewrite (@after_advance _ y body post Ab eq_refl). exact Ab.
Qed.

Lemma run_line_none (y : cursor) :
  after y = [] -> run flag_s line_pattern y Some = None.
Proof.
  intros A. cbn [line_pattern run repeat_matcher]. rewrite clear_caps_nil.
  unfold step. rewrite A. reflexivity.
Qed.

Lemma space_class_s (d : code_unit) :
  xorb false (class_has flag_s [CSpace false] d) = is_space d.
Proof.
  cbn [class_has existsb item_has flag_s ignoreCase xorb andb orb].
  rewrite !orb_false_r. reflexivity.
Qed.

(** The white space at the head of a string. *)
Lemma leading_spaces (s : jsstring) :
  exists ws,
    s = ws ++ trimStart s /\ blank ws
    /\ (trimStart s = [] \/ exists c r, trimStart s = c :: r /\ is_space c = false).
Proof.
  induction s as [| c s (ws & E & B & H)].
  - exists []. split; [reflexivity |]. split; [constructor | left; reflexivity].
  - cbn [trimStart]. destruct (is_space c) eqn:C.
    + exists (c :: ws). split; [cbn [app]; rewrite <- E; reflexivity |].
      split; [constructor; assumption | exact H].
    + exists []. split; [reflexivity |]. split; [constructor |].
      right. exists c, s. split; [reflexivity | exact C].
Qed.

(** The tail of the pattern of the description where white space and one
    more character follow: the group is the first line of what follows the
    white space, or one white space at the end of the text. *)
Lemma run_description_tail (z : cursor) (w : code_unit) (rest' : jsstring) :
  after z = w :: rest' -> is_space w = true -> rest' <> [] ->
  exists y body,
    run flag_s description_tail z Some = Some y
    /\ capture 1 (caps y) = Some body
    /\ trim body = trim (first_line (trimStart (w :: rest'))).
Proof.
  intros A W Nr.
  destruct (leading_spaces (w :: rest')) as (ws & E & B & H).
  set (p := fun d => xorb false (class_has flag_s [CSpace false] d)).
  set (k := fun y => run flag_s line_pattern y Some).
  assert (Fw : Forall (fun c => p c = true) ws).
  { eapply Forall_impl; [| exact B]. intros d Hd. unfold p. rewrite space_class_s. exact Hd. }
  assert (Az : after z = ws ++ trimStart (w :: rest')) by (rewrite A; exact E).
  assert (Nw : 1 <= length ws).
  { destruct ws as [| w' ws]; [| simpl; lia]. cbn [app] in E.
    destruct H as [H | (c & r & H & C)]; rewrite H in E; [discriminate E |].
    injection E as <- _. rewrite W in C. discriminate C. }
  assert (R : forall y,
             repeat_matcher (step p) [] true k (S (1 + length (after z))) 1 None z = Some y ->
             run flag_s description_tail z Some = Some y) by (intros y Hy; exact Hy).
  destruct H as [H | (c & more & H & C)].
  - (* white space up to the end of the text *)
    rewrite H, app_nil_r in Az, E.
    destruct (exists_last (l := ws)) as (ws0 & wl & Ew);
      [intros ->; simpl in Nw; lia |].
    assert (Wl : is_space wl = true).
    { rewrite Ew in B. apply Forall_app in B. destruct B as (_ & B).
      inversion B; assumption. }
    assert (N0 : 1 <= length ws0).
    { destruct ws0 as [| w0 ws0]; [| simpl; lia]. rewrite Ew in E. cbn [app] in E.
      injection E as _ E. contradiction. }
    assert (A0 : after z = ws0 ++ [wl]) by (rewrite Az, Ew; reflexivity).
    destruct (@run_line (advance (length ws0) z) wl [] (@after_advance _ z ws0 [wl] A0 eq_refl))
      as (y & Ry & Cy).
    exists y, [wl]. split; [| split; [exact Cy |]].
    + apply R.
      apply (@greedy_first p k y ws z _ 1 [] (length ws0));
        [rewrite app_nil_r; exact Az | exact Fw | left; reflexivity | exact N0
        | rewrite Ew, length_app; simpl; lia
        | rewrite Az; lia | | exact Ry].
      intros i Hi Hl. unfold k. apply run_line_none.
      assert (i = length ws) as -> by (rewrite Ew, length_app in *; simpl in *; lia).
      apply (@after_advance _ z ws []); [rewrite app_nil_r; exact Az | reflexivity].
    + rewrite H. cbn [first_line].
      rewrite <- (app_nil_r [wl]). apply trim_blank_app. repeat constructor. exact Wl.
  - (* white space, then the line *)
    rewrite H in Az.
    destruct (@run_line (advance (length ws) z) c more (@after_advance _ z ws _ Az eq_refl))
      as (y & Ry & Cy).
    exists y, (c :: first_line more). split; [| split; [exact Cy |]].
    + apply R.
      apply (@greedy_first p k y ws z _ 1 (c :: more) (length ws));
        [exact Az | exact Fw
        | right; exists c, more; split; [reflexivity | unfold p; rewrite space_class_s; exact C]
        | exact Nw | lia | rewrite Az, length_app; simpl; lia | intros i Hi Hl; lia | exact Ry].
    + rewrite H. cbn [first_line].
      destruct (N.eqb c 10) eqn:C10; [| reflexivity].
      apply N.eqb_eq in C10. subst c. discriminate C.
Qed.

(** The name as a pattern takes the characters it reads as. *)
Lemma run_name_pattern (tail : regex) (k : cursor -> option cursor) (name t : jsstring) :
  reads_as name t ->
  forall x rest,
    after x = t ++ rest ->
    run flag_s (name_pattern name tail) x k = run flag_s tail (advance (length t) x) k.
Proof.
  induction 1 as [| c d name t E _ IH]; intros x rest A.
  - rewrite advance_0. reflexivity.
  - destruct x as [b a cs]. cbn [after app] in A. subst a.
    cbn [name_pattern fold_right length]. rewrite advance_S.
    rewrite <- (IH {| before := d :: b; after := t ++ rest; caps := cs |} rest eq_refl).
    destruct (N.eqb c 46) eqn:C; cbn [run]; rewrite step_cons.
    + reflexivity.
    + destruct E as [-> | ->]; [discriminate C |].
      unfold canon. cbn [flag_s ignoreCase]. rewrite N.eqb_refl. reflexivity.
Qed.

Lemma matches_name (tail : regex) (name : jsstring) : forall x y,
  matches flag_s (name_pattern name tail) x y ->
  exists t z, reads_as name t /\ after x = t ++ after z /\ matches flag_s tail z y.
Proof.
  induction name as [| c name IH]; intros x y M.
  - exists [], x. split; [constructor | split; [reflexivity | exact M]].
  - cbn [name_pattern fold_right matches] in M. destruct M as (z1 & M1 & M).
    apply IH in M. destruct M as (t & z & R & A & M).
    assert (T : exists d, after x = d :: after z1 /\ (c = 46%N \/ d = c)).
    { destruct (N.eqb c 46) eqn:C; cbn [matches] in M1;
        destruct M1 as (d & r & Ax & P & ->); exists d; (split; [exact Ax |]).
      - left. apply N.eqb_eq. exact C.
      - right. unfold canon in P. cbn [flag_s ignoreCase] in P.
        apply N.eqb_eq in P. symmetry. exact P. }
    destruct T as (d & Ax & D). exists (d :: t), z.
    split; [constructor; assumption |].
    split; [rewrite Ax, A; reflexivity | exact M].
Qed.

Lemma loops_name_pattern (name : jsstring) (tail : regex) :
  loops_over_atoms (name_pattern name tail) = loops_over_atoms tail.
Proof.
  induction name as [| c name IH]; [reflexivity |].
  cbn [name_pattern fold_right loops_over_atoms].
  destruct (N.eqb c 46); exact IH.
Qed.

(** Where the pattern of the description matches, the name is followed by
    white space and one more character. *)
Lemma matches_description (name : jsstring) (x y : cursor) :
  matches flag_s (name_pattern name description_tail) x y ->
  exists t w rest',
    after x = t ++ w :: rest' /\ reads_as name t /\ is_space w = true /\ rest' <> [].
Proof.
  intros M. apply matches_name in M. destruct M as (t & z & R & A & M).
  unfold description_tail in M. cbn [matches groups_of] in M.
  destruct M as (z1 & (n1 & N1 & _ & I1) & z2 & (z' & (n2 & N2 & _ & I2) & _) & _).
  apply iterate_spans in I1. destruct I1 as (ws & Lw & Fw & (A1 & _)).
  apply iterate_spans in I2. destruct I2 as (body & Lb & _ & (A2 & _)).
  destruct ws as [| w ws]; [simpl in Lw; lia |].
  exists t, w, (ws ++ after z1).
  split; [rewrite A, A1; reflexivity |]. split; [exact R |].
  split.
  - inversion Fw as [| ? ? Hw _]; subst. rewrite space_class_s in Hw. exact Hw.
  - rewrite A2. destruct body; [simpl in Lb; lia |]. intros E.
    apply app_eq_nil in E. destruct E as (_ & E). discriminate E.
Qed.

(** The pattern of the description at a position where the name, white
    space and one more character follow. *)
Lemma run_description (name pre t rest : jsstring) (w : code_unit) (rest' : jsstring) :
  reads_as name t -> rest = w :: rest' -> is_space w = true -> rest' <> [] ->
  exists y body,
    run flag_s (name_pattern name description_tail) (cursor_at [] pre (t ++ rest)) Some
      = Some y
    /\ capture 1 (caps y) = Some body
    /\ trim body = trim (first_line (trimStart rest)).
Proof.
  intros R -> W Nr.
  rewrite (@run_name_pattern description_tail Some name t R
             (cursor_at [] pre (t ++ w :: rest')) (w :: rest') eq_refl).
  apply run_description_tail; [| exact W | exact Nr].
  apply (@after_advance _ _ t (w :: rest')); reflexivity.
Qed.

(** The description of an entry without a [p], where the name is plain. *)
Lemma description_of_fallback (li : loc * node) (name d : jsstring) :
  find (tag "p") li = [] -> plain_name name ->
  description_of li name = Ok d ->
  fallback_read name (textContent (snd li)) d.
Proof.
  intros F P. unfold description_of. rewrite F. cbn [first].
  unfold compile_or_raise. rewrite (compile_description P). cbn [try_bind].
  set (text := textContent (snd li)).
  set (r := name_pattern name description_tail).
  assert (Bo : bounds_in_order r = true)
    by (unfold r; rewrite bounds_name_pattern; reflexivity).
  assert (Lo : loops_over_atoms r = true)
    by (unfold r; rewrite loops_name_pattern; reflexivity).
  destruct (exec flag_s r text) as [[x y] |] eqn:E.
  - pose proof E as E'. unfold exec in E'. apply exec_from_leftmost in E'.
    destruct E' as (pre & rest0 & Et & -> & Rn & Least).
    pose proof Rn as Rs. apply run_sound in Rs; [| exact Bo].
    destruct Rs as (y' & M & _). apply matches_description in M.
    destruct M as (t & w & rest' & A & Rt & W & Nr). cbn [cursor_at after] in A. subst rest0.
    destruct (@run_description name pre t _ w rest' Rt eq_refl W Nr) as (y2 & body & R2 & C & T).
    fold r in R2. rewrite R2 in Rn. injection Rn as <-.
    cbn [group snd]. rewrite C. intros [= <-]. left.
    exists pre, (w :: rest'). split; [exists t, w, rest'; repeat split; assumption |].
    split; [| exact T].
    intros pre' rest'' (t' & w' & r' & Et' & Rt' & -> & W' & Nr').
    destruct (Nat.le_gt_cases (length pre) (length pre')) as [L | L]; [exact L |].
    destruct (@run_description name pre' t' _ w' r' Rt' eq_refl W' Nr') as (y3 & b3 & R3 & _).
    fold r in R3. rewrite (Least pre' (t' ++ w' :: r') Et' L) in R3. discriminate R3.
  - intros [= <-]. right. split; [reflexivity |].
    intros pre rest (t & w & rest' & Et & Rt & -> & W & Nr).
    destruct (@run_description name pre t _ w rest' Rt eq_refl W Nr) as (y & b & R & _).
    fold r in R. unfold exec in E.
    rewrite (@exec_from_none flag_s r text [] E pre (t ++ w :: rest') Et) in R.
    discriminate R.
Qed.

(** * Further properties of the operations *)

Lemma serve_tags (doc : document) (modelName : jsstring) :
  plain_in_selector modelName = true ->
  getModelTags (serve doc) modelName = Return (tags_of_page modelName doc).
Proof.
  intros P. exact (@getModelTags_loaded (serve doc) modelName 200%N doc eq_refl P).
Qed.

Lemma serve_details (doc : document) (modelName : jsstring) (tag : option jsstring) :
  getModelDetails (serve doc) modelName tag =
  (Return (fst (details_of (serve doc) modelName doc)),
   snd (details_of (serve doc) modelName doc)).
Proof.
  exact (@getModelDetails_loaded (serve doc) modelName tag 200%N doc eq_refl).
Qed.

(** ** Failures of the transport *)

(** X2: for a name without double quote and backslash, [getModelTags]
    throws exactly when the transport fails or answers with a status that is
    not a success, the error naming "model tags" and carrying the cause; it
    returns exactly when the page loads. *)
Theorem getModelTags_outcomes (w : collaborators) (modelName : jsstring) :
  plain_in_selector modelName = true ->
  (forall operation c,
      getModelTags w modelName = Throw operation c <->
      operation = js "model tags"
      /\ ((exists reason,
             fetch w (baseUrl ++ js "/library/" ++ modelName ++ js "/tags")
               = Rejected reason
             /\ c = FetchRejected reason)
          \/ (exists status doc,
                 fetch w (baseUrl ++ js "/library/" ++ modelName ++ js "/tags")
                   = Response false status doc
                 /\ c = HttpError status)))
  /\ ((exists tags, getModelTags w modelName = Return tags) <->
      exists status doc,
        fetch w (baseUrl ++ js "/library/" ++ modelName ++ js "/tags")
          = Response true status doc).
Proof.
  intros P. split; [intros operation c; apply getModelTags_throws; exact P |].
  split.
  - intros (tags & H). apply getModelTags_returns in H.
    destruct H as (status & doc & Hf & _). exists status, doc. exact Hf.
  - intros (status & doc & Hf). exists (tags_of_page modelName doc).
    exact (@getModelTags_loaded w modelName status doc Hf P).
Qed.

Lemma getModelTags_outcomes_witness :
  getModelTags (answer_with_status 404) (js "llava")
    = Throw (js "model tags") (HttpError 404)
  /\ exists tags, getModelTags (serve tags_page) (js "llava") = Return tags.
Proof.
  split.
  - apply (proj1 (@getModelTags_outcomes (answer_with_status 404) (js "llava") eq_refl)).
    split; [reflexivity |]. right. exists 404%N, []. split; reflexivity.
  - apply (proj2 (@getModelTags_outcomes (serve tags_page) (js "llava") eq_refl)).
    exists 200%N, tags_page. reflexivity.
Defined.

(** ** The listing *)

Lemma first_of_each_nil (E : Type) (key : E -> option jsstring) (sel : list E) :
  first_of_each key [] sel = [] <-> forall e, In e sel -> key e = None.
Proof.
  induction sel as [| e sel IH]; simpl; [split; [intros _ e [] | reflexivity] |].
  destruct (key e) as [k |] eqn:K.
  - split; [discriminate |]. intros H. specialize (H e (or_introl eq_refl)).
    rewrite K in H. discriminate H.
  - rewrite IH. split.
    + intros H e' [<- | I]; [exact K | exact (H e' I)].
    + intros H e' I. apply H. right. exact I.
Qed.

(** X3: a listing whose page loads is empty exactly when no [li] of the page
    gives a name: each has no link whose [href] starts with [/library/], or
    the [href] of its first such link has a colon or [/tags]. *)
Theorem listing_empty (w : collaborators) (o : option options)
    (status : N) (doc : document) :
  fetch w (listing_url w o) = Response true status doc ->
  (getModelListing w o = Return [] <->
   forall li, In li (select (tag "li") doc) ->
     match first (find library_link li) with
     | None => True
     | Some link =>
         includes (js "/tags") (href_of link) = true
         \/ includes (js ":") (href_of link) = true
     end).
Proof.
  intros Hf.
  assert (N : forall li,
             entry_name li = None <->
             match first (find library_link li) with
             | None => True
             | Some link =>
                 includes (js "/tags") (href_of link) = true
                 \/ includes (js ":") (href_of link) = true
             end).
  { intros li. unfold entry_name. rewrite entry_href_cases.
    destruct (first (find library_link li)) as [link |]; [| split; reflexivity].
    destruct (includes (js "/tags") (href_of link)); destruct (includes (js ":") (href_of link));
      cbn [orb option_map]; split; try discriminate; try reflexivity; try tauto;
      intros [H | H]; discriminate H. }
  split.
  - intros H li I. apply N. apply getModelListing_returns in H.
    destruct H as (status' & doc' & Hf' & H). rewrite Hf in Hf'.
    injection Hf' as _ <-. apply listing_of_names in H. cbn [map] in H.
    symmetry in H. apply map_eq_nil in H.
    exact (proj1 (first_of_each_nil entry_name (select (tag "li") doc)) H li I).
  - intros H. rewrite (getModelListing_loaded _ _ Hf). unfold listing_of.
    destruct (@each_builds _ _ entry_name
                (fun li k => listing_item li (or_default [] (entry_href li)) k)
                listing_each listing_each_step (select (tag "li") doc) [] [])
      as (items & seen' & E & L).
    + intros li k I K. rewrite (proj2 (N li) (H li I)) in K. discriminate K.
    + rewrite E. cbn [try_bind fst app catch].
      rewrite (proj2 (first_of_each_nil entry_name (select (tag "li") doc))) in L.
      * destruct items; [reflexivity | discriminate L].
      * intros li I. apply N. exact (H li I).
Qed.

Lemma listing_empty_witness :
  getModelListing (serve variant_link_first_page) None = Return []
  /\ getModelListing (serve no_entries_page) None = Return [].
Proof.
  split.
  - apply (proj2 (@listing_empty (serve variant_link_first_page) None 200%N
                    variant_link_first_page eq_refl)).
    intros li [<- | []]. vm_compute. right. reflexivity.
  - apply (proj2 (@listing_empty (serve no_entries_page) None 200%N
                    no_entries_page eq_refl)).
    intros li [].
Defined.



(** X5: the name of every record of the listing is what follows [/library/]
    in the [href] of the first library link of its entry; it has no colon
    and no [/tags]; the address of the record is
    [https://ollama.com/library/] followed by the name. *)
Theorem listing_names_and_addresses (w : collaborators) (o : option options)
    (models : list ModelListItem.t) :
  getModelListing w o = Return models ->
  each_entry w o models entry_read.
Proof.
  intros H. apply (@getModelListing_each w o models _ H). exact listing_item_entry.
Qed.

Lemma listing_names_and_addresses_witness :
  each_entry (serve capable_entry_page) None [capable_entry_record] entry_read.
Proof.
  apply listing_names_and_addresses. apply serve_listing.
  exact listing_of_capable_entry_page.
Defined.

(** X6: the capabilities of a record of the listing are the words among
    tools, vision, thinking and embedding that occur in the text of its
    entry, in any case and touched by no word character, in that order;
    the field is [undefined] when none occurs. *)
Theorem listing_capabilities (w : collaborators) (o : option options)
    (models : list ModelListItem.t) :
  getModelListing w o = Return models ->
  each_entry w o models
    (fun li item =>
       capabilities_read (textContent (snd li)) (ModelListItem.capabilities item)).
Proof.
  intros H. apply (@getModelListing_each w o models _ H). intros li href item _ B.
  apply listing_item_fields in B. destruct B as (d & p & _ & ->).
  cbn [ModelListItem.capabilities]. apply capabilities_of_read.
Qed.

Lemma listing_capabilities_witness :
  each_entry (serve capable_entry_page) None [capable_entry_record]
    (fun li item =>
       capabilities_read (textContent (snd li)) (ModelListItem.capabilities item)).
Proof.
  apply listing_capabilities. apply serve_listing. exact listing_of_capable_entry_page.
Defined.

(** X7: the pulls of a record of the listing are a count (digits, possibly a
    point and more digits, possibly one of K, M and B) that the text of its
    entry follows with white space and "Pulls", in any case, and "0" when
    the text has none; its number of tags is the Number value of a run of
    digits that the text follows with white space and "Tags": the value of
    the digits below 2^53, and from there on the nearest double, the one
    with the even significand of two as near, or [Infinity] from
    2^1024 - 2^970 on; it is 0 when the text has none. *)
Theorem listing_counts (w : collaborators) (o : option options)
    (models : list ModelListItem.t) :
  getModelListing w o = Return models ->
  each_entry w o models
    (fun li item =>
       pulls_read (textContent (snd li)) (ModelListItem.pulls item)
       /\ tags_read (textContent (snd li)) (ModelListItem.tags item)).
Proof.
  intros H. apply (@getModelListing_each w o models _ H). intros li href item _ B.
  apply listing_item_fields in B. destruct B as (d & p & _ & ->).
  cbn [ModelListItem.pulls ModelListItem.tags].
  split; [apply pulls_of_read | apply tags_of_read].
Qed.

Lemma listing_counts_witness :
  each_entry (serve capable_entry_page) None [capable_entry_record]
    (fun li item =>
       pulls_read (textContent (snd li)) (ModelListItem.pulls item)
       /\ tags_read (textContent (snd li)) (ModelListItem.tags item))
  /\ each_entry (serve large_count_page) None [large_count_record]
       (fun li item =>
          pulls_read (textContent (snd li)) (ModelListItem.pulls item)
          /\ tags_read (textContent (snd li)) (ModelListItem.tags item)).
Proof.
  split.
  - apply listing_counts. apply serve_listing. exact listing_of_capable_entry_page.
  - apply listing_counts. apply serve_listing. vm_compute. reflexivity.
Defined.

(** X8: the date of a record of the listing is the rest of a line of the
    text of its entry that follows "Updated", in any case, and white space,
    trimmed, and is empty when the text has none; its description has no
    white space at either end, and is the trimmed text of the first [p] of
    the entry when the entry has one. *)
Theorem listing_texts (w : collaborators) (o : option options)
    (models : list ModelListItem.t) :
  getModelListing w o = Return models ->
  each_entry w o models
    (fun li item =>
       updated_read (textContent (snd li)) (ModelListItem.lastUpdated item)
       /\ trimmed (ModelListItem.lastUpdated item)
       /\ description_read li (ModelListItem.description item)).
Proof.
  intros H. apply (@getModelListing_each w o models _ H). intros li href item _ B.
  apply listing_item_fields in B. destruct B as (d & p & D & ->).
  cbn [ModelListItem.lastUpdated ModelListItem.description].
  split; [apply updated_of_read |]. split; [apply updated_of_trimmed |].
  split; [exact (description_of_trimmed _ _ D) |].
  intros q F. unfold description_of in D. rewrite F in D. injection D as <-.
  reflexivity.
Qed.

Lemma listing_texts_witness :
  each_entry (serve capable_entry_page) None [capable_entry_record]
    (fun li item =>
       updated_read (textContent (snd li)) (ModelListItem.lastUpdated item)
       /\ trimmed (ModelListItem.lastUpdated item)
       /\ description_read li (ModelListItem.description item)).
Proof.
  apply listing_texts. apply serve_listing. exact listing_of_capable_entry_page.
Defined.

(** X19: the description of a record of the listing whose entry has no [p]
    and whose name has none of the characters [^ $ \ * + ? ( ) [ ] { } |]:
    take the first place of the text of the entry where the name stands (a
    point of the name standing for any character), followed by a white space
    and at least one more character; the description is the first line of
    what follows the name and the white space after it, trimmed.  It is
    empty when the text has no such place. *)
Theorem listing_fallback_descriptions (w : collaborators) (o : option options)
    (models : list ModelListItem.t) :
  getModelListing w o = Return models ->
  each_entry w o models
    (fun li item =>
       find (tag "p") li = [] ->
       plain_name (ModelListItem.name item) ->
       fallback_read (ModelListItem.name item) (textContent (snd li))
         (ModelListItem.description item)).
Proof.
  intros H. apply (@getModelListing_each w o models _ H). intros li href item _ B.
  apply listing_item_fields in B. destruct B as (d & p & D & ->).
  cbn [ModelListItem.name ModelListItem.description]. intros F P.
  exact (@description_of_fallback li _ d F P D).
Qed.

Lemma listing_fallback_descriptions_witness :
  each_entry (serve scenario_A_lines) None [record_A "Test description"]
    (fun li item =>
       find (tag "p") li = [] ->
       plain_name (ModelListItem.name item) ->
       fallback_read (ModelListItem.name item) (textContent (snd li))
         (ModelListItem.description item)).
Proof.
  apply listing_fallback_descriptions. apply serve_listing.
  exact listing_of_scenario_A_lines.
Defined.

(** ** Tags and variants *)

Lemma first_of_each_keys (E : Type) (key : E -> option jsstring) (sel : list E)
    (k : jsstring) :
  In k (map snd (first_of_each key [] sel)) <-> exists e, In e sel /\ key e = Some k.
Proof.
  split.
  - rewrite in_map_iff. intros ([e k'] & <- & H).
    apply first_of_each_first in H. destruct H as (_ & s1 & s2 & -> & K & _).
    exists e. split; [apply in_elt | exact K].
  - intros (e & I & K). exact (@first_of_each_all E key sel [] e k I K).
Qed.

Lemma names_of_links (links : list (loc * node)) :
  names_read links (map snd (first_of_each link_tag [] links)).
Proof.
  split; [intros k; apply first_of_each_keys |].
  intros link _. apply tag_of_href_read.
Qed.

(** X9: the names of the tags, and of the variants of the details, are the
    names read from the links of the page: a link gives the part of its
    [href] after the first colon that is followed by at least one character
    and by no slash, and nothing when its [href] has no such colon; every
    name so read is the name of a record. *)
Theorem names_of_records :
  (forall w modelName tags,
      getModelTags w modelName = Return tags ->
      exists status doc,
        fetch w (baseUrl ++ js "/library/" ++ modelName ++ js "/tags")
          = Response true status doc
        /\ names_read (select (tag_link modelName) doc) (map ModelTag.name tags))
  /\ (forall w modelName tag d log,
        getModelDetails w modelName tag = (Return d, log) ->
        exists status doc,
          fetch w (details_url modelName tag) = Response true status doc
          /\ names_read (select variant_link doc)
               (map Variant.name (ModelDetails.models d))).
Proof.
  split.
  - intros w modelName tags H. apply getModelTags_returns in H.
    destruct H as (status & doc & Hf & ->). exists status, doc. split; [exact Hf |].
    rewrite tags_of_page_links, map_map_snd by reflexivity. apply names_of_links.
  - intros w modelName tag d log H. apply getModelDetails_returns in H.
    destruct H as (status & doc & Hf & D). exists status, doc. split; [exact Hf |].
    pose proof (details_of_models w modelName doc) as Hm. rewrite D in Hm.
    cbn [fst] in Hm. rewrite Hm, variants_of_links, map_map_snd by reflexivity.
    apply names_of_links.
Qed.

Lemma names_of_records_witness :
  exists status doc,
    fetch (serve tags_page) (baseUrl ++ js "/library/" ++ js "llava" ++ js "/tags")
      = Response true status doc
    /\ names_read (select (tag_link (js "llava")) doc)
         (map ModelTag.name [tags_page_record]).
Proof.
  apply (proj1 names_of_records (serve tags_page) (js "llava") [tags_page_record]).
  rewrite serve_tags by reflexivity. rewrite tags_of_tags_page. reflexivity.
Defined.

(** X10: the size of a tag, and of a variant, is the number and the unit
    (GB, MB or TB, in either case) of a size of the text its fields are read
    from, without the white space between them, and empty when the text has
    no size. *)
Theorem sizes_of_records :
  (forall w modelName tags,
      getModelTags w modelName = Return tags ->
      each_tag w modelName tags (fun _ text r => size_read text (ModelTag.size r)))
  /\ (forall w modelName tag d log,
        getModelDetails w modelName tag = (Return d, log) ->
        each_variant w modelName tag d
          (fun _ text v => size_read text (Variant.size v))).
Proof.
  split.
  - intros w modelName tags H. apply (@getModelTags_each w modelName tags _ H).
    intros doc link k. apply size_of_read.
  - intros w modelName tag d log H. apply (@getModelDetails_each w modelName tag d log _ H).
    intros doc el k. apply size_of_read.
Qed.

Lemma sizes_of_records_witness :
  each_tag (serve tags_page) (js "llava") [tags_page_record]
    (fun _ text r => size_read text (ModelTag.size r)).
Proof.
  apply (proj1 sizes_of_records).
  rewrite serve_tags by reflexivity. rewrite tags_of_tags_page. reflexivity.
Defined.

(** X11: the context window of a tag, and of a variant, is digits and K
    that the text its fields are read from follows with "context window", in
    any case and with any white space, and [undefined] when the text has
    none. *)
Theorem context_windows_of_records :
  (forall w modelName tags,
      getModelTags w modelName = Return tags ->
      each_tag w modelName tags
        (fun _ text r => window_read text (ModelTag.contextWindow r)))
  /\ (forall w modelName tag d log,
        getModelDetails w modelName tag = (Return d, log) ->
        each_variant w modelName tag d
          (fun _ text v => window_read text (Variant.contextWindow v))).
Proof.
  split.
  - intros w modelName tags H. apply (@getModelTags_each w modelName tags _ H).
    intros doc link k. apply contextWindow_of_read.
  - intros w modelName tag d log H. apply (@getModelDetails_each w modelName tag d log _ H).
    intros doc el k. apply contextWindow_of_read.
Qed.

Lemma context_windows_of_records_witness :
  each_tag (serve tags_page) (js "llava") [tags_page_record]
    (fun _ text r => window_read text (ModelTag.contextWindow r)).
Proof.
  apply (proj1 context_windows_of_records).
  rewrite serve_tags by reflexivity. rewrite tags_of_tags_page. reflexivity.
Defined.

(** X12: the input type of a tag, and of a variant, is "Vision" exactly when
    the word vision occurs in the text its fields are read from, in any case
    and touched by no word character; it is "Text" exactly when vision does
    not occur and the word text does; it is [undefined] exactly when neither
    occurs. *)
Theorem input_types_of_records :
  (forall w modelName tags,
      getModelTags w modelName = Return tags ->
      each_tag w modelName tags
        (fun _ text r => inputType_read text (ModelTag.inputType r)))
  /\ (forall w modelName tag d log,
        getModelDetails w modelName tag = (Return d, log) ->
        each_variant w modelName tag d
          (fun _ text v => inputType_read text (Variant.inputType v))).
Proof.
  split.
  - intros w modelName tags H. apply (@getModelTags_each w modelName tags _ H).
    intros doc link k. apply inputType_of_read.
  - intros w modelName tag d log H. apply (@getModelDetails_each w modelName tag d log _ H).
    intros doc el k. apply inputType_of_read.
Qed.

Lemma input_types_of_records_witness :
  each_variant (serve details_page) (js "llava") None
    (fst (details_of (serve details_page) (js "llava") details_page))
    (fun _ text v => inputType_read text (Variant.inputType v)).
Proof.
  apply (proj2 input_types_of_records (serve details_page) (js "llava") None _
           (snd (details_of (serve details_page) (js "llava") details_page))).
  apply serve_details.
Defined.

(** X13: the date of a variant is empty, or what follows a middle dot of the
    text around its link, trimmed; where that text has no line terminator
    after its first middle dot, the date is all that follows that dot, later
    middle dots included. *)
Theorem dates_of_variants (w : collaborators) (modelName : jsstring)
    (tag : option jsstring) (d : ModelDetails.t) (log : list jsstring) :
  getModelDetails w modelName tag = (Return d, log) ->
  each_variant w modelName tag d
    (fun _ text v => after_dot_read text (Variant.lastUpdated v)).
Proof.
  intros H. apply (@getModelDetails_each w modelName tag d log _ H). intros doc el k.
  apply after_dot_of_read.
Qed.

Lemma dates_of_variants_witness :
  each_variant (serve details_page) (js "llava") None
    (fst (details_of (serve details_page) (js "llava") details_page))
    (fun _ text v => after_dot_read text (Variant.lastUpdated v))
  /\ map Variant.lastUpdated
       (ModelDetails.models (fst (details_of (serve details_page) (js "llava") details_page)))
     = [js "32K context window " ++ [183%N] ++ js " Text, Vision " ++ [183%N]
        ++ js " 2 days ago"].
Proof.
  split.
  - apply (@dates_of_variants (serve details_page) (js "llava") None _
             (snd (details_of (serve details_page) (js "llava") details_page))).
    apply serve_details.
  - rewrite (proj1 (details_of_details_page (serve details_page))). reflexivity.
Defined.

(** X14: the date of a tag is a relative date of the text its fields are
    read from (digits, one of hour, day, week, month and year, possibly in
    the plural, and "ago"), when the text has one; or else what follows the
    last bullet of that text, trimmed, when something does; or else one or
    two digits, a word and "ago" of that text, when it has them; or else
    empty.  It has no white space at either end. *)
Theorem dates_of_tags (w : collaborators) (modelName : jsstring)
    (tags : list ModelTag.t) :
  getModelTags w modelName = Return tags ->
  each_tag w modelName tags
    (fun _ text r =>
       modifiedAt_read text (ModelTag.modifiedAt r) /\ trimmed (ModelTag.modifiedAt r)).
Proof.
  intros H. apply (@getModelTags_each w modelName tags _ H). intros doc link k.
  cbn [tag_record ModelTag.modifiedAt].
  split; [apply modifiedAt_of_read | apply modifiedAt_of_trimmed].
Qed.

Lemma dates_of_tags_witness :
  each_tag (serve tags_page) (js "llava") [tags_page_record]
    (fun _ text r =>
       modifiedAt_read text (ModelTag.modifiedAt r) /\ trimmed (ModelTag.modifiedAt r)).
Proof.
  apply dates_of_tags.
  rewrite serve_tags by reflexivity. rewrite tags_of_tags_page. reflexivity.
Defined.

(** ** The details *)

Lemma details_of_fields (w : collaborators) (modelName : jsstring) (doc : document) :
  let d := fst (details_of w modelName doc) in
  ModelDetails.description d
    = trim (text (select (attr_is "id" (eqb (js "summary-content"))) doc))
  /\ ModelDetails.downloads d = downloads_of doc
  /\ ModelDetails.lastUpdated d = lastUpdated_of doc
  /\ ModelDetails.readmeHtml d = fst (fst (readme_of w doc))
  /\ ModelDetails.readmeMarkdown d = snd (fst (readme_of w doc))
  /\ snd (details_of w modelName doc) = snd (readme_of w doc).
Proof.
  unfold details_of. destruct (readme_of w doc) as [[h m] l].
  repeat split.
Qed.

(** X15: the downloads of a model are the count of the first [span] or
    [div] of the page, in the order of the document, whose whole text is a
    count, white space and "Download" or "Downloads", in any case; they are
    "0" when the page has no such element. *)
Theorem downloads_of_details (w : collaborators) (modelName : jsstring)
    (tag : option jsstring) (d : ModelDetails.t) (log : list jsstring) :
  getModelDetails w modelName tag = (Return d, log) ->
  exists status doc,
    fetch w (details_url modelName tag) = Response true status doc
    /\ downloads_read doc (ModelDetails.downloads d).
Proof.
  intros H. apply getModelDetails_returns in H. destruct H as (status & doc & Hf & D).
  exists status, doc. split; [exact Hf |].
  pose proof (details_of_fields w modelName doc) as (_ & F & _). rewrite D in F.
  cbn [fst] in F. rewrite F. apply downloads_of_read.
Qed.

Lemma downloads_of_details_witness :
  exists status doc,
    fetch (serve details_page) (details_url (js "llava") None)
      = Response true status doc
    /\ downloads_read doc
         (ModelDetails.downloads
            (fst (details_of (serve details_page) (js "llava") details_page))).
Proof.
  apply (@downloads_of_details (serve details_page) (js "llava") None _
           (snd (details_of (serve details_page) (js "llava") details_page))).
  apply serve_details.
Defined.

(** X16: the date of a model is the trimmed text of the first [time] element
    of the page whose text is not blank; when the page has none, it is the
    date after "Updated" in the text of [main]; the date and the
    description of the model have no white space at either end. *)
Theorem texts_of_details (w : collaborators) (modelName : jsstring)
    (tag : option jsstring) (d : ModelDetails.t) (log : list jsstring) :
  getModelDetails w modelName tag = (Return d, log) ->
  exists status doc,
    fetch w (details_url modelName tag) = Response true status doc
    /\ details_updated_read doc (ModelDetails.lastUpdated d)
    /\ trimmed (ModelDetails.lastUpdated d)
    /\ trimmed (ModelDetails.description d).
Proof.
  intros H. apply getModelDetails_returns in H. destruct H as (status & doc & Hf & D).
  exists status, doc. split; [exact Hf |].
  pose proof (details_of_fields w modelName doc) as (Fd & _ & Fu & _). rewrite D in Fd, Fu.
  cbn [fst] in Fd, Fu. rewrite Fd, Fu.
  split; [apply lastUpdated_of_read |].
  split; [apply lastUpdated_of_trimmed | apply trim_trimmed].
Qed.

Lemma texts_of_details_witness :
  exists status doc,
    fetch (serve details_page) (details_url (js "llava") None)
      = Response true status doc
    /\ details_updated_read doc
         (ModelDetails.lastUpdated
            (fst (details_of (serve details_page) (js "llava") details_page)))
    /\ trimmed (ModelDetails.lastUpdated
                  (fst (details_of (serve details_page) (js "llava") details_page)))
    /\ trimmed (ModelDetails.description
                  (fst (details_of (serve details_page) (js "llava") details_page))).
Proof.
  apply (@texts_of_details (serve details_page) (js "llava") None _
           (snd (details_of (serve details_page) (js "llava") details_page))).
  apply serve_details.
Defined.

(** X17: the readme of the details: without an element [#display] there is
    no [readmeHtml]; without [readmeHtml] there is no [readmeMarkdown] and no
    warning; [readmeHtml] is not empty and is trimmed; [readmeMarkdown] is
    not empty and is the trimmed result of the converter on [readmeHtml]; a
    warning is printed only when the converter throws. *)
Theorem readme_of_details (w : collaborators) (modelName : jsstring)
    (tag : option jsstring) (d : ModelDetails.t) (log : list jsstring) :
  getModelDetails w modelName tag = (Return d, log) ->
  exists status doc,
    fetch w (details_url modelName tag) = Response true status doc
    /\ readme_read w doc (ModelDetails.readmeHtml d) (ModelDetails.readmeMarkdown d) log.
Proof.
  intros H. apply getModelDetails_returns in H. destruct H as (status & doc & Hf & D).
  exists status, doc. split; [exact Hf |].
  pose proof (details_of_fields w modelName doc) as (_ & _ & _ & Fh & Fm & Fl).
  rewrite D in Fh, Fm, Fl. cbn [fst snd] in Fh, Fm, Fl. rewrite Fh, Fm, Fl.
  apply readme_of_read.
Qed.

Lemma readme_of_details_witness :
  exists status doc,
    fetch (serve readme_page) (details_url (js "test-model") None)
      = Response true status doc
    /\ readme_read (serve readme_page) doc
         (ModelDetails.readmeHtml
            (fst (details_of (serve readme_page) (js "test-model") readme_page)))
         (ModelDetails.readmeMarkdown
            (fst (details_of (serve readme_page) (js "test-model") readme_page)))
         (snd (details_of (serve readme_page) (js "test-model") readme_page)).
Proof.
  apply (@readme_of_details (serve readme_page) (js "test-model") None).
  apply serve_details.
Defined.

(** ** The image rule *)

(** X18: the replacement of the image rule, as a function of the values the
    node gives for [alt], [src] and [title] ([src] is the property of the
    node as the converter's document gives it, not the text of the
    attribute).  A [src] that starts with a slash, one that starts with two
    included, is put after [https://ollama.com]; any other is the target as
    it is; so no target starts with a slash, and rewriting a target again
    changes nothing.  The replacement is [![alt](target)], with a space and
    the title between double quotes before the closing parenthesis exactly
    when the title is not empty. *)
Theorem image_rule (img : Image.t) :
  let alt := or_default [] (Image.alt img) in
  let src := or_default [] (Image.src img) in
  let title := or_default [] (Image.title img) in
  (forall rest, src = 47%N :: rest ->
     image_target img = js "https://ollama.com/" ++ rest)
  /\ ((forall rest, src <> 47%N :: rest) -> image_target img = src)
  /\ startsWith (js "/") (image_target img) = false
  /\ fullSrc (image_target img) = image_target img
  /\ (title = [] ->
      image_replacement img = js "![" ++ alt ++ js "](" ++ image_target img ++ js ")")
  /\ (title <> [] ->
      image_replacement img =
      js "![" ++ alt ++ js "](" ++ image_target img
      ++ [32%N; 34%N] ++ title ++ [34%N; 41%N]).
Proof.
  unfold image_target, image_replacement, fullSrc. cbv zeta.
  set (src := or_default [] (Image.src img)).
  assert (S : startsWith (js "/") (if startsWith (js "/") src
                                    then js "https://ollama.com" ++ src else src) = false).
  { destruct (startsWith (js "/") src) eqn:E; [reflexivity | exact E]. }
  split; [intros rest ->; reflexivity |].
  split.
  { intros H. destruct src as [| c rest]; [reflexivity |].
    assert (E : startsWith (js "/") (c :: rest) = N.eqb 47 c)
      by (change (js "/") with [47%N]; cbn [startsWith]; apply andb_true_r).
    rewrite E. destruct (N.eqb 47 c) eqn:C; [| reflexivity].
    apply N.eqb_eq in C. subst c. exfalso. exact (H rest eq_refl). }
  split; [exact S |]. split; [rewrite S; reflexivity |].
  destruct (or_default [] (Image.title img)) as [| c t].
  - split; [reflexivity | contradiction].
  - split; [discriminate | reflexivity].
Qed.

Lemma image_rule_witness :
  image_replacement
    {| Image.alt := Some (js "Logo");
       Image.src := Some (js "/assets/logo.png");
       Image.title := Some (js "The logo") |}
  = js "![Logo](https://ollama.com/assets/logo.png " ++ [34%N] ++ js "The logo"
    ++ [34%N] ++ js ")"
  /\ image_replacement
       {| Image.alt := None;
          Image.src := Some (js "https://example.com/a.png");
          Image.title := None |}
     = js "![](https://example.com/a.png)".
Proof.
  split.
  - pose proof (image_rule {| Image.alt := Some (js "Logo");
                              Image.src := Some (js "/assets/logo.png");
                              Image.title := Some (js "The logo") |}) as H.
    cbv zeta in H. destruct H as (_ & _ & _ & _ & _ & H).
    rewrite H by discriminate. reflexivity.
  - pose proof (image_rule {| Image.alt := None;
                              Image.src := Some (js "https://example.com/a.png");
                              Image.title := None |}) as H.
    cbv zeta in H. destruct H as (_ & _ & _ & _ & H & _).
    rewrite H by reflexivity. reflexivity.
Defined.
